(* ===== verification/_CoqProject ===== *)
-Q . S2P
Prelude.v
Endian.v
CMem.v
PolarAes.v
Fips197.v
PolarAesSpec.v
Os.v
Stream.v
CString.v
AbsFile.v
FileIso.v
FileView.v
FileCrypt.v
FileOpen.v
VIso.v
VIsoView.v
VIsoNames.v
VIsoTree.v
VIsoDirs.v
VIsoRecords.v
VIsoImage.v
VIso2Tree.v
VIso2.v
VIsoBuild.v
VIsoScan.v
VIsoContents.v
VIsoTells.v
VIsoTables.v
VIsoWrite.v
VIsoSpec.v
VIsoServe.v
Client.v
RoFile.v
Scenario.v
VIsoProps.v
FileProps.v
CryptProps.v
AesImage.v
Padlock.v
PadlockSpec.v
ReadCmds.v
Faults.v
ReadSpec.v
Paths.v
PathsSpec.v
OpenCmd.v
OpenSpec.v
FileCmds.v
DirCmds.v
Frame.v
Ownership.v
OwnFile.v
VIsoFrame.v
VIsoSession.v
VIso2Spec.v
OwnViso.v
DirSpec.v
Dispatch.v
DispatchSpec.v
Isolation.v
ClientOk.v
Connect.v
Sessions.v
Upload.v
CreateIso.v
CreateIsoSpec.v
Slots.v
SlotsSpec.v
Blocking.v
Startup.v
StartupSpec.v
Listen.v
Windows.v
WinLaws.v
WindowsSpec.v
WinServer.v
