(* ===== verification/Prelude.v ===== *)
(** * ps3netsrv: a verification library

    ps3netsrv serves the files of a shared directory to PlayStation 3 consoles.
    A console connects over TCP and sends commands of sixteen bytes (some are
    followed by a path or by data); a thread per connection receives them, calls
    the handler of the opcode and sends the answer.  The files served are plain
    files, images split into parts, encrypted disc images that are decrypted on
    the fly, and virtual images made of a directory.

    ** The parts of the program and where they are modelled

    - [Endian.v]: include/common.h, the byte swaps of a little-endian host.
    - [CMem.v]: src/mem.c, the word-wise [_memset] and [_memcpy].
    - [PolarAes.v]: src/aes.c, the AES that is bundled with the program: its tables,
      key schedules, blocks and CBC.  [Fips197.v] is the standard, written from its
      text, with the inverse cipher proved to invert the cipher; [PolarAesSpec.v]
      proves that the code computes it; [AesImage.v] makes it the cipher of the
      class [File] and states the properties.
    - [Padlock.v]: src/padlock.c, the AES instructions of VIA processors, and the hooks
      of src/aes.c that use them.  The instructions are the interface [Padlock];
      [PadlockSpec.v] has what is documented of them, in terms of FIPS 197
      ([PadlockLaws]), a processor that has them, and the property.
    - [CString.v]: the string functions of libc that the server uses.
    - [Os.v]: src/compat.c (POSIX half) over the interface [Posix] of the system
      calls.  [PosixLaws] is what POSIX documents about them, in terms of the
      observations [PosixView]; nothing is assumed of calls that fail, and a
      descriptor with a pending fault has no view.  The files of the view are those that
      can be opened: no permission is missing and descriptors do not run out.  [Sim] is a
      concrete system that satisfies all laws, used by the witnesses.
    - [Stream.v]: what a connection delivers, what a descriptor opened for
      writing appends to, which directory streams are open and what they have left, the
      time of a file's last modification, and whether memory is left ([memory]), as views
      of the system with their laws.
    - [AbsFile.v]: include/AbstractFile.h, the interface between the handlers and
      the classes of files.  [AbstractFileLaws] is what a class promises them.
    - [FileIso.v]: src/File.cpp, the class [File].  [FileView.v] defines the
      contents and the read position that a [File] stands for and proves the laws
      for it; [FileCrypt.v] is about keys, regions and decryption, [FileOpen.v]
      about [open].  [FileProps.v] and [CryptProps.v] state the properties.
    - the class [VIsoFile] of src/VIsoFile.cpp, which makes an ISO 9660 image of a
      directory.  [VIso.v]: its data and the methods that serve an image ([read],
      [seek], [fstat], [close]); [VIsoView.v] the bytes an image stands for, and
      that reading refines them.  [VIsoNames.v]: names in upper case and in UCS-2,
      paths, times, parts, PARAM.SFO.  [VIsoTree.v]: the scan of the directories
      and files (first half of [build]).  [VIsoDirs.v]: directory records, path
      tables, the shift of their addresses (second half of [build]).
      [VIsoImage.v]: [write], [generate], [open], and the instance of the file
      interface.  The walk of [read] takes the reader of one file as an argument:
      [VIso2.v] is src/VIsoFile2.cpp, the class that keeps the last file open
      between reads, and [VIso2Tree.v] its scan, which has one error flag for the
      whole of [build]; [VIso2Spec.v] relates the two classes, and proves the
      interface laws for the second.  The proofs follow the same steps: [VIsoRecords.v] records one
      after the other, [VIsoScan.v] what the scan lists, [VIsoContents.v] and
      [VIsoTells.v] what the records of a directory tell, [VIsoTables.v] the path
      tables, [VIsoWrite.v] where [write] puts everything, [VIsoBuild.v] that the
      address of every file is kept, [VIsoSpec.v] that an image that was opened is
      whole, [VIsoServe.v] that the tree is found again in its bytes.
      [VIsoProps.v] states the properties, [VIsoFrame.v] that it leaves files and
      connections alone, [VIsoSession.v] a session of two commands over an image.
    - [Client.v]: [client_t], its initialisation and finalisation, and the wire
      format of include/netiso.h.  [RoFile.v]: [ro_file], a [File] or a virtual
      image, with the call dispatch of C++.
    - [Scenario.v]: a small system with files, for the witnesses.
    - [ReadCmds.v]: process_read_file_critical, process_read_cd_2048_critical_cmd
      and process_read_file_cmd of src/main.cpp; [ReadSpec.v] their properties.
      [Faults.v]: files on a medium that fails, for the property that claims least of them.
    - [Paths.v]: normalize_path and translate_path; [PathsSpec.v] their properties.
    - [OpenCmd.v], [OpenSpec.v]: process_open_cmd, and a session of two commands.
    - [FileCmds.v]: create, write, delete, mkdir, rmdir, stat, get_dir_size.
    - [DirCmds.v]: open_dir, read_dir_entry (two versions), read_dir; [DirSpec.v]
      their properties and that of get_dir_size.
    - [Frame.v]: what each command leaves unchanged, files and sent bytes.  A relation
      between states is a chain of [Plain] calls, or a [Peek]: a file that is opened,
      looked at and closed.
    - [Ownership.v]: the descriptors that a connection owns, and the rules by which a
      command [spares] those of the others.  [OwnFile.v] and [OwnViso.v] make the
      classes of files instances of its interface [Owner]; [Isolation.v] is that of
      every handler of the READ_ONLY build; [Sessions.v] interleaves connections.
    - [Dispatch.v]: client_thread, and its loop round by round ([turn]); [DispatchSpec.v]
      what a whole session changes.
    - [ClientOk.v]: what holds of [client_t] between two commands.
    - [Connect.v], [Upload.v]: whole connections, from the bytes that a client sends
      to the bytes it gets and the files that are left.
    - [CreateIso.v]: create_iso, and main() around it; [CreateIsoSpec.v] the file
      that it writes.
    - [Slots.v]: the accept loop of main() and the client threads, which share
      [clients[]] under a mutex; [SlotsSpec.v] the invariant and its consequences.
      [Blocking.v] refines the steps: who has the mutex, which call on a socket a thread
      is blocked in, and what ends it; every state it reaches is one of Slots.v.
    - [Startup.v], [StartupSpec.v]: main() from its arguments to the listening socket.  [Listen.v]:
      initialize_socket.
    - [Windows.v]: the port to Windows: the other half of src/compat.c (its functions
      have the names of the POSIX half and are in a Module of their own),
      src/scandir.c, src/dirent.c, and the loop that stands for MSG_WAITALL.  The
      calls of that system are the interface [Win32]; [WinLaws.v] is what is
      documented of them, with a concrete system [WinSim]; [WindowsSpec.v] states the
      properties.  [WinServer.v]: the configuration file, names in an 8-bit character
      set, random bytes and threads.

    ** Conventions

    Integers are [Z] with the wrap-around of their type written out ([u16],
    [u32], [s64], ...); bytes are integers from 0 to 255.  Memory is a function
    from addresses relative to a buffer to bytes ([mem]), so that a store out of
    bounds is visible; what a buffer holds before it is written is a variable.
    A C string is the list of its bytes before the NUL.  Every system call takes
    and returns the state [W] of the system; a handler returns the result of the
    C function, the client and the system.  [None] is undefined behaviour (a
    buffer is overrun), or a fuel that was too small; the theorems about
    functions with fuel say that they return [Some].  The fuel of the read loop
    is computed from the request and is enough for every request; the fuel of
    the directory scans bounds the entries that are read, and that of the
    command loop the commands.  In [Sessions.v] a turn of a thread is one command:
    what the threads share is the table of descriptors, whose calls are atomic, and
    files that no command of that build writes.  In the virtual image [dirs_max] bounds the
    directories of a tree, the search for a record gets one step per byte of the
    directory, and the parts of a file are at most the 99 that two digits name.  The
    fuel of scandir bounds the entries of the directory.

    ** What the theorems show

    - The read commands (ReadSpec.v): over any file that keeps the interface laws
      the answers are exactly the bytes asked for, padded with zeros past the end
      of the file; whatever fails, the reads of a bad medium included, what was sent is a
      prefix of the right answer and no byte outside the buffer is written; the two ways of
      reading CD sectors agree.
    - Files (FileProps.v, CryptProps.v): reads, seeks and sizes of plain and
      multi-part images refine one byte string; an encrypted image is decrypted
      sector by sector with the number of the sector; the regions of the table
      partition the image; keys in hexadecimal are read back.
    - The cipher (AesImage.v): aes.c is the cipher of FIPS 197 for the three key
      sizes; what CBC encrypts it decrypts; an image that was encrypted sector by
      sector with AES is read as the plain image; with the instructions of the
      processor it is the same cipher, wherever contexts and buffers are in memory
      (PadlockSpec.v).
    - Paths (PathsSpec.v): a translated path is below the root, or a line of an INI file
      that is there leads to it; which paths are refused, and that the translation ends
      within its buffers; with three ways around the check for parent directories.
    - Virtual images (VIsoProps.v, VIsoSession.v): every file of the directory is
      found in the image that [open] makes of it, by following the records from
      the descriptor as a reader does, in both volumes, and its extents hold
      the bytes of the file; reads deliver the image's bytes exactly, over all its
      pieces; the structures stay in their buffer; names survive the conversion
      to UCS-2; a session serves all this over the connection.
    - The two variants (VIso2Spec.v): the class that keeps a file open answers
      every sequence of calls as the other class does, and leaves the descriptors of
      other files alone.
    - Directories (DirSpec.v): sizes of trees and the listing, which fail only without
      memory or streams, and leave no directory open.
    - Sessions, as long as their commands are defined (DispatchSpec.v): a server built
      READ_ONLY changes no file; (ClientOk.v): no command breaks [client_t], or writes
      what the accept loop reads.
    - Connections (Connect.v, Upload.v): a client that opens a file and reads gets
      the bytes of the file, request by request; a client that creates a file and
      writes leaves the bytes that were acknowledged, all of them while the disk
      has room; creating part 0 of a file in parts empties its other parts.
    - Several connections (Sessions.v): in every interleaving of a READ_ONLY server no
      descriptor has two owners, and a client that reads a file is served as if it
      were alone, whatever the others send.
    - The image writer (CreateIsoSpec.v): the file written is the image.
    - Slots (SlotsSpec.v): in every interleaving each open connection has exactly
      one holder who closes it, and a slot is initialised only when its thread is
      done; (Blocking.v): waiting for that thread ends, although it may be blocked in recv.
    - Start-up (StartupSpec.v): what main() serves is a directory that fits its buffer,
      in normal form, a port and a range of addresses that are in range; which
      addresses a whitelist admits.
    - Windows (WindowsSpec.v): a file that is opened answers every list of seeks, reads and
      questions for its size as with POSIX, and
      its flags create and empty what they do there; scandir lists a directory as the
      virtual images assume, up to the first error of a search, and leaves no search open
      while there is memory; both versions of the
      conversion of times round down; the receiving loop ends, with everything or with
      the result of the call that failed.

    Where the code does not do what it means to, the theorem states what it does
    (the masking of 3k3y images, failed reads of multi-part images, the position
    after [open], the ways out of the shared directory, whitelists with inner
    wildcards, [/] as shared directory, directories with files in parts).

    ** What is not modelled

    The parts of aes.c that config.h leaves out and its self-test, the wrappers of
    locks and of pthreads (each is one call of the system; Blocking.v has them as
    steps), the parts of VIsoFile2.cpp whose text is that of VIsoFile.cpp (the
    records, the path tables, [write] and the walk of [read]: VIso.v to VIsoImage.v
    are both), and messages printed to the console.  On POSIX scandir, and everywhere
    time, localtime and /dev/urandom, are the interface [VisoSys]; the instructions of
    padlock.c are the interface [Padlock].  The build option NO_UPDATE, which every
    Makefile leaves off, is taken as off.  Commands of different connections that run
    at the same time are interleaved as wholes. *)

From Stdlib Require Export ZArith Lia.
From stdpp Require Export prelude list gmap.
From stdpp Require Export strings.
#[global] Open Scope Z_scope.

(** ** Bytes, C integers *)

(** Bytes are integers in [0, 256); a byte string is a list of them. *)
Abbreviation bytes := (list Z).

Definition is_byte (b : Z) : Prop := 0 <= b < 256.

(** Length as an unbounded integer (the code's [size_t]/[ssize_t] values). *)
Definition blen {A} (l : list A) : Z := Z.of_nat (length l).

(** Conversions of the C integer types at their width. *)
Definition u8 (z : Z) : Z := z mod 2 ^ 8.
Definition u16 (z : Z) : Z := z mod 2 ^ 16.
Definition u32 (z : Z) : Z := z mod 2 ^ 32.
Definition u64 (z : Z) : Z := z mod 2 ^ 64.
Definition s8 (z : Z) : Z := (z + 2 ^ 7) mod 2 ^ 8 - 2 ^ 7.
Definition s32 (z : Z) : Z := (z + 2 ^ 31) mod 2 ^ 32 - 2 ^ 31.
Definition s64 (z : Z) : Z := (z + 2 ^ 63) mod 2 ^ 64 - 2 ^ 63.

(** A C string literal as its bytes (without the terminating NUL). *)
Fixpoint str (s : string) : bytes :=
  match s with
  | EmptyString => []
  | String c s => Z.of_N (Ascii.N_of_ascii c) :: str s
  end.

(** ** Slices of byte strings *)

Definition slice {A} (off n : Z) (l : list A) : list A :=
  take (Z.to_nat n) (drop (Z.to_nat off) l).

(** ** Flat memory

    A buffer the code writes through a pointer is a total map from offsets
    (relative to that pointer, negative ones included) to bytes: stores
    outside the buffer's bounds are visible as changes at those offsets, and
    indeterminate contents are the values of an arbitrary map. *)

Definition mem := Z -> Z.

Definition mstore (m : mem) (o : Z) (d : bytes) : mem := fun i =>
  if (o <=? i) && (i <? o + blen d) then nth (Z.to_nat (i - o)) d 0 else m i.

Definition mfill (m : mem) (o n v : Z) : mem := fun i =>
  if (o <=? i) && (i <? o + n) then v else m i.

Definition mload (m : mem) (o n : Z) : bytes :=
  (fun k => m (o + Z.of_nat k)) <$> seq 0 (Z.to_nat n).

(** A pointer into a buffer: the same memory seen from offset [o]. *)
Definition mshift (m : mem) (o : Z) : mem := fun i => m (o + i).

(** [base] with the view [m'] of its bytes from offset [o] on written back. *)
Definition munshift (m' : mem) (o : Z) : mem := fun i => m' (i - o).

(** The byte string [c] extended with zeros on the right. *)
Definition zext (c : bytes) : mem := fun i =>
  if (0 <=? i) && (i <? blen c) then nth (Z.to_nat i) c 0 else 0.

(** Memories that agree on every offset are interchangeable. *)
Definition mem_eq : relation mem := pointwise_relation Z eq.
Infix "≡ₘ" := mem_eq (at level 70).

(** Agreement outside the range [[o, o + n)]. *)
Definition same_outside (o n : Z) (m m' : mem) : Prop :=
  forall i, i < o \/ o + n <= i -> m' i = m i.

(** ** Undefined behaviour

    [None] is a run the C++ standard gives no meaning to (an out-of-bounds
    string operation, a null pointer used as an address) or a loop that has
    exhausted its fuel; the totality theorems show where it cannot arise. *)
Notation "'let?' x ':=' e 'in' k" := (match e with Some x => k | None => None end)
  (at level 10, x pattern, e at level 100, k at level 200, only parsing).

(** ** Automation *)

Create HintDb netsrv.
Create Rewrite HintDb blen.
Create Rewrite HintDb wire.

(** Split every boolean comparison of the goal into its two cases. *)
Ltac case_bool :=
  repeat match goal with
  | |- context [?a <=? ?b] => destruct (Z.leb_spec a b)
  | |- context [?a <? ?b] => destruct (Z.ltb_spec a b)
  | |- context [?a =? ?b] => destruct (Z.eqb_spec a b)
  end; cbn [andb orb negb].

(** The same in a hypothesis. *)
Ltac case_bool_in H :=
  repeat match type of H with
  | context [?a <=? ?b] => destruct (Z.leb_spec a b)
  | context [?a <? ?b] => destruct (Z.ltb_spec a b)
  | context [?a =? ?b] => destruct (Z.eqb_spec a b)
  end; cbn [andb orb negb] in H.

Ltac zdecide := case_bool; try lia.

(** Name the components of the tuple a call returns. *)
Tactic Notation "call" constr(e) "as" simple_intropattern(p) "eqn" ident(H) :=
  destruct e as p eqn:H.

(** ** Integers in range are their own conversions *)

Lemma u8_small z : 0 <= z < 2 ^ 8 -> u8 z = z.
Proof. apply Z.mod_small. Qed.
Lemma u16_small z : 0 <= z < 2 ^ 16 -> u16 z = z.
Proof. apply Z.mod_small. Qed.
Lemma u32_small z : 0 <= z < 2 ^ 32 -> u32 z = z.
Proof. apply Z.mod_small. Qed.
Lemma u64_small z : 0 <= z < 2 ^ 64 -> u64 z = z.
Proof. apply Z.mod_small. Qed.
Lemma s8_small z : - 2 ^ 7 <= z < 2 ^ 7 -> s8 z = z.
Proof. intros. unfold s8. rewrite Z.mod_small; lia. Qed.
Lemma s32_small z : - 2 ^ 31 <= z < 2 ^ 31 -> s32 z = z.
Proof. intros. unfold s32. rewrite Z.mod_small; lia. Qed.
Lemma s64_small z : - 2 ^ 63 <= z < 2 ^ 63 -> s64 z = z.
Proof. intros. unfold s64. rewrite Z.mod_small; lia. Qed.

Lemma s64_range z : - 2 ^ 63 <= s64 z < 2 ^ 63.
Proof. unfold s64. pose proof (Z.mod_pos_bound (z + 2 ^ 63) (2 ^ 64) eq_refl). lia. Qed.

(** What lies below a shifted value is added to it. *)
Lemma lor_below k hi lo : 0 <= k -> 0 <= lo < 2 ^ k -> Z.lor (Z.shiftl hi k) lo = hi * 2 ^ k + lo.
Proof.
  intros Hk Hlo. assert (Z.land (Z.shiftl hi k) lo = 0) as E.
  { apply Z.bits_inj'; intros i Hi. rewrite Z.land_spec, Z.bits_0. destruct (Z.ltb_spec i k).
    - by rewrite Z.shiftl_spec_low by lia.
    - rewrite <- (Z.mod_small lo (2 ^ k)), Z.mod_pow2_bits_high by lia. apply andb_false_r. }
  by rewrite <- Z.lxor_lor, <- Z.add_nocarry_lxor, Z.shiftl_mul_pow2.
Qed.

(** ** Lengths *)

Section blen.
Context {A : Type}.
Implicit Types l : list A.

Lemma blen_nonneg l : 0 <= blen l.
Proof. unfold blen; lia. Qed.
Lemma blen_nil : blen (@nil A) = 0.
Proof. done. Qed.
Lemma blen_cons x l : blen (x :: l) = 1 + blen l.
Proof. unfold blen; cbn [length]; lia. Qed.
Lemma blen_app l1 l2 : blen (l1 ++ l2) = blen l1 + blen l2.
Proof. unfold blen; rewrite length_app; lia. Qed.
Lemma blen_replicate n (x : A) : blen (replicate n x) = Z.of_nat n.
Proof. unfold blen; by rewrite length_replicate. Qed.
Lemma blen_rev l : blen (reverse l) = blen l.
Proof. unfold blen; by rewrite length_reverse. Qed.
Lemma blen_slice off n l :
  0 <= off -> 0 <= n -> blen (slice off n l) = Z.min n (Z.max 0 (blen l - off)).
Proof. intros; unfold blen, slice; rewrite length_take, length_drop; lia. Qed.
Lemma blen_slice_le off n l : 0 <= n -> blen (slice off n l) <= n.
Proof. intros; unfold blen, slice; rewrite length_take; lia. Qed.
Lemma blen_0_nil l : blen l <= 0 -> l = [].
Proof. destruct l; unfold blen; cbn [length]; [done|lia]. Qed.
Lemma blen_fmap {B} (f : A -> B) l : blen (f <$> l) = blen l.
Proof. unfold blen; by rewrite length_fmap. Qed.
End blen.

#[export] Hint Rewrite @blen_nil @blen_cons @blen_app @blen_replicate @blen_rev @blen_fmap : blen.
#[export] Hint Resolve blen_nonneg : netsrv.

(** Normalise lengths, add their non-negativity and close by arithmetic. *)
Ltac blia :=
  autorewrite with blen in *;
  repeat match goal with
  | |- context [blen ?l] =>
      lazymatch goal with H : 0 <= blen l |- _ => fail | _ => idtac end;
      pose proof (blen_nonneg l)
  | _ : context [blen ?l] |- _ =>
      lazymatch goal with H : 0 <= blen l |- _ => fail | _ => idtac end;
      pose proof (blen_nonneg l)
  end; lia.

(** ** Slices *)

Section slice.
Context {A : Type}.
Implicit Types l : list A.

Lemma slice_0 off l : slice off 0 l = [].
Proof. unfold slice; by rewrite take_0. Qed.

Lemma slice_nil off n : slice off n (@nil A) = [].
Proof. unfold slice; by rewrite drop_nil, take_nil. Qed.

Lemma slice_all l : slice 0 (blen l) l = l.
Proof. unfold slice, blen. rewrite drop_0, Nat2Z.id. by apply take_ge. Qed.

Lemma slice_ge off n l : blen l <= off -> slice off n l = [].
Proof. unfold slice, blen; intros; rewrite drop_ge by lia; by rewrite take_nil. Qed.

Lemma slice_split off a b l :
  0 <= off -> 0 <= a -> 0 <= b ->
  slice off (a + b) l = slice off a l ++ slice (off + a) b l.
Proof.
  intros; unfold slice.
  rewrite !Z2Nat.inj_add by lia.
  rewrite <- drop_drop. symmetry. apply take_take_drop.
Qed.

Lemma slice_lookup off n l (k : nat) :
  0 <= off -> Z.of_nat k < n -> slice off n l !! k = l !! (Z.to_nat off + k)%nat.
Proof. intros; unfold slice; rewrite lookup_take_lt by lia; by rewrite lookup_drop. Qed.

Lemma slice_slice a b c d l :
  0 <= a -> 0 <= b -> 0 <= c -> a + b <= d ->
  slice a b (slice c d l) = slice (c + a) b l.
Proof.
  intros; unfold slice. apply list_eq; intros k.
  destruct (decide (k < Z.to_nat b)%nat).
  - rewrite !lookup_take_lt, lookup_drop, lookup_take_lt, !lookup_drop by lia.
    f_equal; lia.
  - by rewrite !lookup_take_ge by lia.
Qed.

Lemma slice_app_l off n l1 l2 :
  0 <= off -> 0 <= n -> off + n <= blen l1 -> slice off n (l1 ++ l2) = slice off n l1.
Proof.
  unfold slice, blen; intros.
  rewrite drop_app_le by lia. rewrite take_app_le; [done|rewrite length_drop; lia].
Qed.

Lemma slice_app_r off n l1 l2 :
  blen l1 <= off -> slice off n (l1 ++ l2) = slice (off - blen l1) n l2.
Proof.
  unfold slice, blen; intros. rewrite drop_app_ge by lia. do 2 f_equal; lia.
Qed.

Lemma slice_mid off n l1 l2 l3 :
  off = blen l1 -> n = blen l2 -> slice off n (l1 ++ l2 ++ l3) = l2.
Proof.
  intros -> ->. rewrite slice_app_r, Z.sub_diag by lia. pose proof (blen_nonneg l2).
  by rewrite slice_app_l, slice_all by lia.
Qed.

Lemma slice_blen off n l : 0 <= off -> 0 <= n -> slice off (blen (slice off n l)) l = slice off n l.
Proof.
  intros. unfold slice at 1. pose proof (blen_slice off n l) as E.
  destruct (Z.leb_spec (blen l) off).
  - rewrite !slice_ge by done. done.
  - apply list_eq; intros k.
    destruct (decide (k < Z.to_nat (blen (slice off n l)))%nat).
    + rewrite lookup_take_lt, lookup_drop by done. by rewrite slice_lookup by lia.
    + rewrite lookup_take_ge by lia. symmetry. apply lookup_ge_None_2. unfold blen in *; lia.
Qed.

(** A slice of which all [r] bytes exist is a prefix of any longer one. *)
Lemma slice_prefix off r n l :
  0 <= off -> 0 <= r <= n -> blen (slice off r l) = r -> r <= blen (slice off n l).
Proof. intros ??. rewrite !blen_slice by lia. lia. Qed.

Lemma slice_shorter off r n l :
  0 <= off -> 0 <= r <= blen (slice off n l) -> 0 <= n ->
  slice off r l = slice 0 r (slice off n l).
Proof.
  intros ? Hr ?. pose proof (blen_slice_le off n l).
  rewrite slice_slice by lia. f_equal; lia.
Qed.
End slice.

#[export] Hint Resolve slice_nil slice_0 : netsrv.

(** ** Memory *)

Section mem.
Implicit Types (m : mem) (d c : bytes).

#[export] Instance mem_eq_equiv : Equivalence mem_eq.
Proof. unfold mem_eq; apply _. Qed.

#[export] Instance mstore_proper : Proper (mem_eq ==> eq ==> eq ==> mem_eq) mstore.
Proof. intros m m' E o o' <- d d' <- i. unfold mstore. by rewrite E. Qed.

#[export] Instance mfill_proper : Proper (mem_eq ==> eq ==> eq ==> eq ==> mem_eq) mfill.
Proof. intros m m' E o o' <- n n' <- v v' <- i. unfold mfill. by rewrite E. Qed.

Lemma mload_ext m m' o o' n :
  (forall k, 0 <= k < n -> m (o + k) = m' (o' + k)) -> mload m o n = mload m' o' n.
Proof.
  intros E; unfold mload. apply list_eq; intros k.
  rewrite !list_lookup_fmap. destruct (decide (k < Z.to_nat n)%nat).
  - rewrite !lookup_seq_lt by lia. cbn. f_equal. apply E; lia.
  - by rewrite !lookup_seq_ge by lia.
Qed.

#[export] Instance mload_proper : Proper (mem_eq ==> eq ==> eq ==> eq) mload.
Proof. intros m m' E o o' <- n n' <-. apply mload_ext; intros; apply E. Qed.

Lemma blen_mload m o n : 0 <= n -> blen (mload m o n) = n.
Proof. intros; unfold blen, mload; rewrite length_fmap, length_seq; lia. Qed.

Lemma mload_0 m o n : n <= 0 -> mload m o n = [].
Proof. intros; unfold mload. by replace (Z.to_nat n) with 0%nat by lia. Qed.

Lemma mload_lookup m o n (k : nat) :
  Z.of_nat k < n -> mload m o n !! k = Some (m (o + Z.of_nat k)).
Proof. intros; unfold mload. rewrite list_lookup_fmap, lookup_seq_lt by lia. done. Qed.

Lemma mload_inj m m' o o' n :
  mload m o n = mload m' o' n -> forall k, 0 <= k < n -> m (o + k) = m' (o' + k).
Proof.
  intros E k Hk. pose proof (f_equal (fun l => l !! Z.to_nat k) E) as E'. cbn beta in E'.
  rewrite !mload_lookup in E' by lia. rewrite Z2Nat.id in E' by lia. congruence.
Qed.

Lemma mload_split m o a b :
  0 <= a -> 0 <= b -> mload m o (a + b) = mload m o a ++ mload m (o + a) b.
Proof.
  intros; unfold mload. rewrite Z2Nat.inj_add, seq_app, fmap_app by lia. f_equal.
  rewrite <- (Nat.add_0_r (0 + Z.to_nat a)), <- fmap_add_seq, <- list_fmap_compose.
  apply list_fmap_ext; intros i x Hx. cbn. f_equal. lia.
Qed.

Lemma mstore_in m o d i : o <= i < o + blen d -> mstore m o d i = nth (Z.to_nat (i - o)) d 0.
Proof. intros; unfold mstore; zdecide. Qed.
Lemma mstore_out m o d i : i < o \/ o + blen d <= i -> mstore m o d i = m i.
Proof. intros; unfold mstore; zdecide. Qed.
Lemma mfill_in m o n v i : o <= i < o + n -> mfill m o n v i = v.
Proof. intros; unfold mfill; zdecide. Qed.
Lemma mfill_out m o n v i : i < o \/ o + n <= i -> mfill m o n v i = m i.
Proof. intros; unfold mfill; zdecide. Qed.

(** A load is determined pointwise. *)
Lemma mload_intro m o n d :
  blen d = n -> (forall k, 0 <= k < n -> m (o + k) = nth (Z.to_nat k) d 0) ->
  mload m o n = d.
Proof.
  intros Hn E. apply list_eq; intros k. unfold blen in Hn.
  destruct (decide (k < length d)%nat).
  - rewrite mload_lookup, E, Nat2Z.id by lia.
    destruct (nth_lookup_or_length d k 0); [done|lia].
  - rewrite !lookup_ge_None_2; [done|lia|]. unfold mload; rewrite length_fmap, length_seq; lia.
Qed.

Lemma mload_mstore m o d : mload (mstore m o d) o (blen d) = d.
Proof.
  apply mload_intro; [done|]. intros. rewrite mstore_in by lia. do 2 f_equal; lia.
Qed.

Lemma mload_mfill m o n v : mload (mfill m o n v) o n = replicate (Z.to_nat n) v.
Proof.
  destruct (Z.leb_spec n 0).
  { rewrite mload_0 by lia. by replace (Z.to_nat n) with 0%nat by lia. }
  apply mload_intro; [rewrite blen_replicate; lia|]. intros k Hk.
  rewrite mfill_in by lia. symmetry. apply nth_lookup_Some. rewrite lookup_replicate; lia.
Qed.

Lemma mload_same_outside o n m m' o' n' :
  same_outside o n m m' -> o' + n' <= o \/ o + n <= o' -> mload m' o' n' = mload m o' n'.
Proof. intros E H. apply mload_ext; intros; apply E; lia. Qed.

Lemma same_outside_refl o n m : same_outside o n m m.
Proof. done. Qed.
Lemma same_outside_trans o n m1 m2 m3 :
  same_outside o n m1 m2 -> same_outside o n m2 m3 -> same_outside o n m1 m3.
Proof. unfold same_outside; intros H1 H2 i Hi. by rewrite H2, H1. Qed.
Lemma same_outside_weaken o n o' n' m m' :
  same_outside o n m m' -> o' <= o -> o + n <= o' + n' -> same_outside o' n' m m'.
Proof. unfold same_outside; intros H ?? i Hi. apply H; lia. Qed.
Lemma same_outside_mstore o d m : same_outside o (blen d) m (mstore m o d).
Proof. intros i Hi; by apply mstore_out. Qed.
Lemma same_outside_mfill o n v m : same_outside o n m (mfill m o n v).
Proof. intros i Hi; by apply mfill_out. Qed.

Lemma zext_in c i : 0 <= i < blen c -> zext c i = nth (Z.to_nat i) c 0.
Proof. intros; unfold zext; zdecide. Qed.
Lemma zext_out c i : i < 0 \/ blen c <= i -> zext c i = 0.
Proof. intros; unfold zext; zdecide. Qed.

(** Inside the string the zero-extended view is the string itself ... *)
Lemma mload_zext_in c off n :
  0 <= off -> 0 <= n -> off + n <= blen c -> mload (zext c) off n = slice off n c.
Proof.
  intros. apply mload_intro; [rewrite blen_slice; lia|]. intros k Hk.
  rewrite zext_in by lia. symmetry. rewrite !nth_lookup, slice_lookup by lia.
  f_equal. f_equal. lia.
Qed.

(** ... and past its end it is zeros: together, a slice padded to [n] bytes. *)
Lemma mload_zext c off n :
  0 <= off -> 0 <= n ->
  mload (zext c) off n =
    slice off n c ++ replicate (Z.to_nat (n - blen (slice off n c))) 0.
Proof.
  intros. pose proof (blen_slice off n c ltac:(lia) ltac:(lia)) as Hs.
  apply mload_intro; [rewrite blen_app, blen_replicate; lia|]. intros k Hk.
  unfold blen in Hs. rewrite nth_lookup. destruct (Z.ltb_spec k (blen (slice off n c))).
  - rewrite lookup_app_l by (unfold blen in *; lia).
    rewrite slice_lookup, zext_in by (unfold blen in *; lia).
    rewrite <- nth_lookup. f_equal; lia.
  - rewrite lookup_app_r, zext_out by (unfold blen in *; lia).
    by rewrite lookup_replicate_2 by (unfold blen in *; lia).
Qed.
End mem.

#[export] Hint Resolve same_outside_refl same_outside_mstore same_outside_mfill : netsrv.
