(* ===== verification/Endian.v ===== *)
(** * Byte order: include/common.h

    The swaps the code applies to every integer it takes from or puts on the
    wire (and into the ISO-9660 structures), as they are written for a
    little-endian host (the [#else] branch), the host's own memory encoding of
    an integer, and the theorems that the swap of a value, stored by a
    little-endian host, is the big-endian encoding of the value. *)

From coqutil Require Import Z.bitblast.
From S2P Require Import Prelude.

(** ** The swaps of common.h *)

Definition BE16 (x : Z) : Z :=
  Z.lor (Z.land (Z.shiftl x 8) 0xff00) (Z.land (Z.shiftr x 8) 0xff).

Definition BE32 (x : Z) : Z :=
  Z.lor (Z.lor (Z.lor (Z.shiftl (Z.land x 0xff) 24)
                      (Z.shiftl (Z.land x 0xff00) 8))
               (Z.shiftr (Z.land x 0xff0000) 8))
        (Z.land (Z.shiftr x 24) 0xff).

Definition BE64 (x : Z) : Z :=
  Z.lor (Z.lor (Z.lor (Z.lor (Z.lor (Z.lor (Z.lor
    (Z.land (Z.shiftl x 56) 0xff00000000000000)
    (Z.land (Z.shiftl x 40) 0x00ff000000000000))
    (Z.land (Z.shiftl x 24) 0x0000ff0000000000))
    (Z.land (Z.shiftl x 8)  0x000000ff00000000))
    (Z.land (Z.shiftr x 8)  0x00000000ff000000))
    (Z.land (Z.shiftr x 24) 0x0000000000ff0000))
    (Z.land (Z.shiftr x 40) 0x000000000000ff00))
    (Z.land (Z.shiftr x 56) 0x00000000000000ff).

Definition LE16 (x : Z) : Z := x.
Definition LE32 (x : Z) : Z := x.
Definition LE64 (x : Z) : Z := x.

(** ** The host's encoding *)

(** The [n] bytes a little-endian host stores for the integer [x]. *)
Fixpoint le_bytes (n : nat) (x : Z) : bytes :=
  match n with
  | O => []
  | S n => Z.land x 255 :: le_bytes n (Z.shiftr x 8)
  end.

(** The integer such a host loads from bytes in memory. *)
Fixpoint le_val (l : bytes) : Z :=
  match l with
  | [] => 0
  | b :: l => Z.lor b (Z.shiftl (le_val l) 8)
  end.

(** Big-endian (network) order is the reverse order. *)
Definition be_bytes (n : nat) (x : Z) : bytes := reverse (le_bytes n x).
Definition be_val (l : bytes) : Z := le_val (reverse l).

(** ** Encoding and decoding are inverse *)

Lemma land_255 x : Z.land x 255 = x mod 256.
Proof. change 255 with (Z.ones 8). by rewrite Z.land_ones. Qed.

Lemma land_byte b : is_byte b -> Z.land b 255 = b.
Proof. unfold is_byte; intros. rewrite land_255. apply Z.mod_small; lia. Qed.

Lemma shiftr_byte b : is_byte b -> Z.shiftr b 8 = 0.
Proof. unfold is_byte; intros. rewrite Z.shiftr_div_pow2 by lia. apply Z.div_small; lia. Qed.

Lemma length_le_bytes n x : length (le_bytes n x) = n.
Proof. revert x; induction n; intros; cbn; auto. Qed.

Lemma le_bytes_is_byte n x : Forall is_byte (le_bytes n x).
Proof.
  revert x; induction n; intros x; cbn; constructor; auto.
  rewrite land_255. unfold is_byte. apply Z.mod_pos_bound. lia.
Qed.

Lemma le_val_le_bytes n x : le_val (le_bytes n x) = x mod 2 ^ (8 * Z.of_nat n).
Proof.
  revert x; induction n; intros x; cbn [le_bytes le_val].
  - by rewrite Z.mod_1_r.
  - rewrite IHn. rewrite <- !Z.land_ones by lia. change 255 with (Z.ones 8). Z.bitblast.
Qed.

Lemma le_bytes_le_val l : Forall is_byte l -> le_bytes (length l) (le_val l) = l.
Proof.
  induction 1 as [|b l Hb Hl IH]; cbn [length le_bytes le_val]; [done|]. f_equal.
  - rewrite Z.land_lor_distr_l, land_byte by done.
    replace (Z.land (Z.shiftl (le_val l) 8) 255) with 0
      by (rewrite land_255, Z.shiftl_mul_pow2 by lia; symmetry; apply Z.mod_mul; lia).
    apply Z.lor_0_r.
  - rewrite Z.shiftr_lor, shiftr_byte, Z.lor_0_l by done.
    rewrite Z.shiftr_shiftl_l, Z.shiftl_0_r by lia. done.
Qed.

(** A byte below a shifted value is added to it. *)
Lemma lor_byte b x : is_byte b -> Z.lor b (Z.shiftl x 8) = b + 256 * x.
Proof. intros Hb. rewrite Z.lor_comm, lor_below; [lia|lia|exact Hb]. Qed.

Lemma le_val_cons b l : is_byte b -> le_val (b :: l) = b + 256 * le_val l.
Proof. apply lor_byte. Qed.

#[export] Hint Rewrite length_le_bytes : blen.

Lemma length_be_bytes n x : length (be_bytes n x) = n.
Proof. unfold be_bytes. by rewrite length_reverse, length_le_bytes. Qed.

Lemma blen_be_bytes n x : blen (be_bytes n x) = Z.of_nat n.
Proof. unfold blen. by rewrite length_be_bytes. Qed.

Lemma be_val_be_bytes n x : be_val (be_bytes n x) = x mod 2 ^ (8 * Z.of_nat n).
Proof. unfold be_val, be_bytes. by rewrite reverse_involutive, le_val_le_bytes. Qed.

Lemma be_bytes_is_byte n x : Forall is_byte (be_bytes n x).
Proof. apply Forall_reverse, le_bytes_is_byte. Qed.

Lemma be_bytes_be_val l : Forall is_byte l -> be_bytes (length l) (be_val l) = l.
Proof.
  intros H. unfold be_bytes, be_val. rewrite <- length_reverse, le_bytes_le_val.
  - apply reverse_involutive.
  - by apply Forall_reverse.
Qed.

(** ** The swaps reverse the bytes of their width *)

(** Name the masks of common.h by their bit ranges. *)
Ltac byte_masks :=
  change 0xff with (Z.ones 8);
  change 0xff00 with (Z.shiftl (Z.ones 8) 8);
  change 0xff0000 with (Z.shiftl (Z.ones 8) 16);
  change 0xff000000 with (Z.shiftl (Z.ones 8) 24);
  change 0xff00000000 with (Z.shiftl (Z.ones 8) 32);
  change 0xff0000000000 with (Z.shiftl (Z.ones 8) 40);
  change 0xff000000000000 with (Z.shiftl (Z.ones 8) 48);
  change 0xff00000000000000 with (Z.shiftl (Z.ones 8) 56).

(** Evaluate the bits of bitwise expressions at an index whose position
    relative to every mask and shift [lia] can decide. *)
Ltac eval_bits :=
  repeat match goal with
  | |- context [Z.testbit (Z.lor ?a ?b) ?i] => rewrite (Z.lor_spec a b i)
  | |- context [Z.testbit (Z.land ?a ?b) ?i] => rewrite (Z.land_spec a b i)
  | |- context [Z.testbit (Z.shiftl ?a ?k) ?i] =>
      first [rewrite (Z.shiftl_spec_low a k i) by lia | rewrite (Z.shiftl_spec a k i) by lia]
  | |- context [Z.testbit (Z.shiftr ?a ?k) ?i] => rewrite (Z.shiftr_spec a k i) by lia
  | |- context [Z.testbit (Z.ones ?k) ?i] =>
      first [rewrite (Z.ones_spec_low k i) by lia | rewrite (Z.ones_spec_high k i) by lia]
  | |- context [Z.testbit 0 ?i] => rewrite (Z.testbit_0_l i)
  end;
  rewrite ?andb_true_r, ?andb_false_r, ?orb_false_r, ?orb_false_l, ?andb_false_l.

(** Two bitwise expressions over bytes agree when they agree on the bits of
    each byte. *)
Ltac bytewise k :=
  apply Z.bits_inj'; let n := fresh "n" in intros n ?;
  let rec go b :=
    lazymatch b with
    | k => eval_bits; first [done | f_equal; lia]
    | _ => let b' := eval cbv in (b + 8) in
           destruct (Z.ltb_spec n b'); [eval_bits; first [done | f_equal; lia] | go b']
    end in
  go 0.

Lemma BE16_swap x : BE16 x = le_val (reverse (le_bytes 2 x)).
Proof. unfold BE16. cbn [le_bytes reverse rev_append le_val]. byte_masks. bytewise 16. Qed.

Lemma BE32_swap x : BE32 x = le_val (reverse (le_bytes 4 x)).
Proof. unfold BE32. cbn [le_bytes reverse rev_append le_val]. byte_masks. bytewise 32. Qed.

Lemma BE64_swap x : BE64 x = le_val (reverse (le_bytes 8 x)).
Proof. unfold BE64. cbn [le_bytes reverse rev_append le_val]. byte_masks. bytewise 64. Qed.

(** ** Consequences on the wire, at any width *)

Lemma swap_store n x : le_bytes n (le_val (reverse (le_bytes n x))) = be_bytes n x.
Proof.
  pose proof (le_bytes_le_val (reverse (le_bytes n x))) as E.
  rewrite length_reverse, length_le_bytes in E. apply E, Forall_reverse, le_bytes_is_byte.
Qed.

Lemma swap_load n l :
  Forall is_byte l -> length l = n -> le_val (reverse (le_bytes n (le_val l))) = be_val l.
Proof. intros Hl <-. unfold be_val. by rewrite le_bytes_le_val. Qed.

Lemma BE16_store x : le_bytes 2 (BE16 x) = be_bytes 2 x.
Proof. rewrite BE16_swap. apply swap_store. Qed.
Lemma BE32_store x : le_bytes 4 (BE32 x) = be_bytes 4 x.
Proof. rewrite BE32_swap. apply swap_store. Qed.
Lemma BE64_store x : le_bytes 8 (BE64 x) = be_bytes 8 x.
Proof. rewrite BE64_swap. apply swap_store. Qed.

Lemma BE16_load l : Forall is_byte l -> length l = 2%nat -> BE16 (le_val l) = be_val l.
Proof. rewrite BE16_swap. apply swap_load. Qed.
Lemma BE32_load l : Forall is_byte l -> length l = 4%nat -> BE32 (le_val l) = be_val l.
Proof. rewrite BE32_swap. apply swap_load. Qed.
Lemma BE64_load l : Forall is_byte l -> length l = 8%nat -> BE64 (le_val l) = be_val l.
Proof. rewrite BE64_swap. apply swap_load. Qed.

#[export] Hint Rewrite BE16_store BE32_store BE64_store : wire.

Lemma be_bytes_inj n x y :
  0 <= x < 2 ^ (8 * Z.of_nat n) -> 0 <= y < 2 ^ (8 * Z.of_nat n) ->
  be_bytes n x = be_bytes n y -> x = y.
Proof.
  intros Hx Hy E%(f_equal be_val). rewrite !be_val_be_bytes, !Z.mod_small in E by done. done.
Qed.

Lemma be_val_range l : Forall is_byte l -> 0 <= be_val l < 2 ^ (8 * blen l).
Proof.
  intros H. rewrite <- (be_bytes_be_val l) at 1 2 by done.
  rewrite be_val_be_bytes. unfold blen. apply Z.mod_pos_bound. lia.
Qed.
