(* ===== verification/CMem.v ===== *)
(** * Block memory operations: src/mem.c

    [_memset] and [_memcpy] work eight bytes at a time and finish with the
    remaining [n & 7] bytes; the theorems state that the word loop and the tail
    together write exactly the [n] bytes of the plain [memset(p, 0, n)] and
    [memcpy], and nothing outside them. *)

From S2P Require Import Prelude Endian.

(** [while (n--) *s++ = 0LL;] : [k] stores of an eight-byte zero from [s]. *)
Fixpoint memset_words (m : mem) (s : Z) (k : nat) : mem :=
  match k with
  | O => m
  | S k => memset_words (mstore m s (le_bytes 8 0)) (s + 8) k
  end.

(** [while (p--) *c++ = '\0';] *)
Fixpoint memset_tail (m : mem) (c : Z) (p : nat) : mem :=
  match p with
  | O => m
  | S p => memset_tail (mstore m c [0]) (c + 1) p
  end.

Definition _memset (m : mem) (o n : Z) : mem :=
  let p := Z.land n 7 in
  let w := Z.shiftr n 3 in
  memset_tail (memset_words m o (Z.to_nat w)) (o + 8 * w) (Z.to_nat p).

(** [while (n--) *d++ = *s++;] between two distinct objects. *)
Fixpoint memcpy_words (md : mem) (d : Z) (ms : mem) (s : Z) (k : nat) : mem :=
  match k with
  | O => md
  | S k => memcpy_words (mstore md d (mload ms s 8)) (d + 8) ms (s + 8) k
  end.

Fixpoint memcpy_tail (md : mem) (d : Z) (ms : mem) (s : Z) (p : nat) : mem :=
  match p with
  | O => md
  | S p => memcpy_tail (mstore md d (mload ms s 1)) (d + 1) ms (s + 1) p
  end.

Definition _memcpy (md : mem) (d : Z) (ms : mem) (s n : Z) : mem :=
  let p := Z.land n 7 in
  let w := Z.shiftr n 3 in
  memcpy_tail (memcpy_words md d ms s (Z.to_nat w)) (d + 8 * w) ms (s + 8 * w) (Z.to_nat p).

(** ** Each loop is one block store *)

Lemma mstore_mstore m o d1 d2 :
  mstore (mstore m o d1) (o + blen d1) d2 ≡ₘ mstore m o (d1 ++ d2).
Proof.
  intros i. unfold mstore. rewrite blen_app. pose proof (blen_nonneg d1).
  pose proof (blen_nonneg d2). zdecide; try done.
  - rewrite nth_lookup, (nth_lookup (d1 ++ d2)), lookup_app_r by (unfold blen in *; lia).
    do 2 f_equal. unfold blen. lia.
  - rewrite !nth_lookup, lookup_app_l by (unfold blen in *; lia). done.
Qed.

Lemma mstore_nil m o : mstore m o [] ≡ₘ m.
Proof. intros i. by rewrite mstore_out by blia. Qed.

Lemma mfill_mstore m o n v : mfill m o n v ≡ₘ mstore m o (replicate (Z.to_nat n) v).
Proof.
  intros i. unfold mfill, mstore. rewrite blen_replicate. zdecide; try done.
  rewrite nth_lookup, lookup_replicate_2 by lia. done.
Qed.

Lemma memset_words_spec m s k : memset_words m s k ≡ₘ mstore m s (replicate (8 * k) 0).
Proof.
  revert m s; induction k as [|k IH]; intros m s; cbn [memset_words].
  - by rewrite mstore_nil.
  - rewrite IH. replace (s + 8) with (s + blen (le_bytes 8 0)) by done.
    rewrite mstore_mstore. replace (8 * S k)%nat with (8 + 8 * k)%nat by lia. done.
Qed.

Lemma memset_tail_spec m c p : memset_tail m c p ≡ₘ mstore m c (replicate p 0).
Proof.
  revert m c; induction p as [|p IH]; intros m c; cbn [memset_tail].
  - by rewrite mstore_nil.
  - rewrite IH. replace (c + 1) with (c + blen [0]) by done. by rewrite mstore_mstore.
Qed.

Lemma memcpy_words_spec md d ms s k :
  memcpy_words md d ms s k ≡ₘ mstore md d (mload ms s (8 * Z.of_nat k)).
Proof.
  revert md d s; induction k as [|k IH]; intros md d s; cbn [memcpy_words].
  - rewrite mload_0 by lia. by rewrite mstore_nil.
  - rewrite IH. replace (d + 8) with (d + blen (mload ms s 8)) by (rewrite blen_mload; lia).
    rewrite mstore_mstore, <- mload_split by lia. do 2 f_equiv. lia.
Qed.

Lemma memcpy_tail_spec md d ms s p :
  memcpy_tail md d ms s p ≡ₘ mstore md d (mload ms s (Z.of_nat p)).
Proof.
  revert md d s; induction p as [|p IH]; intros md d s; cbn [memcpy_tail].
  - rewrite mload_0 by lia. by rewrite mstore_nil.
  - rewrite IH. replace (d + 1) with (d + blen (mload ms s 1)) by (rewrite blen_mload; lia).
    rewrite mstore_mstore, <- mload_split by lia. do 2 f_equiv. lia.
Qed.

(** [n] splits into its eight-byte words and the tail of [n & 7] bytes. *)
Lemma words_and_tail n :
  0 <= n -> 8 * Z.shiftr n 3 + Z.land n 7 = n /\ 0 <= Z.shiftr n 3 /\ 0 <= Z.land n 7.
Proof.
  intros. change 7 with (Z.ones 3). rewrite Z.land_ones, Z.shiftr_div_pow2 by lia.
  pose proof (Z.div_mod n (2 ^ 3) ltac:(lia)). pose proof (Z.mod_pos_bound n (2 ^ 3) ltac:(lia)).
  pose proof (Z.div_pos n (2 ^ 3)). lia.
Qed.

Lemma _memset_fill m o n : 0 <= n -> _memset m o n ≡ₘ mfill m o n 0.
Proof.
  intros Hn. destruct (words_and_tail n Hn) as (E & Hw & Hp). unfold _memset.
  rewrite memset_tail_spec, memset_words_spec, mfill_mstore.
  replace (o + 8 * Z.shiftr n 3)
    with (o + blen (replicate (8 * Z.to_nat (Z.shiftr n 3)) 0)) by blia.
  rewrite mstore_mstore, <- replicate_add. do 2 f_equiv. lia.
Qed.

Lemma _memcpy_copy md d ms s n :
  0 <= n -> _memcpy md d ms s n ≡ₘ mstore md d (mload ms s n).
Proof.
  intros Hn. destruct (words_and_tail n Hn) as (E & Hw & Hp). unfold _memcpy.
  rewrite memcpy_tail_spec, memcpy_words_spec. rewrite !Z2Nat.id by lia.
  replace (d + 8 * Z.shiftr n 3) with (d + blen (mload ms s (8 * Z.shiftr n 3)))
    by (rewrite blen_mload; lia).
  rewrite mstore_mstore, <- mload_split, E by lia. done.
Qed.

(** ** Consecutive stores *)

Lemma mload_mstore2 m o d1 d2 :
  mload (mstore (mstore m o d1) (o + blen d1) d2) o (blen d1 + blen d2) = d1 ++ d2.
Proof. rewrite mstore_mstore, <- blen_app. apply mload_mstore. Qed.

Lemma same_outside_mstore2 m o d1 d2 n :
  blen d1 + blen d2 <= n ->
  same_outside o n m (mstore (mstore m o d1) (o + blen d1) d2).
Proof.
  intros Hn i Hi. rewrite (mstore_mstore m o d1 d2 i), mstore_out; [done|].
  rewrite blen_app. lia.
Qed.
