(* ===== verification/PolarAes.v ===== *)
(** * src/aes.c: the AES that is bundled with the program

    The PolarSSL implementation: tables made at the first use, the key schedules
    for encryption and decryption, one block, and CBC.  The parts that config.h
    leaves out (ROM tables, CFB, CTR) are not in the program; the hardware
    instructions of padlock.c are there on 32-bit x86 only, and this is the code
    of the other machines.  [Fips197.v] is the standard, [PolarAesSpec.v] says that
    this is it. *)

From S2P Require Import Prelude Endian.

Definition POLARSSL_ERR_AES_INVALID_KEY_LENGTH : Z := -0x20.
Definition POLARSSL_ERR_AES_INVALID_INPUT_LENGTH : Z := -0x22.

(** ** 32-bit words *)

Definition GET_UINT32_LE (b : bytes) (i : nat) : Z :=
  Z.lor (Z.lor (Z.lor (b !!! i) (Z.shiftl (b !!! (i + 1)%nat) 8)) (Z.shiftl (b !!! (i + 2)%nat) 16))
    (Z.shiftl (b !!! (i + 3)%nat) 24).

Definition PUT_UINT32_LE (n : Z) : bytes :=
  [u8 n; u8 (Z.shiftr n 8); u8 (Z.shiftr n 16); u8 (Z.shiftr n 24)].

(** [( x >> k ) & 0xFF] *)
Definition byte_at (x k : Z) : Z := Z.land (Z.shiftr x k) 0xFF.

(** [w ^ a ^ ( b << 8 ) ^ ( c << 16 ) ^ ( d << 24 )] *)
Definition xor_word (w a b c d : Z) : Z :=
  Z.lxor (Z.lxor (Z.lxor (Z.lxor w a) (Z.shiftl b 8)) (Z.shiftl c 16)) (Z.shiftl d 24).

(** [w ^ a ^ b ^ c ^ d] *)
Definition xor5 (w a b c d : Z) : Z := Z.lxor (Z.lxor (Z.lxor (Z.lxor w a) b) c) d.

(** ** Tables *)

Definition ROTL8 (x : Z) : Z := Z.lor (Z.land (Z.shiftl x 8) 0xFFFFFFFF) (Z.shiftr x 24).
Definition XTIME (x : Z) : Z := Z.lxor (Z.shiftl x 1) (if Z.land x 0x80 =? 0 then 0 else 0x1B).

Notation "t .[ i ]" := (t !!! Z.to_nat i) (at level 2, left associativity, format "t .[ i ]").

(** [for( i = 0, x = 1; i < 256; i++ )], over the arrays [pow] and [log]; the
    entry 0 of [log] is never written, nor read. *)
Fixpoint pow_log (k : nat) (i x : Z) (pow log : list Z) : list Z * list Z :=
  match k with
  | O => (pow, log)
  | S k => pow_log k (i + 1) (Z.land (Z.lxor x (XTIME x)) 0xFF)
             (<[Z.to_nat i := x]> pow) (<[Z.to_nat x := i]> log)
  end.

Fixpoint round_constants (k : nat) (x : Z) : list Z :=
  match k with
  | O => []
  | S k => x :: round_constants k (Z.land (XTIME x) 0xFF)
  end.

(** [y = ( (y << 1) | (y >> 7) ) & 0xFF] *)
Definition rotl_byte (y : Z) : Z := Z.land (Z.lor (Z.shiftl y 1) (Z.shiftr y 7)) 0xFF.

Definition sbox_entry (x : Z) : Z :=
  let y := rotl_byte x in
  let x := Z.lxor x y in
  let y := rotl_byte y in
  let x := Z.lxor x y in
  let y := rotl_byte y in
  let x := Z.lxor x y in
  let y := rotl_byte y in
  Z.lxor x (Z.lxor y 0x63).

(** [for( i = 1; i < 256; i++ )], over FSb and RSb. *)
Fixpoint gen_sboxes (k : nat) (i : Z) (pow log FSb RSb : list Z) : list Z * list Z :=
  match k with
  | O => (FSb, RSb)
  | S k =>
      let x := sbox_entry (pow.[255 - log.[i]]) in
      gen_sboxes k (i + 1) pow log (<[Z.to_nat i := u8 x]> FSb) (<[Z.to_nat x := u8 i]> RSb)
  end.

Definition MUL (pow log : list Z) (x y : Z) : Z :=
  if negb (x =? 0) && negb (y =? 0) then pow.[(log.[x] + log.[y]) mod 255] else 0.

Definition ft0_entry (x : Z) : Z :=
  let y := Z.land (XTIME x) 0xFF in
  let z := Z.land (Z.lxor y x) 0xFF in
  Z.lxor (Z.lxor (Z.lxor y (Z.shiftl x 8)) (Z.shiftl x 16)) (Z.shiftl z 24).

Definition rt0_entry (pow log : list Z) (x : Z) : Z :=
  Z.lxor (Z.lxor (Z.lxor (MUL pow log 0x0E x) (Z.shiftl (MUL pow log 0x09 x) 8))
    (Z.shiftl (MUL pow log 0x0D x) 16)) (Z.shiftl (MUL pow log 0x0B x) 24).

Record aes_tables := mkTables {
  FSb : list Z;  FT0 : list Z;  FT1 : list Z;  FT2 : list Z;  FT3 : list Z;
  RSb : list Z;  RT0 : list Z;  RT1 : list Z;  RT2 : list Z;  RT3 : list Z;
  RCON : list Z;
}.

Definition aes_gen_tables : aes_tables :=
  let zeros := replicate 256 0 in
  let '(pow, log) := pow_log 256 0 1 zeros zeros in
  let rcon := round_constants 10 1 in
  let '(fsb, rsb) := gen_sboxes 255 1 pow log (<[0%nat := 0x63]> zeros) (<[0x63%nat := 0]> zeros) in
  let ft0 := ft0_entry <$> fsb in
  let ft1 := ROTL8 <$> ft0 in
  let ft2 := ROTL8 <$> ft1 in
  let rt0 := rt0_entry pow log <$> rsb in
  let rt1 := ROTL8 <$> rt0 in
  let rt2 := ROTL8 <$> rt1 in
  mkTables fsb ft0 ft1 ft2 (ROTL8 <$> ft2) rsb rt0 rt1 rt2 (ROTL8 <$> rt2) rcon.

(** The tables after [aes_gen_tables] has run. *)
Definition tables : aes_tables := Eval vm_compute in aes_gen_tables.

Lemma tables_generated : tables = aes_gen_tables.
Proof. vm_compute. reflexivity. Qed.

(** ** Key schedules *)

(** [nr] rounds; [buf] holds the round keys, and [rk] points to it. *)
Record aes_context := mkContext {
  nr : Z;
  buf : list Z;
}.

Definition fsb (x : Z) : Z := (FSb tables).[x].
Definition rsb (x : Z) : Z := (RSb tables).[x].

(** [for( i = 0; i < 10; i++, RK += 4 )]: four more words. *)
Fixpoint expand_128 (k : nat) (i : Z) (rk : list Z) : list Z :=
  match k with
  | O => rk
  | S k =>
      let RK j := rk.[4 * i + j] in
      let k4 := xor_word (Z.lxor (RK 0) ((RCON tables).[i])) (fsb (byte_at (RK 3) 8))
                  (fsb (byte_at (RK 3) 16)) (fsb (byte_at (RK 3) 24)) (fsb (byte_at (RK 3) 0)) in
      let k5 := Z.lxor (RK 1) k4 in
      let k6 := Z.lxor (RK 2) k5 in
      let k7 := Z.lxor (RK 3) k6 in
      expand_128 k (i + 1) (rk ++ [k4; k5; k6; k7])
  end.

(** [for( i = 0; i < 8; i++, RK += 6 )] *)
Fixpoint expand_192 (k : nat) (i : Z) (rk : list Z) : list Z :=
  match k with
  | O => rk
  | S k =>
      let RK j := rk.[6 * i + j] in
      let k6 := xor_word (Z.lxor (RK 0) ((RCON tables).[i])) (fsb (byte_at (RK 5) 8))
                  (fsb (byte_at (RK 5) 16)) (fsb (byte_at (RK 5) 24)) (fsb (byte_at (RK 5) 0)) in
      let k7 := Z.lxor (RK 1) k6 in
      let k8 := Z.lxor (RK 2) k7 in
      let k9 := Z.lxor (RK 3) k8 in
      let k10 := Z.lxor (RK 4) k9 in
      let k11 := Z.lxor (RK 5) k10 in
      expand_192 k (i + 1) (rk ++ [k6; k7; k8; k9; k10; k11])
  end.

(** [for( i = 0; i < 7; i++, RK += 8 )] *)
Fixpoint expand_256 (k : nat) (i : Z) (rk : list Z) : list Z :=
  match k with
  | O => rk
  | S k =>
      let RK j := rk.[8 * i + j] in
      let k8 := xor_word (Z.lxor (RK 0) ((RCON tables).[i])) (fsb (byte_at (RK 7) 8))
                  (fsb (byte_at (RK 7) 16)) (fsb (byte_at (RK 7) 24)) (fsb (byte_at (RK 7) 0)) in
      let k9 := Z.lxor (RK 1) k8 in
      let k10 := Z.lxor (RK 2) k9 in
      let k11 := Z.lxor (RK 3) k10 in
      let k12 := xor_word (RK 4) (fsb (byte_at k11 0))
                  (fsb (byte_at k11 8)) (fsb (byte_at k11 16)) (fsb (byte_at k11 24)) in
      let k13 := Z.lxor (RK 5) k12 in
      let k14 := Z.lxor (RK 6) k13 in
      let k15 := Z.lxor (RK 7) k14 in
      expand_256 k (i + 1) (rk ++ [k8; k9; k10; k11; k12; k13; k14; k15])
  end.

Definition rounds_of (keysize : Z) : option Z :=
  if keysize =? 128 then Some 10
  else if keysize =? 192 then Some 12
  else if keysize =? 256 then Some 14
  else None.

(** [buf] has 68 words, of which the schedule writes the first ones. *)
Definition aes_setkey_enc (ctx : aes_context) (key : bytes) (keysize : Z) : Z * aes_context :=
  match rounds_of keysize with
  | None => (POLARSSL_ERR_AES_INVALID_KEY_LENGTH, ctx)
  | Some nr =>
      let rk := (fun i => GET_UINT32_LE key (4 * i)) <$> seq 0 (Z.to_nat (keysize / 32)) in
      let rk := if nr =? 10 then expand_128 10 0 rk
                else if nr =? 12 then expand_192 8 0 rk
                else expand_256 7 0 rk in
      (0, mkContext nr (rk ++ drop (length rk) (buf ctx)))
  end.

(** A word of an inner round key, for decryption. *)
Definition inverse_key (w : Z) : Z :=
  Z.lxor (Z.lxor (Z.lxor ((RT0 tables).[fsb (byte_at w 0)]) ((RT1 tables).[fsb (byte_at w 8)]))
    ((RT2 tables).[fsb (byte_at w 16)])) ((RT3 tables).[fsb (byte_at w 24)]).

(** The four words at [SK + 4 * i]. *)
Definition key_block (sk : list Z) (i : nat) : list Z := take 4 (drop (4 * i) sk).

(** [for( i = ctx->nr - 1, SK -= 8; i > 0; i--, SK -= 8 )] *)
Fixpoint inner_keys (i : nat) (sk : list Z) : list Z :=
  match i with
  | O => []
  | S i' => (inverse_key <$> key_block sk i) ++ inner_keys i' sk
  end.

(** [cty] is a context on the stack. *)
Definition aes_setkey_dec (cty ctx : aes_context) (key : bytes) (keysize : Z) : Z * aes_context :=
  match rounds_of keysize with
  | None => (POLARSSL_ERR_AES_INVALID_KEY_LENGTH, ctx)
  | Some nr =>
      let '(ret, cty) := aes_setkey_enc cty key keysize in
      if negb (ret =? 0) then (ret, mkContext nr (buf ctx))
      else
        let n := Z.to_nat nr in
        let rk := key_block (buf cty) n ++ inner_keys (n - 1) (buf cty) ++ key_block (buf cty) 0 in
        (0, mkContext nr (rk ++ drop (length rk) (buf ctx)))
  end.

(** ** One block *)

(** X0 to X3; the pointer RK is a position [p] in [buf]. *)
Definition quad : Type := Z * Z * Z * Z.

Definition AES_FROUND (rk : list Z) (p : nat) (y : quad) : quad :=
  let '(Y0, Y1, Y2, Y3) := y in
  let RK j := rk !!! (p + j)%nat in
  let X a b c d j := xor5 (RK j) ((FT0 tables).[byte_at a 0]) ((FT1 tables).[byte_at b 8])
                       ((FT2 tables).[byte_at c 16]) ((FT3 tables).[byte_at d 24]) in
  (X Y0 Y1 Y2 Y3 0%nat, X Y1 Y2 Y3 Y0 1%nat, X Y2 Y3 Y0 Y1 2%nat, X Y3 Y0 Y1 Y2 3%nat).

Definition AES_RROUND (rk : list Z) (p : nat) (y : quad) : quad :=
  let '(Y0, Y1, Y2, Y3) := y in
  let RK j := rk !!! (p + j)%nat in
  let X a b c d j := xor5 (RK j) ((RT0 tables).[byte_at a 0]) ((RT1 tables).[byte_at b 8])
                       ((RT2 tables).[byte_at c 16]) ((RT3 tables).[byte_at d 24]) in
  (X Y0 Y3 Y2 Y1 0%nat, X Y1 Y0 Y3 Y2 1%nat, X Y2 Y1 Y0 Y3 2%nat, X Y3 Y2 Y1 Y0 3%nat).

(** The last round. *)
Definition last_fround (rk : list Z) (p : nat) (y : quad) : quad :=
  let '(Y0, Y1, Y2, Y3) := y in
  let RK j := rk !!! (p + j)%nat in
  let X a b c d j := xor_word (RK j) (fsb (byte_at a 0)) (fsb (byte_at b 8)) (fsb (byte_at c 16))
                       (fsb (byte_at d 24)) in
  (X Y0 Y1 Y2 Y3 0%nat, X Y1 Y2 Y3 Y0 1%nat, X Y2 Y3 Y0 Y1 2%nat, X Y3 Y0 Y1 Y2 3%nat).

Definition last_rround (rk : list Z) (p : nat) (y : quad) : quad :=
  let '(Y0, Y1, Y2, Y3) := y in
  let RK j := rk !!! (p + j)%nat in
  let X a b c d j := xor_word (RK j) (rsb (byte_at a 0)) (rsb (byte_at b 8)) (rsb (byte_at c 16))
                       (rsb (byte_at d 24)) in
  (X Y0 Y3 Y2 Y1 0%nat, X Y1 Y0 Y3 Y2 1%nat, X Y2 Y1 Y0 Y3 2%nat, X Y3 Y2 Y1 Y0 3%nat).

(** [for( i = (ctx->nr >> 1) - 1; i > 0; i-- )], two rounds each. *)
Fixpoint double_rounds (round : nat -> quad -> quad) (k : nat) (p : nat) (x : quad) : nat * quad :=
  match k with
  | O => (p, x)
  | S k => double_rounds round k (p + 8) (round (p + 4)%nat (round p x))
  end.

Definition aes_crypt_ecb (ctx : aes_context) (encrypt : bool) (input : bytes) : Z * bytes :=
  let rk := buf ctx in
  let x i := Z.lxor (GET_UINT32_LE input (4 * i)) (rk !!! i) in
  let round := if encrypt then AES_FROUND rk else AES_RROUND rk in
  let '(p, x) := double_rounds round (Z.to_nat (Z.shiftr (nr ctx) 1 - 1)) 4
                   (x 0%nat, x 1%nat, x 2%nat, x 3%nat) in
  let y := round p x in
  let '(X0, X1, X2, X3) := (if encrypt then last_fround else last_rround) rk (p + 4)%nat y in
  (0, PUT_UINT32_LE X0 ++ PUT_UINT32_LE X1 ++ PUT_UINT32_LE X2 ++ PUT_UINT32_LE X3).

(** ** CBC *)

(** [output[i] = (unsigned char)( input[i] ^ iv[i] )] *)
Definition xor_block (a b : bytes) : bytes := zip_with Z.lxor a b.

(** The loops over the blocks, at most [k] of them.  A block is read before it is
    written, so that [input] and [output] may be the same buffer, as they are in
    the program. *)
Fixpoint cbc_decrypt (k : nat) (ctx : aes_context) (length : Z) (iv input : bytes) : bytes * bytes :=
  if 0 <? length then
    match k with
    | O => (iv, [])
    | S k =>
        let temp := take 16 input in
        let '(_, output) := aes_crypt_ecb ctx false temp in
        let output := xor_block output iv in
        let '(iv, rest) := cbc_decrypt k ctx (length - 16) temp (drop 16 input) in
        (iv, output ++ rest)
    end
  else (iv, []).

Fixpoint cbc_encrypt (k : nat) (ctx : aes_context) (length : Z) (iv input : bytes) : bytes * bytes :=
  if 0 <? length then
    match k with
    | O => (iv, [])
    | S k =>
        let output := xor_block (take 16 input) iv in
        let '(_, output) := aes_crypt_ecb ctx true output in
        let '(iv, rest) := cbc_encrypt k ctx (length - 16) output (drop 16 input) in
        (iv, output ++ rest)
    end
  else (iv, []).

(** Result, iv, output. *)
Definition aes_crypt_cbc (ctx : aes_context) (encrypt : bool) (length : Z) (iv input : bytes)
    : Z * bytes * bytes :=
  if negb (length mod 16 =? 0) then (POLARSSL_ERR_AES_INVALID_INPUT_LENGTH, iv, [])
  else
    let '(iv, output) := (if encrypt then cbc_encrypt else cbc_decrypt) (Z.to_nat (length / 16)) ctx length iv input in
    (0, iv, output).
