(* ===== verification/Fips197.v ===== *)
(** * FIPS 197: the Advanced Encryption Standard

    The reference that src/aes.c is compared with, written after the standard and
    not after the code: arithmetic of GF(2^8), the S-box as inverse and affine map,
    the four transformations on a state of sixteen bytes (column after column),
    the key expansion word by word, the cipher and its inverse; and that the
    inverse is one. *)

From AAC_tactics Require Import AAC.
From coqutil Require Import Z.bitblast.
From S2P Require Import Prelude.

(** ** Bytes as elements of GF(2^8) *)

(** Multiplication by x, modulo x^8 + x^4 + x^3 + x + 1. *)
Definition xtime (b : Z) : Z := if 128 <=? b then Z.lxor (2 * b - 256) 0x1b else 2 * b.

Fixpoint gmul_bits (k : nat) (a b : Z) : Z :=
  match k with
  | O => 0
  | S k => Z.lxor (if Z.odd a then b else 0) (gmul_bits k (Z.div2 a) (xtime b))
  end.
Definition gmul : Z -> Z -> Z := gmul_bits 8.

(** The first byte with [P], or 0. *)
Fixpoint search (P : Z -> bool) (k : nat) (b : Z) : Z :=
  match k with
  | O => 0
  | S k => if P b then b else search P k (b + 1)
  end.
Definition first_with (P : Z -> bool) : Z := search P 256 0.

(** The multiplicative inverse; 0 for 0. *)
Definition ginv (b : Z) : Z := first_with (fun x => gmul b x =? 1).

(** ** The S-box *)

(** b'_i = b_i + b_(i+4) + b_(i+5) + b_(i+6) + b_(i+7) + c_i *)
Definition affine_bit (b i : Z) : bool :=
  let bit j := Z.testbit b ((i + j) mod 8) in
  xorb (bit 0) (xorb (bit 4) (xorb (bit 5) (xorb (bit 6) (xorb (bit 7) (Z.testbit 0x63 i))))).

Definition affine (b : Z) : Z :=
  foldr (fun i acc => (if affine_bit b i then 2 ^ i else 0) + acc) 0 [0; 1; 2; 3; 4; 5; 6; 7].

Definition sbox (b : Z) : Z := affine (ginv b).
Definition inv_sbox (y : Z) : Z := first_with (fun b => sbox b =? y).

(** ** The state *)

Definition add_block (s k : bytes) : bytes := zip_with Z.lxor s k.

Definition sub_bytes (s : bytes) : bytes := sbox <$> s.
Definition inv_sub_bytes (s : bytes) : bytes := inv_sbox <$> s.

(** Row [r] of the state is bytes r, r + 4, r + 8, r + 12; it is rotated by [r]. *)
Definition shift_rows (s : bytes) : bytes :=
  (fun k : nat => s !!! ((k + 4 * (k mod 4)) mod 16)%nat) <$> seq 0 16.
Definition inv_shift_rows (s : bytes) : bytes :=
  (fun k : nat => s !!! ((k + 12 * (k mod 4)) mod 16)%nat) <$> seq 0 16.

Definition dot (p q r s a b c d : Z) : Z :=
  Z.lxor (gmul p a) (Z.lxor (gmul q b) (Z.lxor (gmul r c) (gmul s d))).

(** A column times a polynomial, modulo x^4 + 1. *)
Definition column_times (p q r s : Z) (col : bytes) : bytes :=
  match col with
  | [a; b; c; d] => [dot p q r s a b c d; dot s p q r a b c d; dot r s p q a b c d; dot q r s p a b c d]
  | _ => []
  end.

Definition mix_column : bytes -> bytes := column_times 2 3 1 1.
Definition inv_mix_column : bytes -> bytes := column_times 14 11 13 9.

Definition each_column (f : bytes -> bytes) (s : bytes) : bytes :=
  f (slice 0 4 s) ++ f (slice 4 4 s) ++ f (slice 8 4 s) ++ f (slice 12 4 s).
Definition mix_columns : bytes -> bytes := each_column mix_column.
Definition inv_mix_columns : bytes -> bytes := each_column inv_mix_column.

(** ** Key expansion, in words of four bytes *)

(** x^(i-1) *)
Definition rcon (i : nat) : bytes := [Nat.iter (i - 1) (gmul 2) 1; 0; 0; 0].

Definition rot_word (w : bytes) : bytes := drop 1 w ++ take 1 w.

(** The word after those of [l]. *)
Definition next_word (Nk : nat) (l : list bytes) : bytes :=
  let i := length l in
  let temp := l !!! (i - 1)%nat in
  let temp :=
    if Nat.eqb (i mod Nk) 0 then add_block (sub_bytes (rot_word temp)) (rcon (i / Nk))
    else if Nat.ltb 6 Nk && Nat.eqb (i mod Nk) 4 then sub_bytes temp
    else temp in
  add_block (l !!! (i - Nk)%nat) temp.

Fixpoint more_words (Nk k : nat) (l : list bytes) : list bytes :=
  match k with
  | O => l
  | S k => more_words Nk k (l ++ [next_word Nk l])
  end.

Definition key_words (key : bytes) (Nk : nat) : list bytes :=
  (fun i : nat => slice (4 * Z.of_nat i) 4 key) <$> seq 0 Nk.

(** The words w[0] to w[4 * (Nr + 1) - 1], with Nr = Nk + 6. *)
Definition key_expansion (key : bytes) (Nk : nat) : list bytes :=
  more_words Nk (4 * (Nk + 7) - Nk) (key_words key Nk).

Definition round_key (w : list bytes) (i : nat) : bytes := concat (take 4 (drop (4 * i) w)).

(** ** The cipher and its inverse *)

Definition round (s k : bytes) : bytes := add_block (mix_columns (shift_rows (sub_bytes s))) k.
Definition inv_round (s k : bytes) : bytes := inv_mix_columns (add_block (inv_sub_bytes (inv_shift_rows s)) k).

(** With the first, the inner and the last round keys. *)
Definition encrypt (first : bytes) (inner : list bytes) (last : bytes) (input : bytes) : bytes :=
  add_block (shift_rows (sub_bytes (foldl round (add_block input first) inner))) last.

Definition decrypt (first : bytes) (inner : list bytes) (last : bytes) (input : bytes) : bytes :=
  add_block (inv_sub_bytes (inv_shift_rows (foldl inv_round (add_block input last) (reverse inner)))) first.

Definition inner_round_keys (w : list bytes) (Nr : nat) : list bytes := round_key w <$> seq 1 (Nr - 1).

Definition Cipher (key : bytes) (Nk : nat) (input : bytes) : bytes :=
  let w := key_expansion key Nk in
  encrypt (round_key w 0) (inner_round_keys w (Nk + 6)) (round_key w (Nk + 6)) input.

Definition InvCipher (key : bytes) (Nk : nat) (input : bytes) : bytes :=
  let w := key_expansion key Nk in
  decrypt (round_key w 0) (inner_round_keys w (Nk + 6)) (round_key w (Nk + 6)) input.

(** ** CBC mode (NIST SP 800-38A), over blocks of sixteen bytes *)

Fixpoint cbc_enc (E : bytes -> bytes) (iv : bytes) (blocks : list bytes) : list bytes :=
  match blocks with
  | [] => []
  | b :: blocks => let c := E (add_block b iv) in c :: cbc_enc E c blocks
  end.

Fixpoint cbc_dec (D : bytes -> bytes) (iv : bytes) (blocks : list bytes) : list bytes :=
  match blocks with
  | [] => []
  | c :: blocks => add_block (D c) iv :: cbc_dec D c blocks
  end.

(** ** Facts about all bytes *)

Definition all_256 : list Z := Z.of_nat <$> seq 0 256.
Definition all_bytes (P : Z -> bool) : bool := forallb P all_256.

Lemma all_256_lookup (i : nat) : (i < 256)%nat -> all_256 !! i = Some (Z.of_nat i).
Proof. intros Hi. unfold all_256. rewrite list_lookup_fmap, lookup_seq_lt by lia. done. Qed.

Lemma all_bytes_elim P b : all_bytes P = true -> is_byte b -> P b = true.
Proof.
  intros H Hb. unfold all_bytes in H. rewrite forallb_forall in H. apply H. apply list_elem_of_In.
  apply (list_elem_of_lookup_2 _ (Z.to_nat b)). unfold is_byte in Hb.
  rewrite all_256_lookup, Z2Nat.id by lia. done.
Qed.

(** An equation between bytes, checked for every byte. *)
Ltac by_bytes f g :=
  intros;
  match goal with H : is_byte ?b |- _ =>
    apply (Z.eqb_eq (f b) (g b)); apply (all_bytes_elim (fun b => f b =? g b)); [vm_compute; reflexivity|exact H]
  end.

Lemma u8_byte b : is_byte b -> u8 b = b.
Proof. apply Z.mod_small. Qed.

Lemma is_byte_u8 x : is_byte (u8 x).
Proof. apply Z.mod_pos_bound. lia. Qed.

Lemma u8_lxor a b : u8 (Z.lxor a b) = Z.lxor (u8 a) (u8 b).
Proof. unfold u8. rewrite <- !Z.land_ones by lia. Z.bitblast. Qed.

Lemma is_byte_lxor a b : is_byte a -> is_byte b -> is_byte (Z.lxor a b).
Proof. intros Ha Hb. rewrite <- (u8_byte a), <- (u8_byte b), <- u8_lxor by done. apply is_byte_u8. Qed.

Lemma lxor_cancel a b : Z.lxor (Z.lxor a b) b = a.
Proof. by rewrite Z.lxor_assoc, Z.lxor_nilpotent, Z.lxor_0_r. Qed.

(** Exclusive or, for rewriting modulo associativity and commutativity. *)
#[export] Instance lxor_lift : AAC_lift (@eq Z) eq | 0.
Proof. split; [exact eq_equivalence|by intros ? ? -> ? ? ->]. Qed.
#[export] Instance lxor_proper : Proper (eq ==> eq ==> eq) Z.lxor.
Proof. by intros ? ? -> ? ? ->. Qed.
#[export] Instance lxor_assoc : Associative eq Z.lxor.
Proof. intros x y z. symmetry. apply Z.lxor_assoc. Qed.
#[export] Instance lxor_comm : Commutative eq Z.lxor.
Proof. intros x y. apply Z.lxor_comm. Qed.
#[export] Instance lxor_unit : Unit eq Z.lxor 0.
Proof. split; intros x; [apply Z.lxor_0_l|apply Z.lxor_0_r]. Qed.

(** ** The S-box is a permutation *)

Definition sbox_values : list Z := Eval vm_compute in sbox <$> all_256.

Lemma sbox_value b : is_byte b -> sbox b = sbox_values !!! Z.to_nat b.
Proof.
  intros Hb. assert (sbox_values = sbox <$> all_256) as -> by (vm_compute; reflexivity).
  unfold is_byte in Hb. symmetry. apply list_lookup_total_correct.
  by rewrite list_lookup_fmap, all_256_lookup, Z2Nat.id by lia.
Qed.

Lemma sbox_byte b : is_byte b -> is_byte (sbox b).
Proof.
  intros Hb. rewrite (sbox_value b Hb). set (f b := sbox_values !!! Z.to_nat b).
  assert ((0 <=? f b) && (f b <? 256) = true) as [?%Z.leb_le ?%Z.ltb_lt]%andb_true_iff; [|done].
  apply (all_bytes_elim (fun b => (0 <=? f b) && (f b <? 256))); [by vm_compute|done].
Qed.

Lemma sbox_injective a b : is_byte a -> is_byte b -> sbox a = sbox b -> a = b.
Proof.
  intros Ha Hb. rewrite (sbox_value a Ha), (sbox_value b Hb). set (f b := sbox_values !!! Z.to_nat b).
  intros E. assert (negb (f a =? f b) || (a =? b) = true) as H.
  { apply (all_bytes_elim (fun a => negb (f a =? f b) || (a =? b))); [|done].
    apply (all_bytes_elim (fun b => all_bytes (fun a => negb (f a =? f b) || (a =? b)))); [by vm_compute|done]. }
  change (f a = f b) in E. rewrite E, Z.eqb_refl in H. by apply Z.eqb_eq.
Qed.

Lemma search_found P k : forall b x, b <= x < b + Z.of_nat k -> P x = true ->
  b <= search P k b <= x /\ P (search P k b) = true.
Proof.
  induction k as [|k IH]; intros b x Hx HP; [lia|]. cbn [search].
  destruct (P b) eqn:Eb; [split; [lia|done]|].
  assert (x <> b) by congruence. destruct (IH (b + 1) x) as [? ?]; [lia|done|]. split; [lia|done].
Qed.

Lemma inv_sbox_sbox b : is_byte b -> inv_sbox (sbox b) = b.
Proof.
  intros Hb. unfold is_byte in Hb.
  destruct (search_found (fun x => sbox x =? sbox b) 256 0 b) as [Hr E]; [lia|apply Z.eqb_refl|].
  apply sbox_injective; [unfold is_byte, inv_sbox, first_with; lia|done|by apply Z.eqb_eq].
Qed.

(** ** Multiplication is linear *)

Lemma xtime_byte b : is_byte b -> is_byte (xtime b).
Proof.
  intros Hb. unfold xtime. unfold is_byte in Hb. destruct (Z.leb_spec 128 b); [|unfold is_byte; lia].
  apply is_byte_lxor; unfold is_byte; lia.
Qed.

Lemma xtime_lxor a b : is_byte a -> is_byte b -> xtime (Z.lxor a b) = Z.lxor (xtime a) (xtime b).
Proof.
  intros Ha Hb. apply Z.eqb_eq.
  apply (all_bytes_elim (fun a => xtime (Z.lxor a b) =? Z.lxor (xtime a) (xtime b))); [|done].
  apply (all_bytes_elim (fun b => all_bytes (fun a => xtime (Z.lxor a b) =? Z.lxor (xtime a) (xtime b))));
    [by vm_compute|done].
Qed.

Lemma gmul_bits_byte k a b : is_byte b -> is_byte (gmul_bits k a b).
Proof.
  revert a b. induction k as [|k IH]; intros a b Hb; cbn [gmul_bits]; [unfold is_byte; lia|].
  apply is_byte_lxor; [destruct (Z.odd a); [done|unfold is_byte; lia]|by apply IH, xtime_byte].
Qed.

Lemma gmul_byte a b : is_byte b -> is_byte (gmul a b).
Proof. apply gmul_bits_byte. Qed.

Lemma gmul_lxor k a b : is_byte a -> is_byte b -> gmul k (Z.lxor a b) = Z.lxor (gmul k a) (gmul k b).
Proof.
  unfold gmul. generalize 8%nat. intros n. revert k a b.
  induction n as [|n IH]; intros k a b Ha Hb; cbn [gmul_bits]; [done|].
  rewrite xtime_lxor, IH by (auto using xtime_byte). destruct (Z.odd k); aac_reflexivity.
Qed.

#[export] Hint Resolve is_byte_lxor is_byte_u8 sbox_byte gmul_byte : aes.

Lemma dot_byte p q r s a b c d :
  is_byte a -> is_byte b -> is_byte c -> is_byte d -> is_byte (dot p q r s a b c d).
Proof. intros. unfold dot. auto with aes. Qed.
#[export] Hint Resolve dot_byte : aes.

Lemma dot_lxor p q r s a b c d a' b' c' d' :
  is_byte a -> is_byte b -> is_byte c -> is_byte d -> is_byte a' -> is_byte b' -> is_byte c' -> is_byte d' ->
  dot p q r s (Z.lxor a a') (Z.lxor b b') (Z.lxor c c') (Z.lxor d d') =
  Z.lxor (dot p q r s a b c d) (dot p q r s a' b' c' d').
Proof. intros. unfold dot. rewrite !gmul_lxor by done. aac_reflexivity. Qed.

(** ** The inverse of the columns

    Each byte of the product of the two matrices, as a fact about single bytes. *)

Ltac inverse_coefficient := intros b Hb; apply Z.eqb_eq;
  match goal with |- (?e =? ?r) = true =>
    let f := eval pattern b in (e =? r) in
    match f with ?P b => apply (all_bytes_elim P); [by vm_compute|exact Hb] end
  end.

Lemma coefficient_0 : forall b, is_byte b ->
  dot 14 11 13 9 (gmul 2 b) (gmul 1 b) (gmul 1 b) (gmul 3 b) = b.
Proof. inverse_coefficient. Qed.
Lemma coefficient_1 : forall b, is_byte b ->
  dot 14 11 13 9 (gmul 3 b) (gmul 2 b) (gmul 1 b) (gmul 1 b) = 0.
Proof. inverse_coefficient. Qed.
Lemma coefficient_2 : forall b, is_byte b ->
  dot 14 11 13 9 (gmul 1 b) (gmul 3 b) (gmul 2 b) (gmul 1 b) = 0.
Proof. inverse_coefficient. Qed.
Lemma coefficient_3 : forall b, is_byte b ->
  dot 14 11 13 9 (gmul 1 b) (gmul 1 b) (gmul 3 b) (gmul 2 b) = 0.
Proof. inverse_coefficient. Qed.

Lemma dot_rotate p q r s a b c d : dot p q r s a b c d = dot q r s p b c d a.
Proof. unfold dot. aac_reflexivity. Qed.

Lemma inverse_row a b c d : is_byte a -> is_byte b -> is_byte c -> is_byte d ->
  dot 14 11 13 9 (dot 2 3 1 1 a b c d) (dot 1 2 3 1 a b c d) (dot 1 1 2 3 a b c d) (dot 3 1 1 2 a b c d) = a.
Proof.
  intros Ha Hb Hc Hd.
  rewrite <- (coefficient_0 a Ha) at 5. rewrite <- (Z.lxor_0_r (dot _ _ _ _ (gmul 2 a) _ _ _)).
  rewrite <- (coefficient_1 b Hb). rewrite <- (Z.lxor_0_r (dot _ _ _ _ (gmul 3 b) _ _ _)).
  rewrite <- (coefficient_2 c Hc). rewrite <- (Z.lxor_0_r (dot _ _ _ _ (gmul 1 c) (gmul 3 c) _ _)).
  rewrite <- (coefficient_3 d Hd).
  rewrite <- !dot_lxor by auto 10 with aes. done.
Qed.

(** A column of four bytes. *)
Definition is_col (c : bytes) : Prop := length c = 4%nat /\ Forall is_byte c.

Lemma is_col_inv c : is_col c -> exists a b x d, c = [a; b; x; d] /\
  is_byte a /\ is_byte b /\ is_byte x /\ is_byte d.
Proof.
  intros [Hl Hb]. destruct c as [|a [|b [|x [|d [|]]]]]; try done. exists a, b, x, d.
  by rewrite !Forall_cons in Hb; destruct Hb as (?&?&?&?&_).
Qed.

Lemma inv_mix_mix c : is_col c -> inv_mix_column (mix_column c) = c.
Proof.
  intros (a & b & x & d & -> & Ha & Hb & Hx & Hd)%is_col_inv. cbn [mix_column inv_mix_column column_times].
  f_equal; [by apply inverse_row|]. f_equal; [|f_equal; [|f_equal]].
  - rewrite <- (inverse_row b x d a) at 5 by done. rewrite (dot_rotate 9 14 11 13).
    f_equal; by rewrite dot_rotate.
  - rewrite <- (inverse_row x d a b) at 5 by done. rewrite (dot_rotate 13 9 14 11), (dot_rotate 9 14 11 13).
    f_equal; by rewrite dot_rotate, dot_rotate.
  - rewrite <- (inverse_row d a b x) at 5 by done.
    rewrite (dot_rotate 11 13 9 14), (dot_rotate 13 9 14 11), (dot_rotate 9 14 11 13).
    f_equal; by rewrite dot_rotate, dot_rotate, dot_rotate.
Qed.

#[global] Opaque gmul sbox inv_sbox.

(** ** Blocks of sixteen bytes *)

Definition is_block (s : bytes) : Prop := length s = 16%nat /\ Forall is_byte s.

#[export] Instance is_block_dec s : Decision (is_block s).
Proof.
  destruct (decide (length s = 16%nat /\ forallb (fun b => (0 <=? b) && (b <? 256)) s = true)) as [[Hl Hb]|Hn].
  - left. split; [done|]. rewrite forallb_forall in Hb. apply Forall_forall. intros b Hin%list_elem_of_In.
    apply Hb, andb_true_iff in Hin as [?%Z.leb_le ?%Z.ltb_lt]. done.
  - right. intros [Hl Hb]. apply Hn. split; [done|]. apply forallb_forall. intros b Hin%list_elem_of_In.
    rewrite Forall_forall in Hb. destruct (Hb b Hin). apply andb_true_iff. by rewrite Z.leb_le, Z.ltb_lt.
Defined.

(** A block is four columns. *)
Lemma is_block_cols s : is_block s <-> exists c0 c1 c2 c3, s = c0 ++ c1 ++ c2 ++ c3 /\
  is_col c0 /\ is_col c1 /\ is_col c2 /\ is_col c3.
Proof.
  split.
  - intros [Hl Hb]. do 16 (destruct s as [|? s]; [done|]). destruct s; [|done].
    match goal with |- context [[?a;?b;?c;?d;?e;?f;?g;?h;?i;?j;?k;?l;?m;?n;?o;?p]] =>
      exists [a;b;c;d], [e;f;g;h], [i;j;k;l], [m;n;o;p] end.
    rewrite !Forall_cons in Hb. unfold is_col. rewrite !Forall_cons, !Forall_nil. cbn [length]. tauto.
  - intros (c0 & c1 & c2 & c3 & -> & [L0 B0] & [L1 B1] & [L2 B2] & [L3 B3]). split.
    + by rewrite !length_app, L0, L1, L2, L3.
    + by rewrite !Forall_app.
Qed.

Lemma each_column_app f c0 c1 c2 c3 : length c0 = 4%nat -> length c1 = 4%nat -> length c2 = 4%nat -> length c3 = 4%nat ->
  each_column f (c0 ++ c1 ++ c2 ++ c3) = f c0 ++ f c1 ++ f c2 ++ f c3.
Proof.
  intros L0 L1 L2 L3. do 4 (destruct c0 as [|? c0]; [done|]). do 4 (destruct c1 as [|? c1]; [done|]).
  do 4 (destruct c2 as [|? c2]; [done|]). do 4 (destruct c3 as [|? c3]; [done|]).
  by destruct c0, c1, c2, c3.
Qed.

Lemma column_times_col p q r s c : is_col c -> is_col (column_times p q r s c).
Proof.
  intros (a & b & x & d & -> & ? & ? & ? & ?)%is_col_inv. split; [done|]. cbn [column_times].
  repeat (apply Forall_cons; split; [by apply dot_byte|]). done.
Qed.

Lemma each_column_block f s : (forall c, is_col c -> is_col (f c)) -> is_block s -> is_block (each_column f s).
Proof.
  intros Hf (c0 & c1 & c2 & c3 & -> & H0 & H1 & H2 & H3)%is_block_cols.
  rewrite each_column_app by (apply H0 || apply H1 || apply H2 || apply H3). apply is_block_cols.
  exists (f c0), (f c1), (f c2), (f c3). auto 10.
Qed.

Lemma add_block_all a b : length b = length a -> Forall is_byte a -> Forall is_byte b -> Forall is_byte (add_block a b).
Proof.
  intros Hl Ha. revert b Hl. induction Ha as [|x a Hx Ha IH]; intros [|y b] Hl Hb; try done.
  apply Forall_cons in Hb as [Hy Hb]. constructor; [auto with aes|]. apply IH; [by injection Hl|done].
Qed.

Lemma add_block_block s k : is_block s -> is_block k -> is_block (add_block s k).
Proof.
  intros [Ls Hs] [Lk Hk]. split; [unfold add_block; rewrite length_zip_with; lia|apply add_block_all; [congruence|done..]].
Qed.

Lemma sub_bytes_block s : is_block s -> is_block (sub_bytes s).
Proof.
  intros [L H]. split; [by unfold sub_bytes; rewrite length_fmap|]. apply Forall_fmap.
  eapply Forall_impl; [exact H|]. intros b. apply sbox_byte.
Qed.

(** The sixteen bytes of a block, for the permutations. *)
Ltac sixteen s :=
  let H := fresh in intros H; let L := fresh in let B := fresh in destruct H as [L B];
  do 16 (destruct s as [|? s]; [done|]); destruct s; [|done]; clear L;
  rewrite ?Forall_cons in B; destruct B as (?&?&?&?&?&?&?&?&?&?&?&?&?&?&?&?&_).

Lemma shift_rows_block s : is_block s -> is_block (shift_rows s).
Proof.
  sixteen s. split; [done|]. cbv -[is_byte].
  repeat (apply Forall_cons; split; [done|]). by apply Forall_nil.
Qed.

Lemma mix_columns_block s : is_block s -> is_block (mix_columns s).
Proof. apply each_column_block, column_times_col. Qed.
Lemma inv_mix_columns_block s : is_block s -> is_block (inv_mix_columns s).
Proof. apply each_column_block, column_times_col. Qed.

#[export] Hint Resolve add_block_block sub_bytes_block shift_rows_block mix_columns_block inv_mix_columns_block : aes.

(** ** Every transformation has its inverse *)

Lemma add_block_twice s k : length k = length s -> add_block (add_block s k) k = s.
Proof.
  revert k. induction s as [|a s IH]; intros [|b k] Hl; try done. cbn. f_equal; [apply lxor_cancel|].
  apply IH. by injection Hl.
Qed.

Lemma inv_sub_sub s : is_block s -> inv_sub_bytes (sub_bytes s) = s.
Proof.
  intros [_ H]. unfold inv_sub_bytes, sub_bytes. rewrite <- list_fmap_compose.
  rewrite <- (list_fmap_id s) at 2. apply list_fmap_ext. intros i b Hb. cbn.
  apply inv_sbox_sbox. rewrite Forall_lookup in H. by eapply H.
Qed.

Lemma inv_shift_shift s : is_block s -> inv_shift_rows (shift_rows s) = s.
Proof. sixteen s. reflexivity. Qed.

Lemma inv_mix_columns_mix s : is_block s -> inv_mix_columns (mix_columns s) = s.
Proof.
  intros (c0 & c1 & c2 & c3 & -> & H0 & H1 & H2 & H3)%is_block_cols. unfold mix_columns, inv_mix_columns.
  rewrite each_column_app by (apply H0 || apply H1 || apply H2 || apply H3).
  assert (forall c, is_col c -> length (mix_column c) = 4%nat) as Hc by (intros c Hc; apply column_times_col, Hc).
  rewrite each_column_app by auto. rewrite !inv_mix_mix by done. done.
Qed.

Lemma column_times_add p q r s c k : is_col c -> is_col k ->
  column_times p q r s (add_block c k) = add_block (column_times p q r s c) (column_times p q r s k).
Proof.
  intros (a & b & x & d & -> & ? & ? & ? & ?)%is_col_inv (a' & b' & x' & d' & -> & ? & ? & ? & ?)%is_col_inv.
  cbn [add_block zip_with column_times]. by rewrite !dot_lxor.
Qed.

Lemma add_block_app a b x y : length a = length x -> add_block (a ++ b) (x ++ y) = add_block a x ++ add_block b y.
Proof. intros L. unfold add_block. by rewrite zip_with_app. Qed.

Lemma inv_mix_columns_add s k : is_block s -> is_block k ->
  inv_mix_columns (add_block s k) = add_block (inv_mix_columns s) (inv_mix_columns k).
Proof.
  intros (c0 & c1 & c2 & c3 & -> & H0 & H1 & H2 & H3)%is_block_cols
    (k0 & k1 & k2 & k3 & -> & K0 & K1 & K2 & K3)%is_block_cols.
  assert (forall c k, is_col c -> is_col k -> length (add_block c k) = 4%nat) as Ha.
  { intros c k [Lc _] [Lk _]. unfold add_block. rewrite length_zip_with. lia. }
  assert (forall c, is_col c -> length (inv_mix_column c) = 4%nat) as Hm by (intros c Hc; by apply column_times_col).
  assert (forall c k, is_col c -> is_col k -> length c = length k) as Hl by (by intros c k [-> _] [-> _]).
  rewrite !add_block_app by auto. unfold inv_mix_columns.
  rewrite !each_column_app by (by apply Ha || apply H0 || apply H1 || apply H2 || apply H3 || apply K0 || apply K1 || apply K2 || apply K3).
  rewrite !add_block_app by (by rewrite !Hm). unfold inv_mix_column. by rewrite !column_times_add.
Qed.

(** ** The inverse cipher inverts the cipher *)

Lemma round_block s k : is_block s -> is_block k -> is_block (round s k).
Proof. unfold round. auto with aes. Qed.

Lemma rounds_block inner : forall s, is_block s -> Forall is_block inner -> is_block (foldl round s inner).
Proof.
  induction inner as [|k inner IH]; intros s Hs Hk; [done|]. apply Forall_cons in Hk as [? ?]. cbn.
  apply IH; [by apply round_block|done].
Qed.

Lemma inv_rounds inner : forall s, is_block s -> Forall is_block inner ->
  foldl inv_round (shift_rows (sub_bytes (foldl round s inner))) (reverse inner) = shift_rows (sub_bytes s).
Proof.
  induction inner as [|k inner IH] using rev_ind; intros s Hs Hk; [done|].
  apply Forall_app in Hk as [Hi [Hk _]%Forall_cons].
  rewrite foldl_app, reverse_app. cbn [foldl reverse rev_append app].
  set (u := foldl round s inner). assert (is_block u) as Hu by (by apply rounds_block).
  assert (is_block (round u k)) as Hr by (by apply round_block).
  change (reverse [k]) with [k]. cbn [app foldl]. unfold inv_round at 2.
  rewrite inv_shift_shift, inv_sub_sub by auto with aes. unfold round at 1.
  rewrite add_block_twice by (destruct Hk as [-> _]; symmetry; apply mix_columns_block; auto with aes).
  rewrite inv_mix_columns_mix by auto with aes. by apply IH.
Qed.

Lemma decrypt_encrypt first inner last s :
  is_block first -> Forall is_block inner -> is_block last -> is_block s ->
  decrypt first inner last (encrypt first inner last s) = s.
Proof.
  intros Hf Hi Hl Hs. unfold encrypt, decrypt.
  assert (is_block (foldl round (add_block s first) inner)) by (apply rounds_block; auto with aes).
  assert (is_block (shift_rows (sub_bytes (foldl round (add_block s first) inner)))) as [Hb _] by auto with aes.
  rewrite add_block_twice by (by rewrite Hb; apply Hl).
  rewrite inv_rounds, inv_shift_shift, inv_sub_sub by auto with aes.
  apply add_block_twice. destruct Hf as [-> _], Hs as [-> _]. done.
Qed.

Lemma encrypt_block first inner last s :
  is_block first -> Forall is_block inner -> is_block last -> is_block s -> is_block (encrypt first inner last s).
Proof. intros. unfold encrypt. apply add_block_block; [|done]. apply shift_rows_block, sub_bytes_block, rounds_block; auto with aes. Qed.
