(* ===== verification/PolarAesSpec.v ===== *)
(** * The bundled AES is AES

    [PolarAes.v] computes the functions of [Fips197.v]: the tables are the S-box and
    the products with it, each round of table look-ups is a round of the standard,
    the key schedules are the key expansion, and CBC chains the blocks. *)

From AAC_tactics Require Import AAC.
From S2P Require Import Prelude Endian PolarAes Fips197.

(** ** Words as columns *)

(** The four bytes of a word. *)
Definition word_bytes (x : Z) : bytes := [byte_at x 0; byte_at x 8; byte_at x 16; byte_at x 24].

Lemma byte_at_u8 x k : byte_at x k = u8 (Z.shiftr x k).
Proof. apply land_255. Qed.

Lemma byte_at_byte x k : is_byte (byte_at x k).
Proof. rewrite byte_at_u8. apply is_byte_u8. Qed.
#[export] Hint Resolve byte_at_byte : aes.

Lemma PUT_word_bytes x : PUT_UINT32_LE x = word_bytes x.
Proof. unfold word_bytes. by rewrite !byte_at_u8, Z.shiftr_0_r. Qed.

Lemma word_bytes_col x : is_col (word_bytes x).
Proof. split; [done|]. repeat (apply Forall_cons; split; [apply byte_at_byte|]). by apply Forall_nil. Qed.

Lemma word_bytes_lxor a b : word_bytes (Z.lxor a b) = add_block (word_bytes a) (word_bytes b).
Proof. unfold word_bytes. cbn [add_block zip_with]. by rewrite !byte_at_u8, !Z.shiftr_lxor, !u8_lxor. Qed.

(** Byte by byte, in another order. *)
Ltac each_byte :=
  repeat match goal with |- context [gmul ?k ?x] => generalize (gmul k x); intro end;
  repeat (apply (f_equal2 cons); [aac_reflexivity|]); reflexivity.

(** A fact about words made of one byte. *)
Ltac word_of_byte := intros b Hb;
  match goal with |- ?l = ?r =>
    let f := eval pattern b in (bool_decide (l = r)) in
    match f with ?P b => apply (bool_decide_unpack _); apply Is_true_true, (all_bytes_elim P); [by vm_compute|exact Hb] end
  end.

Lemma word_bytes_0 : forall b, is_byte b -> word_bytes b = [b; 0; 0; 0].
Proof. word_of_byte. Qed.
Lemma word_bytes_8 : forall b, is_byte b -> word_bytes (Z.shiftl b 8) = [0; b; 0; 0].
Proof. word_of_byte. Qed.
Lemma word_bytes_16 : forall b, is_byte b -> word_bytes (Z.shiftl b 16) = [0; 0; b; 0].
Proof. word_of_byte. Qed.
Lemma word_bytes_24 : forall b, is_byte b -> word_bytes (Z.shiftl b 24) = [0; 0; 0; b].
Proof. word_of_byte. Qed.

Lemma word_bytes_xor w a b c d : is_byte a -> is_byte b -> is_byte c -> is_byte d ->
  word_bytes (xor_word w a b c d) = add_block [a; b; c; d] (word_bytes w).
Proof.
  intros. unfold xor_word. rewrite !word_bytes_lxor, (word_bytes_0 a), (word_bytes_8 b), (word_bytes_16 c), (word_bytes_24 d) by done.
  unfold word_bytes. cbn [add_block zip_with]. each_byte.
Qed.

Lemma word_bytes_get b i : Forall is_byte b -> (i + 4 <= length b)%nat ->
  word_bytes (GET_UINT32_LE b i) = slice (Z.of_nat i) 4 b.
Proof.
  intros Hb Hi. unfold slice, GET_UINT32_LE. rewrite Nat2Z.id. change (Z.to_nat 4) with 4%nat.
  rewrite <- (firstn_skipn i b) in Hb. apply Forall_app in Hb as [_ Hb].
  assert (length (drop i b) = length b - i)%nat as Hl by apply length_drop.
  assert (forall j, (j < 4)%nat -> b !!! (i + j)%nat = drop i b !!! j) as Hj.
  { intros j Hj. by rewrite lookup_total_drop. }
  rewrite <- (Nat.add_0_r i) at 1. rewrite !Hj by lia.
  destruct (drop i b) as [|x0 [|x1 [|x2 [|x3 l]]]]; cbn [length] in Hl; [lia..|].
  rewrite !Forall_cons in Hb. destruct Hb as (H0 & H1 & H2 & H3 & _). cbn.
  replace (Z.lor (Z.lor (Z.lor x0 (Z.shiftl x1 8)) (Z.shiftl x2 16)) (Z.shiftl x3 24))
    with (le_val [x0; x1; x2; x3]).
  - pose proof (le_bytes_le_val [x0; x1; x2; x3]) as E. unfold word_bytes, byte_at. cbn [length le_bytes] in E.
    rewrite !Z.shiftr_shiftr in E by lia. rewrite Z.shiftr_0_r. apply E. rewrite !Forall_cons, Forall_nil. done.
  - cbn [le_val]. rewrite Z.shiftl_0_l, Z.lor_0_r, !Z.shiftl_lor, !Z.shiftl_shiftl by lia.
    by rewrite !Z.lor_assoc.
Qed.

(** ** The tables *)

Lemma fsb_sbox b : is_byte b -> fsb b = sbox b.
Proof. intros Hb. rewrite sbox_value by done. unfold fsb. by replace (FSb tables) with sbox_values by (vm_compute; reflexivity). Qed.

Lemma rsb_inv_sbox b : is_byte b -> rsb b = inv_sbox b.
Proof.
  intros Hb. assert ((0 <=? rsb b) && (rsb b <? 256) && (fsb (rsb b) =? b) = true) as H.
  { apply (all_bytes_elim (fun b => (0 <=? rsb b) && (rsb b <? 256) && (fsb (rsb b) =? b))); [by vm_compute|done]. }
  apply andb_true_iff in H as [[?%Z.leb_le ?%Z.ltb_lt]%andb_true_iff E%Z.eqb_eq].
  assert (is_byte (rsb b)) as Hr by done. rewrite fsb_sbox in E by done. rewrite <- E at 2. by rewrite inv_sbox_sbox.
Qed.

Lemma inv_sbox_byte b : is_byte b -> is_byte (inv_sbox b).
Proof.
  intros Hb. rewrite <- rsb_inv_sbox by done.
  assert ((0 <=? rsb b) && (rsb b <? 256) = true) as [?%Z.leb_le ?%Z.ltb_lt]%andb_true_iff; [|done].
  apply (all_bytes_elim (fun b => (0 <=? rsb b) && (rsb b <? 256))); [by vm_compute|done].
Qed.
#[export] Hint Resolve inv_sbox_byte : aes.

(** Each table holds a column of the matrix, times the S-box. *)
Lemma FT0_col : forall b, is_byte b ->
  word_bytes ((FT0 tables).[b]) = [gmul 2 (fsb b); gmul 1 (fsb b); gmul 1 (fsb b); gmul 3 (fsb b)].
Proof. word_of_byte. Qed.
Lemma FT1_col : forall b, is_byte b ->
  word_bytes ((FT1 tables).[b]) = [gmul 3 (fsb b); gmul 2 (fsb b); gmul 1 (fsb b); gmul 1 (fsb b)].
Proof. word_of_byte. Qed.
Lemma FT2_col : forall b, is_byte b ->
  word_bytes ((FT2 tables).[b]) = [gmul 1 (fsb b); gmul 3 (fsb b); gmul 2 (fsb b); gmul 1 (fsb b)].
Proof. word_of_byte. Qed.
Lemma FT3_col : forall b, is_byte b ->
  word_bytes ((FT3 tables).[b]) = [gmul 1 (fsb b); gmul 1 (fsb b); gmul 3 (fsb b); gmul 2 (fsb b)].
Proof. word_of_byte. Qed.
Lemma RT0_col : forall b, is_byte b ->
  word_bytes ((RT0 tables).[b]) = [gmul 14 (rsb b); gmul 9 (rsb b); gmul 13 (rsb b); gmul 11 (rsb b)].
Proof. word_of_byte. Qed.
Lemma RT1_col : forall b, is_byte b ->
  word_bytes ((RT1 tables).[b]) = [gmul 11 (rsb b); gmul 14 (rsb b); gmul 9 (rsb b); gmul 13 (rsb b)].
Proof. word_of_byte. Qed.
Lemma RT2_col : forall b, is_byte b ->
  word_bytes ((RT2 tables).[b]) = [gmul 13 (rsb b); gmul 11 (rsb b); gmul 14 (rsb b); gmul 9 (rsb b)].
Proof. word_of_byte. Qed.
Lemma RT3_col : forall b, is_byte b ->
  word_bytes ((RT3 tables).[b]) = [gmul 9 (rsb b); gmul 13 (rsb b); gmul 11 (rsb b); gmul 14 (rsb b)].
Proof. word_of_byte. Qed.

(** A word of a round is a column of the standard's round. *)
Lemma forward_column w a b c d : is_byte a -> is_byte b -> is_byte c -> is_byte d ->
  word_bytes (xor5 w ((FT0 tables).[a]) ((FT1 tables).[b]) ((FT2 tables).[c]) ((FT3 tables).[d])) =
  add_block (mix_column [sbox a; sbox b; sbox c; sbox d]) (word_bytes w).
Proof.
  intros. unfold xor5. rewrite !word_bytes_lxor, FT0_col, FT1_col, FT2_col, FT3_col, !fsb_sbox by done.
  unfold word_bytes. cbn [mix_column column_times add_block zip_with]. unfold dot.
  each_byte.
Qed.

Lemma reverse_column w a b c d : is_byte a -> is_byte b -> is_byte c -> is_byte d ->
  word_bytes (xor5 w ((RT0 tables).[a]) ((RT1 tables).[b]) ((RT2 tables).[c]) ((RT3 tables).[d])) =
  add_block (inv_mix_column [inv_sbox a; inv_sbox b; inv_sbox c; inv_sbox d]) (word_bytes w).
Proof.
  intros. unfold xor5. rewrite !word_bytes_lxor, RT0_col, RT1_col, RT2_col, RT3_col, !rsb_inv_sbox by done.
  unfold word_bytes. cbn [inv_mix_column column_times add_block zip_with]. unfold dot.
  each_byte.
Qed.

(** ** Rounds *)

(** X0 to X3 as a block, and the four words from position [p] on. *)
Definition state_of (x : quad) : bytes :=
  let '(X0, X1, X2, X3) := x in word_bytes X0 ++ word_bytes X1 ++ word_bytes X2 ++ word_bytes X3.

Definition key_at (rk : list Z) (p : nat) : bytes :=
  word_bytes (rk !!! (p + 0)%nat) ++ word_bytes (rk !!! (p + 1)%nat) ++
  word_bytes (rk !!! (p + 2)%nat) ++ word_bytes (rk !!! (p + 3)%nat).

Lemma state_of_block x : is_block (state_of x).
Proof. destruct x as [[[X0 X1] X2] X3]. apply is_block_cols. do 4 eexists. split; [done|]. auto using word_bytes_col. Qed.

Lemma key_at_block rk p : is_block (key_at rk p).
Proof. apply is_block_cols. do 4 eexists. split; [done|]. auto using word_bytes_col. Qed.
#[export] Hint Resolve state_of_block key_at_block : aes.

Lemma mix_col_length p q r s a b c d : length (column_times p q r s [a; b; c; d]) = 4%nat.
Proof. done. Qed.

Lemma fround_round rk p y : state_of (AES_FROUND rk p y) = round (state_of y) (key_at rk p).
Proof.
  destruct y as [[[Y0 Y1] Y2] Y3]. cbn [AES_FROUND state_of].
  rewrite !forward_column by apply byte_at_byte. unfold round, key_at, mix_columns, mix_column.
  match goal with |- _ = add_block (each_column _ (shift_rows (sub_bytes ?s))) _ =>
    change (shift_rows (sub_bytes s)) with
      ([sbox (byte_at Y0 0); sbox (byte_at Y1 8); sbox (byte_at Y2 16); sbox (byte_at Y3 24)] ++
       [sbox (byte_at Y1 0); sbox (byte_at Y2 8); sbox (byte_at Y3 16); sbox (byte_at Y0 24)] ++
       [sbox (byte_at Y2 0); sbox (byte_at Y3 8); sbox (byte_at Y0 16); sbox (byte_at Y1 24)] ++
       [sbox (byte_at Y3 0); sbox (byte_at Y0 8); sbox (byte_at Y1 16); sbox (byte_at Y2 24)]) end.
  rewrite each_column_app by done. by rewrite !add_block_app by done.
Qed.

Lemma rround_round rk p y :
  state_of (AES_RROUND rk p y) =
  add_block (inv_mix_columns (inv_sub_bytes (inv_shift_rows (state_of y)))) (key_at rk p).
Proof.
  destruct y as [[[Y0 Y1] Y2] Y3]. cbn [AES_RROUND state_of].
  rewrite !reverse_column by apply byte_at_byte. unfold key_at, inv_mix_columns, inv_mix_column.
  match goal with |- _ = add_block (each_column _ (inv_sub_bytes (inv_shift_rows ?s))) _ =>
    change (inv_sub_bytes (inv_shift_rows s)) with
      ([inv_sbox (byte_at Y0 0); inv_sbox (byte_at Y3 8); inv_sbox (byte_at Y2 16); inv_sbox (byte_at Y1 24)] ++
       [inv_sbox (byte_at Y1 0); inv_sbox (byte_at Y0 8); inv_sbox (byte_at Y3 16); inv_sbox (byte_at Y2 24)] ++
       [inv_sbox (byte_at Y2 0); inv_sbox (byte_at Y1 8); inv_sbox (byte_at Y0 16); inv_sbox (byte_at Y3 24)] ++
       [inv_sbox (byte_at Y3 0); inv_sbox (byte_at Y2 8); inv_sbox (byte_at Y1 16); inv_sbox (byte_at Y0 24)]) end.
  rewrite each_column_app by done. by rewrite !add_block_app by done.
Qed.

Lemma last_fround_last rk p y :
  state_of (last_fround rk p y) = add_block (shift_rows (sub_bytes (state_of y))) (key_at rk p).
Proof.
  destruct y as [[[Y0 Y1] Y2] Y3]. cbn [last_fround state_of].
  rewrite !fsb_sbox by apply byte_at_byte. rewrite !word_bytes_xor by (apply sbox_byte, byte_at_byte). done.
Qed.

Lemma last_rround_last rk p y :
  state_of (last_rround rk p y) = add_block (inv_sub_bytes (inv_shift_rows (state_of y))) (key_at rk p).
Proof.
  destruct y as [[[Y0 Y1] Y2] Y3]. cbn [last_rround state_of].
  rewrite !rsb_inv_sbox by apply byte_at_byte. rewrite !word_bytes_xor by (apply inv_sbox_byte, byte_at_byte). done.
Qed.

(** The unrolled loop is a fold over the round keys. *)
Lemma double_rounds_fold (round : nat -> quad -> quad) (R : bytes -> bytes -> bytes) rk :
  (forall p y, state_of (round p y) = R (state_of y) (key_at rk p)) ->
  forall k p x, (double_rounds round k p x).1 = (p + 8 * k)%nat /\
    state_of (double_rounds round k p x).2 =
    foldl R (state_of x) ((fun i => key_at rk (p + 4 * i)%nat) <$> seq 0 (2 * k)).
Proof.
  intros HR. induction k as [|k IH]; intros p x; [split; [cbn; lia|done]|].
  cbn [double_rounds]. destruct (IH (p + 8)%nat (round (p + 4)%nat (round p x))) as [-> ->].
  split; [lia|]. replace (2 * S k)%nat with (S (S (2 * k))) by lia. cbn [seq fmap list_fmap foldl].
  rewrite !HR, Nat.mul_0_r, Nat.add_0_r, Nat.mul_1_r.
  rewrite <- (fmap_S_seq 1), <- (fmap_S_seq 0), <- !list_fmap_compose. f_equal.
  apply list_fmap_ext. intros ? i _. unfold compose. f_equal. lia.
Qed.

(** The round keys 1 to [n - 1]. *)
Definition inner_keys_at (rk : list Z) (n : nat) : list bytes := (fun i => key_at rk (4 * i)) <$> seq 1 (n - 1).

(** The body of aes_crypt_ecb, for an even number of rounds. *)
Lemma ecb_fold (round : nat -> quad -> quad) R (lastr : list Z -> nat -> quad -> quad) L rk (n : nat) x :
  (forall p y, state_of (round p y) = R (state_of y) (key_at rk p)) ->
  (forall p y, state_of (lastr rk p y) = L (state_of y) (key_at rk p)) ->
  (1 < n)%nat -> Nat.even n = true ->
  let '(p, y) := double_rounds round (Z.to_nat (Z.shiftr (Z.of_nat n) 1 - 1)) 4 x in
  state_of (lastr rk (p + 4)%nat (round p y)) =
  L (foldl R (state_of x) (inner_keys_at rk n)) (key_at rk (4 * n)).
Proof.
  intros HR HL Hn [h Hh]%Nat.even_spec.
  assert (Z.to_nat (Z.shiftr (Z.of_nat n) 1 - 1) = h - 1)%nat as ->.
  { rewrite Z.shiftr_div_pow2 by lia. change (2 ^ 1) with 2.
    replace (Z.of_nat n) with (Z.of_nat h * 2) by lia. rewrite Z.div_mul by lia. lia. }
  destruct (double_rounds_fold round R rk HR (h - 1) 4 x) as [Ep Es].
  destruct (double_rounds round (h - 1) 4 x) as [p y]. cbn [fst snd] in *. rewrite HL, HR, Es, Ep.
  f_equal; [|f_equal; lia]. unfold inner_keys_at.
  replace (n - 1)%nat with (S (2 * (h - 1))) by lia. rewrite seq_S, fmap_app, foldl_app. cbn [fmap list_fmap foldl].
  rewrite <- (fmap_S_seq 0), <- list_fmap_compose. f_equal; [|f_equal; lia]. f_equal.
  apply list_fmap_ext. intros ? i _. unfold compose. f_equal. lia.
Qed.

Lemma first_key rk input : is_block input ->
  state_of (Z.lxor (GET_UINT32_LE input 0) (rk !!! 0%nat), Z.lxor (GET_UINT32_LE input 4) (rk !!! 1%nat),
            Z.lxor (GET_UINT32_LE input 8) (rk !!! 2%nat), Z.lxor (GET_UINT32_LE input 12) (rk !!! 3%nat)) =
  add_block input (key_at rk 0).
Proof.
  intros [Hl Hb]. cbn [state_of]. rewrite !word_bytes_lxor, !word_bytes_get by (done || lia).
  unfold key_at. cbn [Nat.add]. do 16 (destruct input as [|? input]; [done|]). by destruct input.
Qed.

Lemma ecb_encrypt ctx n input : nr ctx = Z.of_nat n -> (1 < n)%nat -> Nat.even n = true -> is_block input ->
  aes_crypt_ecb ctx true input =
  (0, encrypt (key_at (buf ctx) 0) (inner_keys_at (buf ctx) n) (key_at (buf ctx) (4 * n)) input).
Proof.
  intros En Hn He Hi. unfold aes_crypt_ecb. rewrite En. cbv zeta beta.
  change (4 * 0)%nat with 0%nat. change (4 * 1)%nat with 4%nat. change (4 * 2)%nat with 8%nat.
  change (4 * 3)%nat with 12%nat. set (x := (_, _, _, _)).
  pose proof (ecb_fold (AES_FROUND (buf ctx)) round last_fround (fun s => add_block (shift_rows (sub_bytes s))) (buf ctx) n x
    (fround_round (buf ctx)) (last_fround_last (buf ctx)) Hn He) as E.
  destruct (double_rounds _ _ _ _) as [p y].
  destruct (last_fround (buf ctx) (p + 4)%nat (AES_FROUND (buf ctx) p y)) as [[[X0 X1] X2] X3].
  rewrite !PUT_word_bytes. f_equal. cbn [state_of] in E. cbv beta in E. rewrite E. unfold x. rewrite first_key by exact Hi. reflexivity.
Qed.

Lemma ecb_decrypt ctx n input : nr ctx = Z.of_nat n -> (1 < n)%nat -> Nat.even n = true -> is_block input ->
  aes_crypt_ecb ctx false input =
  (0, add_block (inv_sub_bytes (inv_shift_rows
        (foldl (fun s k => add_block (inv_mix_columns (inv_sub_bytes (inv_shift_rows s))) k)
           (add_block input (key_at (buf ctx) 0)) (inner_keys_at (buf ctx) n)))) (key_at (buf ctx) (4 * n))).
Proof.
  intros En Hn He Hi. unfold aes_crypt_ecb. rewrite En. cbv zeta beta.
  change (4 * 0)%nat with 0%nat. change (4 * 1)%nat with 4%nat. change (4 * 2)%nat with 8%nat.
  change (4 * 3)%nat with 12%nat. set (x := (_, _, _, _)).
  pose proof (ecb_fold (AES_RROUND (buf ctx)) (fun s => add_block (inv_mix_columns (inv_sub_bytes (inv_shift_rows s)))) last_rround
    (fun s => add_block (inv_sub_bytes (inv_shift_rows s))) (buf ctx) n x
    (rround_round (buf ctx)) (last_rround_last (buf ctx)) Hn He) as E.
  destruct (double_rounds _ _ _ _) as [p y].
  destruct (last_rround (buf ctx) (p + 4)%nat (AES_RROUND (buf ctx) p y)) as [[[X0 X1] X2] X3].
  rewrite !PUT_word_bytes. f_equal. cbn [state_of] in E. cbv beta in E. rewrite E. unfold x. rewrite first_key by exact Hi. reflexivity.
Qed.

(** ** The key schedule *)

(** The [c]-th word of group [q + 1], from the words [l] of group [q] on. *)
Lemma next_word_at Nk q c pre l :
  length pre = (Nk * q)%nat -> length l = (Nk + c)%nat -> (c < Nk)%nat ->
  next_word Nk (pre ++ l) =
  add_block (l !!! c)
    (let temp := l !!! (Nk + c - 1)%nat in
     if Nat.eqb c 0 then add_block (sub_bytes (rot_word temp)) (rcon (q + 1))
     else if Nat.ltb 6 Nk && Nat.eqb c 4 then sub_bytes temp else temp).
Proof.
  intros Hp Hl Hc. unfold next_word. rewrite length_app, Hp, Hl.
  replace (Nk * q + (Nk + c))%nat with (c + (q + 1) * Nk)%nat by lia.
  rewrite Nat.Div0.mod_add, Nat.mod_small by lia. rewrite Nat.div_add, Nat.div_small by lia.
  rewrite !lookup_total_app_r by lia. rewrite Hp.
  replace (c + (q + 1) * Nk - Nk - Nk * q)%nat with c by lia.
  by replace (c + (q + 1) * Nk - 1 - Nk * q)%nat with (Nk + c - 1)%nat by lia.
Qed.

Lemma RCON_rcon (i : nat) : (i < 10)%nat -> word_bytes ((RCON tables).[Z.of_nat i]) = rcon (i + 1).
Proof. intros Hi. do 10 (destruct i as [|i]; [vm_compute; reflexivity|]). lia. Qed.

Lemma fsb_byte b : is_byte b -> is_byte (fsb b).
Proof. intros Hb. rewrite fsb_sbox by done. by apply sbox_byte. Qed.

(** The first word of a group: rotated, substituted, with the round constant. *)
Lemma group_word w r (i : nat) : (i < 10)%nat ->
  word_bytes (xor_word (Z.lxor w ((RCON tables).[Z.of_nat i])) (fsb (byte_at r 8)) (fsb (byte_at r 16))
    (fsb (byte_at r 24)) (fsb (byte_at r 0))) =
  add_block (word_bytes w) (add_block (sub_bytes (rot_word (word_bytes r))) (rcon (i + 1))).
Proof.
  intros Hi. rewrite word_bytes_xor by (apply fsb_byte, byte_at_byte).
  rewrite word_bytes_lxor, (RCON_rcon i Hi), !fsb_sbox by apply byte_at_byte.
  unfold rcon, word_bytes. generalize (Nat.iter (i + 1 - 1) (gmul 2) 1). intros x.
  change (sub_bytes (rot_word _)) with [sbox (byte_at r 8); sbox (byte_at r 16); sbox (byte_at r 24); sbox (byte_at r 0)].
  cbn [add_block zip_with]. each_byte.
Qed.

Lemma substituted_word w r :
  word_bytes (xor_word w (fsb (byte_at r 0)) (fsb (byte_at r 8)) (fsb (byte_at r 16)) (fsb (byte_at r 24))) =
  add_block (word_bytes w) (sub_bytes (word_bytes r)).
Proof.
  rewrite word_bytes_xor by (apply fsb_byte, byte_at_byte). rewrite !fsb_sbox by apply byte_at_byte.
  unfold word_bytes. change (sub_bytes _) with [sbox (byte_at r 0); sbox (byte_at r 8); sbox (byte_at r 16); sbox (byte_at r 24)].
  cbn [add_block zip_with]. each_byte.
Qed.

Lemma word_at (pre l : list Z) (n j : Z) : n = Z.of_nat (length pre) -> 0 <= j ->
  (pre ++ l).[n + j] = l.[j].
Proof. intros -> Hj. rewrite lookup_total_app_r by lia. f_equal. lia. Qed.

(** Look-ups in a list that is written out. *)
Ltac read_list := repeat match goal with
  | |- context [(?x :: ?l) !!! O] => change ((x :: l) !!! O) with x
  | |- context [(?x :: ?l) !!! S ?n] => change ((x :: l) !!! S n) with (l !!! n)
  end.

Lemma more_words_S Nk k l : more_words Nk (S k) l = more_words Nk k (l ++ [next_word Nk l]).
Proof. done. Qed.

(** The next word of the schedule: its place in the group is [c]. *)
Ltac next_word Nk i c HP :=
  rewrite more_words_S;
  lazymatch type of HP with length ?P = _ =>
    lazymatch goal with |- context [next_word _ (P ++ ?l)] =>
      rewrite (next_word_at Nk i c P l HP eq_refl ltac:(lia)) end end;
  cbn [Nat.eqb Nat.ltb Nat.leb andb Nat.add Nat.sub]; read_list; cbv zeta;
  first [rewrite <- group_word by lia | rewrite <- substituted_word | rewrite <- word_bytes_lxor];
  rewrite <- app_assoc; cbn [app].

(** The words read by one pass over the loop are those of the last group. *)
Ltac loop_words :=
  rewrite !word_at by lia;
  change (Z.to_nat 0) with 0%nat; change (Z.to_nat 1) with 1%nat; change (Z.to_nat 2) with 2%nat;
  change (Z.to_nat 3) with 3%nat; change (Z.to_nat 4) with 4%nat; change (Z.to_nat 5) with 5%nat;
  change (Z.to_nat 6) with 6%nat; change (Z.to_nat 7) with 7%nat; read_list; cbv zeta.

Lemma more_words_add Nk a b l : more_words Nk (a + b) l = more_words Nk b (more_words Nk a l).
Proof. revert l. induction a as [|a IH]; intros l; [done|]. cbn. apply IH. Qed.

Lemma expand_128_words k : forall (i : nat) pre r0 r1 r2 r3,
  length pre = (4 * i)%nat -> (i + k <= 10)%nat ->
  word_bytes <$> expand_128 k (Z.of_nat i) (pre ++ [r0; r1; r2; r3]) =
  more_words 4 (4 * k) (word_bytes <$> pre ++ [r0; r1; r2; r3]).
Proof.
  induction k as [|k IH]; intros i pre r0 r1 r2 r3 Hp Hk; [done|].
  cbn [expand_128]. loop_words.
  set (k4 := xor_word _ _ _ _ _). set (k5 := Z.lxor r1 k4). set (k6 := Z.lxor r2 k5). set (k7 := Z.lxor r3 k6).
  replace (Z.of_nat i + 1) with (Z.of_nat (S i)) by lia. rewrite IH by (rewrite ?length_app; cbn; lia).
  replace (4 * S k)%nat with (4 + 4 * k)%nat by lia. rewrite more_words_add. f_equal.
  rewrite !fmap_app, <- app_assoc. assert (length (word_bytes <$> pre) = 4 * i)%nat as HP by by rewrite length_fmap.
  cbn [fmap list_fmap].
  next_word 4%nat i 0%nat HP. fold k4. next_word 4%nat i 1%nat HP. fold k5.
  next_word 4%nat i 2%nat HP. fold k6. next_word 4%nat i 3%nat HP. fold k7. done.
Qed.

Lemma expand_192_words k : forall (i : nat) pre r0 r1 r2 r3 r4 r5,
  length pre = (6 * i)%nat -> (i + k <= 10)%nat ->
  word_bytes <$> expand_192 k (Z.of_nat i) (pre ++ [r0; r1; r2; r3; r4; r5]) =
  more_words 6 (6 * k) (word_bytes <$> pre ++ [r0; r1; r2; r3; r4; r5]).
Proof.
  induction k as [|k IH]; intros i pre r0 r1 r2 r3 r4 r5 Hp Hk; [done|].
  cbn [expand_192]. loop_words.
  set (k6 := xor_word _ _ _ _ _). set (k7 := Z.lxor r1 k6). set (k8 := Z.lxor r2 k7).
  set (k9 := Z.lxor r3 k8). set (k10 := Z.lxor r4 k9). set (k11 := Z.lxor r5 k10).
  replace (Z.of_nat i + 1) with (Z.of_nat (S i)) by lia. rewrite IH by (rewrite ?length_app; cbn; lia).
  replace (6 * S k)%nat with (6 + 6 * k)%nat by lia. rewrite more_words_add. f_equal.
  rewrite !fmap_app, <- app_assoc. assert (length (word_bytes <$> pre) = 6 * i)%nat as HP by by rewrite length_fmap.
  cbn [fmap list_fmap].
  next_word 6%nat i 0%nat HP. fold k6. next_word 6%nat i 1%nat HP. fold k7. next_word 6%nat i 2%nat HP. fold k8.
  next_word 6%nat i 3%nat HP. fold k9. next_word 6%nat i 4%nat HP. fold k10. next_word 6%nat i 5%nat HP. fold k11. done.
Qed.

Lemma expand_256_words k : forall (i : nat) pre r0 r1 r2 r3 r4 r5 r6 r7,
  length pre = (8 * i)%nat -> (i + k <= 10)%nat ->
  word_bytes <$> expand_256 k (Z.of_nat i) (pre ++ [r0; r1; r2; r3; r4; r5; r6; r7]) =
  more_words 8 (8 * k) (word_bytes <$> pre ++ [r0; r1; r2; r3; r4; r5; r6; r7]).
Proof.
  induction k as [|k IH]; intros i pre r0 r1 r2 r3 r4 r5 r6 r7 Hp Hk; [done|].
  cbn [expand_256]. loop_words.
  set (k8 := xor_word (Z.lxor r0 _) _ _ _ _). set (k9 := Z.lxor r1 k8). set (k10 := Z.lxor r2 k9).
  set (k11 := Z.lxor r3 k10). set (k12 := xor_word r4 _ _ _ _). set (k13 := Z.lxor r5 k12).
  set (k14 := Z.lxor r6 k13). set (k15 := Z.lxor r7 k14).
  replace (Z.of_nat i + 1) with (Z.of_nat (S i)) by lia. rewrite IH by (rewrite ?length_app; cbn; lia).
  replace (8 * S k)%nat with (8 + 8 * k)%nat by lia. rewrite more_words_add. f_equal.
  rewrite !fmap_app, <- app_assoc. assert (length (word_bytes <$> pre) = 8 * i)%nat as HP by by rewrite length_fmap.
  cbn [fmap list_fmap].
  next_word 8%nat i 0%nat HP. fold k8. next_word 8%nat i 1%nat HP. fold k9. next_word 8%nat i 2%nat HP. fold k10.
  next_word 8%nat i 3%nat HP. fold k11. next_word 8%nat i 4%nat HP. fold k12. next_word 8%nat i 5%nat HP. fold k13.
  next_word 8%nat i 6%nat HP. fold k14. next_word 8%nat i 7%nat HP. fold k15. done.
Qed.

Lemma key_words_get key Nk : Forall is_byte key -> length key = (4 * Nk)%nat ->
  word_bytes <$> ((fun i : nat => GET_UINT32_LE key (4 * i)) <$> seq 0 Nk) = key_words key Nk.
Proof.
  intros Hb Hl. unfold key_words. rewrite <- list_fmap_compose. apply list_fmap_ext.
  intros j i Hi. apply lookup_seq in Hi as [-> Hi]. unfold compose. cbn [Nat.add].
  rewrite word_bytes_get by (done || lia). f_equal. lia.
Qed.

Lemma length_more_words Nk k : forall l, length (more_words Nk k l) = (length l + k)%nat.
Proof. induction k as [|k IH]; intros l; cbn; [lia|]. rewrite IH, length_app. cbn. lia. Qed.

Lemma more_words_extends Nk k : forall l, exists x, more_words Nk k l = l ++ x.
Proof.
  induction k as [|k IH]; intros l; cbn; [exists []; by rewrite app_nil_r|].
  destruct (IH (l ++ [next_word Nk l])) as [x ->]. exists ([next_word Nk l] ++ x). by rewrite app_assoc.
Qed.

(** The sizes of keys: [keysize] bits are [Nk] words. *)
Inductive key_size : Z -> nat -> Prop :=
  | key_128 : key_size 128 4
  | key_192 : key_size 192 6
  | key_256 : key_size 256 8.

Lemma key_size_rounds keysize Nk : key_size keysize Nk ->
  rounds_of keysize = Some (Z.of_nat (Nk + 6)) /\ keysize / 32 = Z.of_nat Nk /\ (1 < Nk + 6)%nat /\ Nat.even (Nk + 6) = true.
Proof. intros []; repeat split; lia. Qed.

Lemma length_key_expansion key keysize Nk : key_size keysize Nk -> length key = (4 * Nk)%nat ->
  length (key_expansion key Nk) = (4 * (Nk + 7))%nat.
Proof.
  intros Hk Hl. unfold key_expansion. rewrite length_more_words. unfold key_words. rewrite length_fmap, length_seq.
  destruct Hk; lia.
Qed.

(** What [aes_setkey_enc] writes: the words of the key expansion, and some more. *)
Lemma setkey_enc_words ctx key keysize Nk : key_size keysize Nk -> Forall is_byte key -> length key = (4 * Nk)%nat ->
  exists rk junk x, aes_setkey_enc ctx key keysize = (0, mkContext (Z.of_nat (Nk + 6)) (rk ++ junk)) /\
    word_bytes <$> rk = key_expansion key Nk ++ x.
Proof.
  intros Hk Hb Hl. unfold aes_setkey_enc. pose proof (key_size_rounds _ _ Hk) as (-> & -> & _). rewrite Nat2Z.id.
  pose proof (key_words_get key Nk Hb Hl) as Hw. unfold key_expansion. rewrite <- Hw.
  destruct Hk; cbn [Nat.add Z.of_nat Pos.of_succ_nat Pos.succ Z.eqb Pos.eqb seq fmap list_fmap].
  - do 2 eexists. exists []. split; [done|]. rewrite app_nil_r. by apply (expand_128_words 10 0 []); [done|lia].
  - do 2 eexists. destruct (more_words_extends 6 2 (more_words 6 46 (word_bytes <$> ((fun i : nat => GET_UINT32_LE key (4 * i)) <$> seq 0 6)))) as [x Hx].
    exists x. split; [done|]. rewrite <- more_words_add in Hx. etrans; [apply (expand_192_words 8 0 []); [done|lia]|exact Hx].
  - do 2 eexists. destruct (more_words_extends 8 4 (more_words 8 52 (word_bytes <$> ((fun i : nat => GET_UINT32_LE key (4 * i)) <$> seq 0 8)))) as [x Hx].
    exists x. split; [done|]. rewrite <- more_words_add in Hx. etrans; [apply (expand_256_words 7 0 []); [done|lia]|exact Hx].
Qed.

(** ** Round keys *)

(** A run of [n] words from [p] on. *)
Lemma key_at_take rk p : (p + 4 <= length rk)%nat -> key_at rk p = concat (word_bytes <$> take 4 (drop p rk)).
Proof.
  intros Hp. unfold key_at. rewrite <- !lookup_total_drop. pose proof (length_drop rk p) as Hl.
  destruct (drop p rk) as [|x0 [|x1 [|x2 [|x3 l]]]]; cbn [length] in Hl; [lia..|].
  cbn [take fmap list_fmap concat]. by rewrite app_nil_r.
Qed.

Lemma key_at_round rk junk w x i : word_bytes <$> rk = w ++ x -> (4 * i + 4 <= length w)%nat ->
  key_at (rk ++ junk) (4 * i) = round_key w i.
Proof.
  intros E Hi. assert (length rk = length w + length x)%nat as Hl by by rewrite <- (length_fmap word_bytes), E, length_app.
  rewrite key_at_take by (rewrite length_app; lia). unfold round_key. f_equal.
  rewrite drop_app_le, take_app_le by (rewrite ?length_drop; lia).
  by rewrite fmap_take, fmap_drop, E, drop_app_le, take_app_le by (rewrite ?length_drop; lia).
Qed.

(** The blocks of a list of words. *)
Lemma key_at_blocks B junk : forall (j : nat) b, Forall (fun b => length b = 4%nat) B -> B !! j = Some b ->
  key_at (concat B ++ junk) (4 * j) = concat (word_bytes <$> b).
Proof.
  induction B as [|b0 B IH]; intros j b Hl Hj; [done|]. apply Forall_cons in Hl as [H0 Hl]. cbn [concat].
  destruct j as [|j].
  - injection Hj as <-. rewrite key_at_take by (rewrite !length_app; lia).
    by rewrite <- app_assoc, Nat.mul_0_r, drop_0, take_app_le, firstn_all2 by lia.
  - rewrite <- (IH j b Hl Hj). rewrite <- app_assoc. replace (4 * S j)%nat with (4 + 4 * j)%nat by lia. unfold key_at.
    rewrite <- !Nat.add_assoc. rewrite !(lookup_total_app_r b0) by lia.
    cbv beta in H0. rewrite H0. repeat (f_equal; try lia).
Qed.

Lemma key_block_length sk i : (4 * i + 4 <= length sk)%nat -> length (key_block sk i) = 4%nat.
Proof. intros Hi. unfold key_block. rewrite length_take, length_drop. lia. Qed.

Lemma key_block_words sk i : (4 * i + 4 <= length sk)%nat -> concat (word_bytes <$> key_block sk i) = key_at sk (4 * i).
Proof. intros Hi. by rewrite key_at_take by lia. Qed.

Lemma inverse_key_mix w : word_bytes (inverse_key w) = inv_mix_column (word_bytes w).
Proof.
  assert (forall b, is_byte b -> rsb (fsb b) = b) as Hr.
  { intros b Hb. by rewrite rsb_inv_sbox, fsb_sbox, inv_sbox_sbox by auto using fsb_byte. }
  unfold inverse_key. rewrite !word_bytes_lxor, RT0_col, RT1_col, RT2_col, RT3_col by apply fsb_byte, byte_at_byte.
  rewrite !Hr by apply byte_at_byte. unfold word_bytes. cbn [inv_mix_column column_times add_block zip_with].
  unfold dot. each_byte.
Qed.

Lemma inverse_block b : length b = 4%nat ->
  concat (word_bytes <$> (inverse_key <$> b)) = inv_mix_columns (concat (word_bytes <$> b)).
Proof.
  intros Hl. destruct b as [|x0 [|x1 [|x2 [|x3 [|]]]]]; try done. cbn [fmap list_fmap concat].
  rewrite !app_nil_r, !inverse_key_mix. unfold inv_mix_columns. by rewrite each_column_app.
Qed.

(** The schedule for decryption: the round keys backwards, the inner ones mixed. *)
Definition dec_blocks (sk : list Z) (n : nat) : list (list Z) :=
  key_block sk n :: ((fun i => inverse_key <$> key_block sk i) <$> reverse (seq 1 (n - 1))) ++ [key_block sk 0].

Lemma inner_keys_concat sk i :
  inner_keys i sk = concat ((fun i => inverse_key <$> key_block sk i) <$> reverse (seq 1 i)).
Proof.
  induction i as [|i IH]; [done|]. rewrite seq_S, reverse_app. cbn [inner_keys]. rewrite IH.
  change (reverse [(1 + i)%nat]) with [S i]. done.
Qed.

Lemma dec_blocks_concat sk n :
  concat (dec_blocks sk n) = key_block sk n ++ inner_keys (n - 1) sk ++ key_block sk 0.
Proof. unfold dec_blocks. cbn [concat]. rewrite concat_app, inner_keys_concat. cbn [concat]. by rewrite app_nil_r. Qed.

Lemma dec_blocks_length sk n : (4 * n + 4 <= length sk)%nat -> Forall (fun b => length b = 4%nat) (dec_blocks sk n).
Proof.
  intros Hn. apply Forall_cons. split; [by apply key_block_length|]. apply Forall_app. split.
  - apply Forall_fmap, Forall_reverse, Forall_forall. intros i Hi%elem_of_seq. cbn.
    rewrite length_fmap. apply key_block_length. lia.
  - apply Forall_cons. split; [apply key_block_length; lia|done].
Qed.

Lemma dec_key_first sk n junk : (4 * n + 4 <= length sk)%nat ->
  key_at (concat (dec_blocks sk n) ++ junk) 0 = key_at sk (4 * n).
Proof.
  intros Hn. rewrite <- key_block_words by done. apply (key_at_blocks _ _ 0); [by apply dec_blocks_length|done].
Qed.

Lemma dec_key_last sk n junk : (0 < n)%nat -> (4 * n + 4 <= length sk)%nat ->
  key_at (concat (dec_blocks sk n) ++ junk) (4 * n) = key_at sk 0.
Proof.
  intros H0 Hn. rewrite <- (Nat.mul_0_r 4) at 2. rewrite <- (key_block_words sk 0) by lia. apply key_at_blocks; [by apply dec_blocks_length|].
  unfold dec_blocks. rewrite lookup_cons_ne_0 by lia. rewrite lookup_app_r by (rewrite length_fmap, length_reverse, length_seq; lia).
  rewrite length_fmap, length_reverse, length_seq. by replace (Init.Nat.pred n - (n - 1))%nat with 0%nat by lia.
Qed.

Lemma dec_key_inner sk n junk : (0 < n)%nat -> (4 * n + 4 <= length sk)%nat ->
  inner_keys_at (concat (dec_blocks sk n) ++ junk) n = inv_mix_columns <$> reverse (inner_keys_at sk n).
Proof.
  intros H0 Hn. unfold inner_keys_at. rewrite <- fmap_reverse, <- list_fmap_compose.
  apply list_eq. intros j. rewrite !list_lookup_fmap. destruct (decide (j < n - 1)%nat) as [Hj|].
  2: { by rewrite !lookup_ge_None_2 by (rewrite ?length_reverse, length_seq; lia). }
  rewrite lookup_seq_lt by done. rewrite reverse_lookup by (rewrite length_seq; lia).
  rewrite length_seq, lookup_seq_lt by lia. cbn [fmap option_fmap option_map compose]. f_equal.
  set (i := (1 + (n - 1 - S j))%nat). rewrite <- (key_block_words sk i) by lia.
  rewrite <- inverse_block by (apply key_block_length; lia). apply key_at_blocks; [by apply dec_blocks_length|].
  unfold dec_blocks. rewrite lookup_cons_ne_0 by lia. replace (Init.Nat.pred (1 + j)) with j by lia.
  rewrite lookup_app_l by (rewrite length_fmap, length_reverse, length_seq; lia).
  rewrite list_lookup_fmap, reverse_lookup by (rewrite length_seq; lia). by rewrite length_seq, lookup_seq_lt by lia.
Qed.

(** ** The cipher *)

Lemma inv_shift_rows_block s : is_block s -> is_block (inv_shift_rows s).
Proof.
  sixteen s. split; [done|]. cbv -[is_byte].
  repeat (apply Forall_cons; split; [done|]). by apply Forall_nil.
Qed.

Lemma inv_sub_bytes_block s : is_block s -> is_block (inv_sub_bytes s).
Proof.
  intros [L H]. split; [by unfold inv_sub_bytes; rewrite length_fmap|]. apply Forall_fmap.
  eapply Forall_impl; [exact H|]. intros b. apply inv_sbox_byte.
Qed.
#[export] Hint Resolve inv_shift_rows_block inv_sub_bytes_block : aes.

(** The equivalent inverse cipher: with mixed keys, the key can be added last. *)
Lemma mixed_rounds l : forall s, is_block s -> Forall is_block l ->
  foldl (fun s k => add_block (inv_mix_columns (inv_sub_bytes (inv_shift_rows s))) k) s (inv_mix_columns <$> l) =
  foldl inv_round s l.
Proof.
  induction l as [|k l IH]; intros s Hs Hl; [done|]. apply Forall_cons in Hl as [Hk Hl].
  cbn [fmap list_fmap foldl]. unfold inv_round at 2. rewrite <- inv_mix_columns_add by auto with aes.
  apply IH; [|done]. auto with aes.
Qed.

Lemma inner_keys_block rk n : Forall is_block (inner_keys_at rk n).
Proof. apply Forall_fmap, Forall_true. intros i. apply key_at_block. Qed.

Section key.
Variables (key : bytes) (keysize : Z) (Nk : nat).
Hypothesis Hsize : key_size keysize Nk.
Hypothesis Hbytes : Forall is_byte key.
Hypothesis Hlength : length key = (4 * Nk)%nat.

(** The round keys of the standard, in the words of a context. *)
Lemma schedule_keys rk junk x : word_bytes <$> rk = key_expansion key Nk ++ x ->
  let n := (Nk + 6)%nat in
  key_at (rk ++ junk) 0 = round_key (key_expansion key Nk) 0 /\
  inner_keys_at (rk ++ junk) n = inner_round_keys (key_expansion key Nk) n /\
  key_at (rk ++ junk) (4 * n) = round_key (key_expansion key Nk) n /\
  (4 * n + 4 <= length (rk ++ junk))%nat.
Proof.
  intros E n. pose proof (length_key_expansion key keysize Nk Hsize Hlength) as Hl.
  split; [|split; [|split]].
  - rewrite <- (Nat.mul_0_r 4). apply (key_at_round rk junk _ x 0); [done|lia].
  - unfold inner_keys_at, inner_round_keys. apply list_fmap_ext. intros j i Hi.
    apply lookup_seq in Hi as [-> Hi]. apply (key_at_round rk junk _ x); [done|lia].
  - apply (key_at_round rk junk _ x); [done|lia].
  - rewrite length_app, <- (length_fmap word_bytes), E, length_app. lia.
Qed.

Lemma setkey_enc_cipher ctx : exists c, aes_setkey_enc ctx key keysize = (0, c) /\
  forall s, is_block s -> aes_crypt_ecb c true s = (0, Cipher key Nk s).
Proof.
  destruct (setkey_enc_words ctx key keysize Nk Hsize Hbytes Hlength) as (rk & junk & x & -> & E).
  eexists. split; [done|]. intros s Hs. pose proof (key_size_rounds _ _ Hsize) as (_ & _ & Hn & He).
  destruct (schedule_keys rk junk x E) as (E0 & Ei & En & _).
  rewrite (ecb_encrypt _ (Nk + 6)) by done. cbn [buf]. by rewrite E0, Ei, En.
Qed.

Lemma setkey_dec_inverse cty ctx : exists c, aes_setkey_dec cty ctx key keysize = (0, c) /\
  forall s, is_block s -> aes_crypt_ecb c false s = (0, InvCipher key Nk s).
Proof.
  unfold aes_setkey_dec. pose proof (key_size_rounds _ _ Hsize) as (-> & _ & Hn & He).
  destruct (setkey_enc_words cty key keysize Nk Hsize Hbytes Hlength) as (rk & junk & x & -> & E).
  rewrite Z.eqb_refl, Nat2Z.id. cbn [negb buf]. eexists. split; [done|]. intros s Hs.
  destruct (schedule_keys rk junk x E) as (E0 & Ei & En & Hl).
  rewrite (ecb_decrypt _ (Nk + 6)) by done. cbn [buf]. rewrite <- dec_blocks_concat.
  rewrite dec_key_first, dec_key_inner, dec_key_last by (done || lia).
  rewrite mixed_rounds; [|auto with aes|apply Forall_reverse, inner_keys_block].
  rewrite E0, Ei, En. done.
Qed.

Lemma round_keys_block : let w := key_expansion key Nk in
  is_block (round_key w 0) /\ Forall is_block (inner_round_keys w (Nk + 6)) /\ is_block (round_key w (Nk + 6)).
Proof.
  cbv zeta. destruct (setkey_enc_words (mkContext 0 []) key keysize Nk Hsize Hbytes Hlength) as (rk & junk & x & _ & E).
  destruct (schedule_keys rk junk x E) as (<- & <- & <- & _).
  split; [apply key_at_block|]. split; [apply inner_keys_block|apply key_at_block].
Qed.

Lemma Cipher_block s : is_block s -> is_block (Cipher key Nk s).
Proof. destruct round_keys_block as (? & ? & ?). intros. by apply encrypt_block. Qed.

Lemma InvCipher_Cipher s : is_block s -> InvCipher key Nk (Cipher key Nk s) = s.
Proof. destruct round_keys_block as (? & ? & ?). intros. by apply decrypt_encrypt. Qed.
End key.

(** ** CBC *)

Section cbc.
Variables (c : aes_context) (E : bytes -> bytes).

Lemma cbc_decrypt_blocks bs : forall iv, (forall s, is_block s -> aes_crypt_ecb c false s = (0, E s)) ->
  Forall is_block bs ->
  exists iv', cbc_decrypt (length bs) c (16 * blen bs) iv (concat bs) = (iv', concat (cbc_dec E iv bs)) /\
    iv' = default iv (last bs).
Proof.
  induction bs as [|b bs IH]; intros iv HE Hb; [by exists iv|]. apply Forall_cons in Hb as [Hb Hbs].
  cbn [cbc_decrypt length concat cbc_dec]. rewrite blen_cons. pose proof (blen_nonneg bs).
  destruct (Z.ltb_spec 0 (16 * (1 + blen bs))); [|lia].
  assert (length b = 16%nat) as Hl by apply Hb.
  rewrite take_app_le, firstn_all2, drop_app_ge, Hl, drop_0 by lia. rewrite HE by done.
  replace (16 * (1 + blen bs) - 16) with (16 * blen bs) by lia.
  destruct (IH b HE Hbs) as (iv' & -> & ->). eexists. split; [done|]. rewrite last_cons. by destruct (last bs).
Qed.

Lemma cbc_encrypt_blocks bs : forall iv, (forall s, is_block s -> aes_crypt_ecb c true s = (0, E s) /\ is_block (E s)) ->
  is_block iv -> Forall is_block bs ->
  exists iv', cbc_encrypt (length bs) c (16 * blen bs) iv (concat bs) = (iv', concat (cbc_enc E iv bs)) /\
    iv' = default iv (last (cbc_enc E iv bs)).
Proof.
  induction bs as [|b bs IH]; intros iv HE Hiv Hb; [by exists iv|]. apply Forall_cons in Hb as [Hb Hbs].
  cbn [cbc_encrypt length concat cbc_enc]. rewrite blen_cons. pose proof (blen_nonneg bs).
  destruct (Z.ltb_spec 0 (16 * (1 + blen bs))); [|lia].
  assert (length b = 16%nat) as Hl by apply Hb.
  rewrite take_app_le, firstn_all2, drop_app_ge, Hl, drop_0 by lia. change xor_block with add_block.
  destruct (HE (add_block b iv)) as [-> Hc]; [auto with aes|].
  replace (16 * (1 + blen bs) - 16) with (16 * blen bs) by lia.
  destruct (IH _ HE Hc Hbs) as (iv' & -> & ->). eexists. split; [done|]. rewrite last_cons.
  by destruct (last (cbc_enc E (E (add_block b iv)) bs)).
Qed.

(** The number of blocks that the length stands for. *)
Lemma cbc_length (bs : list bytes) : (16 * blen bs) mod 16 = 0 /\ Z.to_nat (16 * blen bs / 16) = length bs.
Proof.
  rewrite Z.mul_comm, Z.mod_mul, Z.div_mul by lia. split; [done|]. unfold blen. apply Nat2Z.id.
Qed.

Lemma crypt_cbc_decrypt iv bs : (forall s, is_block s -> aes_crypt_ecb c false s = (0, E s)) -> Forall is_block bs ->
  aes_crypt_cbc c false (16 * blen bs) iv (concat bs) = (0, default iv (last bs), concat (cbc_dec E iv bs)).
Proof.
  intros HE Hb. unfold aes_crypt_cbc. destruct (cbc_length bs) as [-> ->]. cbn [Z.eqb negb].
  by destruct (cbc_decrypt_blocks bs iv HE Hb) as (iv' & -> & ->).
Qed.

Lemma crypt_cbc_encrypt iv bs : (forall s, is_block s -> aes_crypt_ecb c true s = (0, E s) /\ is_block (E s)) ->
  is_block iv -> Forall is_block bs ->
  aes_crypt_cbc c true (16 * blen bs) iv (concat bs) =
  (0, default iv (last (cbc_enc E iv bs)), concat (cbc_enc E iv bs)).
Proof.
  intros HE Hiv Hb. unfold aes_crypt_cbc. destruct (cbc_length bs) as [-> ->]. cbn [Z.eqb negb].
  by destruct (cbc_encrypt_blocks bs iv HE Hiv Hb) as (iv' & -> & ->).
Qed.
End cbc.

Lemma length_cbc_enc E iv bs : length (cbc_enc E iv bs) = length bs.
Proof. revert iv. induction bs as [|b bs IH]; intros iv; cbn [cbc_enc length]; [done|]. by rewrite IH. Qed.

Lemma cbc_enc_block E bs : forall iv, (forall s, is_block s -> is_block (E s)) -> is_block iv -> Forall is_block bs ->
  Forall is_block (cbc_enc E iv bs).
Proof.
  induction bs as [|b bs IH]; intros iv HE Hiv Hb; [done|]. apply Forall_cons in Hb as [Hb Hbs].
  cbn [cbc_enc]. apply Forall_cons. split; [auto with aes|]. apply IH; auto with aes.
Qed.

Lemma cbc_dec_enc E D bs : forall iv, (forall s, is_block s -> is_block (E s)) ->
  (forall s, is_block s -> D (E s) = s) -> is_block iv -> Forall is_block bs ->
  cbc_dec D iv (cbc_enc E iv bs) = bs.
Proof.
  induction bs as [|b bs IH]; intros iv HE HD Hiv Hb; [done|]. apply Forall_cons in Hb as [Hb Hbs].
  cbn [cbc_enc cbc_dec]. rewrite HD by auto with aes. f_equal.
  - apply add_block_twice. destruct Hb as [-> _], Hiv as [-> _]. done.
  - apply IH; auto with aes.
Qed.
