(* ===== verification/Os.v ===== *)
(** * The operating system: src/compat.c

    The server reaches files, directories and sockets through POSIX calls.
    [Posix] is the interface of those calls over an abstract system state [W];
    the POSIX half of compat.c is a layer of definitions on top of it.
    [PosixView] names what can be observed of such a state, and [PosixLaws] what
    POSIX documents about the calls; nothing is said of a call on an unhealthy
    descriptor, so every error return stays possible.  [Sim] is a small concrete
    system for which all the laws are proved. *)

From S2P Require Import Prelude.

(** ** Constants of <fcntl.h>, <unistd.h>, <sys/stat.h> *)

Definition O_RDONLY : Z := 0.
Definition O_WRONLY : Z := 1.
Definition O_CREAT : Z := 64.
Definition O_TRUNC : Z := 512.
Definition SEEK_SET : Z := 0.
Definition SEEK_CUR : Z := 1.
Definition SEEK_END : Z := 2.
Definition S_IFDIR : Z := 0x4000.
Definition S_IFREG : Z := 0x8000.

(** [file_stat_t] of compat.h. *)
Record file_stat_t := mk_stat {
  file_size : Z;
  st_mtime : Z;
  st_ctime : Z;
  st_atime : Z;
  mode : Z;
}.

(** [(st.mode & S_IFDIR) == S_IFDIR] *)
Definition is_dir (st : file_stat_t) : bool := Z.land (mode st) S_IFDIR =? S_IFDIR.
Definition is_reg (st : file_stat_t) : bool := Z.land (mode st) S_IFREG =? S_IFREG.

(** ** The calls *)

Class Posix (W : Type) := {
  sys_malloc : Z -> W -> bool * W;                      (* false: NULL *)
  sys_open : bytes -> Z -> W -> Z * W;
  sys_close : Z -> W -> Z * W;
  sys_read : Z -> Z -> W -> Z * bytes * W;              (* result, bytes stored *)
  sys_write : Z -> bytes -> W -> Z * W;
  sys_lseek : Z -> Z -> Z -> W -> Z * W;
  sys_fstat : Z -> W -> Z * file_stat_t * W;
  sys_stat : bytes -> W -> Z * file_stat_t * W;
  sys_unlink : bytes -> W -> Z * W;
  sys_mkdir : bytes -> W -> Z * W;
  sys_rmdir : bytes -> W -> Z * W;
  sys_opendir : bytes -> W -> option Z * W;
  sys_readdir : Z -> W -> option bytes * W;             (* d_name *)
  sys_closedir : Z -> W -> W;
  sys_recv : Z -> Z -> W -> Z * bytes * W;              (* with MSG_WAITALL *)
  sys_send : Z -> bytes -> W -> Z * W;
  sys_shutdown : Z -> W -> W;
}.

(** ** compat.c, POSIX half *)

Definition INVALID_FD : Z := -1.
Definition FD_OK (fd : Z) : bool := 0 <=? fd.

Section compat.
Context {W : Type} `{Posix W}.

Definition open_file (path : option bytes) (oflag : Z) (w : W) : Z * W :=
  match path with
  | None => (INVALID_FD, w)
  | Some path => sys_open path oflag w
  end.

Definition close_file (fd : Z) (w : W) : Z * W := sys_close fd w.

(** The bytes [read] delivers are stored from [buf + o]. *)
Definition read_file (fd : Z) (buf : mem) (o nbyte : Z) (w : W) : Z * mem * W :=
  let '(ret, d, w) := sys_read fd nbyte w in (ret, mstore buf o d, w).

Definition write_file (fd : Z) (buf : bytes) (w : W) : Z * W := sys_write fd buf w.

Definition seek_file (fd offset whence : Z) (w : W) : Z * W := sys_lseek fd offset whence w.

(** [*fs] is written only on success. *)
Definition fstat_file (fd : Z) (fs : file_stat_t) (w : W) : Z * file_stat_t * W :=
  let '(ret, st, w) := sys_fstat fd w in
  if ret <? 0 then (ret, fs, w) else (0, st, w).

(** As every Makefile builds it: without NO_UPDATE, under which the size of a
    path with "/PS3UPDAT.PUP" is 0. *)
Definition stat_file (path : option bytes) (fs : file_stat_t) (w : W) : Z * file_stat_t * W :=
  match path with
  | None => (-1, fs, w)
  | Some path =>
      let '(ret, st, w) := sys_stat path w in
      if ret <? 0 then (ret, fs, w) else (0, st, w)
  end.
End compat.

(** ** Observations and laws *)

(** What a path names. *)
Inductive node := Regular (c : bytes) | Missing | Other.

Class PosixView (W : Type) := {
  (** contents and offset of an open regular file without pending faults *)
  fd_view : W -> Z -> option (bytes * Z);
  file_at : W -> bytes -> node;
  (** size and mode of what a path names, as [stat] answers them *)
  meta_at : W -> bytes -> option (Z * Z);
  (** the names in a directory, in the order [readdir] gives them *)
  dir_at : W -> bytes -> option (list bytes);
  (** the names an open directory has left to read *)
  dir_left : W -> Z -> option (list bytes);
  (** everything the peer of a socket has been sent *)
  sent : W -> Z -> bytes;
  (** the peer of a socket is there and reads *)
  writable : W -> Z -> Prop;
}.

Section keeps.
Context {W : Type} `{PosixView W}.

(** The file system is unchanged, and so are the descriptors in [P]. *)
Record keeps_fs (P : Z -> Prop) (w w' : W) : Prop := {
  kf_fd fd : P fd -> fd_view w' fd = fd_view w fd;
  kf_path p : file_at w' p = file_at w p;
  kf_meta p : meta_at w' p = meta_at w p;
  kf_dir p : dir_at w' p = dir_at w p;
  kf_left d : dir_left w' d = dir_left w d;
}.

(** A call on directories: of the open ones, those in [D] are unchanged. *)
Record keeps_dirs (D : Z -> Prop) (w w' : W) : Prop := {
  kd_fd fd : fd_view w' fd = fd_view w fd;
  kd_path p : file_at w' p = file_at w p;
  kd_meta p : meta_at w' p = meta_at w p;
  kd_dir p : dir_at w' p = dir_at w p;
  kd_left d : D d -> dir_left w' d = dir_left w d;
}.

Record keeps_net (w w' : W) : Prop := {
  kn_sent s : sent w' s = sent w s;
  kn_writable s : writable w s -> writable w' s;
}.

Lemma keeps_fs_refl P w : keeps_fs P w w.
Proof. by split. Qed.
Lemma keeps_fs_trans P w1 w2 w3 : keeps_fs P w1 w2 -> keeps_fs P w2 w3 -> keeps_fs P w1 w3.
Proof.
  intros A B; split; intros.
  - by rewrite (kf_fd _ _ _ B), (kf_fd _ _ _ A).
  - by rewrite (kf_path _ _ _ B), (kf_path _ _ _ A).
  - by rewrite (kf_meta _ _ _ B), (kf_meta _ _ _ A).
  - by rewrite (kf_dir _ _ _ B), (kf_dir _ _ _ A).
  - by rewrite (kf_left _ _ _ B), (kf_left _ _ _ A).
Qed.
Lemma keeps_fs_mono (P Q : Z -> Prop) w w' :
  (forall fd, Q fd -> P fd) -> keeps_fs P w w' -> keeps_fs Q w w'.
Proof. intros HPQ []; split; eauto. Qed.
Lemma keeps_net_refl w : keeps_net w w.
Proof. by split. Qed.
Lemma keeps_net_trans w1 w2 w3 : keeps_net w1 w2 -> keeps_net w2 w3 -> keeps_net w1 w3.
Proof. intros [A B] [C D]; split; intros; [by rewrite C, A|auto]. Qed.
End keeps.

Abbreviation any_fd := (fun _ : Z => True).

Class PosixLaws (W : Type) `{Posix W, PosixView W} := {
  law_view w fd c o : fd_view w fd = Some (c, o) -> 0 <= fd /\ blen c < 2 ^ 63 /\ 0 <= o < 2 ^ 63;
  law_malloc n w b w' : sys_malloc n w = (b, w') -> keeps_fs any_fd w w' /\ keeps_net w w';
  (** read(2): -1 and an error, or as many bytes as it stored, at most [n] *)
  law_read fd n w r d w' : sys_read fd n w = (r, d, w') ->
    (r = -1 /\ d = [] \/ r = blen d /\ blen d <= n) /\
    keeps_fs (fun fd' => fd' <> fd) w w' /\ keeps_net w w';
  (** ... and on a healthy regular file, all the bytes up to its end *)
  law_read_ok fd n w c o : fd_view w fd = Some (c, o) -> 0 <= n < 2 ^ 63 ->
    exists w', sys_read fd n w = (blen (slice o n c), slice o n c, w') /\
               fd_view w' fd = Some (c, o + blen (slice o n c));
  law_lseek fd off wh w r w' : sys_lseek fd off wh w = (r, w') ->
    keeps_fs (fun fd' => fd' <> fd) w w' /\ keeps_net w w';
  law_lseek_set fd off w c o : fd_view w fd = Some (c, o) -> 0 <= off < 2 ^ 63 ->
    exists w', sys_lseek fd off SEEK_SET w = (off, w') /\ fd_view w' fd = Some (c, off);
  law_lseek_neg fd off w c o : fd_view w fd = Some (c, o) -> off < 0 ->
    exists w', sys_lseek fd off SEEK_SET w = (-1, w') /\ fd_view w' fd = Some (c, o);
  law_lseek_cur fd w c o : fd_view w fd = Some (c, o) ->
    exists w', sys_lseek fd 0 SEEK_CUR w = (o, w') /\ fd_view w' fd = Some (c, o);
  law_fstat fd w r st w' : sys_fstat fd w = (r, st, w') -> keeps_fs any_fd w w' /\ keeps_net w w';
  law_fstat_ok fd w c o : fd_view w fd = Some (c, o) ->
    exists st w', sys_fstat fd w = (0, st, w') /\ file_size st = blen c;
  law_stat p w r st w' : sys_stat p w = (r, st, w') -> keeps_fs any_fd w w' /\ keeps_net w w';
  law_stat_ok p w c : file_at w p = Regular c ->
    exists st w', sys_stat p w = (0, st, w') /\ file_size st = blen c /\ is_dir st = false;
  law_stat_meta p w r st w' : sys_stat p w = (r, st, w') ->
    match meta_at w p with
    | Some (sz, md) => r = 0 /\ file_size st = sz /\ mode st = md
    | None => r = -1
    end;
  law_meta_size p w sz md : meta_at w p = Some (sz, md) -> 0 <= sz;
  law_stat_missing p w : file_at w p = Missing ->
    exists st w', sys_stat p w = (-1, st, w');
  (** open(2) for reading: a descriptor no one has, at offset 0 *)
  law_open p w fd w' : sys_open p O_RDONLY w = (fd, w') ->
    fd_view w fd = None /\ keeps_fs (fun fd' => fd' <> fd) w w' /\ keeps_net w w';
  (** [file_at] is what the server may read: a file it has no permission for is
      [Other]; and a descriptor is left (at most five clients have a few each) *)
  law_open_ok p w c : file_at w p = Regular c ->
    exists fd w', sys_open p O_RDONLY w = (fd, w') /\ 0 <= fd /\ fd_view w' fd = Some (c, 0);
  law_open_missing p w : file_at w p = Missing ->
    exists w', sys_open p O_RDONLY w = (-1, w');
  (** close(2), of a socket or of a file, which is no socket *)
  law_close fd w r w' : sys_close fd w = (r, w') ->
    keeps_fs (fun fd' => fd' <> fd) w w' /\ (forall s, sent w' s = sent w s) /\
    (forall s, s <> fd \/ fd_view w fd <> None -> writable w s -> writable w' s);
  (** opendir(3): a stream no one has, or an error *)
  law_opendir p w d w' : sys_opendir p w = (d, w') ->
    keeps_dirs (fun d' => d <> Some d') w w' /\ keeps_net w w' /\
    (forall d', d = Some d' -> dir_left w d' = None /\ dir_left w' d' = dir_at w p);
  law_readdir d w e w' : sys_readdir d w = (e, w') ->
    keeps_dirs (fun d' => d' <> d) w w' /\ keeps_net w w';
  law_readdir_ok d w l : dir_left w d = Some l ->
    exists w', sys_readdir d w = (head l, w') /\ dir_left w' d = Some (tail l);
  law_closedir d w : keeps_dirs (fun d' => d' <> d) w (sys_closedir d w) /\
    keeps_net w (sys_closedir d w) /\ dir_left (sys_closedir d w) d = None;
  law_shutdown s w : keeps_fs any_fd w (sys_shutdown s w) /\
    (forall s', sent (sys_shutdown s w) s' = sent w s');
  (** send(2): some prefix is sent; the result says when it was all of it *)
  law_send s d w r w' : sys_send s d w = (r, w') ->
    -1 <= r <= blen d /\ keeps_fs any_fd w w' /\
    (exists k, sent w' s = sent w s ++ take k d) /\
    (r = blen d -> sent w' s = sent w s ++ d) /\
    (writable w s -> r = blen d /\ writable w' s);
  law_recv s n w r d w' : sys_recv s n w = (r, d, w') ->
    (r = -1 /\ d = [] \/ r = blen d /\ blen d <= n) /\
    keeps_fs any_fd w w' /\ keeps_net w w';
}.

#[export] Hint Resolve keeps_fs_refl keeps_net_refl : netsrv.

(** The laws of one healthy descriptor, with what they leave unchanged. *)
Section healthy.
Context {W : Type} `{PosixLaws W}.
Implicit Types w : W.

Lemma read_file_ok d buf p n w c o :
  fd_view w d = Some (c, o) -> 0 <= n < 2 ^ 63 ->
  exists w', read_file d buf p n w = (blen (slice o n c), mstore buf p (slice o n c), w') /\
    fd_view w' d = Some (c, o + blen (slice o n c)) /\
    keeps_fs (fun d' => d' <> d) w w' /\ keeps_net w w'.
Proof.
  intros Hv Hn. destruct (law_read_ok d n w c o Hv Hn) as (w' & E & Hv').
  exists w'. unfold read_file. rewrite E. apply law_read in E as (_ & ? & ?). done.
Qed.

Lemma seek_set_ok d off w c o :
  fd_view w d = Some (c, o) -> 0 <= off < 2 ^ 63 ->
  exists w', seek_file d off SEEK_SET w = (off, w') /\ fd_view w' d = Some (c, off) /\
    keeps_fs (fun d' => d' <> d) w w' /\ keeps_net w w'.
Proof.
  intros Hv Hn. destruct (law_lseek_set d off w c o Hv Hn) as (w' & E & Hv').
  exists w'. unfold seek_file. pose proof (law_lseek _ _ _ _ _ _ E) as [??]. done.
Qed.

Lemma seek_cur_ok d w c o :
  fd_view w d = Some (c, o) ->
  exists w', seek_file d 0 SEEK_CUR w = (o, w') /\ fd_view w' d = Some (c, o) /\
    keeps_fs (fun d' => d' <> d) w w' /\ keeps_net w w'.
Proof.
  intros Hv. destruct (law_lseek_cur d w c o Hv) as (w' & E & Hv').
  exists w'. unfold seek_file. pose proof (law_lseek _ _ _ _ _ _ E) as [??]. done.
Qed.

Lemma fstat_file_ok d fs w c o :
  fd_view w d = Some (c, o) ->
  exists st w', fstat_file d fs w = (0, st, w') /\ file_size st = blen c /\
    keeps_fs any_fd w w' /\ keeps_net w w'.
Proof.
  intros Hv. destruct (law_fstat_ok d w c o Hv) as (st & w' & E & Hs).
  exists st, w'. unfold fstat_file. rewrite E. apply law_fstat in E as [? ?]. done.
Qed.

(** A file system call on one descriptor keeps the contents behind all. *)
Lemma view_keep d w w' c o o' d' :
  fd_view w d = Some (c, o) -> fd_view w' d = Some (c, o') ->
  keeps_fs (fun x => x <> d) w w' ->
  fst <$> fd_view w' d' = fst <$> fd_view w d'.
Proof.
  intros Hv Hv' [K _]. destruct (decide (d' = d)) as [->|Hne].
  - by rewrite Hv, Hv'.
  - by rewrite K.
Qed.
End healthy.

(** ** A concrete system

    Files and directories by path, descriptors as an array of (path, offset)
    entries, sockets by their queued input and the output delivered.  [sim_eio]
    lists the paths whose reads fail, [sim_dead] the sockets whose peer has
    gone, and [sim_oom] makes every allocation fail. *)
Module Sim.

Record sim := mk_sim {
  files : gmap bytes bytes;
  dirs : gmap bytes (list bytes);
  fds : list (option (bytes * Z));
  dirps : list (option (list bytes));
  input : gmap Z bytes;
  output : gmap Z bytes;
  sim_eio : list bytes;
  sim_dead : list Z;
  sim_oom : bool;
}.

Definition with_fds l (w : sim) : sim :=
  mk_sim (files w) (dirs w) l (dirps w) (input w) (output w) (sim_eio w) (sim_dead w) (sim_oom w).
Definition with_files l (w : sim) : sim :=
  mk_sim l (dirs w) (fds w) (dirps w) (input w) (output w) (sim_eio w) (sim_dead w) (sim_oom w).
Definition with_dirs l (w : sim) : sim :=
  mk_sim (files w) l (fds w) (dirps w) (input w) (output w) (sim_eio w) (sim_dead w) (sim_oom w).
Definition with_dirps l (w : sim) : sim :=
  mk_sim (files w) (dirs w) (fds w) l (input w) (output w) (sim_eio w) (sim_dead w) (sim_oom w).
Definition with_input l (w : sim) : sim :=
  mk_sim (files w) (dirs w) (fds w) (dirps w) l (output w) (sim_eio w) (sim_dead w) (sim_oom w).
Definition with_output l (w : sim) : sim :=
  mk_sim (files w) (dirs w) (fds w) (dirps w) (input w) l (sim_eio w) (sim_dead w) (sim_oom w).

(** The contents and offset behind a descriptor. *)
Definition fd_entry (w : sim) (fd : Z) : option (bytes * Z) :=
  if 0 <=? fd then mjoin (fds w !! Z.to_nat fd) else None.

Definition fd_data (w : sim) (fd : Z) : option (bytes * bytes * Z) :=
  '(p, o) ← fd_entry w fd; c ← files w !! p;
  if (blen c <? 2 ^ 63) && (0 <=? o) && (o <? 2 ^ 63) then Some (p, c, o) else None.

Definition set_fd (fd : Z) (e : option (bytes * Z)) (w : sim) : sim :=
  with_fds (<[Z.to_nat fd := e]> (fds w)) w.

Definition readable (w : sim) (p : bytes) : bool := negb (bool_decide (p ∈ sim_eio w)).

Definition write_at (o : Z) (d c : bytes) : bytes :=
  take (Z.to_nat o) c ++ replicate (Z.to_nat (o - blen c)) 0 ++ d ++ drop (Z.to_nat (o + blen d)) c.

Definition file_stat (c : bytes) : file_stat_t := mk_stat (blen c) 1 2 3 (S_IFREG + 420).
Definition dir_stat : file_stat_t := mk_stat 4096 1 1 1 (S_IFDIR + 493).

Definition open (p : bytes) (flags : Z) (w : sim) : Z * sim :=
  let fd := blen (fds w) in
  let add w := (fd, with_fds (fds w ++ [Some (p, 0)]) w) in
  match files w !! p with
  | Some _ => if Z.land flags O_TRUNC =? 0 then add w else add (with_files (<[p := []]> (files w)) w)
  | None => if Z.land flags O_CREAT =? 0 then (-1, w) else add (with_files (<[p := []]> (files w)) w)
  end.

Definition close (fd : Z) (w : sim) : Z * sim :=
  match fd_entry w fd with
  | Some _ => (0, set_fd fd None w)
  | None => (-1, w)
  end.

Definition read (fd n : Z) (w : sim) : Z * bytes * sim :=
  match fd_data w fd with
  | Some (p, c, o) =>
      if readable w p && (0 <=? n) then
        let d := slice o n c in (blen d, d, set_fd fd (Some (p, o + blen d)) w)
      else (-1, [], w)
  | None => (-1, [], w)
  end.

Definition write (fd : Z) (d : bytes) (w : sim) : Z * sim :=
  match fd_data w fd with
  | Some (p, c, o) =>
      if 2 ^ 63 <=? o + blen d then (-1, w) else
      (blen d, set_fd fd (Some (p, o + blen d)) (with_files (<[p := write_at o d c]> (files w)) w))
  | None => (-1, w)
  end.

Definition lseek (fd off wh : Z) (w : sim) : Z * sim :=
  match fd_data w fd with
  | Some (p, c, o) =>
      let o' := if wh =? SEEK_SET then off else if wh =? SEEK_CUR then o + off else blen c + off in
      if o' <? 0 then (-1, w) else (o', set_fd fd (Some (p, o')) w)
  | None => (-1, w)
  end.

Definition stat (p : bytes) (w : sim) : Z * file_stat_t * sim :=
  match files w !! p, dirs w !! p with
  | Some c, _ => (0, file_stat c, w)
  | None, Some _ => (0, dir_stat, w)
  | None, None => (-1, dir_stat, w)
  end.

Definition fstat (fd : Z) (w : sim) : Z * file_stat_t * sim :=
  match fd_data w fd with
  | Some (_, c, _) => (0, file_stat c, w)
  | None => (-1, dir_stat, w)
  end.

Definition send (s : Z) (d : bytes) (w : sim) : Z * sim :=
  if bool_decide (s ∈ sim_dead w) then (-1, w)
  else (blen d, with_output (<[s := default [] (output w !! s) ++ d]> (output w)) w).

Definition recv (s n : Z) (w : sim) : Z * bytes * sim :=
  if n <? 0 then (-1, [], w) else
  let q := default [] (input w !! s) in
  let d := slice 0 n q in
  (blen d, d, with_input (<[s := drop (Z.to_nat n) q]> (input w)) w).

#[export] Instance posix : Posix sim := {
  sys_malloc _ w := (negb (sim_oom w), w);
  sys_open := open;
  sys_close := close;
  sys_read := read;
  sys_write := write;
  sys_lseek := lseek;
  sys_fstat := fstat;
  sys_stat := stat;
  sys_unlink p w :=
    match files w !! p with Some _ => (0, with_files (delete p (files w)) w) | None => (-1, w) end;
  sys_mkdir p w :=
    match dirs w !! p with Some _ => (-1, w) | None => (0, with_dirs (<[p := []]> (dirs w)) w) end;
  sys_rmdir p w :=
    match dirs w !! p with Some [] => (0, with_dirs (delete p (dirs w)) w) | _ => (-1, w) end;
  sys_opendir p w :=
    match dirs w !! p with
    | Some l => (Some (blen (dirps w)), with_dirps (dirps w ++ [Some l]) w)
    | None => (None, w)
    end;
  sys_readdir d w :=
    match (if 0 <=? d then mjoin (dirps w !! Z.to_nat d) else None) with
    | Some (e :: l) => (Some e, with_dirps (<[Z.to_nat d := Some l]> (dirps w)) w)
    | _ => (None, w)
    end;
  sys_closedir d w := if 0 <=? d then with_dirps (<[Z.to_nat d := None]> (dirps w)) w else w;
  sys_recv := recv;
  sys_send := send;
  sys_shutdown s w := w;
}.

#[export] Instance view : PosixView sim := {
  fd_view w fd :=
    '(p, c, o) ← fd_data w fd; if readable w p then Some (c, o) else None;
  file_at w p :=
    match files w !! p with
    | Some c => if readable w p && (blen c <? 2 ^ 63) then Regular c else Other
    | None => match dirs w !! p with Some _ => Other | None => Missing end
    end;
  meta_at w p :=
    match files w !! p, dirs w !! p with
    | Some c, _ => Some (file_size (file_stat c), mode (file_stat c))
    | None, Some _ => Some (file_size dir_stat, mode dir_stat)
    | None, None => None
    end;
  dir_at w p := dirs w !! p;
  dir_left w d := if 0 <=? d then mjoin (dirps w !! Z.to_nat d) else None;
  sent w s := default [] (output w !! s);
  writable w s := s ∉ sim_dead w;
}.

(** The laws hold of it. *)

Lemma fd_entry_set_ne fd fd' e w : 0 <= fd -> fd' <> fd -> fd_entry (set_fd fd e w) fd' = fd_entry w fd'.
Proof.
  intros. unfold fd_entry, set_fd; cbn. zdecide; [|done].
  by rewrite list_lookup_insert_ne by lia.
Qed.

Lemma fd_entry_set_eq fd e e0 w : fd_entry w fd = Some e0 -> fd_entry (set_fd fd e w) fd = e.
Proof.
  unfold fd_entry, set_fd; cbn. zdecide; [|done]. intros E.
  rewrite list_lookup_insert_eq; [done|].
  destruct (fds w !! Z.to_nat fd) eqn:E'; [by eapply lookup_lt_Some|done].
Qed.

Lemma fd_entry_nonneg w fd e : fd_entry w fd = Some e -> 0 <= fd.
Proof. unfold fd_entry. zdecide; done. Qed.

Lemma fd_data_Some w fd p c o :
  fd_data w fd = Some (p, c, o) <->
  fd_entry w fd = Some (p, o) /\ files w !! p = Some c /\ blen c < 2 ^ 63 /\ 0 <= o < 2 ^ 63.
Proof.
  unfold fd_data. destruct (fd_entry w fd) as [[p' o']|]; cbn.
  2: { split; [done|intros [[=] _]]. }
  destruct (files w !! p') as [c'|] eqn:E; cbn.
  2: { split; [done|]. intros ([= <- <-] & E' & _). congruence. }
  destruct (Z.ltb_spec (blen c') (2 ^ 63)), (Z.leb_spec 0 o'), (Z.ltb_spec o' (2 ^ 63)); cbn;
    (split; [intros [= <- <- <-] || intros [=]; done|]);
    intros ([= <- <-] & E' & ? & ?); assert (c' = c) as -> by congruence; first [done|lia].
Qed.

Lemma fd_view_Some w fd c o :
  fd_view w fd = Some (c, o) <-> exists p, fd_data w fd = Some (p, c, o) /\ readable w p = true.
Proof.
  cbn. destruct (fd_data w fd) as [[[p c'] o']|]; cbn.
  - destruct (readable w p) eqn:E; split; try done.
    + intros [= <- <-]; by exists p.
    + by intros (p' & [= -> -> ->] & _).
    + intros (p' & [= -> -> ->] & E'); congruence.
  - split; [done|by intros (? & ? & _)].
Qed.

(** Moving one descriptor leaves everything else alone. *)
Lemma keeps_set_fd fd e w : 0 <= fd -> keeps_fs (fun fd' => fd' <> fd) w (set_fd fd e w).
Proof.
  intros Hfd. split; [|done..]. intros fd' Hne. cbn. unfold fd_data.
  rewrite fd_entry_set_ne by done. done.
Qed.

Lemma view_set_fd fd w p c o o' :
  fd_data w fd = Some (p, c, o) -> readable w p = true -> 0 <= o' < 2 ^ 63 ->
  fd_view (set_fd fd (Some (p, o')) w) fd = Some (c, o').
Proof.
  intros (E & Ef & Hc & Ho)%fd_data_Some Hr Ho'. apply fd_view_Some. exists p.
  split; [|done]. apply fd_data_Some. by erewrite fd_entry_set_eq.
Qed.

Lemma fd_data_fresh (w : sim) : fd_entry w (blen (fds w)) = None.
Proof. unfold fd_entry, blen. rewrite Nat2Z.id, lookup_ge_None_2 by done. by case_bool. Qed.

Lemma fd_entry_add (w : sim) e fd :
  fd_entry (with_fds (fds w ++ [e]) w) fd = if fd =? blen (fds w) then e else fd_entry w fd.
Proof.
  unfold fd_entry, blen; cbn. case_bool; try lia; try done.
  - subst. rewrite Nat2Z.id, lookup_app_r, Nat.sub_diag by lia. done.
  - destruct (decide (Z.to_nat fd < length (fds w))%nat).
    + by rewrite lookup_app_l by done.
    + rewrite !lookup_ge_None_2; [done| |rewrite length_app; cbn]; lia.
Qed.

Lemma slice_bound (c : bytes) o n :
  blen c < 2 ^ 63 -> 0 <= o < 2 ^ 63 -> 0 <= n -> o + blen (slice o n c) < 2 ^ 63.
Proof. intros. rewrite blen_slice by lia. lia. Qed.

Lemma open_spec p w :
  open p O_RDONLY w =
    match files w !! p with
    | Some _ => (blen (fds w), with_fds (fds w ++ [Some (p, 0)]) w)
    | None => (-1, w)
    end.
Proof. unfold open. by destruct (files w !! p). Qed.

Lemma fd_view_ext w w' fd :
  files w' = files w -> sim_eio w' = sim_eio w -> fd_entry w' fd = fd_entry w fd ->
  fd_view w' fd = fd_view w fd.
Proof. intros E1 E2 E3. cbn. unfold fd_data, readable. by rewrite E1, E2, E3. Qed.

Lemma file_at_ext w w' p :
  files w' = files w -> sim_eio w' = sim_eio w -> dirs w' = dirs w -> file_at w' p = file_at w p.
Proof. intros E1 E2 E3. cbn. unfold readable. by rewrite E1, E2, E3. Qed.

Lemma keeps_net_sim w w' :
  output w' = output w -> sim_dead w' = sim_dead w -> keeps_net w w'.
Proof. intros E1 E2. split; cbn; by rewrite ?E1, ?E2. Qed.

Lemma read_law fd n w r d w' : read fd n w = (r, d, w') ->
  (r = -1 /\ d = [] \/ r = blen d /\ blen d <= n) /\
  keeps_fs (fun fd' => fd' <> fd) w w' /\ keeps_net w w'.
Proof.
  unfold read. destruct (fd_data w fd) as [[[p c] o]|] eqn:E.
  2: { intros [= <- <- <-]. auto with netsrv. }
  destruct (readable w p); cbn.
  2: { intros [= <- <- <-]. auto with netsrv. }
  destruct (Z.leb_spec 0 n); intros [= <- <- <-]; [|auto with netsrv].
  apply fd_data_Some in E as (E & _).
  split; [right; split; [done|by apply blen_slice_le]|].
  split; [by eapply keeps_set_fd, fd_entry_nonneg|by apply keeps_net_sim].
Qed.

Lemma lseek_law fd off wh w r w' : lseek fd off wh w = (r, w') ->
  keeps_fs (fun fd' => fd' <> fd) w w' /\ keeps_net w w'.
Proof.
  unfold lseek. destruct (fd_data w fd) as [[[p c] o]|] eqn:E.
  2: { intros [= <- <-]. auto with netsrv. }
  destruct (_ <? 0); intros [= <- <-]; [auto with netsrv|].
  apply fd_data_Some in E as (E & _).
  split; [by eapply keeps_set_fd, fd_entry_nonneg|by apply keeps_net_sim].
Qed.

Lemma open_law p w fd w' : open p O_RDONLY w = (fd, w') ->
  fd_view w fd = None /\ keeps_fs (fun fd' => fd' <> fd) w w' /\ keeps_net w w'.
Proof.
  rewrite open_spec. destruct (files w !! p); intros [= <- <-].
  - split; [cbn; unfold fd_data; by rewrite fd_data_fresh|].
    split; [|by apply keeps_net_sim]. split; [|done..]. intros fd Hne.
    apply fd_view_ext; [done..|]. rewrite fd_entry_add. case_bool; [lia|done].
  - auto with netsrv.
Qed.

Lemma close_law fd w r w' : close fd w = (r, w') ->
  keeps_fs (fun fd' => fd' <> fd) w w' /\ (forall s, sent w' s = sent w s) /\
  (forall s, s <> fd \/ fd_view w fd <> None -> writable w s -> writable w' s).
Proof.
  unfold close. destruct (fd_entry w fd) eqn:E; intros [= <- <-]; [|auto with netsrv].
  split; [by eapply keeps_set_fd, fd_entry_nonneg|done].
Qed.

Lemma send_law s d w r w' : send s d w = (r, w') ->
  -1 <= r <= blen d /\ keeps_fs any_fd w w' /\
  (exists k, sent w' s = sent w s ++ take k d) /\
  (r = blen d -> sent w' s = sent w s ++ d) /\
  (writable w s -> r = blen d /\ writable w' s).
Proof.
  unfold send. case_bool_decide as Hd; intros [= <- <-]; cbn.
  - split; [blia|]. split; [auto with netsrv|]. split; [exists 0%nat; by rewrite app_nil_r|].
    split; [blia|done].
  - rewrite lookup_insert_eq. cbn. split; [blia|]. split; [done|]. split; [exists (length d); by rewrite take_ge|].
    done.
Qed.

Lemma recv_law s n w r d w' : recv s n w = (r, d, w') ->
  (r = -1 /\ d = [] \/ r = blen d /\ blen d <= n) /\ keeps_fs any_fd w w' /\ keeps_net w w'.
Proof.
  unfold recv. destruct (Z.ltb_spec n 0); intros [= <- <- <-]; [auto with netsrv|].
  split; [right; split; [done|by apply blen_slice_le]|]. split; [done|by apply keeps_net_sim].
Qed.

Lemma opendir_law p w d w' : sys_opendir p w = (d, w') ->
  keeps_dirs (fun d' => d <> Some d') w w' /\ keeps_net w w' /\
  (forall d', d = Some d' -> dir_left w d' = None /\ dir_left w' d' = dir_at w p).
Proof.
  cbn. destruct (dirs w !! p) as [l|] eqn:E; intros [= <- <-].
  2: { split; [by split|]. split; [auto with netsrv|done]. }
  split; [|split; [by apply keeps_net_sim|]].
  - split; [done..|]. intros d Hd. cbn. zdecide; [|done].
    destruct (decide (Z.to_nat d < length (dirps w))%nat).
    + by rewrite lookup_app_l by done.
    + assert (d <> blen (dirps w)) by congruence. unfold blen in *.
      rewrite !lookup_ge_None_2; [done| |rewrite length_app; cbn]; lia.
  - intros d' [= <-]. cbn. unfold blen. case_bool; [|lia]. rewrite Nat2Z.id. split.
    + by rewrite lookup_ge_None_2.
    + by rewrite lookup_app_r, Nat.sub_diag by lia.
Qed.

Lemma dirps_keep (w : sim) d l d' :
  0 <= d -> d' <> d -> dir_left (with_dirps (<[Z.to_nat d := l]> (dirps w)) w) d' = dir_left w d'.
Proof. intros. cbn. zdecide; [|done]. by rewrite list_lookup_insert_ne by lia. Qed.

Lemma readdir_law d w e w' : sys_readdir d w = (e, w') ->
  keeps_dirs (fun d' => d' <> d) w w' /\ keeps_net w w'.
Proof.
  cbn. zdecide.
  2: { intros [= <- <-]. split; [by split|auto with netsrv]. }
  destruct (mjoin (dirps w !! Z.to_nat d)) as [[|e' l]|]; intros [= <- <-];
    try (split; [by split|auto with netsrv]).
  split; [|by apply keeps_net_sim]. split; [done..|]. intros d' Hd. by apply dirps_keep.
Qed.

Lemma readdir_ok_law d w l : dir_left w d = Some l ->
  exists w', sys_readdir d w = (head l, w') /\ dir_left w' d = Some (tail l).
Proof.
  cbn. intros E. rewrite E. destruct l as [|e l].
  - exists w. by rewrite E.
  - eexists. split; [done|]. cbn. case_bool_in E; [|done].
    rewrite list_lookup_insert_eq; [done|]. destruct (dirps w !! Z.to_nat d) eqn:El; [by eapply lookup_lt_Some|done].
Qed.

Lemma closedir_law d w : keeps_dirs (fun d' => d' <> d) w (sys_closedir d w) /\
  keeps_net w (sys_closedir d w) /\ dir_left (sys_closedir d w) d = None.
Proof.
  cbn. destruct (Z.leb_spec 0 d).
  - split; [|split; [by apply keeps_net_sim|]].
    + split; [done..|]. intros d' Hd. by apply dirps_keep.
    + cbn. destruct (decide (Z.to_nat d < length (dirps w))%nat); [by rewrite list_lookup_insert_eq|].
      by rewrite list_insert_ge, lookup_ge_None_2 by lia.
  - split; [by split|]. split; [auto with netsrv|done].
Qed.

Ltac view_cases H :=
  apply fd_view_Some in H as (?p & H & ?Hr); pose proof H as (?He & ?Hf & ?Hc & ?Ho)%fd_data_Some;
  pose proof (fd_entry_nonneg _ _ _ He).

#[export] Instance laws : PosixLaws sim.
Proof.
  split; try (exact read_law || exact lseek_law || exact open_law || exact close_law
              || exact send_law || exact recv_law).
  - intros w fd c o H. by view_cases H.
  - intros n w b w' [= <- <-]. auto with netsrv.
  - intros fd n w c o H Hn. view_cases H. cbn. unfold read. rewrite H, Hr.
    destruct (Z.leb_spec 0 n); [cbn|lia]. eexists; split; [done|].
    eapply view_set_fd; [done..|]. pose proof (slice_bound c o n). blia.
  - intros fd off w c o H Hn. view_cases H. cbn. unfold lseek. rewrite H. cbn.
    destruct (Z.ltb_spec off 0); [lia|]. eexists; split; [done|]. by eapply view_set_fd.
  - intros fd off w c o H Hn. view_cases H. cbn. unfold lseek. rewrite H. cbn.
    destruct (Z.ltb_spec off 0); [|lia]. eexists; split; [done|].
    apply fd_view_Some. eauto.
  - intros fd w c o H. view_cases H. cbn. unfold lseek. rewrite H. cbn. rewrite Z.add_0_r.
    destruct (Z.ltb_spec o 0); [lia|]. eexists; split; [done|]. by eapply view_set_fd.
  - intros fd w r st w'. cbn. unfold fstat. destruct (fd_data w fd) as [[[??]?]|];
      intros [= <- <- <-]; auto with netsrv.
  - intros fd w c o H. view_cases H. cbn. unfold fstat. rewrite H. by do 2 eexists.
  - intros p w r st w'. cbn. unfold stat. destruct (files w !! p), (dirs w !! p);
      intros [= <- <- <-]; auto with netsrv.
  - intros p w c. cbn. unfold stat. destruct (files w !! p) as [c'|]; [|by destruct (dirs w !! p)].
    destruct (_ && _); [|done]. intros [= <-]. by do 2 eexists.
  - intros p w r st w'. cbn. unfold stat. destruct (files w !! p), (dirs w !! p);
      by intros [= <- <- <-].
  - intros p w sz md. cbn. destruct (files w !! p), (dirs w !! p); intros [= <- <-]; cbn; blia.
  - intros p w. cbn. unfold stat. destruct (files w !! p) as [c'|].
    { by destruct (readable w p && (blen c' <? 2 ^ 63)). }
    destruct (dirs w !! p); [done|]. intros _. by do 2 eexists.
  - intros p w c. cbn. destruct (files w !! p) as [c'|] eqn:E; [|by destruct (dirs w !! p)].
    destruct (readable w p) eqn:Er; [|done]. destruct (Z.ltb_spec (blen c') (2 ^ 63)); intros [= <-].
    rewrite open_spec, E. do 2 eexists. split; [done|]. split; [apply blen_nonneg|].
    apply fd_view_Some. exists p. split; [|done]. apply fd_data_Some.
    rewrite fd_entry_add, Z.eqb_refl. done.
  - intros p w. cbn. destruct (files w !! p) as [c'|] eqn:E.
    { destruct (readable w p && (blen c' <? 2 ^ 63)); done. }
    destruct (dirs w !! p) eqn:E'; [done|]. intros _. rewrite open_spec, E. by eexists.
  - exact opendir_law.
  - exact readdir_law.
  - exact readdir_ok_law.
  - exact closedir_law.
  - intros d w. auto with netsrv.
Qed.

End Sim.
