(* ===== verification/Stream.v ===== *)
(** * What arrives on a connection, and what a file is written

    Observations of the system that the connections of Connect.v and Upload.v are about, beside
    those of [PosixView]: the bytes a peer will send, whether memory and disk
    space last, and the descriptors that append to a file.  [StreamLaws] and
    [WriteLaws] are what POSIX documents of them; the simulated system has both. *)

From S2P Require Import Prelude Os.

(** [open(path, O_WRONLY|O_CREAT|O_TRUNC)] *)
Abbreviation O_CREATE := (Z.lor O_WRONLY (Z.lor O_CREAT O_TRUNC)).

Class StreamView (W : Type) := {
  (** all that the peer of a socket sends from now on, before it stops *)
  inflow : W -> Z -> bytes;
  (** allocations succeed, and streams for directories that are there can be had *)
  memory : W -> Prop;
  (** the path can be created, or is a file to be overwritten, and then there is
      room for [n] bytes *)
  creatable : W -> bytes -> Z -> Prop;
  (** two paths name one file, or will when it is created *)
  same_file : W -> bytes -> bytes -> Prop;
  (** when the file at a path was modified last *)
  mtime_at : W -> bytes -> Z;
}.

Class WriteView (W : Type) := {
  (** the file that a descriptor for writing appends to *)
  writing : W -> Z -> option bytes;
  (** it can be written [n] bytes more *)
  room : W -> Z -> Z -> Prop;
}.

Section keeps.
Context {W : Type} `{StreamView W}.

Record steady (w w' : W) : Prop := {
  st_inflow s : inflow w' s = inflow w s;
  st_memory : memory w -> memory w';
}.

Record keeps_names (w w' : W) : Prop := {
  kn_creatable p n : creatable w p n -> creatable w' p n;
  kn_same_file p q : same_file w' p q -> same_file w p q;
  kn_mtime p : mtime_at w' p = mtime_at w p;
}.

(** Memory lasts, and no file is modified. *)
Definition lasting (w w' : W) : Prop :=
  (memory w -> memory w') /\ forall p, mtime_at w' p = mtime_at w p.

(** The descriptors in [P] still append to their files. *)
Record keeps_writing `{WriteView W} (P : Z -> Prop) (w w' : W) : Prop := {
  kw_file d p : P d -> writing w d = Some p -> writing w' d = Some p;
  kw_room d n : P d -> room w d n -> room w' d n;
}.

Lemma steady_refl w : steady w w.
Proof. by split. Qed.
Lemma steady_trans w1 w2 w3 : steady w1 w2 -> steady w2 w3 -> steady w1 w3.
Proof. intros [A B] [C D]. split; [intros s; by rewrite C, A|auto]. Qed.
Lemma keeps_names_refl w : keeps_names w w.
Proof. by split. Qed.
Lemma keeps_names_trans w1 w2 w3 : keeps_names w1 w2 -> keeps_names w2 w3 -> keeps_names w1 w3.
Proof. intros [A B M] [C D N]. split; [auto..|]. intros p. by rewrite N, M. Qed.
Lemma lasting_trans w1 w2 w3 : lasting w1 w2 -> lasting w2 w3 -> lasting w1 w3.
Proof. intros [A B] [C D]. split; [auto|]. intros p. by rewrite D, B. Qed.
Lemma lasting_calm w w' : steady w w' /\ keeps_names w w' -> lasting w w'.
Proof. intros [[_ M] [_ _ T]]. by split. Qed.
Lemma keeps_writing_refl `{WriteView W} P w : keeps_writing P w w.
Proof. by split. Qed.
Lemma keeps_writing_trans `{WriteView W} P w1 w2 w3 :
  keeps_writing P w1 w2 -> keeps_writing P w2 w3 -> keeps_writing P w1 w3.
Proof. intros [A B] [C D]. split; auto. Qed.
End keeps.

(** No call but [recv] takes from what arrives, and reading takes no room. *)
Class StreamLaws (W : Type) `{Posix W, PosixView W, StreamView W} := {
  sl_malloc n w r w' : sys_malloc n w = (r, w') -> steady w w' /\ keeps_names w w';
  sl_malloc_ok n w : memory w -> (sys_malloc n w).1 = true;
  sl_opendir_ok p w l : memory w -> dir_at w p = Some l -> is_Some (sys_opendir p w).1;
  (** fstat(2) of a file that was just opened *)
  sl_mtime p w c d w1 st w2 : file_at w p = Regular c -> sys_open p O_RDONLY w = (d, w1) ->
    sys_fstat d w1 = (0, st, w2) -> st_mtime st = mtime_at w p;
  sl_open p w r w' : sys_open p O_RDONLY w = (r, w') -> steady w w' /\ keeps_names w w';
  sl_create p w r w' : sys_open p O_CREATE w = (r, w') ->
    steady w w' /\ forall a b, same_file w' a b -> same_file w a b;
  sl_close d w r w' : sys_close d w = (r, w') -> steady w w' /\ keeps_names w w';
  sl_read d n w r x w' : sys_read d n w = (r, x, w') -> steady w w' /\ keeps_names w w';
  sl_write d x w r w' : sys_write d x w = (r, w') ->
    steady w w' /\ forall a b, same_file w' a b -> same_file w a b;
  sl_lseek d o wh w r w' : sys_lseek d o wh w = (r, w') -> steady w w' /\ keeps_names w w';
  sl_fstat d w r st w' : sys_fstat d w = (r, st, w') -> steady w w' /\ keeps_names w w';
  sl_stat p w r st w' : sys_stat p w = (r, st, w') -> steady w w' /\ keeps_names w w';
  sl_opendir p w d w' : sys_opendir p w = (d, w') -> steady w w' /\ keeps_names w w';
  sl_readdir d w e w' : sys_readdir d w = (e, w') -> steady w w' /\ keeps_names w w';
  sl_closedir d w : steady w (sys_closedir d w) /\ keeps_names w (sys_closedir d w);
  sl_send s d w r w' : sys_send s d w = (r, w') -> steady w w' /\ keeps_names w w';
  (** recv(2) with MSG_WAITALL, from a peer that is there: the next [n] bytes, or
      what it still sends *)
  sl_recv s n w : writable w s -> 0 <= n ->
    exists w', sys_recv s n w = (blen (slice 0 n (inflow w s)), slice 0 n (inflow w s), w') /\
      inflow w' s = drop (Z.to_nat n) (inflow w s) /\ (memory w -> memory w') /\ keeps_names w w';
}.

Class WriteLaws (W : Type) `{Posix W, PosixView W, StreamView W, WriteView W} := {
  (** open(2) for writing: a new descriptor at the start of an empty file *)
  wl_create p w r w' : sys_open p O_CREATE w = (r, w') ->
    keeps_net w w' /\ forall q, ~ same_file w p q -> file_at w' q = file_at w q;
  wl_create_ok p n w : creatable w p n ->
    exists d w', sys_open p O_CREATE w = (d, w') /\ 0 <= d /\ file_at w' p = Regular [] /\
      writing w' d = Some p /\ room w' d n;
  (** ... which no other file notices, unless it is the same under another name *)
  wl_create_other p w r w' q c : sys_open p O_CREATE w = (r, w') ->
    creatable w q 0 -> file_at w q = Regular c ->
    creatable w' q 0 /\ (file_at w' q = Regular c \/ file_at w' q = Regular []);
  (** write(2): -1 and an error, or some of the bytes, appended to the file *)
  wl_write d x w r w' p c : sys_write d x w = (r, w') -> writing w d = Some p -> file_at w p = Regular c ->
    (r = -1 /\ file_at w' p = Regular c \/
     0 <= r <= blen x /\ file_at w' p = Regular (c ++ take (Z.to_nat r) x)) /\
    writing w' d = Some p /\ keeps_net w w' /\
    (forall q, ~ same_file w p q -> file_at w' q = file_at w q);
  wl_write_ok d x w p n : writing w d = Some p -> room w d n -> blen x <= n ->
    exists w', sys_write d x w = (blen x, w') /\ room w' d (n - blen x);
  wl_fstat d w p : writing w d = Some p -> exists st w', sys_fstat d w = (0, st, w');
  wl_malloc n w r w' : sys_malloc n w = (r, w') -> keeps_writing any_fd w w';
  wl_stat p w r st w' : sys_stat p w = (r, st, w') -> keeps_writing any_fd w w';
  wl_send s d w r w' : sys_send s d w = (r, w') -> keeps_writing any_fd w w';
  wl_recv s n w r d w' : sys_recv s n w = (r, d, w') -> keeps_writing any_fd w w';
  wl_open p w d w' : sys_open p O_RDONLY w = (d, w') -> writing w d = None /\ keeps_writing any_fd w w';
  wl_close d w r w' : sys_close d w = (r, w') -> keeps_writing (fun d' => d' <> d) w w';
  wl_read d n w r x w' : sys_read d n w = (r, x, w') -> keeps_writing (fun d' => d' <> d) w w';
  wl_lseek d o wh w r w' : sys_lseek d o wh w = (r, w') -> keeps_writing (fun d' => d' <> d) w w';
}.

(** ** The simulated system *)

Module SimStream.
Import Sim.

#[export] Instance stream : StreamView sim := {
  inflow w s := default [] (input w !! s);
  memory w := sim_oom w = false;
  creatable w p n := readable w p = true /\ 0 <= n < 2 ^ 63;
  same_file w p q := p = q;
  mtime_at w p := 1;
}.

#[export] Instance write_view : WriteView sim := {
  writing w d := '(p, c, o) ← fd_data w d; if readable w p && (o =? blen c) then Some p else None;
  room w d n := exists p c o, fd_data w d = Some (p, c, o) /\ 0 <= n /\ o + n < 2 ^ 63;
}.

Lemma same_all w w' : input w' = input w -> sim_oom w' = sim_oom w -> sim_eio w' = sim_eio w ->
  steady w w' /\ keeps_names w w'.
Proof.
  intros E1 E2 E3. split; [split; cbn; [intros s; by rewrite E1|by rewrite E2]|].
  split; [|done..]. intros p n. cbn. unfold readable. by rewrite E3.
Qed.

(** A descriptor that is what it was still appends. *)
Lemma writing_ext (P : Z -> Prop) w w' : files w' = files w -> sim_eio w' = sim_eio w ->
  (forall d, P d -> fd_entry w d <> None -> fd_entry w' d = fd_entry w d) -> keeps_writing P w w'.
Proof.
  intros Ef Ee Ed.
  assert (forall d p c o, P d -> fd_data w d = Some (p, c, o) -> fd_data w' d = Some (p, c, o)) as Hd.
  { intros d p c o Hp E. pose proof E as (Een & Hf & Hc & Ho)%fd_data_Some. apply fd_data_Some.
    rewrite Ef, Ed by congruence. done. }
  split; cbn; unfold readable; rewrite ?Ee.
  - intros d p Hp. destruct (fd_data w d) as [[[p' c] o]|] eqn:E; [|done]. by rewrite (Hd _ _ _ _ Hp E).
  - intros d n Hp (p & c & o & E & ?). exists p, c, o. split; [|done]. by apply Hd.
Qed.

Ltac same_sim :=
  intros;
  repeat match goal with
  | H : context [match ?e with _ => _ end] |- _ => destruct e
  | H : (_, _) = (_, _) |- _ => injection H; clear H; intros; subst
  end;
  first [ by apply same_all | split; [by eapply proj1, same_all|done] ].

#[export] Instance stream_laws : StreamLaws sim.
Proof.
  split; cbn; unfold open, close, read, write, lseek, fstat, stat, send; try (same_sim; fail).
  - intros n w E. by rewrite E.
  - intros p w l _ E. by rewrite E.
  - intros p w c d w1 st w2 _. change (open p O_RDONLY w = (d, w1) -> fstat d w1 = (0, st, w2) -> st_mtime st = 1).
    rewrite open_spec. unfold fstat. destruct (files w !! p); intros [= <- <-];
      destruct (fd_data _ _) as [[[q x] o]|]; by intros [= <- <-].
  - intros d w. destruct (0 <=? d); by apply same_all.
  - intros s n w _ Hn. unfold recv. destruct (Z.ltb_spec n 0); [lia|].
    eexists. split; [done|]. cbn. rewrite lookup_insert_eq. split; [done|]. split; [done|]. by split.
Qed.

Lemma writing_data w d p : writing w d = Some p <-> exists c,
  fd_data w d = Some (p, c, blen c) /\ readable w p = true.
Proof.
  cbn. destruct (fd_data w d) as [[[p' c] o]|]; cbn.
  2: { split; [done|]. by intros (? & ? & _). }
  destruct (readable w p') eqn:Er; cbn; [destruct (Z.eqb_spec o (blen c)) as [->|Hne]|];
    (split; [intros [= <-]; by exists c || done|]); intros (? & [=] & ?); congruence.
Qed.

Lemma write_at_end c x : write_at (blen c) x c = c ++ x.
Proof.
  unfold write_at, blen. rewrite Z.sub_diag, take_ge, drop_ge by lia. cbn [replicate Z.to_nat app].
  by rewrite app_nil_r.
Qed.

(** One file is changed. *)
Record changes (p x : bytes) (w w' : sim) : Prop := {
  ch_files : files w' = <[p := x]> (files w);
  ch_dirs : dirs w' = dirs w;
  ch_eio : sim_eio w' = sim_eio w;
  ch_net : keeps_net w w';
}.

Lemma changes_readable p x w w' q : changes p x w w' -> readable w' q = readable w q.
Proof. intros [_ _ E _]. unfold readable. by rewrite E. Qed.

Lemma changes_file p x w w' : changes p x w w' -> readable w p = true -> blen x < 2 ^ 63 ->
  file_at w' p = Regular x.
Proof.
  intros C Hr Hx. cbn. rewrite (ch_files _ _ _ _ C), lookup_insert_eq, (changes_readable _ _ _ _ _ C), Hr.
  cbn. case_bool; [done|lia].
Qed.

Lemma changes_other p x w w' q : changes p x w w' -> p <> q -> file_at w' q = file_at w q.
Proof.
  intros C Hne. cbn. by rewrite (ch_files _ _ _ _ C), lookup_insert_ne, (changes_readable _ _ _ _ _ C),
    (ch_dirs _ _ _ _ C).
Qed.

(** A write at the end of a file. *)
Lemma write_end w d p c x :
  fd_data w d = Some (p, c, blen c) -> blen c + blen x < 2 ^ 63 ->
  exists w', write d x w = (blen x, w') /\ fd_data w' d = Some (p, c ++ x, blen (c ++ x)) /\
    changes p (c ++ x) w w'.
Proof.
  intros E Hx. unfold write. rewrite E. destruct (Z.leb_spec (2 ^ 63) (blen c + blen x)); [lia|].
  eexists. split; [done|]. rewrite write_at_end. split; [|split; try done; by apply keeps_net_sim].
  pose proof E as (Ee & Ef & Hc & Ho)%fd_data_Some. apply fd_data_Some.
  rewrite blen_app. split; [|split; [cbn; by rewrite lookup_insert_eq|blia]].
  rewrite (fd_entry_set_eq d _ (p, blen c)); done.
Qed.

Lemma open_create p w : exists w', open p O_CREATE w = (blen (fds w), w') /\ changes p [] w w' /\
  fd_data w' (blen (fds w)) = Some (p, [], 0).
Proof.
  unfold open. assert (forall w1, files w1 = <[p := []]> (files w) -> fds w1 = fds w ++ [Some (p, 0)] ->
    fd_data w1 (blen (fds w)) = Some (p, [], 0)) as Hd.
  { intros w1 Ef Ed. apply fd_data_Some. rewrite Ef, lookup_insert_eq. split; [|done]. unfold fd_entry, blen.
    case_bool; [|lia]. rewrite Nat2Z.id, Ed, lookup_app_r, Nat.sub_diag by lia. done. }
  destruct (files w !! p); cbn [O_CREATE O_WRONLY O_CREAT O_TRUNC Z.lor Pos.lor Z.land Pos.land Z.eqb];
    (eexists; split; [done|]; split; [split; try done; by apply keeps_net_sim|by apply Hd]).
Qed.

Lemma write_law d x w r w' p c : write d x w = (r, w') -> writing w d = Some p -> file_at w p = Regular c ->
  (r = -1 /\ file_at w' p = Regular c \/
   0 <= r <= blen x /\ file_at w' p = Regular (c ++ take (Z.to_nat r) x)) /\
  writing w' d = Some p /\ keeps_net w w' /\ (forall q, ~ same_file w p q -> file_at w' q = file_at w q).
Proof.
  intros E (c' & Hd & Hr)%writing_data Hf. pose proof Hd as (_ & Ec & Hc & _)%fd_data_Some.
  assert (c' = c) as ->. { cbn in Hf. rewrite Ec, Hr in Hf. cbn in Hf. by destruct (_ <? _); simplify_eq. }
  destruct (Z.ltb_spec (blen c + blen x) (2 ^ 63)).
  - destruct (write_end w d p c x Hd) as (w1 & E1 & Hd1 & C); [done|].
    rewrite E in E1. injection E1 as -> ->.
    split; [right|split; [|split; [apply C|intros q; by apply (changes_other _ _ _ _ _ C)]]].
    + split; [blia|]. rewrite take_ge by (unfold blen; lia). apply (changes_file _ _ _ _ C Hr). rewrite blen_app. lia.
    + apply writing_data. exists (c ++ x). by rewrite (changes_readable _ _ _ _ _ C).
  - unfold write in E. rewrite Hd in E. destruct (Z.leb_spec (2 ^ 63) (blen c + blen x)); [|lia].
    injection E as <- <-. split; [by left|]. split; [|auto with netsrv]. apply writing_data. by eexists.
Qed.

#[export] Instance write_laws : WriteLaws sim.
Proof.
  split.
  - intros p w r w' E. cbn in E. destruct (open_create p w) as (w1 & E1 & C & _). rewrite E1 in E.
    injection E as <- <-. split; [apply C|]. intros q. by apply (changes_other _ _ _ _ _ C).
  - intros p n w [Hr Hn]. destruct (open_create p w) as (w' & E & C & Hd). exists (blen (fds w)), w'.
    split; [done|]. split; [apply blen_nonneg|]. split; [by apply (changes_file _ _ _ _ C Hr)|].
    split; [apply writing_data; exists []; by rewrite (changes_readable _ _ _ _ _ C)|].
    cbn. exists p, [], 0. split; [done|lia].
  - intros p w r w' q c E [Hr Hn] Hf. cbn in E. destruct (open_create p w) as (w1 & E1 & C & _).
    rewrite E1 in E. injection E as <- <-. split; [by cbn; rewrite (changes_readable _ _ _ _ _ C)|].
    destruct (decide (p = q)) as [->|Hne]; [right; by apply (changes_file _ _ _ _ C Hr)|left].
    by rewrite (changes_other _ _ _ _ _ C Hne).
  - exact write_law.
  - intros d x w p n (c & Hd & Hr)%writing_data (p' & c' & o & Hd' & Hn & Ho) Hx.
    rewrite Hd in Hd'. injection Hd' as <- <- <-.
    destruct (write_end w d p c x Hd) as (w1 & E1 & Hd1 & _); [lia|].
    exists w1. split; [done|]. exists p, (c ++ x), (blen (c ++ x)). split; [done|]. rewrite blen_app. lia.
  - intros d w p (c & Hd & _)%writing_data. cbn. unfold fstat. rewrite Hd. by do 2 eexists.
  - by intros n w r w' [= <- <-].
  - intros p w r st w'. cbn. unfold stat. destruct (files w !! p), (dirs w !! p); by intros [= <- <- <-].
  - intros s d w r w'. cbn. unfold send. case_bool_decide; by intros [= <- <-].
  - intros s n w r d w'. cbn. unfold recv. destruct (n <? 0); by intros [= <- <- <-].
  - intros p w d w'. cbn. rewrite open_spec. destruct (files w !! p); intros [= <- <-].
    + split; [unfold fd_data; by rewrite fd_data_fresh|]. apply writing_ext; [done..|]. intros d _ Hd.
      rewrite fd_entry_add. case_bool; [|done]. subst. by rewrite fd_data_fresh in Hd.
    + split; [done|apply keeps_writing_refl].
  - intros d w r w'. cbn. unfold close. destruct (fd_entry w d) eqn:E; intros [= <- <-]; [|apply keeps_writing_refl].
    apply writing_ext; [done..|]. intros d' Hne _. apply fd_entry_set_ne; [by eapply fd_entry_nonneg|done].
  - intros d n w r x w'. cbn. unfold read. destruct (fd_data w d) as [[[p c] o]|] eqn:E;
      [|intros [= <- <- <-]; apply keeps_writing_refl].
    destruct (_ && _); intros [= <- <- <-]; [|apply keeps_writing_refl]. apply fd_data_Some in E as [E _].
    apply writing_ext; [done..|]. intros d' Hne _. apply fd_entry_set_ne; [by eapply fd_entry_nonneg|done].
  - intros d o wh w r w'. cbn. unfold lseek. destruct (fd_data w d) as [[[p c] o']|] eqn:E;
      [|intros [= <- <-]; apply keeps_writing_refl].
    destruct (_ <? 0); intros [= <- <-]; [apply keeps_writing_refl|]. apply fd_data_Some in E as [E _].
    apply writing_ext; [done..|]. intros d' Hne _. apply fd_entry_set_ne; [by eapply fd_entry_nonneg|done].
Qed.

End SimStream.

#[export] Existing Instances SimStream.stream SimStream.write_view SimStream.stream_laws SimStream.write_laws.
