(* ===== verification/CString.v ===== *)
(** * C strings

    A NUL-terminated string is the list of its bytes before the NUL.  The
    functions of <string.h> the code calls, on such lists; a pointer into a
    string is its offset. *)

From S2P Require Import Prelude.

(** The string at the start of a buffer: the bytes before the first NUL. *)
Fixpoint cstr (l : bytes) : bytes :=
  match l with
  | [] => []
  | b :: l => if b =? 0 then [] else b :: cstr l
  end.

Definition strlen (s : bytes) : Z := blen s.

Fixpoint starts_with (needle s : bytes) : bool :=
  match needle, s with
  | [], _ => true
  | c :: needle, d :: s => (c =? d) && starts_with needle s
  | _ :: _, [] => false
  end.

(** [strstr(s, needle) - s], or [None] for NULL. *)
Fixpoint strstr (s needle : bytes) : option Z :=
  if starts_with needle s then Some 0
  else match s with
       | [] => None
       | _ :: s => (fun o => 1 + o) <$> strstr s needle
       end.

(** [strstr(s + o, needle) - s] *)
Definition strstr_from (o : Z) (s needle : bytes) : option Z :=
  (fun i => o + i) <$> strstr (drop (Z.to_nat o) s) needle.

(** [strrchr(s, c) - s] *)
Fixpoint strrchr (s : bytes) (c : Z) : option Z :=
  match s with
  | [] => None
  | d :: s => match strrchr s c with
              | Some o => Some (1 + o)
              | None => if d =? c then Some 0 else None
              end
  end.

(** [strncmp(a, b, n) == 0] *)
Fixpoint strncmp_eq (a b : bytes) (n : nat) : bool :=
  match n, a, b with
  | O, _, _ => true
  | S n, x :: a, y :: b => (x =? y) && strncmp_eq a b n
  | S _, [], [] => true
  | S _, _, _ => false
  end.

(** [memcmp(a, b, n) == 0] on the bytes of two objects. *)
Definition bytes_eqb (a b : bytes) : bool := bool_decide (a = b).

(** [sprintf("%i", i)] for the non-negative values the code prints. *)
Definition dec2 (i : Z) : bytes :=
  if i <? 10 then [48 + i] else [48 + i / 10; 48 + i mod 10].

(** Overwrite the bytes of [l] from offset [o] with [d]. *)
Definition overwrite (o : Z) (d l : bytes) : bytes :=
  take (Z.to_nat o) l ++ d ++ drop (Z.to_nat (o + blen d)) l.

Lemma starts_with_spec needle s :
  starts_with needle s = true <-> exists t, s = needle ++ t.
Proof.
  revert s; induction needle as [|c needle IH]; intros [|d s]; cbn.
  1, 2: split; [by eexists|done].
  - split; [done|by intros [??]].
  - rewrite andb_true_iff, IH. split.
    + intros (->%Z.eqb_eq & t & ->). by eexists.
    + intros (t & [= -> ->]). rewrite Z.eqb_refl. eauto.
Qed.

Lemma strstr_Some s needle o :
  strstr s needle = Some o ->
  0 <= o /\ exists pre post, s = pre ++ needle ++ post /\ blen pre = o.
Proof.
  revert o; induction s as [|c s IH]; intros o; cbn.
  - destruct (starts_with needle []) eqn:E; [|done]. intros [= <-].
    apply starts_with_spec in E as [t E]. split; [lia|]. by exists [], t.
  - destruct (starts_with needle (c :: s)) eqn:E.
    + intros [= <-]. apply starts_with_spec in E as [t E]. split; [lia|]. by exists [], t.
    + destruct (strstr s needle) as [o'|]; [|done]. intros [= <-].
      destruct (IH o' eq_refl) as (? & pre & post & -> & ?). split; [lia|].
      exists (c :: pre), post. split; [done|]. rewrite blen_cons. lia.
Qed.

Lemma strstr_None s needle pre post : strstr s needle = None -> s <> pre ++ needle ++ post.
Proof.
  revert pre; induction s as [|c s IH]; intros pre; cbn.
  - destruct (starts_with needle []) eqn:E; [done|]. intros _ E'.
    symmetry in E'. apply app_nil in E' as [-> [-> ->]%app_nil]. done.
  - destruct (starts_with needle (c :: s)) eqn:E; [done|].
    destruct (strstr s needle) eqn:E'; [done|]. intros _ E''.
    destruct pre as [|d pre].
    + assert (starts_with needle (c :: s) = true) by (apply starts_with_spec; by eexists).
      congruence.
    + injection E'' as -> ->. by eapply IH.
Qed.

(** [strstr] finds the first occurrence. *)
Lemma strstr_first s needle o pre post :
  strstr s needle = Some o -> s = pre ++ needle ++ post -> o <= blen pre.
Proof.
  revert o pre; induction s as [|c s IH]; intros o pre; cbn.
  - destruct (starts_with needle []); [|done]. intros [= <-] _. auto with netsrv.
  - destruct (starts_with needle (c :: s)) eqn:E; [intros [= <-] _; auto with netsrv|].
    destruct (strstr s needle) as [o'|]; [|done]. intros [= <-] E'.
    destruct pre as [|d pre].
    + assert (starts_with needle (c :: s) = true) by (apply starts_with_spec; by eexists).
      congruence.
    + injection E' as -> ->. rewrite blen_cons. specialize (IH o' pre eq_refl eq_refl). lia.
Qed.

Lemma starts_with_app n a b :
  (length n <= length a)%nat -> starts_with n (a ++ b) = starts_with n a.
Proof.
  revert a; induction n as [|c n IH]; intros [|d a] Hl; cbn in *; try done; [lia|].
  rewrite IH by lia. done.
Qed.

Lemma strstr_length s needle o : strstr s needle = Some o -> (length needle <= length s)%nat.
Proof. intros (_ & pre & post & -> & _)%strstr_Some. rewrite !length_app. lia. Qed.

(** The first occurrence stays the first when the string grows on the right. *)
Lemma strstr_app s needle o t : strstr s needle = Some o -> strstr (s ++ t) needle = Some o.
Proof.
  revert o; induction s as [|c s IH]; intros o E; pose proof (strstr_length _ _ _ E) as Hl.
  - destruct needle; [|cbn in Hl; lia]. cbn in *. by destruct t.
  - change ((c :: s) ++ t) with (c :: s ++ t). cbn [strstr] in *.
    pose proof (starts_with_app needle (c :: s) t Hl) as Hst.
    change ((c :: s) ++ t) with (c :: s ++ t) in Hst. rewrite Hst.
    destruct (starts_with needle (c :: s)); [done|].
    destruct (strstr s needle) as [o'|]; [|done]. injection E as <-. by rewrite (IH o').
Qed.

Lemma strncmp_eq_app p s : strncmp_eq (p ++ s) p (length p) = true.
Proof. induction p; cbn; [by destruct s|]. by rewrite Z.eqb_refl. Qed.

Lemma cstr_no_nul l : Forall (fun b => b <> 0) (cstr l).
Proof. induction l as [|b l IH]; cbn; [done|]. destruct (Z.eqb_spec b 0); by constructor. Qed.

Lemma cstr_id l : Forall (fun b => b <> 0) l -> cstr l = l.
Proof. induction 1 as [|b l Hb _ IH]; cbn; [done|]. destruct (Z.eqb_spec b 0); congruence. Qed.
