(* ===== verification/AbsFile.v ===== *)
(** * The file interface: include/AbstractFile.h

    The server reads and writes through [AbstractFile]; [File] (FileIso.v) and
    the virtual ISO implement it.  The class [AbstractFile] is the C++ class;
    [AbstractFileLaws] is what an implementation promises the command handlers:
    its contents are a byte string, seeking moves the read position, and a read
    delivers a prefix of the bytes at the position, all of the requested ones
    that exist when [supportsBulkRead] answers true. *)

From S2P Require Import Prelude Os.

Class AbstractFile (F W : Type) := {
  (** [None] when the call has undefined behaviour *)
  af_open : option bytes -> Z -> F -> W -> option (Z * F * W);
  af_close : F -> W -> Z * F * W;
  (** result, memory after the stores at [buf + o] *)
  af_read : mem -> Z -> Z -> F -> W -> Z * mem * F * W;
  af_write : bytes -> F -> W -> Z * F * W;
  af_seek : Z -> Z -> F -> W -> Z * F * W;
  af_fstat : file_stat_t -> F -> W -> Z * file_stat_t * F * W;
  supportsBulkRead : F -> bool;
  (** the destructor *)
  af_delete : F -> W -> W;
}.

Class AbstractFileView (F W : Type) := {
  (** contents and read position of an open, healthy file *)
  af_view : F -> W -> option (bytes * Z);
}.

Class AbstractFileLaws (F W : Type)
    `{AbstractFile F W, AbstractFileView F W, Posix W, PosixView W} := {
  afl_view f w c p : af_view f w = Some (c, p) -> blen c < 2 ^ 63 /\ 0 <= p < 2 ^ 63;
  (** files do not depend on what is sent or allocated *)
  afl_frame f w w' : keeps_fs any_fd w w' -> af_view f w' = af_view f w;
  afl_seek f w c p off : af_view f w = Some (c, p) -> 0 <= off < 2 ^ 63 ->
    exists r f' w', af_seek off SEEK_SET f w = (r, f', w') /\ keeps_net w w' /\
      supportsBulkRead f' = supportsBulkRead f /\
      (0 <= r /\ af_view f' w' = Some (c, off) \/
       r < 0 /\ af_view f' w' = Some (c, p) /\ supportsBulkRead f = false /\ blen c <= off);
  afl_seek_neg f w c p off : af_view f w = Some (c, p) -> - 2 ^ 63 <= off < 0 ->
    exists r f' w', af_seek off SEEK_SET f w = (r, f', w') /\ keeps_net w w' /\ r < 0;
  afl_read f w c p m o n : af_view f w = Some (c, p) -> 0 <= n < 2 ^ 63 ->
    exists r m' f' w', af_read m o n f w = (r, m', f', w') /\ keeps_net w w' /\
      supportsBulkRead f' = supportsBulkRead f /\
      0 <= r <= blen (slice p n c) /\
      mload m' o r = slice p r c /\ same_outside o n m m' /\
      af_view f' w' = Some (c, p + r) /\
      (supportsBulkRead f = true -> r = blen (slice p n c));
  afl_fstat f w c p st : af_view f w = Some (c, p) ->
    exists st' f' w', af_fstat st f w = (0, st', f', w') /\ keeps_net w w' /\
      supportsBulkRead f' = supportsBulkRead f /\
      file_size st' = blen c /\ af_view f' w' = Some (c, p);
}.
