(* ===== verification/FileIso.v ===== *)
(** * Disc images: src/File.cpp, include/File.h

    [File] serves a plain file, an image split over [*.iso.0], [*.iso.1], ... or
    an encrypted PS3 image (Redump key file, 3k3y watermark).  Every method of
    the class is a definition here: the constructor and destructor, [open] with
    its part and key discovery, [close], [read] with the 3k3y masking and the
    sector decryption, [write], [seek], [fstat] and [supportsBulkRead].  The AES
    primitives are the interface [Aes] of the library the class calls.  The
    [OPT_FILE_SEEK] macros expand to nothing in every build file. *)

From S2P Require Import Prelude Endian CMem CString Os AbsFile.

(** ** The AES library (mbed TLS, or the bundled PolarSSL with the same calls) *)

Class Aes := {
  aes_context : Type;
  aes_setkey_enc : bytes -> Z -> Z * aes_context;
  aes_setkey_dec : bytes -> Z -> Z * aes_context;
  (** context, mode (true: encrypt), length, iv, input: result, iv, bytes output *)
  aes_crypt_cbc : aes_context -> bool -> Z -> bytes -> bytes -> Z * bytes * bytes;
}.

(** Documented: 128-bit keys are accepted, and whole blocks are processed. *)
Class AesLaws `{Aes} := {
  law_setkey_dec k : length k = 16%nat -> (aes_setkey_dec k 128).1 = 0;
  law_setkey_enc k : length k = 16%nat -> (aes_setkey_enc k 128).1 = 0;
  law_crypt_cbc ctx enc n iv d : 0 <= n -> n mod 16 = 0 -> length iv = 16%nat -> blen d = n ->
    exists iv' out, aes_crypt_cbc ctx enc n iv d = (0, iv', out) /\ blen out = n;
}.

(** ** Data *)

Definition FAILED : Z := -1.
Definition SUCCEEDED : Z := 0.
Definition kSectorSize : Z := 2048.

Record PS3RegionInfo := mkRegion {
  encrypted : bool;
  regions_first_addr : Z;
  regions_last_addr : Z;
}.

Inductive PS3EncDiscType := kDiscTypeNone | kDiscType3k3yDec | kDiscType3k3yEnc | kDiscTypeRedump.

#[export] Instance PS3EncDiscType_eq_dec : EqDecision PS3EncDiscType.
Proof. solve_decision. Defined.

Record File `{Aes} := mkFile {
  fd : Z;
  fp : list Z;                                (* file_t fp[64] *)
  is_multipart : Z;
  part_size : Z;
  index : Z;
  enc_type_ : PS3EncDiscType;
  region_count_ : Z;
  region_info_ : option (list PS3RegionInfo); (* None: NULL *)
  aes_dec_ : aes_context;
  iv_ : bytes;
  ps3Mode : bool;
}.

Section setters.
Context `{Aes}.
Implicit Types f : File.
Definition with_fd x f := mkFile _ x (fp f) (is_multipart f) (part_size f) (index f)
  (enc_type_ f) (region_count_ f) (region_info_ f) (aes_dec_ f) (iv_ f) (ps3Mode f).
Definition with_parts x mp idx f := mkFile _ (fd f) x mp (part_size f) idx
  (enc_type_ f) (region_count_ f) (region_info_ f) (aes_dec_ f) (iv_ f) (ps3Mode f).
Definition with_part_size x f := mkFile _ (fd f) (fp f) (is_multipart f) x (index f)
  (enc_type_ f) (region_count_ f) (region_info_ f) (aes_dec_ f) (iv_ f) (ps3Mode f).
Definition with_multipart x f := with_parts (fp f) x (index f) f.
Definition with_index x f := with_parts (fp f) (is_multipart f) x f.
Definition with_regions n r f := mkFile _ (fd f) (fp f) (is_multipart f) (part_size f) (index f)
  (enc_type_ f) n r (aes_dec_ f) (iv_ f) (ps3Mode f).
Definition with_enc x f := mkFile _ (fd f) (fp f) (is_multipart f) (part_size f) (index f)
  x (region_count_ f) (region_info_ f) (aes_dec_ f) (iv_ f) (ps3Mode f).
Definition with_aes x f := mkFile _ (fd f) (fp f) (is_multipart f) (part_size f) (index f)
  (enc_type_ f) (region_count_ f) (region_info_ f) x (iv_ f) (ps3Mode f).
Definition with_iv x f := mkFile _ (fd f) (fp f) (is_multipart f) (part_size f) (index f)
  (enc_type_ f) (region_count_ f) (region_info_ f) (aes_dec_ f) x (ps3Mode f).
Definition with_ps3Mode x f := mkFile _ (fd f) (fp f) (is_multipart f) (part_size f) (index f)
  (enc_type_ f) (region_count_ f) (region_info_ f) (aes_dec_ f) (iv_ f) x.
End setters.

(** [fp[i]] *)
Definition fp_at `{Aes} (f : File) (i : Z) : Z := nth (Z.to_nat i) (fp f) INVALID_FD.

(** ** Keys, sector numbers, decryption *)

(** A char outside the three ranges is an error, answered with 0. *)
Definition asciischar_to_byte (input : Z) : Z :=
  if (48 <=? input) && (input <=? 57) then u8 (input - 48)
  else if (65 <=? input) && (input <=? 70) then u8 (input - 65 + 10)
  else if (97 <=? input) && (input <=? 102) then u8 (input - 97 + 10)
  else 0.

Fixpoint keystr_to_keyarr (str : bytes) : bytes :=
  match str with
  | hi :: lo :: str => u8 (asciischar_to_byte hi * 16 + asciischar_to_byte lo) :: keystr_to_keyarr str
  | _ => []
  end.

(** Reads [arr[0..3]].  The sum is of type int: from 128 in the first byte on it
    overflows, which C leaves undefined and every compiler in use wraps, as here. *)
Definition char_arr_BE_to_uint (arr : mem) (o : Z) : Z :=
  u32 (arr (o + 3) + 256 * (arr (o + 2) + 256 * (arr (o + 1) + 256 * arr o))).

Definition reset_iv (lba : Z) : bytes :=
  replicate 12 0 ++
  [u8 (Z.shiftr (Z.land lba 0xFF000000) 24); u8 (Z.shiftr (Z.land lba 0x00FF0000) 16);
   u8 (Z.shiftr (Z.land lba 0x0000FF00) 8); u8 (Z.land lba 0x000000FF)].

Section decrypt.
Context `{Aes}.

(** The loop from sector [i], with [k] sectors to go; returns the memory and
    the last contents of [iv_]. *)
Fixpoint decrypt_loop (k : nat) (i : Z) (aes : aes_context) (data : mem) (o start_lba : Z)
    (iv : bytes) : mem * bytes :=
  match k with
  | O => (data, iv)
  | S k =>
      let iv := reset_iv (u32 (start_lba + i)) in
      let '(ret, iv, out) :=
        aes_crypt_cbc aes false kSectorSize iv (mload data (o + kSectorSize * i) kSectorSize) in
      let data := mstore data (o + kSectorSize * i) out in
      if ret =? SUCCEEDED then decrypt_loop k (i + 1) aes data o start_lba iv else (data, iv)
  end.

Definition decrypt_data (aes : aes_context) (data : mem) (o sector_count start_lba : Z)
    (iv : bytes) : mem * bytes :=
  decrypt_loop (Z.to_nat sector_count) 0 aes data o start_lba iv.
End decrypt.

(** ** Methods *)

Section methods.
Context {W : Type} `{Posix W} `{Aes}.
(** The globals of main.cpp the class reads, and the indeterminate contents of
    a [file_stat_t] local. *)
Variables (root_len make_iso : Z) (st_uninit : file_stat_t).
Implicit Types (f : File) (w : W) (buf : mem).

(** The constructor, on uninitialised storage [this]. *)
Definition File_ctor (this : File) : File :=
  mkFile _ INVALID_FD (replicate 64 INVALID_FD) 0 (part_size this) 0
    kDiscTypeNone 0 None (aes_dec_ this) (iv_ this) (ps3Mode this).

Definition init_region_info f : File := with_enc kDiscTypeNone (with_regions 0 None f).

(** [for (i = 1; i < 64; i++) { if (FD_OK(fp[i])) close_file(fp[i]); fp[i] = INVALID_FD; }] *)
Fixpoint close_parts (k : nat) (i : nat) (fps : list Z) w : list Z * W :=
  match k with
  | O => (fps, w)
  | S k =>
      let p := nth i fps INVALID_FD in
      let w := if FD_OK p then (close_file p w).2 else w in
      close_parts k (S i) (<[i := INVALID_FD]> fps) w
  end.

Definition File_close f w : Z * File * W :=
  let f := init_region_info f in
  let '(ret, w) := if FD_OK (fd f) then close_file (fd f) w else (FAILED, w) in
  let f := with_fd INVALID_FD f in
  if is_multipart f =? 0 then (ret, f, w)
  else
    let '(fps, w) := close_parts 63 1 (fp f) w in
    (ret, with_parts fps 0 0 f, w).

(** The destructor. *)
Definition File_delete f w : W :=
  let f := init_region_info f in
  if FD_OK (fd f) then (File_close f w).2 else w.

Definition File_seek (offset whence : Z) f w : Z * File * W :=
  if (is_multipart f =? 0) || (part_size f =? 0) then
    let '(r, w) := seek_file (fd f) offset whence w in (r, f, w)
  else
    let part_index := s64 (u64 offset / part_size f) in
    if (part_index <? 0) || (is_multipart f <=? part_index) then (FAILED, f, w)
    else
      let f := with_index (s8 part_index) f in
      let '(r, w) := seek_file (fp_at f (index f)) (s64 (u64 offset mod part_size f)) whence w in
      (r, f, w).

(** [for (i = 0; i < is_multipart; i++) { fstat_file(fp[i], &statbuf); size += ...; }] *)
Fixpoint sum_parts (k : nat) (i : Z) f (statbuf : file_stat_t) (size : Z) w : Z * W :=
  match k with
  | O => (size, w)
  | S k =>
      let '(_, statbuf, w) := fstat_file (fp_at f i) statbuf w in
      sum_parts k (i + 1) f statbuf (u64 (size + file_size statbuf)) w
  end.

Definition with_file_size n (st : file_stat_t) : file_stat_t :=
  mk_stat n (st_mtime st) (st_ctime st) (st_atime st) (mode st).

Definition File_fstat (fs : file_stat_t) f w : Z * file_stat_t * File * W :=
  if negb (FD_OK (fd f)) then (FAILED, fs, f, w)
  else if is_multipart f =? 0 then
    let '(r, fs, w) := fstat_file (fd f) fs w in (r, fs, f, w)
  else
    let '(size, w) := sum_parts (Z.to_nat (is_multipart f)) 0 f st_uninit 0 w in
    let '(ret, fs, w) := fstat_file (fd f) fs w in
    (ret, with_file_size size fs, f, w).

Definition File_write (buf : bytes) f w : Z * File * W :=
  if is_multipart f =? 0 then
    let '(r, w) := write_file (fd f) buf w in (r, f, w)
  else
    let '(r, w) := write_file (fp_at f (index f)) buf w in (r, f, w).

Definition File_supportsBulkRead f : bool :=
  if negb (is_multipart f =? 0) then false
  else if negb (bool_decide (enc_type_ f = kDiscTypeNone)) then false
  else true.

(** The 3k3y information block, 0xF70 - 0x1070: what [read] does with its
    overlap with the [ret] bytes read from [read_position]. *)
Definition mask_3k3y buf (o read_position ret : Z) : mem :=
  if (0xF70 <=? read_position + ret) && (read_position <=? 0x1070) then
    let overlap_start := if read_position <? 0xF70 then 0xF70 - read_position else 0 in
    let n := if read_position + ret <? 0x1070 then ret - overlap_start
             else 0x100 - overlap_start in
    _memset buf (o + overlap_start) (u64 n)
  else buf.

Definition in_region (read_position : Z) (r : PS3RegionInfo) : bool :=
  (regions_first_addr r <=? read_position) && (read_position <=? regions_last_addr r).

Definition plain_file f : bool :=
  bool_decide (enc_type_ f = kDiscTypeNone) || (region_count_ f =? 0) ||
  match region_info_ f with None => true | Some _ => false end.

Definition File_read buf (o nbyte : Z) f w : Z * mem * File * W :=
  if is_multipart f =? 0 then
    if plain_file f then
      let '(ret, buf, w) := read_file (fd f) buf o nbyte w in (ret, buf, f, w)
    else
      let '(read_position, f, w) := File_seek 0 SEEK_CUR f w in
      if read_position <? 0 then (FAILED, buf, f, w)
      else
        let '(ret, buf, w) := read_file (fd f) buf o nbyte w in
        let is_3k3y := bool_decide (enc_type_ f = kDiscType3k3yDec \/ enc_type_ f = kDiscType3k3yEnc) in
        let buf := if is_3k3y then mask_3k3y buf o read_position ret else buf in
        if bool_decide (enc_type_ f = kDiscType3k3yDec) then (ret, buf, f, w)
        else
          let regions := take (Z.to_nat (region_count_ f)) (default [] (region_info_ f)) in
          match List.find (in_region read_position) regions with
          | Some r =>
              if negb (encrypted r) then (ret, buf, f, w)
              else
                let '(buf, iv) := decrypt_data (aes_dec_ f) buf o (s32 (u64 ret / kSectorSize))
                                    (u32 (read_position / kSectorSize)) (iv_ f) in
                (ret, buf, with_iv iv f, w)
          | None => (ret, buf, f, w)
          end
  else
    let '(ret, buf, w) := read_file (fp_at f (index f)) buf o nbyte w in
    if (ret <? nbyte) && (index f + 1 <? is_multipart f) then
      let f := with_index (index f + 1) f in
      let '(_, w) := seek_file (fp_at f (index f)) 0 SEEK_SET w in
      let '(ret2, buf, w) := read_file (fp_at f (index f)) buf (o + ret) (u64 (nbyte - ret)) w in
      (ret + ret2, buf, f, w)
    else (ret, buf, f, w).

(** *** open *)

(** The loop opening [path.iso.1], [path.iso.2], ... into [fp[i]]; [base] is the
    path without its final [.0]. *)
Fixpoint open_parts (k : nat) (i : Z) (base : bytes) (flags : Z) (fps : list Z) (count : Z) w
    : list Z * Z * W :=
  match k with
  | O => (fps, count, w)
  | S k =>
      let '(p, w) := open_file (Some (base ++ str "." ++ dec2 i)) flags w in
      let fps := <[Z.to_nat i := p]> fps in
      if negb (FD_OK p) then (fps, count, w)
      else open_parts k (i + 1) base flags fps (count + 1) w
  end.

(** The branch of a multi-part path: the size of part 0, then the parts. *)
Definition open_multipart (path : bytes) (flen flags : Z) f w : Z * File * W :=
  let '(ok, w) := sys_malloc (blen path + 2) w in
  if negb ok then (FAILED, f, w)
  else
    let '(r, st, w) := fstat_file (fd f) st_uninit w in
    if r <? 0 then
      let '(_, w) := close_file (fd f) w in (FAILED, with_fd INVALID_FD f, w)
    else
      let f := with_part_size (file_size st) f in
      let base := take (Z.to_nat (flen + 4)) path in
      let '(fps, count, w) := open_parts 63 1 base flags (fp f) 1 w in
      (SUCCEEDED, with_parts (<[0%nat := fd f]> fps) count (index f) f, w).

(** The four places a key file is looked for; [ps3] is the offset of the folder
    name [PS3ISO] and [ext] that of [.iso]. *)
Definition open_keyfile (path : bytes) (ps3 : option Z) (ext : Z) w : Z * W :=
  let name k s := take (Z.to_nat (ext + 1)) k ++ str s in
  let key_path := name path "dkey" in
  let '(key_fd, w) := open_file (Some key_path) O_RDONLY w in
  let '(key_path, key_fd, w) :=
    if negb (FD_OK key_fd) && (0 <? ext) then
      let key_path := name key_path "key" in
      let '(key_fd, w) := open_file (Some key_path) O_RDONLY w in (key_path, key_fd, w)
    else (key_path, key_fd, w) in
  match ps3 with
  | Some p =>
      if negb (FD_OK key_fd) && (0 <? p) then
        let key_path := overwrite p (str "REDKEY") key_path in
        let '(key_fd, w) := open_file (Some key_path) O_RDONLY w in
        if negb (FD_OK key_fd) then open_file (Some (name key_path "dkey")) O_RDONLY w
        else (key_fd, w)
      else (key_fd, w)
  | None => (key_fd, w)
  end.

(** Read the key file (32 hex digits or 16 raw bytes) and set up decryption. *)
Definition load_key (key_fd : Z) f w : File * W :=
  if FD_OK key_fd then
    let '(klen, keystr, w) := read_file key_fd (zext []) 0 32 w in
    let f :=
      if (klen =? 32) || (klen =? 16) then
        let key := if klen =? 16 then mload keystr 0 16 else keystr_to_keyarr (mload keystr 0 32) in
        let '(r, ctx) := aes_setkey_dec key 128 in
        let f := with_aes ctx f in
        if r =? SUCCEEDED then with_enc kDiscTypeRedump f else f
      else f in
    let '(_, w) := close_file key_fd w in (f, w)
  else (f, w).

(** The region table of sector 0, from region [i] on. *)
Fixpoint build_regions (k : nat) (i prev_last : Z) (sec : mem) : list PS3RegionInfo :=
  match k with
  | O => []
  | S k =>
      let enc := i mod 2 =? 1 in
      let first := if i =? 0 then 0 else s64 (prev_last + 1) in
      let lba := char_arr_BE_to_uint sec (12 + i * 4) - (if enc then 1 else 0) in
      let last := s64 (lba * kSectorSize + kSectorSize - 1) in
      mkRegion enc first last :: build_regions k (i + 1) last sec
  end.

Definition k3k3yEnWatermark : bytes :=
  [0x45; 0x6E; 0x63; 0x72; 0x79; 0x70; 0x74; 0x65; 0x64; 0x20; 0x33; 0x4B; 0x20; 0x42; 0x4C; 0x44].
Definition k3k3yDecWatermark : bytes :=
  [0x44; 0x6E; 0x63; 0x72; 0x79; 0x70; 0x74; 0x65; 0x64; 0x20; 0x33; 0x4B; 0x20; 0x42; 0x4C; 0x44].
Definition key_d1 : bytes :=
  [0x38; 11; 0xcf; 11; 0x53; 0x45; 0x5b; 60; 120; 0x17; 0xab; 0x4f; 0xa3; 0xba; 0x90; 0xed].
Definition iv_d1 : bytes :=
  [0x69; 0x47; 0x47; 0x72; 0xaf; 0x6f; 0xda; 0xb3; 0x42; 0x74; 0x3a; 0xef; 170; 0x18; 0x62; 0x87].

(** The watermark at 0xF70 of the information sectors, when no key file was found. *)
Definition check_watermark (sec : mem) f : File :=
  if bool_decide (enc_type_ f = kDiscTypeNone) then
    if bytes_eqb k3k3yEnWatermark (mload sec 0xF70 16) then
      let key := mload sec 0xF80 16 in
      let '(r, aes_d1) := aes_setkey_enc key_d1 128 in
      if r =? SUCCEEDED then
        let '(r, _, key) := aes_crypt_cbc aes_d1 true 16 iv_d1 key in
        if r =? SUCCEEDED then
          let '(r, ctx) := aes_setkey_dec key 128 in
          let f := with_aes ctx f in
          if r =? SUCCEEDED then with_enc kDiscType3k3yEnc f else f
        else f
      else f
    else if bytes_eqb k3k3yDecWatermark (mload sec 0xF70 16) then with_enc kDiscType3k3yDec f
    else f
  else f.

(** The information sectors: regions and position.  The boolean is false on
    the early return for an image without a region table. *)
Definition load_regions f w : bool * mem * File * W :=
  let sec := zext [] in
  let '(r, st, f, w) := File_fstat st_uninit f w in
  if (0 <=? r) && (kSectorSize * 2 <=? file_size st) then
    let '(initial_read_position, f, w) := File_seek 0 SEEK_CUR f w in
    let '(f, w) :=
      if negb (initial_read_position =? 0) then
        let '(_, f, w) := File_seek 0 SEEK_SET f w in (f, w)
      else (f, w) in
    let '(n, sec, w) := read_file (fd f) sec 0 (kSectorSize * 2) w in
    if n =? kSectorSize * 2 then
      let region_count := char_arr_BE_to_uint sec 0 in
      if (0 <? region_count) && (region_count <? 32) then
        let n := region_count * 2 - 1 in
        let f := with_regions n (Some (build_regions (Z.to_nat n) 0 0 sec)) f in
        let '(_, f, w) := File_seek initial_read_position SEEK_SET f w in
        (true, sec, f, w)
      else (false, sec, init_region_info f, w)
    else
      let '(_, f, w) := File_seek initial_read_position SEEK_SET f w in
      (true, sec, f, w)
  else (true, sec, f, w).

(** What [open] does for an [.iso] under PS3ISO (or with [make_iso] set). *)
Definition open_encrypted (path : bytes) (ps3 : option Z) (ext : Z) f w : Z * File * W :=
  let '(key_fd, w) := open_keyfile path ps3 ext w in
  let '(f, w) := load_key key_fd f w in
  let '(go_on, sec, f, w) := load_regions f w in
  if negb go_on then (SUCCEEDED, f, w)
  else
    let f := check_watermark sec f in
    (SUCCEEDED, with_ps3Mode (negb (bool_decide (enc_type_ f = kDiscTypeNone))) f, w).

Definition first_of (o : Z) (s a b : bytes) : option Z :=
  match strstr_from o s a with Some i => Some i | None => strstr_from o s b end.

Definition isSome {A} (o : option A) : bool := match o with Some _ => true | None => false end.

Definition File_open (path : option bytes) (flags : Z) f w : option (Z * File * W) :=
  let f := if flags =? O_RDONLY then init_region_info f else f in
  match path with
  | None => Some (FAILED, f, w)
  | Some path =>
      let '(f, w) := if FD_OK (fd f) then let '(_, f, w) := File_close f w in (f, w) else (f, w) in
      let '(d, w) := open_file (Some path) flags w in
      let f := with_fd d f in
      if negb (FD_OK d) then Some (FAILED, f, w)
      else
        let plen := strlen path in
        let multi := isSome (first_of (plen - 6) path (str ".iso.0") (str ".ISO.0")) in
        let flen := if plen - 6 <? 0 then 0 else plen - 6 in
        let f := with_multipart (if plen - 6 <? 0 then 0 else if multi then 1 else 0) f in
        let ppath := if s32 root_len <? plen then root_len else 0 in
        let ps3 := first_of ppath path (str "PS3ISO") (str "ps3iso") in
        let ext := if isSome ps3 || negb (make_iso =? 0)
                   then first_of flen path (str ".iso") (str ".ISO") else None in
        if negb (make_iso =? 0) && (flags =? O_RDONLY) then
          (* path_ext_loc is used as an address below *)
          let? e := ext in Some (open_encrypted path ps3 e f w)
        else if negb (is_multipart f =? 0) || negb (isSome ps3) || negb (isSome ext)
                || (default 0 ext <? default 0 ps3) then
          let f := with_regions (region_count_ f) None f in
          if negb (is_multipart f =? 0) then Some (open_multipart path flen flags f w)
          else Some (SUCCEEDED, f, w)
        else let? e := ext in Some (open_encrypted path ps3 e f w)
  end.

#[export] Instance File_AbstractFile : AbstractFile File W := {
  af_open := File_open;
  af_close := File_close;
  af_read := File_read;
  af_write := File_write;
  af_seek := File_seek;
  af_fstat := File_fstat;
  supportsBulkRead := File_supportsBulkRead;
  af_delete := File_delete;
}.
End methods.
