(* ===== verification/FileView.v ===== *)
(** * What an image contains: File.cpp against its interface

    [File_view] is the abstraction function of [File]: a plain file contains the
    bytes behind its descriptor, a multi-part image the concatenation of its
    parts, the read position being the part index and the offset in that part.
    [read], [seek] and [fstat] are proved to act on that one byte string as
    [AbstractFileLaws] promises, whatever the parts are. *)

From S2P Require Import Prelude Endian CMem CString Os AbsFile FileIso.

(** ** What a [File] contains *)

(** The sizes of the parts of an image: all [ps] except the last, at most [ps]. *)
Fixpoint parts_sized (ps : Z) (cs : list bytes) : Prop :=
  match cs with
  | [] => False
  | [c] => blen c <= ps
  | c :: cs => blen c = ps /\ parts_sized ps cs
  end.

#[export] Instance parts_sized_dec ps cs : Decision (parts_sized ps cs).
Proof.
  induction cs as [|c cs IH]; [right; exact id|].
  destruct cs as [|c' cs]; [cbn; apply _|].
  change (Decision (blen c = ps /\ parts_sized ps (c' :: cs))). apply _.
Defined.

Section view.
Context {W : Type} `{Posix W, PosixView W} `{Aes}.
Implicit Types (f : File) (w : W).

Definition contents w (d : Z) : option bytes := fst <$> fd_view w d.

Definition part_fds f : list Z := take (Z.to_nat (is_multipart f)) (fp f).

Record parts_ok f (cs : list bytes) (o : Z) : Prop := {
  po_size : 0 < part_size f;
  po_count : 0 < is_multipart f <= 64;
  po_total : is_multipart f * part_size f < 2 ^ 63;
  po_fp : length (fp f) = 64%nat;
  po_fd : fd f = fp_at f 0;
  po_index : 0 <= index f < is_multipart f;
  po_nodup : NoDup (part_fds f);
  po_sized : parts_sized (part_size f) cs;
  po_offset : 0 <= o <= part_size f;
}.

#[export] Instance parts_ok_dec f cs o : Decision (parts_ok f cs o).
Proof.
  destruct (decide (0 < part_size f /\ 0 < is_multipart f <= 64 /\
    is_multipart f * part_size f < 2 ^ 63 /\ length (fp f) = 64%nat /\ fd f = fp_at f 0 /\
    0 <= index f < is_multipart f /\ NoDup (part_fds f) /\
    parts_sized (part_size f) cs /\ 0 <= o <= part_size f)) as [Hd|Hd].
  - left. destruct_and! Hd. by split.
  - right. intros []. tauto.
Defined.

Definition File_view f w : option (bytes * Z) :=
  if is_multipart f =? 0 then if plain_file f then fd_view w (fd f) else None
  else
    cs ← mapM (contents w) (part_fds f);
    '(_, o) ← fd_view w (fp_at f (index f));
    if decide (parts_ok f cs o) then Some (concat cs, index f * part_size f + o) else None.

#[export] Instance File_AbstractFileView : AbstractFileView File W := { af_view := File_view }.
End view.

(** ** Contents of parts *)

Lemma parts_sized_lookup ps cs (i : nat) c :
  parts_sized ps cs -> cs !! i = Some c -> blen c <= ps /\ ((S i < length cs)%nat -> blen c = ps).
Proof.
  revert i; induction cs as [|c' cs IH]; intros i Hs Hi; [done|].
  destruct cs as [|c'' cs].
  - destruct i; [|done]. injection Hi as ->. cbn in *. split; [done|lia].
  - destruct Hs as [Hc Hs]. destruct i as [|i].
    + injection Hi as ->. split; lia.
    + destruct (IH i Hs Hi) as [? Hl]. split; [done|]. intros. apply Hl. cbn in *. lia.
Qed.

Lemma drop_concat_parts ps cs (i : nat) :
  0 <= ps -> parts_sized ps cs -> (i < length cs)%nat ->
  drop (Z.to_nat (Z.of_nat i * ps)) (concat cs) = concat (drop i cs).
Proof.
  intros Hps. revert i; induction cs as [|c cs IH]; intros i Hs Hi; [cbn in Hi; lia|].
  destruct i as [|i]; [done|]. destruct cs as [|c' cs]; [cbn in Hi; lia|].
  destruct Hs as [Hc Hs]. rewrite skipn_cons. cbn [concat].
  rewrite drop_app_ge by (unfold blen in Hc; lia).
  rewrite <- IH by (cbn in *; lia || done). f_equal. unfold blen in Hc; lia.
Qed.

(** Reading at [o] in part [i] is reading at [i * ps + o] in the whole image. *)
Lemma slice_concat_parts ps cs (i : nat) c o n :
  0 <= ps -> parts_sized ps cs -> cs !! i = Some c -> 0 <= o -> 0 <= n ->
  slice (Z.of_nat i * ps + o) n (concat cs) = slice o n (c ++ concat (drop (S i) cs)).
Proof.
  intros Hps Hs Hi Ho Hn. pose proof (lookup_lt_Some _ _ _ Hi) as Hlt. unfold slice.
  rewrite Z2Nat.inj_add, <- drop_drop by lia.
  rewrite (drop_concat_parts ps cs i), (drop_S cs c i) by done. done.
Qed.

Lemma blen_concat_parts ps cs :
  0 <= ps -> parts_sized ps cs -> blen (concat cs) <= Z.of_nat (length cs) * ps.
Proof.
  intros Hps. induction cs as [|c cs IH]; intros Hs; [done|].
  cbn [concat length]. rewrite blen_app. destruct cs as [|c' cs].
  - cbn in Hs. cbn [concat]. rewrite blen_nil. lia.
  - destruct Hs as [Hc Hs]. specialize (IH Hs). lia.
Qed.

Lemma parts_total ps cs (k : nat) :
  0 <= ps -> parts_sized ps cs -> (k < length cs)%nat -> Z.of_nat k * ps <= blen (concat cs).
Proof.
  intros Hps. revert k; induction cs as [|d cs IH]; intros k Hs Hk; cbn in Hk; [lia|].
  cbn [concat]. rewrite blen_app. pose proof (blen_nonneg d). pose proof (blen_nonneg (concat cs)).
  destruct k as [|k]; [change (Z.of_nat 0) with 0; lia|].
  destruct cs as [|d' cs]; [cbn in Hk; lia|]. destruct Hs as [Hd Hs].
  specialize (IH k Hs). cbn [length] in *. nia.
Qed.

Section view_lemmas.
Context {W : Type} `{PosixLaws W} `{Aes}.
Implicit Types (f : File) (w : W).

Lemma File_view_multi f w X p :
  is_multipart f <> 0 ->
  File_view f w = Some (X, p) <->
  exists cs c o, mapM (contents w) (part_fds f) = Some cs /\
    fd_view w (fp_at f (index f)) = Some (c, o) /\ parts_ok f cs o /\
    X = concat cs /\ p = index f * part_size f + o.
Proof.
  intros Hm. unfold File_view. rewrite (proj2 (Z.eqb_neq _ _) Hm).
  destruct (mapM _ _) as [cs|]; cbn; [|naive_solver].
  destruct (fd_view w _) as [[c o]|]; cbn; [|naive_solver].
  case_decide; naive_solver.
Qed.

Lemma part_fds_lookup f cs o i :
  parts_ok f cs o -> 0 <= i < is_multipart f -> part_fds f !! Z.to_nat i = Some (fp_at f i).
Proof.
  intros [] Hi. unfold part_fds, fp_at. rewrite lookup_take_lt by lia.
  destruct (nth_lookup_or_length (fp f) (Z.to_nat i) INVALID_FD); [done|lia].
Qed.

Lemma part_contents f w cs o i :
  mapM (contents w) (part_fds f) = Some cs -> parts_ok f cs o -> 0 <= i < is_multipart f ->
  exists c o', fd_view w (fp_at f i) = Some (c, o') /\ cs !! Z.to_nat i = Some c.
Proof.
  intros Hcs Hok Hi. apply mapM_Some in Hcs.
  pose proof (part_fds_lookup f cs o i Hok Hi) as Hp.
  destruct (Forall2_lookup_l _ _ _ _ _ Hcs Hp) as (c & Hc & Hv).
  unfold contents in Hv. destruct (fd_view w (fp_at f i)) as [[c' o']|]; [|done].
  injection Hv as ->. eauto.
Qed.

Lemma parts_count f w cs o :
  mapM (contents w) (part_fds f) = Some cs -> parts_ok f cs o ->
  Z.of_nat (length cs) = is_multipart f.
Proof.
  intros Hcs%mapM_Some%Forall2_length []. rewrite <- Hcs. unfold part_fds. rewrite length_take. lia.
Qed.

Lemma mapM_contents_ext w w' ds :
  (forall d, contents w' d = contents w d) -> mapM (contents w') ds = mapM (contents w) ds.
Proof. intros E. induction ds as [|d ds IH]; [done|]. cbn. by rewrite E, IH. Qed.

Lemma contents_keep d w w' c o o' :
  fd_view w d = Some (c, o) -> fd_view w' d = Some (c, o') ->
  keeps_fs (fun x => x <> d) w w' -> forall d', contents w' d' = contents w d'.
Proof. intros. by eapply view_keep. Qed.

Lemma fp_at_ne f cs o i j :
  parts_ok f cs o -> 0 <= i < is_multipart f -> 0 <= j < is_multipart f -> i <> j ->
  fp_at f i <> fp_at f j.
Proof.
  intros Hok Hi Hj Hne E. pose proof (part_fds_lookup f cs o i Hok Hi) as Ei.
  pose proof (part_fds_lookup f cs o j Hok Hj) as Ej. rewrite E in Ei.
  pose proof (NoDup_lookup _ _ _ _ (po_nodup _ _ _ Hok) Ei Ej). lia.
Qed.

Lemma File_view_parts f w cs c o :
  is_multipart f <> 0 -> mapM (contents w) (part_fds f) = Some cs ->
  fd_view w (fp_at f (index f)) = Some (c, o) -> parts_ok f cs o ->
  File_view f w = Some (concat cs, index f * part_size f + o).
Proof. intros. apply File_view_multi; eauto 10. Qed.

Lemma parts_ok_index f cs o o' i :
  parts_ok f cs o -> 0 <= i < is_multipart f -> 0 <= o' <= part_size f ->
  parts_ok (with_index i f) cs o'.
Proof. intros [] ??. by split. Qed.

Lemma parts_ok_offset f cs o o' :
  parts_ok f cs o -> 0 <= o' <= part_size f -> parts_ok f cs o'.
Proof. intros [] ?. by split. Qed.

Lemma slice_part f w cs c o n :
  mapM (contents w) (part_fds f) = Some cs -> parts_ok f cs o ->
  fd_view w (fp_at f (index f)) = Some (c, o) -> 0 <= n ->
  let r := blen (slice o n c) in
  slice (index f * part_size f + o) r (concat cs) = slice o n c /\
  o + r <= part_size f /\
  (r < n -> index f + 1 < is_multipart f -> o + r = part_size f).
Proof.
  intros Hcs Hok Hv Hn r. pose proof Hok as [].
  destruct (part_contents f w cs o (index f) Hcs Hok po_index0) as (c' & o' & Hv' & Hc).
  assert (c' = c) as -> by congruence.
  destruct (parts_sized_lookup _ _ _ _ po_sized0 Hc) as [Hle Heq].
  pose proof (parts_count f w cs o Hcs Hok) as Hlen.
  assert (r = Z.min n (Z.max 0 (blen c - o))) as Hr by (unfold r; rewrite blen_slice; lia).
  split; [|split].
  - replace (index f) with (Z.of_nat (Z.to_nat (index f))) by lia.
    rewrite (slice_concat_parts _ _ _ c) by (done || lia).
    destruct (Z.leb_spec o (blen c)).
    + rewrite slice_app_l by lia. by apply slice_blen; lia.
    + replace r with 0 by lia. rewrite slice_0. by rewrite slice_ge by lia.
  - lia.
  - intros ??. rewrite Heq in Hr by lia. lia.
Qed.

(** What a read promises: [AbstractFileLaws] for one call. *)
Definition read_promise f w (X : bytes) (p : Z) (m : mem) (o n : Z)
    (res : Z * mem * File * W) : Prop :=
  let '(r, m', f', w') := res in
  keeps_net w w' /\ File_supportsBulkRead f' = File_supportsBulkRead f /\
  0 <= r <= blen (slice p n X) /\ mload m' o r = slice p r X /\ same_outside o n m m' /\
  File_view f' w' = Some (X, p + r) /\
  (File_supportsBulkRead f = true -> r = blen (slice p n X)).

Lemma multipart_not_bulk f : is_multipart f <> 0 -> File_supportsBulkRead f = false.
Proof. intros Hm. unfold File_supportsBulkRead. by rewrite (proj2 (Z.eqb_neq _ _) Hm). Qed.

(** A read that stays in the part of the current index. *)
Lemma read_multi_one f w cs c o w1 m b n :
  mapM (contents w) (part_fds f) = Some cs -> parts_ok f cs o ->
  fd_view w (fp_at f (index f)) = Some (c, o) -> 0 <= n ->
  fd_view w1 (fp_at f (index f)) = Some (c, o + blen (slice o n c)) ->
  keeps_fs (fun d => d <> fp_at f (index f)) w w1 -> keeps_net w w1 ->
  read_promise f w (concat cs) (index f * part_size f + o) m b n
    (blen (slice o n c), mstore m b (slice o n c), f, w1).
Proof.
  intros Hcs Hok Hv Hn Hv1 Hk Hnet. pose proof Hok as [].
  destruct (slice_part f w cs c o n Hcs Hok Hv Hn) as (Hs & Hb & _).
  pose proof (blen_nonneg (slice o n c)). pose proof (blen_slice_le o n c Hn).
  split; [done|]. split; [done|]. split; [|split; [|split; [|split]]].
  - split; [done|]. apply slice_prefix; [nia|lia|]. by rewrite Hs.
  - by rewrite mload_mstore, Hs.
  - eapply same_outside_weaken; [apply same_outside_mstore|lia|lia].
  - rewrite <- Z.add_assoc. eapply File_view_parts; [lia| |done|eapply parts_ok_offset; [done|lia]].
    rewrite <- Hcs. apply mapM_contents_ext. by eapply contents_keep.
  - rewrite multipart_not_bulk by lia. done.
Qed.

(** A read that exhausts its part continues at the start of the next one. *)
Lemma read_multi_two f w cs c o c' w1 w2 w3 m b n o' :
  let i := index f in let j := index f + 1 in
  let d1 := slice o n c in let d2 := slice 0 (n - blen d1) c' in
  mapM (contents w) (part_fds f) = Some cs -> parts_ok f cs o -> 0 <= n ->
  fd_view w (fp_at f i) = Some (c, o) -> fd_view w1 (fp_at f i) = Some (c, o + blen d1) ->
  keeps_fs (fun d => d <> fp_at f i) w w1 -> keeps_net w w1 ->
  blen d1 < n -> j < is_multipart f ->
  fd_view w1 (fp_at f j) = Some (c', o') -> fd_view w2 (fp_at f j) = Some (c', 0) ->
  keeps_fs (fun d => d <> fp_at f j) w1 w2 -> keeps_net w1 w2 ->
  fd_view w3 (fp_at f j) = Some (c', blen d2) ->
  keeps_fs (fun d => d <> fp_at f j) w2 w3 -> keeps_net w2 w3 ->
  read_promise f w (concat cs) (i * part_size f + o) m b n
    (blen d1 + blen d2, mstore (mstore m b d1) (b + blen d1) d2, with_index j f, w3).
Proof.
  intros i j d1 d2 Hcs Hok Hn Hv Hv1 Hk1 Hn1 Hlt Hj Hv1' Hv2 Hk2 Hn2 Hv3 Hk3 Hn3.
  pose proof Hok as []. pose proof (blen_nonneg d1). pose proof (blen_nonneg d2).
  destruct (slice_part f w cs c o n Hcs Hok Hv Hn) as (Hs & _ & He). fold d1 i in Hs, He.
  specialize (He Hlt Hj).
  assert (mapM (contents w2) (part_fds f) = Some cs) as Hcs2.
  { rewrite <- Hcs. etrans; apply mapM_contents_ext.
    - by apply (contents_keep (fp_at f j) w1 w2 c' o' 0).
    - by eapply contents_keep. }
  assert (parts_ok (with_index j f) cs 0) as Hok2 by (eapply parts_ok_index; [done|lia..]).
  destruct (slice_part (with_index j f) w2 cs c' 0 (n - blen d1)) as (Hs2 & Hb2 & _);
    [done..|lia|]. cbn [with_index part_size index with_parts] in Hs2, Hb2. fold d2 in Hs2, Hb2.
  pose proof (blen_slice_le 0 (n - blen d1) c' ltac:(lia)) as Hl2. fold d2 in Hl2.
  assert (slice (i * part_size f + o) (blen d1 + blen d2) (concat cs) = d1 ++ d2) as Hs3.
  { rewrite slice_split, Hs by nia. f_equal. etrans; [|exact Hs2].
    f_equal. unfold j, i in *; nia. }
  split; [by repeat (eapply keeps_net_trans; [eassumption|])|].
  split; [by rewrite !multipart_not_bulk by (cbn; lia)|].
  split; [|split; [|split; [|split]]].
  - split; [lia|]. apply slice_prefix; [nia|lia|]. by rewrite Hs3, blen_app.
  - by rewrite mload_mstore2, Hs3.
  - apply same_outside_mstore2. lia.
  - replace (i * part_size f + o + (blen d1 + blen d2))
      with (index (with_index j f) * part_size (with_index j f) + blen d2) by (cbn; unfold j, i in *; nia).
    eapply File_view_parts; [cbn; lia| |done|eapply parts_ok_offset; [done|cbn; lia]].
    rewrite <- Hcs2. apply mapM_contents_ext. by eapply contents_keep.
  - rewrite multipart_not_bulk by lia. done.
Qed.

Lemma read_multi f w X p m b n :
  is_multipart f <> 0 -> File_view f w = Some (X, p) -> 0 <= n < 2 ^ 63 ->
  read_promise f w X p m b n (File_read m b n f w).
Proof.
  intros Hm (cs & c & o & Hcs & Hv & Hok & -> & ->)%(File_view_multi _ _ _ _ Hm) Hn.
  pose proof Hok as []. unfold File_read. rewrite (proj2 (Z.eqb_neq _ _) Hm).
  destruct (read_file_ok (fp_at f (index f)) m b n w c o Hv Hn) as (w1 & -> & Hv1 & Hk1 & Hn1).
  pose proof (blen_nonneg (slice o n c)). pose proof (blen_slice_le o n c ltac:(lia)).
  destruct (Z.ltb_spec (blen (slice o n c)) n); cbn [andb].
  2: { eapply read_multi_one; eauto; lia. }
  destruct (Z.ltb_spec (index f + 1) (is_multipart f)).
  2: { eapply read_multi_one; eauto; lia. }
  destruct (part_contents f w cs o (index f + 1) Hcs Hok) as (c' & o' & Hv' & _); [lia|].
  assert (fp_at f (index f + 1) <> fp_at f (index f)) by (eapply fp_at_ne; eauto; lia).
  assert (fd_view w1 (fp_at f (index f + 1)) = Some (c', o')) as Hv1' by (by rewrite (kf_fd _ _ _ Hk1)).
  change (fp_at (with_index (index f + 1) f) (index (with_index (index f + 1) f)))
    with (fp_at f (index f + 1)).
  destruct (seek_set_ok _ 0 w1 _ _ Hv1') as (w2 & -> & Hv2 & Hk2 & Hn2); [lia|].
  rewrite (u64_small (n - _)) by lia.
  destruct (read_file_ok _ (mstore m b (slice o n c)) (b + blen (slice o n c))
    (n - blen (slice o n c)) w2 _ _ Hv2) as (w3 & -> & Hv3 & Hk3 & Hn3); [lia|].
  eapply read_multi_two with (w1 := w1) (w2 := w2); eauto; lia.
Qed.

Lemma read_plain f w X p m b n :
  is_multipart f = 0 -> File_view f w = Some (X, p) -> 0 <= n < 2 ^ 63 ->
  read_promise f w X p m b n (File_read m b n f w).
Proof.
  intros Hm Hv Hn. unfold File_view, File_read in *. rewrite Hm in *. cbn [Z.eqb] in *.
  destruct (plain_file f) eqn:Ep; [|done].
  destruct (read_file_ok (fd f) m b n w X p Hv Hn) as (w1 & -> & Hv1 & Hk1 & Hn1).
  pose proof (law_view _ _ _ _ Hv).
  split; [done|]. split; [done|]. split; [|split; [|split; [|split]]].
  - pose proof (blen_nonneg (slice p n X)). lia.
  - rewrite mload_mstore. symmetry. apply slice_blen; lia.
  - eapply same_outside_weaken; [apply same_outside_mstore|lia|].
    pose proof (blen_slice_le p n X). lia.
  - unfold File_view. by rewrite Hm, Ep.
  - done.
Qed.

Lemma File_read_promise f w X p m b n :
  File_view f w = Some (X, p) -> 0 <= n < 2 ^ 63 ->
  read_promise f w X p m b n (File_read m b n f w).
Proof. destruct (decide (is_multipart f = 0)); [by apply read_plain|by apply read_multi]. Qed.

(** The length of the whole, from its last part. *)
Lemma blen_last_part f w cs c o o2 :
  mapM (contents w) (part_fds f) = Some cs -> parts_ok f cs o ->
  fd_view w (fp_at f (is_multipart f - 1)) = Some (c, o2) ->
  blen (concat cs) = (is_multipart f - 1) * part_size f + blen c.
Proof.
  intros Hcs Hok Hv. pose proof Hok as [].
  destruct (part_contents f w cs o (is_multipart f - 1) Hcs Hok) as (c' & o' & Hv' & Hc); [lia|].
  rewrite Hv in Hv'. injection Hv' as <- <-. pose proof (parts_count f w cs o Hcs Hok) as Hcount.
  pose proof (lookup_lt_Some _ _ _ Hc).
  pose proof (drop_concat_parts (part_size f) cs (Z.to_nat (is_multipart f - 1)) ltac:(lia) po_sized0 ltac:(lia)) as Hd.
  rewrite (drop_S cs c _ Hc), (drop_ge cs) in Hd by lia.
  cbn [concat] in Hd. rewrite app_nil_r, Z2Nat.id in Hd by lia.
  pose proof (parts_total (part_size f) cs (Z.to_nat (is_multipart f - 1)) ltac:(lia) po_sized0 ltac:(lia)) as Ht.
  apply (f_equal length) in Hd. rewrite length_drop in Hd. rewrite Z2Nat.id in Ht by lia.
  assert (0 <= (is_multipart f - 1) * part_size f) by nia. unfold blen in *. lia.
Qed.

(** A read of at most the size of a part is only cut short by the end of the image. *)
Lemma read_multi_complete f w X p m b n :
  is_multipart f <> 0 -> File_view f w = Some (X, p) -> 0 <= n <= part_size f ->
  (File_read m b n f w).1.1.1 = n \/ blen X <= p + (File_read m b n f w).1.1.1.
Proof.
  intros Hm (cs & c & o & Hcs & Hv & Hok & -> & ->)%(File_view_multi _ _ _ _ Hm) Hn.
  pose proof Hok as []. assert (part_size f < 2 ^ 63) by nia.
  unfold File_read. rewrite (proj2 (Z.eqb_neq _ _) Hm).
  destruct (read_file_ok (fp_at f (index f)) m b n w c o Hv) as (w1 & -> & Hv1 & Hk1 & Hn1); [lia|].
  pose proof (blen_slice o n c ltac:(lia) ltac:(lia)) as Hs1. pose proof (blen_nonneg (slice o n c)).
  destruct (Z.ltb_spec (blen (slice o n c)) n); cbn [andb fst]; [|left; lia].
  destruct (Z.ltb_spec (index f + 1) (is_multipart f)); cbn [fst].
  2: { right. assert (index f = is_multipart f - 1) as Hi by lia. rewrite Hi in Hv.
    rewrite (blen_last_part f w cs c o o Hcs Hok Hv). lia. }
  destruct (part_contents f w cs o (index f + 1) Hcs Hok) as (c' & o' & Hv' & Hc'); [lia|].
  assert (fp_at f (index f + 1) <> fp_at f (index f)) by (eapply fp_at_ne; eauto; lia).
  assert (fd_view w1 (fp_at f (index f + 1)) = Some (c', o')) as Hv1' by (by rewrite (kf_fd _ _ _ Hk1)).
  change (fp_at (with_index (index f + 1) f) (index (with_index (index f + 1) f)))
    with (fp_at f (index f + 1)).
  destruct (seek_set_ok _ 0 w1 _ _ Hv1') as (w2 & -> & Hv2 & Hk2 & Hn2); [lia|].
  rewrite (u64_small (n - _)) by lia.
  destruct (read_file_ok _ (mstore m b (slice o n c)) (b + blen (slice o n c))
    (n - blen (slice o n c)) w2 _ _ Hv2) as (w3 & -> & Hv3 & Hk3 & Hn3); [lia|]. cbn [fst].
  pose proof (blen_slice 0 (n - blen (slice o n c)) c' ltac:(lia) ltac:(lia)) as Hs2.
  destruct (parts_sized_lookup _ _ _ _ po_sized0 Hc') as [Hle Hfull].
  pose proof (parts_count f w cs o Hcs Hok) as Hcount.
  destruct (part_contents f w cs o (index f) Hcs Hok) as (c1 & o1 & Hv1c & Hc1); [lia|].
  rewrite Hv in Hv1c. injection Hv1c as <- <-.
  destruct (parts_sized_lookup _ _ _ _ po_sized0 Hc1) as [_ Hfull1]. specialize (Hfull1 ltac:(lia)).
  destruct (decide (index f + 1 = is_multipart f - 1)) as [Hlast|].
  - destruct (Z.leb_spec (n - blen (slice o n c)) (blen c')); [left; lia|right].
    rewrite Hlast in Hv'. rewrite (blen_last_part f w cs c' o o' Hcs Hok Hv'). nia.
  - left. rewrite Hfull in Hs2 by lia. lia.
Qed.

Lemma File_view_frame f w w' : keeps_fs any_fd w w' -> File_view f w' = File_view f w.
Proof.
  intros [K _]. unfold File_view. rewrite !K by done.
  rewrite (mapM_contents_ext w w'); [done|]. intros d. unfold contents. by rewrite K.
Qed.

Lemma File_view_bounds f w X p :
  File_view f w = Some (X, p) -> blen X < 2 ^ 63 /\ 0 <= p < 2 ^ 63.
Proof.
  destruct (decide (is_multipart f = 0)) as [Hm|Hm].
  - unfold File_view. rewrite Hm. cbn. destruct (plain_file f); [|done].
    intros Hv. by apply law_view in Hv as (_ & ? & ?).
  - intros (cs & c & o & Hcs & Hv & Hok & -> & ->)%(File_view_multi _ _ _ _ Hm).
    pose proof (parts_count _ _ _ _ Hcs Hok). pose proof Hok as [].
    pose proof (blen_concat_parts (part_size f) cs ltac:(lia) po_sized0). nia.
Qed.

(** [seek] selects the part and the offset in it. *)
Lemma seek_multi f w X p off :
  is_multipart f <> 0 -> File_view f w = Some (X, p) -> 0 <= off < 2 ^ 63 ->
  exists r f' w', File_seek off SEEK_SET f w = (r, f', w') /\ keeps_net w w' /\
    is_multipart f' = is_multipart f /\
    (off < is_multipart f * part_size f /\ 0 <= r /\ File_view f' w' = Some (X, off) \/
     r = FAILED /\ f' = f /\ w' = w /\ is_multipart f * part_size f <= off).
Proof.
  intros Hm (cs & c & o & Hcs & Hv & Hok & -> & ->)%(File_view_multi _ _ _ _ Hm) Hoff.
  pose proof Hok as []. unfold File_seek.
  rewrite (proj2 (Z.eqb_neq (is_multipart f) 0)), (proj2 (Z.eqb_neq (part_size f) 0)) by lia.
  cbn [orb]. set (q := off / part_size f).
  assert (0 <= q <= off) by (split; [apply Z.div_pos|apply Z.div_le_upper_bound]; nia).
  pose proof (Z.div_mod off (part_size f) ltac:(lia)) as Hdm. fold q in Hdm.
  pose proof (Z.mod_pos_bound off (part_size f) ltac:(lia)).
  rewrite (u64_small off) by lia. fold q. rewrite (s64_small q) by lia.
  destruct (Z.ltb_spec q 0); [lia|]. cbn [orb].
  destruct (Z.leb_spec (is_multipart f) q).
  { exists FAILED, f, w. split; [done|]. split; [auto with netsrv|]. split; [done|]. right.
    split_and!; [done..|]. nia. }
  rewrite (s8_small q) by lia.
  assert (part_size f < 2 ^ 63) by nia.
  change (part_size (with_index q f)) with (part_size f).
  rewrite (s64_small (off mod part_size f)) by lia.
  change (fp_at (with_index q f) (index (with_index q f))) with (fp_at f q).
  destruct (part_contents f w cs o q Hcs Hok) as (c' & o' & Hv' & _); [lia|].
  destruct (seek_set_ok _ (off mod part_size f) w _ _ Hv') as (w' & -> & Hv'' & Hk & Hn'); [lia|].
  do 3 eexists. split; [done|]. split; [done|]. split; [done|]. left. split; [nia|]. split; [lia|].
  etrans; [eapply (File_view_parts (with_index q f)); [done| |done|]|].
  - rewrite <- Hcs. apply mapM_contents_ext. by eapply contents_keep.
  - eapply parts_ok_index; [done|lia..].
  - do 2 f_equal. cbn. lia.
Qed.

Lemma sum_parts_ok f w cs o st k i size :
  mapM (contents w) (part_fds f) = Some cs -> parts_ok f cs o ->
  0 <= i -> i + Z.of_nat k = is_multipart f -> 0 <= size ->
  size + blen (concat (drop (Z.to_nat i) cs)) < 2 ^ 64 ->
  exists w', sum_parts k i f st size w = (size + blen (concat (drop (Z.to_nat i) cs)), w') /\
    keeps_fs any_fd w w' /\ keeps_net w w'.
Proof.
  revert i size st w. induction k as [|k IH]; intros i size st w Hcs Hok Hi Hk Hs Hlt.
  - exists w. pose proof (parts_count _ _ _ _ Hcs Hok).
    rewrite drop_ge by lia. cbn. rewrite Z.add_0_r. auto with netsrv.
  - destruct (part_contents f w cs o i Hcs Hok) as (c & o' & Hv & Hc); [lia|].
    rewrite (drop_S cs c (Z.to_nat i) Hc) in *. cbn [concat sum_parts] in *.
    rewrite blen_app in *. pose proof (blen_nonneg c).
    pose proof (blen_nonneg (concat (drop (S (Z.to_nat i)) cs))).
    destruct (fstat_file_ok _ st w _ _ Hv) as (st' & w1 & -> & Hst & Hk1 & Hn1).
    rewrite Hst, u64_small by lia.
    replace (S (Z.to_nat i)) with (Z.to_nat (i + 1)) in * by lia.
    destruct (IH (i + 1) (size + blen c) st' w1) as (w2 & -> & Hk2 & Hn2); [|done|lia..|].
    { rewrite <- Hcs. apply mapM_contents_ext. intros d. unfold contents.
      by rewrite (kf_fd _ _ _ Hk1). }
    exists w2. split; [f_equal; lia|]. split; [by eapply keeps_fs_trans|by eapply keeps_net_trans].
Qed.

Lemma seek_plain f w X p off :
  is_multipart f = 0 -> File_view f w = Some (X, p) -> 0 <= off < 2 ^ 63 ->
  exists w', File_seek off SEEK_SET f w = (off, f, w') /\ keeps_net w w' /\
    File_view f w' = Some (X, off).
Proof.
  intros Hm Hv Hoff. unfold File_view, File_seek in *. rewrite Hm in *. cbn [Z.eqb orb] in *.
  destruct (plain_file f); [|done].
  destruct (seek_set_ok _ off w _ _ Hv Hoff) as (w' & -> & ? & _ & ?). eauto.
Qed.

Lemma seek_negative f w X p off :
  File_view f w = Some (X, p) -> - 2 ^ 63 <= off < 0 ->
  exists r f' w', File_seek off SEEK_SET f w = (r, f', w') /\ keeps_net w w' /\ r < 0.
Proof.
  intros Hv Hoff. unfold File_seek. destruct (Z.eqb_spec (is_multipart f) 0) as [Hm|Hm]; cbn [orb].
  - unfold File_view in Hv. rewrite Hm in Hv. cbn [Z.eqb] in Hv.
    destruct (plain_file f); [|done].
    destruct (law_lseek_neg _ off w _ _ Hv) as (w' & E & _); [lia|].
    unfold seek_file. rewrite E. do 3 eexists. split; [done|]. split; [|lia].
    by apply law_lseek in E as [_ ?].
  - apply (File_view_multi _ _ _ _ Hm) in Hv as (cs & c & o & _ & _ & [] & _).
    destruct (Z.eqb_spec (part_size f) 0); [lia|].
    replace (u64 off) with (off + 2 ^ 64)
      by (unfold u64; rewrite <- (Z.mod_small (off + 2 ^ 64) (2 ^ 64)) by lia;
          by rewrite <- (Z_mod_plus_full off 1)).
    set (q := (off + 2 ^ 64) / part_size f).
    pose proof (Z.div_mod (off + 2 ^ 64) (part_size f) ltac:(lia)) as Hdm. fold q in Hdm.
    pose proof (Z.mod_pos_bound (off + 2 ^ 64) (part_size f) ltac:(lia)).
    assert (is_multipart f <= q < 2 ^ 64) by (split; nia).
    assert (s64 q < 0 \/ is_multipart f <= s64 q) as Hq.
    { unfold s64. destruct (Z.ltb_spec q (2 ^ 63)).
      - right. rewrite Z.mod_small; lia.
      - left. replace (q + 2 ^ 63) with ((q - 2 ^ 63) + 1 * 2 ^ 64) by lia.
        rewrite Z_mod_plus_full, Z.mod_small; lia. }
    destruct (Z.ltb_spec (s64 q) 0), (Z.leb_spec (is_multipart f) (s64 q)); try lia; cbn [orb];
      exists FAILED, f, w; (split; [done|split; [auto with netsrv|done]]).
Qed.

Lemma fstat_view st_uninit f w X p st :
  File_view f w = Some (X, p) ->
  exists st' w', File_fstat st_uninit st f w = (0, st', f, w') /\ keeps_net w w' /\
    file_size st' = blen X /\ File_view f w' = Some (X, p).
Proof.
  intros Hv. pose proof Hv as Hv0. unfold File_fstat.
  destruct (Z.eqb_spec (is_multipart f) 0) as [Hm|Hm].
  - unfold File_view in Hv. rewrite Hm in Hv. cbn [Z.eqb] in Hv.
    destruct (plain_file f) eqn:Ep; [|done]. pose proof (law_view _ _ _ _ Hv) as (? & _).
    unfold FD_OK. destruct (Z.leb_spec 0 (fd f)); [|lia]. cbn [negb].
    destruct (fstat_file_ok _ st w _ _ Hv) as (st' & w' & -> & ? & Hk & ?).
    do 2 eexists. split; [done|]. split; [done|]. split; [done|]. by rewrite (File_view_frame _ w).
  - apply (File_view_multi _ _ _ _ Hm) in Hv as (cs & c & o & Hcs & Hv & Hok & -> & _).
    pose proof Hok as [].
    destruct (part_contents f w cs o 0 Hcs Hok) as (c0 & o0 & Hv' & _); [lia|].
    rewrite <- po_fd0 in Hv'. pose proof (law_view _ _ _ _ Hv') as (? & _).
    unfold FD_OK. destruct (Z.leb_spec 0 (fd f)); [|lia]. cbn [negb].
    pose proof (File_view_bounds _ _ _ _ Hv0) as [HX _].
    destruct (sum_parts_ok f w cs o st_uninit (Z.to_nat (is_multipart f)) 0 0 Hcs Hok)
      as (w1 & -> & Hk1 & Hn1); [lia|lia|lia|rewrite drop_0; lia|].
    rewrite <- (kf_fd _ _ _ Hk1) in Hv' by done.
    destruct (fstat_file_ok _ st w1 _ _ Hv') as (st' & w' & -> & _ & Hk & Hn').
    do 2 eexists. split; [done|]. split; [by eapply keeps_net_trans|]. split; [done|].
    by rewrite (File_view_frame _ w1), (File_view_frame _ w).
Qed.
End view_lemmas.

(** [File] keeps the promises of the interface. *)
#[export] Instance File_AbstractFileLaws {W} `{PosixLaws W} `{Aes} root_len make_iso st_uninit :
  AbstractFileLaws (H := File_AbstractFile root_len make_iso st_uninit) File W.
Proof.
  split; cbn.
  - apply File_view_bounds.
  - apply File_view_frame.
  - intros f w X p off Hv Hoff. destruct (decide (is_multipart f = 0)) as [Hm|Hm].
    + destruct (seek_plain f w X p off Hm Hv Hoff) as (w' & -> & ? & ?).
      do 3 eexists. split; [done|]. split; [done|]. split; [done|]. left. split; [lia|done].
    + destruct (seek_multi f w X p off Hm Hv Hoff) as (r & f' & w' & -> & ? & Hm' & Hcase).
      do 3 eexists. split; [done|]. split; [done|].
      rewrite !multipart_not_bulk by lia. split; [done|].
      destruct Hcase as [(_ & ? & ?)|(-> & -> & -> & Hoff')]; [by left|right].
      split; [done|]. split; [done|]. split; [done|].
      apply (File_view_multi _ _ _ _ Hm) in Hv as (cs & c & o & Hcs & _ & Hok & -> & _).
      pose proof Hok as []. pose proof (parts_count _ _ _ _ Hcs Hok).
      pose proof (blen_concat_parts (part_size f) cs ltac:(lia) po_sized0). nia.
  - apply seek_negative.
  - intros f w X p m o n Hv Hn. pose proof (File_read_promise f w X p m o n Hv Hn) as Hr.
    destruct (File_read m o n f w) as [[[r m'] f'] w']. destruct Hr as (? & ? & ? & ? & ? & ? & ?).
    do 4 eexists. split; [done|]. done.
  - intros f w X p st Hv. destruct (fstat_view st_uninit f w X p st Hv) as (st' & w' & ? & ? & ? & ?).
    do 3 eexists. done.
Qed.
