(* ===== verification/FileCrypt.v ===== *)
(** * Encrypted images: keys, region tables, decryption (File.cpp)

    Theorems about the Redump / 3k3y half of [File]: key strings, big-endian
    integers and initialisation vectors against their specifications, the
    sector loop of [decrypt_data], the region table read from sector 0, reads of
    an encrypted image, and the 3k3y masking. *)

From S2P Require Import Prelude Endian CMem CString Os AbsFile FileIso.

(** ** Keys *)

Definition hex_digit (upper : bool) (n : Z) : Z :=
  if n <? 10 then 48 + n else (if upper then 65 else 97) + (n - 10).

(** The text of a key: two digits per byte, each in its own case. *)
Fixpoint hex_of (case : nat -> bool) (k : nat) (key : bytes) : bytes :=
  match key with
  | [] => []
  | b :: key => hex_digit (case k) (b / 16) :: hex_digit (case (S k)) (b mod 16)
                :: hex_of case (S (S k)) key
  end.

Lemma asciischar_hex upper n : 0 <= n < 16 -> asciischar_to_byte (hex_digit upper n) = n.
Proof.
  intros Hn. unfold asciischar_to_byte, hex_digit, u8.
  destruct (Z.ltb_spec n 10); destruct upper; zdecide; rewrite Z.mod_small; lia.
Qed.

Lemma keystr_hex case k key : Forall is_byte key -> keystr_to_keyarr (hex_of case k key) = key.
Proof.
  intros Hk. revert k. induction Hk as [|b key Hb _ IH]; intros k; [done|].
  cbn [hex_of keystr_to_keyarr]. rewrite IH. f_equal. unfold is_byte in Hb.
  pose proof (Z.div_mod b 16 ltac:(lia)). pose proof (Z.mod_pos_bound b 16 ltac:(lia)).
  rewrite !asciischar_hex by lia. unfold u8. rewrite Z.mod_small; lia.
Qed.

(** A digit string of either case, decoded and printed again, is the same key. *)
Lemma asciischar_range c : 0 <= asciischar_to_byte c < 16.
Proof. unfold asciischar_to_byte, u8. zdecide; rewrite Z.mod_small; lia. Qed.

Lemma keystr_bytes str : Forall is_byte (keystr_to_keyarr str).
Proof.
  assert (forall n str, (length str < n)%nat -> Forall is_byte (keystr_to_keyarr str)) as Hn.
  { induction n as [|n IH]; intros s Hs; [lia|]. destruct s as [|a [|b s]]; cbn; [done..|].
    constructor; [apply Z.mod_pos_bound; lia|]. apply IH. cbn in Hs. lia. }
  apply (Hn (S (length str))). lia.
Qed.

(** ** Integers *)

Lemma char_arr_be m o : Forall is_byte (mload m o 4) -> char_arr_BE_to_uint m o = be_val (mload m o 4).
Proof.
  intros Hb. pose proof (be_val_range _ Hb) as Hr. rewrite blen_mload in Hr by lia.
  assert (mload m o 4 = [m o; m (o + 1); m (o + 2); m (o + 3)]) as E.
  { unfold mload. change (Z.to_nat 4) with 4%nat. cbn [seq fmap list_fmap]. repeat f_equal; lia. }
  assert (be_val (mload m o 4) = m (o + 3) + 256 * (m (o + 2) + 256 * (m (o + 1) + 256 * m o))) as Ev.
  { rewrite E in *. decompose_Forall_hyps. unfold be_val.
    change (reverse [m o; m (o + 1); m (o + 2); m (o + 3)]) with [m (o + 3); m (o + 2); m (o + 1); m o].
    rewrite !le_val_cons by done. cbn [le_val]. lia. }
  unfold char_arr_BE_to_uint. rewrite <- Ev. apply u32_small. lia.
Qed.

(** The initialisation vector of a sector: its number, big-endian, after zeros. *)
Lemma reset_iv_be lba : 0 <= lba < 2 ^ 32 -> reset_iv lba = replicate 12 0 ++ be_bytes 4 lba.
Proof.
  intros Hl. unfold reset_iv, be_bytes. f_equal.
  change (reverse (le_bytes 4 lba)) with
    [Z.land (Z.shiftr (Z.shiftr (Z.shiftr lba 8) 8) 8) 255; Z.land (Z.shiftr (Z.shiftr lba 8) 8) 255;
     Z.land (Z.shiftr lba 8) 255; Z.land lba 255].
  rewrite !Z.shiftr_shiftr by lia. cbn [Z.add Pos.add].
  assert (forall k, 0 <= k -> u8 (Z.shiftr (Z.land lba (Z.shiftl 255 k)) k) = Z.land (Z.shiftr lba k) 255) as E.
  { intros k Hk. unfold u8. rewrite Z.shiftr_land, Z.shiftr_shiftl_l, Z.sub_diag, Z.shiftl_0_r by lia.
    change 255 with (Z.ones 8). rewrite !Z.land_ones by lia. by rewrite Z.mod_mod. }
  change 0xFF000000 with (Z.shiftl 255 24). change 0x00FF0000 with (Z.shiftl 255 16).
  change 0x0000FF00 with (Z.shiftl 255 8). rewrite !E by lia.
  change 0xFF with 255. do 3 f_equal. unfold u8. rewrite land_255. f_equal.
  by rewrite Z.mod_mod.
Qed.

Lemma reset_iv_length lba : length (reset_iv lba) = 16%nat.
Proof. done. Qed.

(** ** Decryption of consecutive sectors *)

Section decrypt.
Context `{AesLaws}.

(** Sector [lba], decrypted on its own. *)
Definition sector_dec (aes : aes_context) (lba : Z) (d : bytes) : bytes :=
  (aes_crypt_cbc aes false kSectorSize (reset_iv (u32 lba)) d).2.

Lemma decrypt_loop_spec k i aes m o lba iv :
  let m' := (decrypt_loop k i aes m o lba iv).1 in
  (forall j, i <= j < i + Z.of_nat k ->
     mload m' (o + 2048 * j) 2048 = sector_dec aes (lba + j) (mload m (o + 2048 * j) 2048)) /\
  same_outside (o + 2048 * i) (2048 * Z.of_nat k) m m'.
Proof.
  revert i m iv; induction k as [|k IH]; intros i m iv; cbn [decrypt_loop].
  { split; [intros; lia|done]. }
  destruct (law_crypt_cbc aes false kSectorSize (reset_iv (u32 (lba + i)))
    (mload m (o + kSectorSize * i) kSectorSize)) as (iv' & out & E & Hout);
    [done|done|done|by apply blen_mload|].
  rewrite E. cbn [Z.eqb SUCCEEDED fst]. unfold kSectorSize in *.
  set (m1 := mstore m (o + 2048 * i) out).
  pose proof (same_outside_mstore (o + 2048 * i) out m) as Hm1. rewrite Hout in Hm1. fold m1 in Hm1.
  destruct (IH (i + 1) m1 iv') as [Hs Ho]. split.
  - intros j Hj. destruct (decide (j = i)) as [->|Hne].
    + rewrite (mload_same_outside _ _ _ _ _ _ Ho) by lia.
      unfold sector_dec, kSectorSize. rewrite E.
      pose proof (mload_mstore m (o + 2048 * i) out) as Hl. by rewrite Hout in Hl.
    + rewrite Hs by lia. f_equal. apply (mload_same_outside _ _ _ _ _ _ Hm1). lia.
  - eapply same_outside_trans; (eapply same_outside_weaken; [eassumption|lia|lia]).
Qed.

(** [decrypt_data] decrypts each sector with its own number, and touches
    nothing else. *)
Lemma decrypt_data_spec aes m o n lba iv :
  0 <= n ->
  let m' := (decrypt_data aes m o n lba iv).1 in
  (forall j, 0 <= j < n ->
     mload m' (o + 2048 * j) 2048 = sector_dec aes (lba + j) (mload m (o + 2048 * j) 2048)) /\
  same_outside o (2048 * n) m m'.
Proof.
  intros Hn. unfold decrypt_data.
  destruct (decrypt_loop_spec (Z.to_nat n) 0 aes m o lba iv) as [H1 H2].
  rewrite Z2Nat.id in H1, H2 by lia. rewrite Z.mul_0_r, Z.add_0_r in H2. done.
Qed.
End decrypt.

(** ** The region table *)

(** Regions that follow each other without gap from address [start] on,
    alternating between plain and encrypted. *)
Fixpoint tiles (start : Z) (enc : bool) (rs : list PS3RegionInfo) : Prop :=
  match rs with
  | [] => True
  | r :: rs => regions_first_addr r = start /\ encrypted r = enc /\
               tiles (regions_last_addr r + 1) (negb enc) rs
  end.

Lemma char_arr_range m o : 0 <= char_arr_BE_to_uint m o < 2 ^ 32.
Proof. apply Z.mod_pos_bound. lia. Qed.

Lemma odd_mod i : (i mod 2 =? 1) = Z.odd i.
Proof. rewrite Zmod_odd. by destruct (Z.odd i). Qed.

Lemma build_regions_tiles k i prev sec :
  0 <= i -> - 2 ^ 62 <= prev < 2 ^ 62 ->
  tiles (if i =? 0 then 0 else prev + 1) (Z.odd i) (build_regions k i prev sec).
Proof.
  revert i prev; induction k as [|k IH]; intros i prev Hi Hp; [done|].
  cbn [build_regions tiles regions_first_addr regions_last_addr encrypted]. rewrite odd_mod.
  split; [by destruct (Z.eqb_spec i 0); [|apply s64_small; lia]|]. split; [done|].
  set (last := s64 _). pose proof (char_arr_range sec (12 + i * 4)).
  assert (- 2 ^ 62 <= last < 2 ^ 62) by (unfold last, kSectorSize; rewrite s64_small; destruct (Z.odd i); lia).
  specialize (IH (i + 1) last ltac:(lia) ltac:(done)).
  destruct (Z.eqb_spec (i + 1) 0); [lia|].
  replace (negb (Z.odd i)) with (Z.odd (i + 1)) by (rewrite Z.odd_add; by destruct (Z.odd i)).
  done.
Qed.

(** In such a table every address between the first and the last region is in
    exactly one region: the one [find] returns. *)
Lemma tiles_find rs start enc pos rl :
  tiles start enc rs -> Forall (fun r => regions_first_addr r <= regions_last_addr r) rs ->
  last rs = Some rl -> start <= pos <= regions_last_addr rl ->
  exists (j : nat) r, rs !! j = Some r /\ in_region pos r = true /\
    List.find (in_region pos) rs = Some r /\
    encrypted r = xorb enc (Nat.odd j) /\
    forall j' r', rs !! j' = Some r' -> in_region pos r' = true -> j' = j.
Proof.
  revert start enc; induction rs as [|r rs IH]; intros start enc Ht Hf Hl Hpos; [done|].
  destruct Ht as (Hfst & Henc & Ht). inversion_clear Hf as [|?? Hr Hf'].
  assert (forall rs s e, tiles s e rs ->
    Forall (fun r => regions_first_addr r <= regions_last_addr r) rs ->
    forall j r', rs !! j = Some r' -> s <= regions_first_addr r') as Hge.
  { clear. induction rs as [|r rs IH]; intros s e Ht Hf j r' Hj; [done|].
    destruct Ht as (H1 & _ & Ht). inversion_clear Hf as [|?? Hr Hf'].
    destruct j; [injection Hj as ->; lia|]. specialize (IH _ _ Ht Hf' _ _ Hj). lia. }
  unfold in_region. destruct (Z.leb_spec pos (regions_last_addr r)) as [Hin|Hout].
  - exists 0%nat, r. cbn [List.find]. rewrite Hfst.
    destruct (Z.leb_spec start pos); [|lia]. destruct (Z.leb_spec pos (regions_last_addr r)); [|lia].
    cbn. split; [done|]. split; [done|]. split; [done|]. split; [rewrite Henc; by destruct enc|].
    intros [|j'] r' Hj' Hin'; [done|]. exfalso. specialize (Hge _ _ _ Ht Hf' _ _ Hj').
    case_bool_in Hin'; try done; lia.
  - destruct (IH (regions_last_addr r + 1) (negb enc) Ht Hf') as (j & r1 & Hj & Hin & Hfind & He & Hu).
    + destruct rs; [|done]. injection Hl as ->. lia.
    + lia.
    + exists (S j), r1. split; [done|]. split; [done|]. cbn [List.find].
      destruct (Z.leb_spec pos (regions_last_addr r)); [lia|]. rewrite andb_false_r.
      split; [done|]. split.
      * rewrite He, Nat.odd_succ, <- Nat.negb_odd. by destruct enc, (Nat.odd j).
      * intros [|j'] r' Hj' Hin'.
        -- injection Hj' as ->. case_bool_in Hin'; try done; lia.
        -- f_equal. by eapply Hu.
Qed.

(** ** Reads of a Redump image *)

Section read_encrypted.
Context {W : Type} `{PosixLaws W} `{AesLaws}.
Implicit Types (f : File) (w : W).

Definition region_of f (pos : Z) : option PS3RegionInfo :=
  List.find (in_region pos) (take (Z.to_nat (region_count_ f)) (default [] (region_info_ f))).

(** What the console should see of sector [lba] of the image [c]. *)
Definition plain_sector (aes : aes_context) (enc : bool) (lba : Z) (d : bytes) : bytes :=
  if enc then sector_dec aes lba d else d.

Lemma sector_dec_u32 aes lba j d : sector_dec aes (u32 lba + j) d = sector_dec aes (lba + j) d.
Proof. unfold sector_dec, u32. by rewrite Zplus_mod_idemp_l. Qed.

Lemma mload_mstore_sub m o d k n :
  0 <= k -> 0 <= n -> k + n <= blen d -> mload (mstore m o d) (o + k) n = slice k n d.
Proof.
  intros. apply mload_intro; [rewrite blen_slice; lia|]. intros j Hj.
  rewrite mstore_in by lia. symmetry. rewrite !nth_lookup, slice_lookup by lia. do 2 f_equal. lia.
Qed.

(** The image [f] after a raw read of [n] bytes at the sector-aligned position [p]. *)
Lemma raw_read_sectors m o c p n j :
  0 <= p -> 0 <= n -> p + n <= blen c -> 0 <= j < n / 2048 ->
  mload (mstore m o (slice p n c)) (o + 2048 * j) 2048 = slice (p + 2048 * j) 2048 c.
Proof.
  intros Hp Hn Hc Hj. pose proof (Z.mul_div_le n 2048 ltac:(lia)).
  rewrite mload_mstore_sub by (rewrite ?blen_slice; lia).
  rewrite slice_slice by lia. done.
Qed.

Lemma plain_file_redump f rs :
  enc_type_ f = kDiscTypeRedump -> region_count_ f <> 0 -> region_info_ f = Some rs ->
  plain_file f = false.
Proof.
  intros He Hc Hr. unfold plain_file. rewrite He, Hr.
  rewrite bool_decide_eq_false_2 by done. by rewrite (proj2 (Z.eqb_neq _ _) Hc).
Qed.

Lemma read_redump f w c p r rs m o n :
  is_multipart f = 0 -> enc_type_ f = kDiscTypeRedump ->
  region_count_ f <> 0 -> region_info_ f = Some rs -> region_of f p = Some r ->
  fd_view w (fd f) = Some (c, p) ->
  p mod 2048 = 0 -> n mod 2048 = 0 -> 0 <= n < 2 ^ 31 -> p + n <= blen c ->
  exists m' f' w', File_read m o n f w = (n, m', f', w') /\
    fd f' = fd f /\ fd_view w' (fd f') = Some (c, p + n) /\ same_outside o n m m' /\
    forall j, 0 <= j < n / 2048 ->
      mload m' (o + 2048 * j) 2048 =
      plain_sector (aes_dec_ f) (encrypted r) (p / 2048 + j) (slice (p + 2048 * j) 2048 c).
Proof.
  intros Hm He Hc Hi Hr Hv Hp Hn Hn' Hle. pose proof (law_view _ _ _ _ Hv) as (_ & HC & HP).
  unfold File_read. rewrite Hm, (plain_file_redump f rs) by done. cbn [Z.eqb].
  unfold File_seek. rewrite Hm. cbn [Z.eqb orb].
  destruct (seek_cur_ok _ w _ _ Hv) as (w1 & -> & Hv1 & _). destruct (Z.ltb_spec p 0); [lia|].
  destruct (read_file_ok (fd f) m o n w1 c p Hv1) as (w2 & -> & Hv2 & _); [lia|].
  assert (blen (slice p n c) = n) as Hlen by (rewrite blen_slice; lia). rewrite Hlen in *.
  rewrite He. rewrite (bool_decide_eq_false_2 (_ \/ _)) by naive_solver.
  rewrite (bool_decide_eq_false_2 (kDiscTypeRedump = _)) by done.
  unfold region_of in Hr. rewrite Hr.
  pose proof (same_outside_mstore o (slice p n c) m) as Hs. rewrite Hlen in Hs.
  destruct (encrypted r); cbn [negb plain_sector].
  - pose proof (Z.div_mod n 2048 ltac:(lia)). pose proof (Z.div_pos n 2048).
    rewrite (u64_small n) by lia. unfold kSectorSize. rewrite s32_small by lia.
    destruct (decrypt_data_spec (aes_dec_ f) (mstore m o (slice p n c)) o (n / 2048)
      (u32 (p / 2048)) (iv_ f)) as [Hd Ho]; [lia|].
    destruct (decrypt_data _ _ _ _ _ _) as [m' iv']. cbn [fst] in *.
    exists m', (with_iv iv' f), w2. split; [done|]. split; [done|]. split; [done|]. split.
    + eapply same_outside_trans; [done|]. by replace (2048 * (n / 2048)) with n in Ho by lia.
    + intros j Hj. rewrite Hd, raw_read_sectors by lia. apply sector_dec_u32.
  - exists (mstore m o (slice p n c)), f, w2. split; [done|]. split; [done|]. split; [done|].
    split; [done|]. intros j Hj. apply raw_read_sectors; lia.
Qed.
End read_encrypted.

(** ** The 3k3y information block *)

Lemma _memset_at m o n i : 0 <= n -> _memset m o n i = mfill m o n 0 i.
Proof. intros Hn. by apply _memset_fill. Qed.

Lemma mask_below m o pos ret :
  0 <= pos -> 0 <= ret -> pos + ret < 0x1070 ->
  forall i, mask_3k3y m o pos ret i =
    if (0 <=? i - o) && (i - o <? ret) && (0xF70 <=? pos + (i - o)) then 0 else m i.
Proof.
  intros Hp Hr Hlt i. unfold mask_3k3y.
  destruct (Z.leb_spec 0xF70 (pos + ret)); cbn [andb].
  2: { zdecide. }
  destruct (Z.leb_spec pos 0x1070); [|lia]. destruct (Z.ltb_spec (pos + ret) 0x1070); [|lia].
  destruct (Z.ltb_spec pos 0xF70).
  - rewrite u64_small, _memset_at by lia. unfold mfill. zdecide.
  - rewrite u64_small, _memset_at by lia. unfold mfill. zdecide.
Qed.

Lemma mask_beyond m o pos ret i :
  0 <= pos < 0xE70 -> 0x1070 <= pos + ret -> o + (0xF70 - pos) <= i < o + 2 ^ 63 ->
  mask_3k3y m o pos ret i = 0.
Proof.
  intros Hp Hr Hi. unfold mask_3k3y.
  destruct (Z.leb_spec 0xF70 (pos + ret)); [|lia]. destruct (Z.leb_spec pos 0x1070); [|lia].
  destruct (Z.ltb_spec pos 0xF70); [|lia]. destruct (Z.ltb_spec (pos + ret) 0x1070); [lia|].
  cbn [andb]. replace (u64 (0x100 - (0xF70 - pos))) with (2 ^ 64 + (pos - 0xE70)).
  - rewrite _memset_at by lia. apply mfill_in. lia.
  - unfold u64. rewrite <- (Z.mod_small (2 ^ 64 + (pos - 0xE70)) (2 ^ 64)) by lia.
    rewrite <- (Z_mod_plus_full (0x100 - (0xF70 - pos)) 1). f_equal. lia.
Qed.

Lemma mask_after m o pos ret i :
  0xF70 < pos <= 0x1070 -> 0x1070 <= pos + ret -> o <= i < o + 0x100 ->
  mask_3k3y m o pos ret i = 0.
Proof.
  intros Hp Hr Hi. unfold mask_3k3y.
  destruct (Z.leb_spec 0xF70 (pos + ret)); [|lia]. destruct (Z.leb_spec pos 0x1070); [|lia].
  destruct (Z.ltb_spec pos 0xF70); [lia|]. destruct (Z.ltb_spec (pos + ret) 0x1070); [lia|].
  cbn [andb]. rewrite u64_small, _memset_at by lia.
  apply mfill_in. lia.
Qed.
