(* ===== verification/FileOpen.v ===== *)
(** * Opening images: File::open

    What [File_open] makes of a path for reading: a plain file, or all the parts
    [path.iso.0], [path.iso.1], ... of a multi-part image as one. *)

From S2P Require Import Prelude Endian CMem CString Os Stream AbsFile FileIso FileView.

(** The path is neither one of a part 0 nor one the key and region handling is for. *)
Definition plain_path (root_len : Z) (path : bytes) : bool :=
  let plen := strlen path in
  let flen := if plen - 6 <? 0 then 0 else plen - 6 in
  let ppath := if s32 root_len <? plen then root_len else 0 in
  ((plen - 6 <? 0) || negb (isSome (first_of (plen - 6) path (str ".iso.0") (str ".ISO.0")))) &&
  match first_of ppath path (str "PS3ISO") (str "ps3iso"), first_of flen path (str ".iso") (str ".ISO") with
  | Some ps3, Some ext => ext <? ps3
  | _, _ => true
  end.

Section open.
Context {W : Type} `{PosixLaws W} `{Aes}.
Variables (root_len : Z) (st_uninit : file_stat_t) (this : File).
Implicit Types (f : File) (w : W).

(** A plain path is opened by one call, for whatever it is opened. *)
Lemma open_plain_file path flags w d w1 :
  plain_path root_len path = true -> sys_open path flags w = (d, w1) -> 0 <= d ->
  exists f, File_open root_len 0 st_uninit (Some path) flags (File_ctor this) w
      = Some (SUCCEEDED, f, w1) /\
    fd f = d /\ is_multipart f = 0 /\ region_count_ f = 0 /\ enc_type_ f = kDiscTypeNone.
Proof.
  intros Hp E Hd. unfold plain_path in Hp. apply andb_true_iff in Hp as [Hmulti Hext].
  unfold File_open. set (f0 := if flags =? O_RDONLY then _ else _).
  assert (fd f0 = INVALID_FD /\ region_count_ f0 = 0 /\ enc_type_ f0 = kDiscTypeNone) as (Ef & Er & Ee).
  { subst f0. by destruct (flags =? O_RDONLY). }
  clearbody f0. rewrite Ef. cbn [FD_OK INVALID_FD Z.leb Z.compare open_file]. rewrite E. unfold FD_OK.
  destruct (Z.leb_spec 0 d); [|lia]. cbn [negb].
  set (multi := isSome (first_of (strlen path - 6) path _ _)) in *.
  replace (if strlen path - 6 <? 0 then 0 else if multi then 1 else 0) with 0
    by (destruct (strlen path - 6 <? 0), multi; done).
  cbn [is_multipart with_multipart with_parts Z.eqb negb orb andb].
  rewrite orb_false_r.
  destruct (first_of (if s32 root_len <? strlen path then root_len else 0) path _ _) as [ps3|];
    cbn [isSome negb orb]; [|by eexists].
  destruct (first_of (if strlen path - 6 <? 0 then 0 else strlen path - 6) path _ _) as [ext|];
    cbn [isSome negb orb default from_option id]; [rewrite Hext|]; by eexists.
Qed.

Lemma open_plain path c w :
  plain_path root_len path = true -> file_at w path = Regular c ->
  exists f w', File_open root_len 0 st_uninit (Some path) O_RDONLY (File_ctor this) w
      = Some (SUCCEEDED, f, w') /\
    File_view f w' = Some (c, 0) /\ File_supportsBulkRead f = true /\ keeps_net w w'.
Proof.
  intros Hp Hc. destruct (law_open_ok _ _ _ Hc) as (d & w1 & E & Hd & Hv).
  pose proof (law_open _ _ _ _ E) as (_ & _ & Hnet).
  destruct (open_plain_file path _ w d w1 Hp E Hd) as (f & Eo & Hfd & Hm & Hrc & He).
  exists f, w1. split; [exact Eo|]. unfold File_view, File_supportsBulkRead, plain_file.
  rewrite Hm, He, Hfd. cbn [Z.eqb]. rewrite bool_decide_eq_true_2 by done. done.
Qed.

(** *** Parts *)

Definition part_name (base : bytes) (i : Z) : bytes := base ++ str "." ++ dec2 i.

Lemma open_parts_spec base cs : forall k i fps cnt w,
  length fps = 64%nat -> 0 < i -> i + blen cs + Z.of_nat k = 64 + blen cs -> blen cs <= Z.of_nat k ->
  (forall j c, cs !! j = Some c -> file_at w (part_name base (i + Z.of_nat j)) = Regular c) ->
  (blen cs < Z.of_nat k -> file_at w (part_name base (i + blen cs)) = Missing) ->
  exists fps' ds w', open_parts k i base O_RDONLY fps cnt w = (fps', cnt + blen cs, w') /\
    length fps' = 64%nat /\
    take (Z.to_nat i + length cs) fps' = take (Z.to_nat i) fps ++ ds /\
    Forall2 (fun d c => fd_view w' d = Some (c, 0) /\ fd_view w d = None) ds cs /\ NoDup ds /\
    (forall d, fd_view w d <> None -> fd_view w' d = fd_view w d) /\ keeps_net w w'.
Proof.
  unfold O_RDONLY. induction cs as [|c cs IH]; intros k i fps cnt w Hlen Hi Hk Hle Hreg Hmiss.
  - destruct k as [|k]; cbn [open_parts].
    + exists fps, [], w. cbn [length]. rewrite Z.add_0_r, Nat.add_0_r, app_nil_r.
      by repeat (split; [done || constructor|]).
    + rewrite blen_nil, Z.add_0_r in *.
      destruct (law_open_missing _ _ (Hmiss ltac:(lia))) as (w1 & E).
      pose proof (law_open _ _ _ _ E) as (_ & Hfs & Hnet). 
      unfold O_RDONLY in E. change (open_file _ 0 w) with (sys_open (part_name base i) 0 w). rewrite E. cbn [FD_OK Z.leb Z.compare negb].
      eexists _, [], w1. split; [done|]. cbn [length]. rewrite length_insert, Nat.add_0_r, app_nil_r, take_insert_ge by lia.
      split; [done|]. split; [done|]. split; [done|]. split; [constructor|]. split; [|done].
      intros d Hd. apply (kf_fd _ _ _ Hfs). intros ->. apply Hd.
      destruct (fd_view w (-1)) as [[c o]|] eqn:Ev; [|done]. by apply law_view in Ev as [? _].
  - rewrite blen_cons in *. destruct k as [|k]; [blia|]. cbn [open_parts].
    pose proof (Hreg 0%nat c eq_refl) as Hc. rewrite Z.add_0_r in Hc.
    destruct (law_open_ok _ _ _ Hc) as (d & w1 & E & Hd & Hv).
    pose proof (law_open _ _ _ _ E) as (Hfresh & Hfs & Hnet). 
    unfold O_RDONLY in E. change (open_file _ 0 w) with (sys_open (part_name base i) 0 w). rewrite E. unfold FD_OK. destruct (Z.leb_spec 0 d); [|lia]. cbn [negb].
    assert (forall d', fd_view w d' <> None -> fd_view w1 d' = fd_view w d') as Hkeep.
    { intros d' Hd'. apply (kf_fd _ _ _ Hfs). congruence. }
    destruct (IH k (i + 1) (<[Z.to_nat i := d]> fps) (cnt + 1) w1)
      as (fps' & ds & w2 & -> & Hlen' & Htake & Hall & Hnd & Hkeep2 & Hnet2); try lia.
    + by rewrite length_insert.
    + intros j c' Hj. rewrite (kf_path _ _ _ Hfs), <- (Hreg (S j) c' Hj). f_equal. f_equal. lia.
    + intros Hlt. rewrite (kf_path _ _ _ Hfs), <- Hmiss by lia. f_equal. f_equal. lia.
    + exists fps', (d :: ds), w2. split; [f_equal; f_equal; lia|]. split; [done|]. split.
      { replace (Z.to_nat i + length (c :: cs))%nat with (Z.to_nat (i + 1) + length cs)%nat by (cbn; lia).
        rewrite Htake. replace (Z.to_nat (i + 1)) with (S (Z.to_nat i)) by lia.
        rewrite (take_S_r _ _ d) by (apply list_lookup_insert_eq; blia || lia).
        by rewrite take_insert_ge, <- app_assoc by lia. }
      split; [|split; [|split; [|by eapply keeps_net_trans]]].
      * constructor; [split; [|done]; rewrite Hkeep2 by congruence; done|].
        eapply Forall2_impl; [exact Hall|]. cbn. intros d' c' [Hv' Hn']. split; [done|].
        destruct (fd_view w d') eqn:Ed; [|done]. rewrite Hkeep in Hn' by congruence. congruence.
      * constructor; [|done]. intros Hin. apply list_elem_of_lookup in Hin as (j & Hj).
        destruct (Forall2_lookup_l _ _ _ _ _ Hall Hj) as (c' & _ & _ & Hn'). congruence.
      * intros d' Hd'. rewrite Hkeep2; [by apply Hkeep|]. rewrite Hkeep by done. done.
Qed.

(** A multi-part image: part 0 is the path, the others follow until one is missing. *)
(** The path of a part 0 is opened, and then the other parts. *)
Lemma open_multi_file base flags w d w1 :
  let path := base ++ str ".iso.0" in
  sys_open path flags w = (d, w1) -> 0 <= d ->
  exists f, File_open root_len 0 st_uninit (Some path) flags (File_ctor this) w
      = Some (open_multipart st_uninit path (blen base) flags f w1) /\
    fd f = d /\ fp f = replicate 64 INVALID_FD /\ index f = 0 /\ enc_type_ f = kDiscTypeNone.
Proof.
  intros path E Hd. unfold File_open. set (f0 := if flags =? O_RDONLY then _ else _).
  assert (fd f0 = INVALID_FD /\ fp f0 = replicate 64 INVALID_FD /\ index f0 = 0 /\ enc_type_ f0 = kDiscTypeNone)
    as (Ef & Ep & Ei & Ee) by (subst f0; by destruct (flags =? O_RDONLY)).
  clearbody f0. rewrite Ef. cbn [FD_OK INVALID_FD Z.leb Z.compare open_file]. rewrite E. unfold FD_OK.
  destruct (Z.leb_spec 0 d); [|lia]. cbn [negb].
  assert (strlen path - 6 = blen base) as ->.
  { unfold strlen, path. rewrite blen_app. change (blen (str ".iso.0")) with 6. lia. }
  pose proof (blen_nonneg base). destruct (Z.ltb_spec (blen base) 0); [lia|].
  assert (first_of (blen base) path (str ".iso.0") (str ".ISO.0") = Some (blen base)) as ->.
  { unfold first_of, strstr_from, path, blen. rewrite Nat2Z.id, drop_app_length. cbn. f_equal. lia. }
  cbn [isSome is_multipart with_multipart with_parts Z.eqb negb orb andb]. by eexists.
Qed.

(** The name of the parts, without their number. *)
Lemma multi_base base : take (Z.to_nat (blen base + 4)) (base ++ str ".iso.0") = base ++ str ".iso".
Proof.
  change (str ".iso.0") with (str ".iso" ++ str ".0"). rewrite app_assoc. unfold blen.
  replace (Z.to_nat (Z.of_nat (length base) + 4)) with (length (base ++ str ".iso"))
    by (rewrite length_app; cbn; lia). by rewrite take_app_length.
Qed.

(** Descriptors at the start of the parts of an image. *)
Lemma multi_view f w d ds c0 cs :
  is_multipart f = 1 + blen cs -> part_size f = blen c0 -> index f = 0 -> length (fp f) = 64%nat ->
  fd f = fp_at f 0 -> part_fds f = d :: ds -> NoDup (d :: ds) ->
  Forall2 (fun d c => fd_view w d = Some (c, 0)) (d :: ds) (c0 :: cs) ->
  0 < blen c0 -> parts_sized (blen c0) (c0 :: cs) -> blen cs <= 63 -> (1 + blen cs) * blen c0 < 2 ^ 63 ->
  File_view f w = Some (concat (c0 :: cs), 0).
Proof.
  intros Hm Hps Hix Hfp Hfd Hds Hnd Hall Hpos Hsized Hcount Htotal. pose proof (blen_nonneg cs).
  assert (d = fp_at f 0) as Hd.
  { unfold part_fds in Hds. unfold fp_at. destruct (fp f) as [|x l]; [done|].
    rewrite Hm in Hds. by destruct (Z.to_nat _) eqn:En in Hds; [lia|injection Hds]. }
  apply File_view_multi; [lia|]. exists (c0 :: cs), c0, 0.
  assert (mapM (contents w) (part_fds f) = Some (c0 :: cs)) as HM.
  { rewrite Hds. apply mapM_Some. eapply Forall2_impl; [exact Hall|]. intros d' c' Hv'.
    unfold contents. by rewrite Hv'. }
  split; [done|]. rewrite Hix, <- Hd. split; [by inversion Hall|]. split; [|split; [done|lia]].
  split; rewrite ?Hm, ?Hps, ?Hix, ?Hds; done || lia.
Qed.

Lemma open_multi `{!StreamView W, !StreamLaws W} base c0 cs w :
  let path := base ++ str ".iso.0" in
  0 < blen c0 -> parts_sized (blen c0) (c0 :: cs) -> blen cs <= 63 ->
  (1 + blen cs) * blen c0 < 2 ^ 63 ->
  file_at w path = Regular c0 ->
  (forall j c, cs !! j = Some c ->
     file_at w (part_name (base ++ str ".iso") (1 + Z.of_nat j)) = Regular c) ->
  (blen cs < 63 -> file_at w (part_name (base ++ str ".iso") (1 + blen cs)) = Missing) ->
  exists r f w', File_open root_len 0 st_uninit (Some path) O_RDONLY (File_ctor this) w
      = Some (r, f, w') /\ keeps_net w w' /\
    (r = SUCCEEDED /\ File_view f w' = Some (concat (c0 :: cs), 0) \/ r = FAILED /\ ~ memory w).
Proof.
  intros path Hpos Hsized Hcount Htotal Hc0 Hparts Hmiss.
  destruct (law_open_ok _ _ _ Hc0) as (d & w1 & E & Hd & Hv).
  pose proof (law_open _ _ _ _ E) as (_ & Hfs1 & Hnet1).
  destruct (open_multi_file base _ w d w1 E Hd) as (f1 & Eo & Hfd & Hfp & Hix & Henc).
  fold path in Eo. rewrite Eo. clear Eo.
  unfold open_multipart.
  match goal with |- context [sys_malloc ?n w1] =>
    pose proof (sl_malloc_ok n w1) as Hok; destruct (sys_malloc n w1) as [ok w2] eqn:Em end.
  apply law_malloc in Em as [Hfs2 Hnet2]. destruct (sl_open _ _ _ _ E) as [[_ Hmem] _].
  destruct ok; cbn [negb].
  2: { eexists _, _, _. split; [done|]. split; [by eapply keeps_net_trans|].
       right. split; [done|]. by intros ?%Hmem%Hok. }
  rewrite <- (kf_fd _ _ _ Hfs2) in Hv by done.
  rewrite Hfd.
  destruct (fstat_file_ok d st_uninit w2 c0 0 Hv) as (st & w3 & -> & Hst & Hfs3 & Hnet3).
  cbn [Z.ltb Z.compare]. rewrite <- (kf_fd _ _ _ Hfs3) in Hv by done.
  assert (forall p, file_at w3 p = file_at w p) as Hpath.
  { intros p. by rewrite (kf_path _ _ _ Hfs3), (kf_path _ _ _ Hfs2), (kf_path _ _ _ Hfs1). }
  unfold path at 1. rewrite multi_base. cbn [fp with_part_size]. rewrite Hfp.
  set (fps0 := replicate 64 INVALID_FD). assert (length fps0 = 64%nat) as Hl0 by done. clearbody fps0.
  destruct (open_parts_spec (base ++ str ".iso") cs 63 1 fps0 1 w3) as
    (fps' & ds & w4 & -> & Hlen' & Htake & Hall & Hnd & Hkeep & Hnet4); try done; try lia.
  { intros j c Hj. rewrite Hpath. by apply Hparts. }
  { intros Hlt. rewrite Hpath. by apply Hmiss. }
  eexists _, _, _. split; [done|].
  split; [by repeat (eapply keeps_net_trans; [eassumption|])|]. left. split; [done|].
  destruct fps' as [|x fps']; [done|]. destruct fps0 as [|y l]; [done|].
  apply (multi_view _ _ d ds); cbn [is_multipart part_size index fp fd with_parts with_part_size]; try done.
  - unfold part_fds. cbn. rewrite Hfd. unfold blen.
    replace (Z.to_nat (1 + Z.of_nat (length cs))) with (S (length cs)) by lia.
    change (Z.to_nat 1 + length cs)%nat with (S (length cs)) in Htake. cbn in Htake |- *. by injection Htake as _ ->.
  - constructor; [|done]. intros Hin. apply list_elem_of_lookup in Hin as (j & Hj).
    destruct (Forall2_lookup_l _ _ _ _ _ Hall Hj) as (c' & _ & _ & Hn'). congruence.
  - constructor; [by rewrite Hkeep by congruence|]. eapply Forall2_impl; [exact Hall|]. by intros d' c' [].
Qed.
End open.
