(* ===== verification/VIso.v ===== *)
(** * Virtual images: the class VIsoFile and its file operations

    A [VIsoFile] presents a directory as a disc image: the file system structures
    in memory, then the directory's files, each from the start of a sector, then
    padding.  This file holds the class of include/VIsoFile.h and the operations
    of src/VIsoFile.cpp on an image that is open: read, write, seek, fstat, close
    and reset.  VIsoTree.v and VIsoImage.v build the image. *)

From S2P Require Import Prelude Endian CMem CString Os AbsFile FileIso.

Definition SECTOR_SIZE : Z := 0x800.
Definition SECTOR_MASK : Z := 0x7FF.

(** [(x + SECTOR_MASK) & ~SECTOR_MASK] on 64 bits *)
Definition sector_align (x : Z) : Z := Z.ldiff (u64 (x + SECTOR_MASK)) SECTOR_MASK.

Definition bytesToSectors (size : Z) : Z := u32 (sector_align size / SECTOR_SIZE).

(** ** Data *)

Record FileList := mkFileList {
  fl_path : bytes;
  fl_path_len : Z;
  file_len : Z;
  rlba : Z;
  fl_size : Z;
  multipart : bool;
}.

(** A directory of the tree.  [next] is the order of the list of directories;
    [parent], [firstChild] and [nextSibling] are positions in it. *)
Record DirList := mkDirList {
  dl_path : bytes;
  path_len : Z;
  full_len : Z;
  content : option bytes;              (* None: NULL; its length is contentSize *)
  contentJoliet : option bytes;
  idx : Z;
  fileList : list FileList;
  parent : nat;
  children : list nat;                 (* firstChild and the nextSibling of each *)
}.

Record VIsoFile := mkVIso {
  v_ps3Mode : bool;
  vFilePtr : Z;
  fsBuf : option mem;                  (* None: NULL *)
  fsBufSize : Z;
  rootList : list DirList;             (* []: NULL *)
  filesSizeSectors : Z;
  dirsSizeSectors : Z;
  dirsSizeSectorsJoliet : Z;
  pathTableL : option bytes;
  pathTableM : option bytes;
  pathTableJolietL : option bytes;
  pathTableJolietM : option bytes;
  pathTableSize : Z;
  pathTableSizeJoliet : Z;
  volumeSize : Z;
  totalSize : Z;
  padAreaStart : Z;
  padAreaSize : Z;
  v_st : file_stat_t;
}.

Definition with_ptr x v := mkVIso (v_ps3Mode v) x (fsBuf v) (fsBufSize v) (rootList v)
  (filesSizeSectors v) (dirsSizeSectors v) (dirsSizeSectorsJoliet v) (pathTableL v) (pathTableM v)
  (pathTableJolietL v) (pathTableJolietM v) (pathTableSize v) (pathTableSizeJoliet v)
  (volumeSize v) (totalSize v) (padAreaStart v) (padAreaSize v) (v_st v).

(** The fields that the constructor and [reset] clear; [fsBufSize] and
    [volumeSize] are not among them. *)
Definition cleared ps3 v := mkVIso ps3 0 None (fsBufSize v) [] 0 0 0 None None None None 0 0
  (volumeSize v) 0 0 0 (v_st v).

(** [this] is the storage of the new object. *)
Definition VIsoFile_ctor (this : VIsoFile) (ps3 : bool) : VIsoFile := cleared ps3 this.

Definition reset v : VIsoFile := cleared (v_ps3Mode v) v.

Definition VIso_close v : Z * VIsoFile :=
  match fsBuf v with
  | None => (FAILED, v)
  | Some _ => (SUCCEEDED, reset v)
  end.

(** ** Reading *)

(** The variables of [read]: [buf], [remaining], [r], [p] and [vFilePtr]. *)
Record cursor := mkCursor {
  c_buf : mem;
  remaining : Z;
  c_r : Z;
  c_p : Z;
  c_pos : Z;
}.

Definition with_buf m c := mkCursor m (remaining c) (c_r c) (c_p c) (c_pos c).

(** [remaining -= to_read; r += to_read; p += to_read; vFilePtr += to_read;] *)
Definition advance to_read c :=
  mkCursor (c_buf c) (u64 (remaining c - to_read)) (u64 (c_r c + to_read))
    (c_p c + to_read) (s64 (c_pos c + to_read)).

(** The zero area after a file. *)
Definition read_filler (fEnd fEndSector : Z) c : cursor :=
  if (0 <? remaining c) && negb (fEnd =? fEndSector) then
    let to_read := Z.min (u64 ((fEndSector - fEnd) - (c_pos c - fEnd))) (remaining c) in
    advance to_read (with_buf (_memset (c_buf c) (c_p c) to_read) c)
  else c.

(** The structures in memory. *)
Definition read_structures (fs : mem) (fs_size : Z) c : cursor :=
  if c_pos c <? fs_size then
    let to_read := Z.min (u64 (fs_size - c_pos c)) (remaining c) in
    advance to_read (with_buf (_memcpy (c_buf c) (c_p c) fs (c_pos c) to_read) c)
  else c.

(** The padding at the end. *)
Definition read_pad v c : cursor :=
  if (padAreaStart v <=? c_pos c) && (c_pos c <? totalSize v) then
    let read_size := padAreaSize v - (c_pos c - padAreaStart v) in
    if 0 <? read_size then
      let to_read := Z.min (u64 read_size) (remaining c) in
      advance to_read (with_buf (_memset (c_buf c) (c_p c) to_read) c)
    else c
  else c.

(** *** The walk over the files

    The loops of [read] are the same in VIsoFile.cpp and VIsoFile2.cpp; what they
    do about the bytes of one file is not.  [read_data] is that part: it gets the
    position of the file in the list of all files, and the boolean it answers
    says that [read] returns at once. *)
Section walk.
Context {St : Type}.
Variable read_data : nat -> FileList -> Z -> cursor -> St -> bool * cursor * St.
Implicit Types (c : cursor) (s : St).

Definition read_list_file (i : nat) (fs_size : Z) (f : FileList) c s : bool * cursor * St :=
  let fStart := s64 (fs_size + rlba f * SECTOR_SIZE) in
  let fEnd := s64 (fStart + fl_size f) in
  let fEndSector := s64 (sector_align fEnd) in
  if (fStart <=? c_pos c) && (c_pos c <? fEndSector) then
    if multipart f then (true, c, s)
    else
      let '(ret, c, s) := if c_pos c <? fEnd then read_data i f fStart c s else (false, c, s) in
      if ret then (true, c, s)
      else let c := read_filler fEnd fEndSector c in (remaining c =? 0, c, s)
  else (false, c, s).

Fixpoint read_files (i : nat) (fs_size : Z) (fl : list FileList) c s : bool * cursor * St :=
  match fl with
  | [] => (false, c, s)
  | f :: fl =>
      let '(ret, c, s) := read_list_file i fs_size f c s in
      if ret then (true, c, s) else read_files (S i) fs_size fl c s
  end.

Fixpoint read_dirs (i : nat) (fs_size : Z) (dl : list DirList) c s : bool * cursor * St :=
  match dl with
  | [] => (false, c, s)
  | d :: dl =>
      let '(ret, c, s) := read_files i fs_size (fileList d) c s in
      if ret then (true, c, s) else read_dirs (i + length (fileList d)) fs_size dl c s
  end.

(** [read] after its checks: the structures [fs], the files, the padding. *)
Definition read_image (fs m : mem) (o nbyte : Z) (v : VIsoFile) s : Z * mem * VIsoFile * St :=
  let done_ c s := (s64 (c_r c), c_buf c, with_ptr (c_pos c) v, s) in
  let c := read_structures fs (fsBufSize v) (mkCursor m nbyte 0 o (vFilePtr v)) in
  if (remaining c =? 0) || (totalSize v <=? c_pos c) then done_ c s
  else
    let '(ret, c, s) :=
      if c_pos c <? padAreaStart v then read_dirs 0 (fsBufSize v) (rootList v) c s
      else (false, c, s) in
    if ret then done_ c s else done_ (read_pad v c) s.
End walk.

Section reading.
Context {W : Type} `{Posix W}.
Implicit Types (c : cursor) (w : W).

(** VIsoFile opens the file for each read, and closes it. *)
Definition read_data (f : FileList) (fStart : Z) c w : bool * cursor * W :=
  let to_read := Z.min (u64 (fl_size f - (c_pos c - fStart))) (remaining c) in
  let '(d, w) := open_file (Some (fl_path f)) O_RDONLY w in
  if negb (FD_OK d) then (true, c, w)
  else
    let '(_, w) := seek_file d (c_pos c - fStart) SEEK_SET w in
    let '(this_r, m, w) := read_file d (c_buf c) (c_p c) to_read w in
    let '(_, w) := close_file d w in
    let c := with_buf m c in
    if this_r <? 0 then (true, c, w)
    else if negb (this_r =? to_read) then (true, c, w)
    else (false, advance to_read c, w).

Definition VIso_read (m : mem) (o nbyte : Z) (v : VIsoFile) w : Z * mem * VIsoFile * W :=
  match fsBuf v with
  | None => (FAILED, m, v, w)
  | Some fs =>
      if (totalSize v <=? vFilePtr v) || (nbyte =? 0) then (SUCCEEDED, m, v, w)
      else if vFilePtr v <? 0 then (FAILED, m, v, w)
      else read_image (fun _ => read_data) fs m o nbyte v w
  end.

Definition VIso_write (buf : bytes) (v : VIsoFile) w : Z * VIsoFile * W := (FAILED, v, w).

(** [if (whence == ...) vFilePtr = ...] leaves the position for other values. *)
Definition VIso_seek (offset whence : Z) (v : VIsoFile) w : Z * VIsoFile * W :=
  match fsBuf v with
  | None => (FAILED, v, w)
  | Some _ =>
      let p := if whence =? SEEK_SET then offset
               else if whence =? SEEK_CUR then s64 (vFilePtr v + offset)
               else if whence =? SEEK_END then s64 (totalSize v + offset)
               else vFilePtr v in
      (p, with_ptr p v, w)
  end.

Definition VIso_fstat (fs : file_stat_t) (v : VIsoFile) w : Z * file_stat_t * VIsoFile * W :=
  match fsBuf v with
  | None => (FAILED, fs, v, w)
  | Some _ =>
      (SUCCEEDED, mk_stat (totalSize v) (st_mtime (v_st v)) (st_ctime (v_st v)) (st_atime (v_st v))
        S_IFREG, v, w)
  end.
End reading.
