(* ===== verification/VIsoView.v ===== *)
(** * What a virtual image contains

    [VIso_view] is the abstraction function of VIsoFile: the bytes of the
    structures in memory, each file of the tree filled up to whole sectors, and
    the padding.  [image_ok] says that the files are laid out one after the
    other.  Reading, seeking and [fstat] act on that byte string as
    [AbstractFileLaws] promises. *)

From S2P Require Import Prelude Endian CMem CString Os AbsFile FileIso VIso.

(** A file, filled with zeros up to a whole number of sectors. *)
Definition pad_sector (c : bytes) : bytes :=
  c ++ replicate (Z.to_nat (- blen c mod SECTOR_SIZE)) 0.

(** Sizes whose number of sectors fits in 32 bits. *)
Definition size_ok (n : Z) : Prop := 0 <= n <= 2 ^ 43 - SECTOR_SIZE.

(** The files occupy the sectors from [lba] up to [e], one after the other. *)
Fixpoint laid (lba : Z) (fl : list FileList) (e : Z) : Prop :=
  match fl with
  | [] => lba = e
  | f :: fl => (rlba f = lba /\ size_ok (fl_size f)) /\ laid (lba + bytesToSectors (fl_size f)) fl e
  end.

#[export] Instance laid_dec lba fl e : Decision (laid lba fl e).
Proof. revert lba; induction fl as [|f fl IH]; intros lba; cbn; unfold size_ok; apply _. Defined.

Definition all_files (v : VIsoFile) : list FileList := concat (fileList <$> rootList v).

Record image_ok (v : VIsoFile) : Prop := {
  io_ptr : 0 <= vFilePtr v < 2 ^ 63;
  io_fs : 0 <= fsBufSize v;
  io_sector : fsBufSize v mod SECTOR_SIZE = 0;
  io_laid : laid 0 (all_files v) (filesSizeSectors v);
  io_start : padAreaStart v = fsBufSize v + filesSizeSectors v * SECTOR_SIZE;
  io_pad : 0 <= padAreaSize v;
  io_total : totalSize v = padAreaStart v + padAreaSize v;
  io_bound : totalSize v < 2 ^ 63;
}.

#[export] Instance image_ok_dec v : Decision (image_ok v).
Proof.
  destruct (decide (0 <= vFilePtr v < 2 ^ 63 /\ 0 <= fsBufSize v /\
    fsBufSize v mod SECTOR_SIZE = 0 /\ laid 0 (all_files v) (filesSizeSectors v) /\
    padAreaStart v = fsBufSize v + filesSizeSectors v * SECTOR_SIZE /\ 0 <= padAreaSize v /\
    totalSize v = padAreaStart v + padAreaSize v /\ totalSize v < 2 ^ 63)) as [Hd|Hd].
  - left. destruct_and! Hd. by split.
  - right. intros []. tauto.
Defined.

Section view.
Context {W : Type} `{PosixView W}.

(** A file that still has the size it had when the image was made. *)
Definition file_contents (w : W) (f : FileList) : option bytes :=
  if multipart f then None
  else match file_at w (fl_path f) with
       | Regular c => if blen c =? fl_size f then Some c else None
       | _ => None
       end.

Definition image_bytes (v : VIsoFile) (fs : mem) (cs : list bytes) : bytes :=
  mload fs 0 (fsBufSize v) ++ concat (pad_sector <$> cs) ++ replicate (Z.to_nat (padAreaSize v)) 0.

Definition VIso_view (v : VIsoFile) (w : W) : option (bytes * Z) :=
  fs ← fsBuf v; cs ← mapM (file_contents w) (all_files v);
  if decide (image_ok v) then Some (image_bytes v fs cs, vFilePtr v) else None.
End view.

(** ** Sectors *)

Lemma sector_align_div x :
  0 <= x -> x + SECTOR_MASK < 2 ^ 64 -> sector_align x = (x + SECTOR_MASK) / SECTOR_SIZE * SECTOR_SIZE.
Proof.
  intros ??. unfold sector_align. rewrite u64_small by (unfold SECTOR_MASK in *; lia).
  change SECTOR_MASK with (Z.ones 11) at 2. rewrite Z.ldiff_ones_r by lia.
  by rewrite Z.shiftl_mul_pow2, Z.shiftr_div_pow2 by lia.
Qed.

(** Rounding up, in terms of the filling. *)
Lemma round_up x :
  (x + SECTOR_MASK) / SECTOR_SIZE * SECTOR_SIZE = x + - x mod SECTOR_SIZE.
Proof. unfold SECTOR_MASK, SECTOR_SIZE. Z.to_euclidean_division_equations. lia. Qed.

Lemma sectors_size x :
  size_ok x -> bytesToSectors x * SECTOR_SIZE = x + - x mod SECTOR_SIZE /\ 0 <= bytesToSectors x < 2 ^ 32.
Proof.
  unfold size_ok. intros Hx. unfold bytesToSectors.
  assert (SECTOR_SIZE = 2048 /\ SECTOR_MASK = 2047) as [ES EM] by done.
  rewrite sector_align_div by lia. rewrite Z.div_mul by lia.
  rewrite u32_small by (rewrite ?ES, ?EM in *; Z.to_euclidean_division_equations; lia).
  split; [apply round_up|]. rewrite ?ES, ?EM in *. Z.to_euclidean_division_equations. lia.
Qed.

Lemma blen_pad_sector c : size_ok (blen c) -> blen (pad_sector c) = bytesToSectors (blen c) * SECTOR_SIZE.
Proof.
  intros Hc. rewrite (proj1 (sectors_size _ Hc)). unfold pad_sector.
  rewrite blen_app, blen_replicate. pose proof (Z.mod_pos_bound (- blen c) SECTOR_SIZE). unfold SECTOR_SIZE in *. lia.
Qed.

Lemma align_file s x :
  0 <= s -> s mod SECTOR_SIZE = 0 -> size_ok x -> s + x < 2 ^ 63 ->
  sector_align (s + x) = s + bytesToSectors x * SECTOR_SIZE.
Proof.
  intros Hs Hm Hx Hb. rewrite (proj1 (sectors_size x Hx)). unfold size_ok in Hx.
  assert (SECTOR_SIZE = 2048 /\ SECTOR_MASK = 2047) as [ES EM] by done.
  rewrite sector_align_div, round_up by lia. rewrite ES in *.
  Z.to_euclidean_division_equations. lia.
Qed.

Lemma laid_mono lba fl e : laid lba fl e -> lba <= e.
Proof.
  revert lba; induction fl as [|f fl IH]; intros lba; cbn; [lia|].
  intros [[_ Hs] Hl]. apply IH in Hl. apply sectors_size in Hs. lia.
Qed.

(** ** Steps of a read

    [progress X c c']: the bytes of [X] from the position of [c] on were stored
    and counted, nothing else was stored. *)

Record progress (X : bytes) (c c' : cursor) (k : Z) : Prop := {
  pg_k : 0 <= k <= remaining c;
  pg_in : c_pos c + k <= blen X;
  pg_remaining : remaining c' = remaining c - k;
  pg_r : c_r c' = c_r c + k;
  pg_p : c_p c' = c_p c + k;
  pg_pos : c_pos c' = c_pos c + k;
  pg_data : mload (c_buf c') (c_p c) k = slice (c_pos c) k X;
  pg_outside : same_outside (c_p c) (remaining c) (c_buf c) (c_buf c');
}.

(** The numbers of a cursor do not wrap. *)
Record cursor_ok (X : bytes) (c : cursor) : Prop := {
  co_pos : 0 <= c_pos c;
  co_image : blen X < 2 ^ 63;
  co_in : c_pos c <= blen X;
  co_rem : 0 <= remaining c;
  co_r : 0 <= c_r c;
  co_sum : c_r c + remaining c < 2 ^ 63;
}.

Lemma progress_refl X c : cursor_ok X c -> progress X c c 0.
Proof.
  intros []. split; try lia; [|done]. by rewrite mload_0, slice_0.
Qed.

Lemma progress_ok X c c' k : cursor_ok X c -> progress X c c' k -> cursor_ok X c'.
Proof. intros [] []. split; lia. Qed.

Lemma progress_trans X c1 c2 c3 k1 k2 :
  cursor_ok X c1 -> progress X c1 c2 k1 -> progress X c2 c3 k2 -> progress X c1 c3 (k1 + k2).
Proof.
  intros [] A B. pose proof A as []. pose proof B as [].
  rewrite pg_remaining0, pg_p0, pg_pos0 in *. split; try lia.
  - rewrite mload_split, slice_split by lia. rewrite pg_data1. f_equal.
    rewrite <- pg_data0. apply (mload_same_outside _ _ _ _ _ _ pg_outside1). lia.
  - eapply same_outside_trans; [done|]. eapply same_outside_weaken; [done|lia|lia].
Qed.

(** One piece is stored and the variables are advanced. *)
Lemma progress_store X c d m k :
  cursor_ok X c -> k = blen d -> d = slice (c_pos c) k X -> k <= remaining c ->
  m ≡ₘ mstore (c_buf c) (c_p c) d ->
  progress X c (advance k (with_buf m c)) k.
Proof.
  intros [] Hk Hd Hle Hm. pose proof (blen_nonneg d).
  assert (c_pos c + k <= blen X) as Hin.
  { pose proof (f_equal blen Hd) as E. rewrite blen_slice in E by lia. lia. }
  split; cbn [c_buf c_p remaining c_r c_pos advance with_buf];
    rewrite ?u64_small, ?s64_small by lia; try lia.
  - by rewrite Hm, Hk, mload_mstore, <- Hk.
  - intros i Hi. rewrite Hm. apply mstore_out. lia.
Qed.

(** Zeros are stored where the image has zeros. *)
Lemma progress_zeros X c k :
  cursor_ok X c -> 0 <= k <= remaining c ->
  slice (c_pos c) k X = replicate (Z.to_nat k) 0 ->
  progress X c (advance k (with_buf (_memset (c_buf c) (c_p c) k) c)) k.
Proof.
  intros Hc Hk HX. apply progress_store with (d := replicate (Z.to_nat k) 0); [done|blia|done|lia|].
  rewrite _memset_fill by lia. apply mfill_mstore.
Qed.

(** ** The structures *)

Lemma read_structures_ok X fs n c :
  cursor_ok X c -> 0 <= n <= blen X -> mload fs 0 n = slice 0 n X ->
  exists k, progress X c (read_structures fs n c) k /\
    (remaining (read_structures fs n c) = 0 \/ n <= c_pos (read_structures fs n c)).
Proof.
  intros Hc Hn HX. pose proof Hc as []. unfold read_structures. zdecide.
  2: { exists 0. split; [by apply progress_refl|right; lia]. }
  rewrite u64_small by lia. set (k := Z.min _ _).
  assert (progress X c (advance k (with_buf (_memcpy (c_buf c) (c_p c) fs (c_pos c) k) c)) k) as P.
  { apply progress_store with (d := mload fs (c_pos c) k); [done|by rewrite blen_mload by lia| |lia|].
    - assert (slice (c_pos c) k (mload fs 0 n) = slice (c_pos c) k (slice 0 n X)) as E by by rewrite HX.
      rewrite (slice_slice _ _ 0 n), Z.add_0_l in E by lia. rewrite <- E.
      apply mload_intro; [rewrite blen_slice, blen_mload; lia|]. intros i Hi.
      rewrite nth_lookup, slice_lookup, mload_lookup by lia. cbn. f_equal. lia.
    - by apply _memcpy_copy; lia. }
  exists k. split; [done|]. rewrite (pg_remaining _ _ _ _ P), (pg_pos _ _ _ _ P). lia.
Qed.

Lemma read_pad_ok X v c s :
  cursor_ok X c -> 0 <= s -> padAreaStart v = s -> 0 <= padAreaSize v ->
  totalSize v = s + padAreaSize v -> blen X = totalSize v ->
  slice s (padAreaSize v) X = replicate (Z.to_nat (padAreaSize v)) 0 ->
  exists k, progress X c (read_pad v c) k /\
    (s <= c_pos c -> remaining (read_pad v c) = 0 \/ c_pos (read_pad v c) = blen X).
Proof.
  intros Hc Hs Es Hp Ht HX Hz. pose proof Hc as []. unfold read_pad. rewrite Es.
  destruct (Z.leb_spec s (c_pos c)), (Z.ltb_spec (c_pos c) (totalSize v)); cbn [andb];
    try (exists 0; split; [by apply progress_refl|lia]).
  zdecide. rewrite u64_small by lia. set (k := Z.min _ _).
  assert (progress X c (advance k (with_buf (_memset (c_buf c) (c_p c) k) c)) k) as P.
  { apply progress_zeros; [done|lia|].
    replace (slice (c_pos c) k X) with (slice (c_pos c - s) k (slice s (padAreaSize v) X))
      by (rewrite slice_slice by lia; f_equal; lia).
    rewrite Hz. apply list_eq; intros i. unfold slice.
    rewrite drop_replicate, take_replicate. f_equal. f_equal. lia. }
  exists k. split; [done|]. intros _. rewrite (pg_remaining _ _ _ _ P), (pg_pos _ _ _ _ P). lia.
Qed.

(** The filling of the file's last sector. *)
Lemma read_filler_ok X c fEnd e :
  cursor_ok X c -> 0 <= fEnd <= c_pos c -> fEnd <= e <= blen X -> c_pos c <= e ->
  slice fEnd (e - fEnd) X = replicate (Z.to_nat (e - fEnd)) 0 ->
  exists k, progress X c (read_filler fEnd e c) k /\
    (remaining (read_filler fEnd e c) = 0 \/ c_pos (read_filler fEnd e c) = e).
Proof.
  intros Hc Hp He Hle HX. pose proof Hc as []. unfold read_filler.
  destruct (Z.ltb_spec 0 (remaining c)), (Z.eqb_spec fEnd e); cbn [andb negb];
    try (exists 0; split; [by apply progress_refl|lia]).
  rewrite u64_small by lia. set (k := Z.min _ _).
  assert (progress X c (advance k (with_buf (_memset (c_buf c) (c_p c) k) c)) k) as P.
  { apply progress_zeros; [done|lia|].
    replace (slice (c_pos c) k X) with (slice (c_pos c - fEnd) k (slice fEnd (e - fEnd) X))
      by (rewrite slice_slice by lia; f_equal; lia).
    rewrite HX. unfold slice. rewrite drop_replicate, take_replicate. f_equal. lia. }
  exists k. split; [done|]. rewrite (pg_remaining _ _ _ _ P), (pg_pos _ _ _ _ P). lia.
Qed.

(** ** The files *)

Section files.
Context {W : Type} `{PosixLaws W}.
Implicit Types (w : W) (c : cursor) (f : FileList).

(** Reading through descriptors of its own changes nothing that lasts. *)
Record undisturbed w w' : Prop := {
  un_file p : file_at w' p = file_at w p;
  un_meta p : meta_at w' p = meta_at w p;
  un_dir p : dir_at w' p = dir_at w p;
  un_net : keeps_net w w';
}.

Lemma undisturbed_refl w : undisturbed w w.
Proof. split; auto with netsrv. Qed.
Lemma undisturbed_trans w1 w2 w3 : undisturbed w1 w2 -> undisturbed w2 w3 -> undisturbed w1 w3.
Proof. intros [] []. split; try congruence. by eapply keeps_net_trans. Qed.
Lemma file_contents_frame w w' f :
  (forall p, file_at w' p = file_at w p) -> file_contents w' f = file_contents w f.
Proof. intros E. unfold file_contents. by rewrite E. Qed.

Lemma close_undisturbed d w x :
  fd_view w d = Some x -> undisturbed w (close_file d w).2.
Proof.
  intros Hv. unfold close_file. destruct (sys_close d w) as [r w'] eqn:E.
  apply law_close in E as (K & Hs & Hw). split; [apply K..|]. split; [done|].
  intros s. apply Hw. right. by rewrite Hv.
Qed.

Lemma keeps_undisturbed P w w' : keeps_fs P w w' -> keeps_net w w' -> undisturbed w w'.
Proof. intros K N. split; [apply K..|done]. Qed.

Lemma file_contents_Some w f x :
  file_contents w f = Some x ->
  multipart f = false /\ file_at w (fl_path f) = Regular x /\ blen x = fl_size f.
Proof.
  unfold file_contents. destruct (multipart f); [done|].
  destruct (file_at w (fl_path f)) as [y| |]; try done.
  destruct (Z.eqb_spec (blen y) (fl_size f)); [|done]. by intros [= ->].
Qed.

Lemma read_data_ok X f x fStart c w :
  cursor_ok X c -> 0 < remaining c -> file_contents w f = Some x -> 0 <= fStart ->
  fStart <= c_pos c < fStart + fl_size f ->
  slice fStart (fl_size f) X = x ->
  exists c' w' k, read_data f fStart c w = (false, c', w') /\ undisturbed w w' /\
    progress X c c' k /\ c_pos c' <= fStart + fl_size f /\
    (remaining c' = 0 \/ c_pos c' = fStart + fl_size f).
Proof.
  intros Hc Hr (_ & Ey & Es)%file_contents_Some Hs0 Hp HX. pose proof Hc as [].
  unfold read_data, open_file. destruct (law_open_ok _ w x Ey) as (d & w1 & E & Hd & Hv1).
  rewrite E. apply law_open in E as (_ & K1 & N1).
  unfold FD_OK. destruct (Z.leb_spec 0 d); [cbn [negb]|lia].
  pose proof (law_view _ _ _ _ Hv1) as (_ & Hx & _). rewrite u64_small by lia.
  set (n := Z.min _ _).
  destruct (seek_set_ok d (c_pos c - fStart) w1 _ _ Hv1) as (w2 & -> & Hv2 & K2 & N2); [lia|].
  destruct (read_file_ok d (c_buf c) (c_p c) n w2 _ _ Hv2) as (w3 & -> & Hv3 & K3 & N3); [lia|].
  assert (blen (slice (c_pos c - fStart) n x) = n) as En by (rewrite blen_slice; lia). rewrite En.
  pose proof (close_undisturbed _ _ _ Hv3) as U4. destruct (close_file d w3) as [r4 w4].
  destruct (Z.ltb_spec n 0); [lia|]. rewrite Z.eqb_refl. cbn [negb]. do 3 eexists. split; [done|].
  assert (progress X c (advance n (with_buf (mstore (c_buf c) (c_p c) (slice (c_pos c - fStart) n x)) c)) n) as P.
  { eapply progress_store; [done|by rewrite En| |lia|done].
    rewrite <- HX, slice_slice by lia. f_equal; lia. }
  split; [|split; [exact P|rewrite (pg_remaining _ _ _ _ P), (pg_pos _ _ _ _ P); lia]].
  do 3 (eapply undisturbed_trans; [by eapply keeps_undisturbed|]). done.
Qed.

End files.

(** *** The walk over the files *)

(** What the walk needs of the part that reads one file: with the state in order,
    all of the requested bytes of the file that exist. *)
Class Reader {St W : Type} `{Posix W, PosixView W}
    (rd : nat -> FileList -> Z -> cursor -> St -> bool * cursor * St)
    (fl : list FileList) (sys : St -> W) (inv : St -> Prop) : Prop := {
  reader_ok X i f x fStart c s : inv s -> fl !! i = Some f ->
    cursor_ok X c -> 0 < remaining c -> file_contents (sys s) f = Some x -> 0 <= fStart ->
    fStart <= c_pos c < fStart + fl_size f -> slice fStart (fl_size f) X = x ->
    exists c' s' k, rd i f fStart c s = (false, c', s') /\ undisturbed (sys s) (sys s') /\ inv s' /\
      progress X c c' k /\ c_pos c' <= fStart + fl_size f /\
      (remaining c' = 0 \/ c_pos c' = fStart + fl_size f);
}.

#[export] Instance read_data_reader {W} `{PosixLaws W} fl :
  Reader (fun _ : nat => read_data) fl (fun w : W => w) (fun _ => True).
Proof.
  split. intros X i f x fStart c w _ _ Hc Hr Hf Hs Hp HX.
  destruct (read_data_ok X f x fStart c w) as (c' & w' & k & ? & ? & ? & ? & ?); try done.
  by exists c', w', k.
Qed.

Section walk.
Context {St W : Type} `{PosixLaws W}.
Context {rd : nat -> FileList -> Z -> cursor -> St -> bool * cursor * St}.
Context {fl : list FileList} {sys : St -> W} {inv : St -> Prop} `{!Reader rd fl sys inv}.
Implicit Types (c : cursor) (f : FileList).

(** A file whose sectors start at [s] in the image. *)
Lemma read_list_file_ok X i f x fs_size s c st :
  let len := bytesToSectors (fl_size f) * SECTOR_SIZE in
  inv st -> fl !! i = Some f ->
  cursor_ok X c -> 0 < remaining c -> file_contents (sys st) f = Some x -> size_ok (fl_size f) ->
  0 <= s -> s = fs_size + rlba f * SECTOR_SIZE -> s mod SECTOR_SIZE = 0 ->
  s <= c_pos c -> s + len <= blen X -> slice s len X = pad_sector x ->
  exists ret c' st' k, read_list_file rd i fs_size f c st = (ret, c', st') /\
    undisturbed (sys st) (sys st') /\ inv st' /\ progress X c c' k /\
    if ret then remaining c' = 0 else 0 < remaining c' /\ s + len <= c_pos c'.
Proof.
  intros len Hi Hlk Hc Hr Hf Hsz Hs Es Hm Hp Hin HX. pose proof Hc as [].
  pose proof (file_contents_Some _ _ _ Hf) as (Hmp & _ & Ex).
  pose proof (sectors_size _ Hsz) as [Elen _]. fold len in Elen.
  pose proof (Z.mod_pos_bound (- fl_size f) SECTOR_SIZE eq_refl) as Hmod.
  pose proof Hsz as [Hsz0 _].
  unfold read_list_file. rewrite <- Es, (s64_small s), (s64_small (s + fl_size f)) by lia.
  rewrite align_file, s64_small by (done || lia). fold len.
  destruct (Z.leb_spec s (c_pos c)), (Z.ltb_spec (c_pos c) (s + len)); cbn [andb]; try lia.
  2: { exists false, c, st, 0. split; [done|]. split; [apply undisturbed_refl|]. split; [done|].
       split; [by apply progress_refl|done]. }
  rewrite Hmp.
  assert (slice s (fl_size f) X = x /\
    slice (s + fl_size f) (s + len - (s + fl_size f)) X
      = replicate (Z.to_nat (s + len - (s + fl_size f))) 0) as [HXx HXz].
  { replace len with (fl_size f + (len - fl_size f)) in HX by lia.
    rewrite slice_split in HX by lia. unfold pad_sector in HX. apply app_inj_1 in HX as [-> HX].
    - split; [done|]. replace (s + len - (s + fl_size f)) with (len - fl_size f) by lia.
      rewrite HX. do 2 f_equal. rewrite Ex. lia.
    - apply Nat2Z.inj. change (blen (slice s (fl_size f) X) = blen x). rewrite blen_slice; lia. }
  assert (exists c1 w1 k1,
    (if c_pos c <? s + fl_size f then rd i f s c st else (false, c, st)) = (false, c1, w1) /\
    undisturbed (sys st) (sys w1) /\ inv w1 /\ progress X c c1 k1 /\
    (remaining c1 = 0 \/ s + fl_size f <= c_pos c1) /\ c_pos c1 <= s + len)
    as (c1 & w1 & k1 & -> & U1 & I1 & P1 & Hend & Hle).
  { destruct (Z.ltb_spec (c_pos c) (s + fl_size f)).
    - destruct (reader_ok X i f x s c st) as (c1 & w1 & k1 & -> & ? & ? & ? & ? & ?); [done..|].
      exists c1, w1, k1. repeat (split; [done|]). lia.
    - exists c, st, 0. split; [done|]. split; [apply undisturbed_refl|]. split; [done|].
      split; [by apply progress_refl|lia]. }
  pose proof (progress_ok _ _ _ _ Hc P1) as Hc1.
  assert (exists k2, progress X c1 (read_filler (s + fl_size f) (s + len) c1) k2 /\
    (remaining (read_filler (s + fl_size f) (s + len) c1) = 0 \/
     c_pos (read_filler (s + fl_size f) (s + len) c1) = s + len)) as (k2 & P2 & Hfin).
  { destruct (decide (remaining c1 = 0)) as [Hr1|].
    - exists 0. unfold read_filler. rewrite Hr1. split; [by apply progress_refl|by left].
    - apply read_filler_ok; try done; lia. }
  pose proof (co_rem _ _ (progress_ok _ _ _ _ Hc1 P2)).
  do 4 eexists. split; [done|]. split; [done|]. split; [done|]. split; [by eapply progress_trans|].
  destruct (Z.eqb_spec (remaining (read_filler (s + fl_size f) (s + len) c1)) 0); lia.
Qed.

(** The files of a list, laid out from sector [lba] to [e]. *)
Lemma read_files_ok X fs_size pre l xs lba e c s :
  inv s -> fl = pre ++ l ->
  cursor_ok X c -> 0 < remaining c -> mapM (file_contents (sys s)) l = Some xs ->
  0 <= fs_size -> fs_size mod SECTOR_SIZE = 0 -> 0 <= lba -> laid lba l e ->
  fs_size + lba * SECTOR_SIZE <= c_pos c -> fs_size + e * SECTOR_SIZE <= blen X ->
  slice (fs_size + lba * SECTOR_SIZE) ((e - lba) * SECTOR_SIZE) X = concat (pad_sector <$> xs) ->
  exists ret c' s' k, read_files rd (length pre) fs_size l c s = (ret, c', s') /\
    undisturbed (sys s) (sys s') /\ inv s' /\ progress X c c' k /\
    if ret then remaining c' = 0 else 0 < remaining c' /\ fs_size + e * SECTOR_SIZE <= c_pos c'.
Proof.
  revert pre xs lba c s. induction l as [|f l IH]; intros pre xs lba c st Hi Hpre Hc Hr Hxs Hfs Hm Hlba Hl Hp He HX.
  { cbn in Hl. subst e. exists false, c, st, 0. split; [done|]. split; [apply undisturbed_refl|].
    split; [done|]. split; [by apply progress_refl|done]. }
  apply mapM_Some, Forall2_cons_inv_l in Hxs as (x & xs' & Hx & Hxs%mapM_Some & ->).
  destruct Hl as [[Erl Hsz] Hl]. pose proof (laid_mono _ _ _ Hl) as Hmono.
  pose proof (sectors_size _ Hsz) as [_ Hsec].
  pose proof (file_contents_Some _ _ _ Hx) as (_ & _ & Ex).
  set (n := bytesToSectors (fl_size f)) in *. set (s := fs_size + lba * SECTOR_SIZE) in *.
  replace ((e - lba) * SECTOR_SIZE) with (n * SECTOR_SIZE + (e - (lba + n)) * SECTOR_SIZE) in HX by lia.
  assert (0 <= s) by (unfold s, SECTOR_SIZE in *; lia).
  assert (0 <= n * SECTOR_SIZE /\ 0 <= (e - (lba + n)) * SECTOR_SIZE) as [? ?]
    by (unfold SECTOR_SIZE; lia).
  rewrite slice_split in HX by lia. cbn [fmap list_fmap concat] in HX.
  assert (s + n * SECTOR_SIZE <= blen X) by (unfold s, SECTOR_SIZE in *; lia).
  apply app_inj_1 in HX as [HX1 HX2].
  2: { apply Nat2Z.inj. change (blen (slice s (n * SECTOR_SIZE) X) = blen (pad_sector x)).
       rewrite blen_pad_sector, blen_slice by (rewrite ?Ex; done || lia). rewrite Ex. fold n. lia. }
  cbn [read_files].
  destruct (read_list_file_ok X (length pre) f x fs_size s c st) as (ret & c1 & w1 & k1 & -> & U1 & I1 & P1 & Hret);
    try done.
  { by rewrite Hpre, list_lookup_middle. }
  { unfold s. by rewrite Erl. }
  { unfold s. rewrite Z_mod_plus_full. done. }
  destruct ret; [by exists true, c1, w1, k1|]. destruct Hret as [Hr1 Hp1]. fold n in Hp1.
  replace (s + n * SECTOR_SIZE) with (fs_size + (lba + n) * SECTOR_SIZE) in * by (unfold s; lia).
  destruct (IH (pre ++ [f]) xs' (lba + n) c1 w1) as (ret & c2 & w2 & k2 & E2 & U2 & I2 & P2 & Hret2);
    try done; [by rewrite <- app_assoc|by eapply progress_ok| |lia|].
  { rewrite <- Hxs. apply mapM_ext. intros g. apply file_contents_frame, U1. }
  exists ret, c2, w2, (k1 + k2). rewrite length_app, Nat.add_1_r in E2. split; [done|].
  split; [by eapply undisturbed_trans|]. split; [done|]. split; [by eapply progress_trans|done].
Qed.

(** The loops over the directories and over their files are one loop over all files. *)
Lemma read_files_app i fs_size l1 l2 c s :
  read_files rd i fs_size (l1 ++ l2) c s =
    let '(ret, c, s) := read_files rd i fs_size l1 c s in
    if ret then (true, c, s) else read_files rd (i + length l1) fs_size l2 c s.
Proof.
  revert i c s. induction l1 as [|f l1 IH]; intros i c s; cbn [app length]; [by rewrite Nat.add_0_r|]. cbn.
  rewrite <- Nat.add_succ_comm. destruct (read_list_file rd i fs_size f c s) as [[[] c1] s1]; [done|apply IH].
Qed.

Lemma read_dirs_flat i fs_size dl c s :
  read_dirs rd i fs_size dl c s = read_files rd i fs_size (concat (fileList <$> dl)) c s.
Proof.
  revert i c s. induction dl as [|d dl IH]; intros i c s; [done|].
  cbn [read_dirs fmap list_fmap concat]. rewrite read_files_app.
  destruct (read_files rd i fs_size (fileList d) c s) as [[[] c1] s1]; [done|apply IH].
Qed.
End walk.

(** ** The operations on the contents *)

Section operations.
Context {W : Type} `{PosixLaws W}.
Implicit Types (w : W) (v : VIsoFile).

Lemma VIso_view_Some v w X p :
  VIso_view v w = Some (X, p) <->
  exists fs cs, fsBuf v = Some fs /\ mapM (file_contents w) (all_files v) = Some cs /\
    image_ok v /\ X = image_bytes v fs cs /\ p = vFilePtr v.
Proof.
  unfold VIso_view. destruct (fsBuf v) as [fs|]; cbn; [|naive_solver].
  destruct (mapM _ _) as [cs|]; cbn; [|naive_solver]. case_decide; naive_solver.
Qed.

Lemma blen_padded_file w fl lba e cs :
  mapM (file_contents w) fl = Some cs -> laid lba fl e ->
  blen (concat (pad_sector <$> cs)) = (e - lba) * SECTOR_SIZE.
Proof.
  revert lba cs; induction fl as [|f fl IH]; intros lba cs Hcs Hl.
  - injection Hcs as <-. cbn in *. subst. by rewrite Z.sub_diag.
  - apply mapM_Some, Forall2_cons_inv_l in Hcs as (x & xs & Hx & Hxs%mapM_Some & ->).
    destruct Hl as [[_ Hsz] Hl]. apply file_contents_Some in Hx as (_ & _ & Ex).
    cbn [fmap list_fmap concat]. rewrite blen_app, blen_pad_sector by by rewrite Ex.
    change (list_fmap bytes bytes pad_sector xs) with (pad_sector <$> xs).
    rewrite (IH _ _ Hxs Hl), Ex. lia.
Qed.

(** The three areas of the image. *)
Lemma image_areas v w fs cs :
  mapM (file_contents w) (all_files v) = Some cs -> image_ok v ->
  let X := image_bytes v fs cs in
  blen X = totalSize v /\
  slice 0 (fsBufSize v) X = mload fs 0 (fsBufSize v) /\
  slice (fsBufSize v) (filesSizeSectors v * SECTOR_SIZE) X = concat (pad_sector <$> cs) /\
  slice (padAreaStart v) (padAreaSize v) X = replicate (Z.to_nat (padAreaSize v)) 0.
Proof.
  intros Hcs [] X. pose proof (blen_padded_file w _ _ _ _ Hcs io_laid0) as Hf.
  rewrite Z.sub_0_r in Hf. pose proof (blen_mload fs 0 (fsBufSize v) io_fs0) as Hs.
  unfold X, image_bytes. set (F := concat _) in *. set (S := mload _ _ _) in *.
  set (P := replicate _ _).
  assert (blen P = padAreaSize v) as HP by (unfold P; rewrite blen_replicate; lia).
  pose proof (blen_nonneg F). split; [rewrite !blen_app; lia|]. split; [|split].
  - rewrite slice_app_l by lia. rewrite <- Hs. apply slice_all.
  - rewrite slice_app_r, slice_app_l by lia. rewrite Hs, Z.sub_diag, <- Hf. apply slice_all.
  - rewrite !slice_app_r by lia. replace (_ - _ - _) with 0 by lia. rewrite <- HP. apply slice_all.
Qed.

Lemma VIso_view_bounds v w c p : VIso_view v w = Some (c, p) -> blen c < 2 ^ 63 /\ 0 <= p < 2 ^ 63.
Proof.
  intros (fs & cs & _ & Hcs & Hok & -> & ->)%VIso_view_Some.
  rewrite (proj1 (image_areas v w fs cs Hcs Hok)). destruct Hok. lia.
Qed.

Lemma VIso_view_frame v w w' :
  (forall p, file_at w' p = file_at w p) -> VIso_view v w' = VIso_view v w.
Proof.
  intros E. unfold VIso_view.
  by rewrite (mapM_ext (file_contents w') (file_contents w) (all_files v) (fun f => file_contents_frame w w' f E)).
Qed.

(** Moving the position keeps the contents. *)
Lemma VIso_view_ptr v w X p q :
  VIso_view v w = Some (X, p) -> 0 <= q < 2 ^ 63 -> VIso_view (with_ptr q v) w = Some (X, q).
Proof.
  intros (fs & cs & Hfs & Hcs & Hok & -> & ->)%VIso_view_Some Hq. apply VIso_view_Some.
  exists fs, cs. split; [done|]. split; [done|]. split; [|done]. destruct Hok. by split.
Qed.

Lemma seek_view v w X p off :
  VIso_view v w = Some (X, p) -> - 2 ^ 63 <= off < 2 ^ 63 ->
  exists v', VIso_seek off SEEK_SET v w = (off, v', w) /\
    (0 <= off -> VIso_view v' w = Some (X, off)).
Proof.
  intros Hv Hoff. pose proof Hv as (fs & cs & Hfs & _)%VIso_view_Some.
  unfold VIso_seek. rewrite Hfs. cbn. exists (with_ptr off v). split; [done|].
  intros. eapply VIso_view_ptr; [done|lia].
Qed.

Lemma viso_fstat_view v w X p st :
  VIso_view v w = Some (X, p) ->
  exists st', VIso_fstat st v w = (0, st', v, w) /\ file_size st' = blen X.
Proof.
  intros (fs & cs & Hfs & Hcs & Hok & -> & ->)%VIso_view_Some. unfold VIso_fstat. rewrite Hfs.
  eexists. split; [done|]. cbn. by rewrite (proj1 (image_areas v w fs cs Hcs Hok)).
Qed.

(** *** read *)

Section read.
Context {St : Type} (rd : nat -> FileList -> Z -> cursor -> St -> bool * cursor * St).
Context (sys : St -> W) (inv : St -> Prop).

(** The body of [read], as steps on a cursor. *)
Lemma read_body v s fs cs c `{!Reader rd (all_files v) sys inv} :
  let X := image_bytes v fs cs in
  inv s -> mapM (file_contents (sys s)) (all_files v) = Some cs -> image_ok v ->
  cursor_ok X c -> 0 < remaining c -> fsBufSize v <= c_pos c ->
  exists ret c1 s' k,
    (if c_pos c <? padAreaStart v then read_dirs rd 0 (fsBufSize v) (rootList v) c s else (false, c, s))
      = (ret, c1, s') /\ undisturbed (sys s) (sys s') /\ inv s' /\
    progress X c (if ret then c1 else read_pad v c1) k /\
    (remaining (if ret then c1 else read_pad v c1) = 0 \/
     c_pos (if ret then c1 else read_pad v c1) = blen X).
Proof.
  intros X Hi Hcs Hok Hc Hr Hp. pose proof (image_areas v (sys s) fs cs Hcs Hok) as (HX & _ & HF & HP).
  fold X in HX, HF, HP. pose proof Hok as []. pose proof (laid_mono _ _ _ io_laid0) as Hfs.
  assert (0 <= padAreaStart v) by (unfold SECTOR_SIZE in *; lia).
  assert (forall c1 k1, progress X c c1 k1 -> padAreaStart v <= c_pos c1 -> exists k,
    progress X c (read_pad v c1) k /\ (remaining (read_pad v c1) = 0 \/ c_pos (read_pad v c1) = blen X))
    as Hpad.
  { intros c1 k1 P1 Hge. pose proof (progress_ok _ _ _ _ Hc P1) as Hc1.
    destruct (read_pad_ok X v c1 (padAreaStart v)) as (k & P & Hend); try done.
    exists (k1 + k). split; [by eapply progress_trans|by apply Hend]. }
  zdecide.
  - rewrite read_dirs_flat. fold (all_files v).
    destruct (read_files_ok X (fsBufSize v) [] (all_files v) cs 0 (filesSizeSectors v) c s)
      as (ret & c1 & s' & k & E & U & I & P & Hret); try done; try lia.
    { by rewrite Z.mul_0_l, Z.add_0_r, Z.sub_0_r. }
    cbn [length] in E. rewrite E. destruct ret.
    + exists true, c1, s', k. split; [done|]. split; [done|]. split; [done|]. split; [done|]. by left.
    + destruct (Hpad c1 k P) as (k' & ? & ?); [lia|]. by exists false, c1, s', k'.
  - destruct (Hpad c 0 (progress_refl _ _ Hc)) as (k' & ? & ?); [lia|].
    exists false, c, s, k'. split; [done|]. split; [apply undisturbed_refl|done].
Qed.

(** A read delivers all of the requested bytes that exist. *)
Lemma read_image_ok v s fs X p m o n `{!Reader rd (all_files v) sys inv} :
  inv s -> VIso_view v (sys s) = Some (X, p) -> fsBuf v = Some fs -> p < blen X -> 0 < n < 2 ^ 63 ->
  exists m' v' s', read_image rd fs m o n v s = (blen (slice p n X), m', v', s') /\
    undisturbed (sys s) (sys s') /\ inv s' /\
    mload m' o (blen (slice p n X)) = slice p n X /\ same_outside o n m m' /\
    v' = with_ptr (p + blen (slice p n X)) v /\
    VIso_view v' (sys s') = Some (X, p + blen (slice p n X)).
Proof.
  intros Hi Hv Hfs Hlt Hn. pose proof (VIso_view_bounds v (sys s) X p Hv) as [HXb Hp].
  pose proof Hv as (fs' & cs & Hfs' & Hcs & Hok & -> & ->)%VIso_view_Some.
  rewrite Hfs in Hfs'. injection Hfs' as <-.
  set (X := image_bytes v fs cs) in *. set (p := vFilePtr v) in *.
  pose proof (image_areas v (sys s) fs cs Hcs Hok) as (HX & HS & _). fold X in HX, HS.
  pose proof Hok as []. unfold read_image. fold p. cbv zeta.
  set (c0 := mkCursor m n 0 o p).
  assert (cursor_ok X c0) as Hc0 by (split; cbn; lia).
  assert (forall c' s' k, undisturbed (sys s) (sys s') -> inv s' -> progress X c0 c' k ->
    (remaining c' = 0 \/ c_pos c' = blen X) ->
    exists m' v' s'', (s64 (c_r c'), c_buf c', with_ptr (c_pos c') v, s')
        = (blen (slice p n X), m', v', s'') /\ undisturbed (sys s) (sys s'') /\ inv s'' /\
      mload m' o (blen (slice p n X)) = slice p n X /\ same_outside o n m m' /\
      v' = with_ptr (p + blen (slice p n X)) v /\
      VIso_view v' (sys s'') = Some (X, p + blen (slice p n X))) as Hdone.
  { intros c' s' k U I [] Hend. cbn in *.
    assert (blen (slice p n X) = k) as Ek by (rewrite blen_slice; lia).
    do 3 eexists. split; [rewrite s64_small by lia; by rewrite pg_r0, Z.add_0_l, Ek|].
    split; [done|]. split; [done|]. rewrite Ek.
    split; [rewrite pg_data0, <- Ek; by apply slice_blen; lia|].
    split; [done|]. split; [by rewrite pg_pos0|].
    rewrite (VIso_view_frame _ (sys s)) by apply U. rewrite pg_pos0. eapply VIso_view_ptr; [done|lia]. }
  destruct (read_structures_ok X fs (fsBufSize v) c0 Hc0) as (k & P & Hs); [unfold SECTOR_SIZE in *|done|].
  { pose proof (laid_mono _ _ _ io_laid0). lia. }
  change (mkCursor m n 0 o p) with c0. set (c1 := read_structures fs (fsBufSize v) c0) in *.
  pose proof (progress_ok _ _ _ _ Hc0 P) as Hc1. pose proof Hc1 as [].
  destruct (Z.eqb_spec (remaining c1) 0), (Z.leb_spec (totalSize v) (c_pos c1)); cbn [orb];
    try (eapply Hdone; [apply undisturbed_refl|done|exact P|lia]).
  destruct (read_body v s fs cs c1) as (ret & c2 & s2 & k2 & E & U & I & P2 & Hend); try done; [lia..|].
  rewrite E. destruct ret; (eapply Hdone; [done|done|by eapply progress_trans|done]).
Qed.
End read.

(** Nothing is read past the end, nor when nothing is asked for. *)
Lemma slice_none p n (X : bytes) : 0 <= p -> (blen X <=? p) || (n =? 0) = true -> slice p n X = [].
Proof. intros Hp [?%Z.leb_le| ->%Z.eqb_eq]%orb_true_iff; [by apply slice_ge; lia|apply slice_0]. Qed.

Lemma VIso_read_ok v w X p m o n :
  VIso_view v w = Some (X, p) -> 0 <= n < 2 ^ 63 ->
  exists m' v' w', VIso_read m o n v w = (blen (slice p n X), m', v', w') /\ undisturbed w w' /\
    mload m' o (blen (slice p n X)) = slice p n X /\ same_outside o n m m' /\
    VIso_view v' w' = Some (X, p + blen (slice p n X)).
Proof.
  intros Hv Hn. pose proof (VIso_view_bounds v w X p Hv) as [HXb Hp].
  pose proof Hv as (fs & cs & Hfs & Hcs & Hok & EX & Ep)%VIso_view_Some.
  assert (totalSize v = blen X) as HX by (by rewrite EX, (proj1 (image_areas v w fs cs Hcs Hok))).
  unfold VIso_read. rewrite Hfs, <- Ep, HX.
  destruct ((blen X <=? p) || (n =? 0)) eqn:Hnone.
  { rewrite (slice_none p n X), Z.add_0_r by (done || lia). exists m, v, w. split; [done|].
    split; [apply undisturbed_refl|done]. }
  apply orb_false_iff in Hnone as [?%Z.leb_gt ?%Z.eqb_neq]. destruct (Z.ltb_spec p 0); [lia|].
  destruct (read_image_ok (fun _ => read_data) (fun w => w) (fun _ => True) v w fs X p m o n)
    as (m' & v' & w' & E & U & _ & ? & ? & _ & ?); [done..|lia|].
  exists m', v', w'. split; [exact E|]. split; [exact U|done].
Qed.
End operations.
