(* ===== verification/VIsoNames.v ===== *)
(** * Names and multi-part files of a virtual image

    The static functions at the top of src/VIsoFile.cpp: names in upper case,
    the decoding of UTF-8 into the big-endian UCS-2 of the Joliet tree, paths,
    and the size of a file that is split into parts.  A string that is read up to
    its terminator is given with it ([s ++ [0]]), so that a read behind the
    terminator is [None]. *)

From S2P Require Import Prelude Endian CString Os FileIso VIso.

Definition MAX_ISONAME : Z := 207.
Definition MAX_ISODIR : Z := 254.

(** [(c >= 'a') && (c <= 'z')]: [c -= 'a' - 'A'] *)
Definition upper (c : Z) : Z := if (97 <=? c) && (c <=? 122) then c - 32 else c.

(** The characters stored (a NUL follows them if [s2] is shorter than [n]);
    their number is the result. *)
Fixpoint strncpy_upper (n : nat) (s2 : bytes) : bytes :=
  match n, s2 with
  | O, _ | _, [] => []
  | S n, c :: s2 => if c =? 0 then [] else upper c :: strncpy_upper n s2
  end.

(** [strcpy] into an array of [len + 1] bytes. *)
Definition dupString (s : bytes) (len : Z) : option bytes :=
  if blen s <=? len then Some s else None.

(** [sprintf(ret, "%s/%s", dir, file)] into [dlen + flen + 2] bytes. *)
Definition createPath (dlen : Z) (dir : bytes) (flen : Z) (file : bytes) : option bytes :=
  if blen dir + blen file <=? dlen + flen then Some (dir ++ [47] ++ file) else None.

(** ** UTF-8 *)

Definition low6 (b : Z) : Z := Z.land b 0x3F.
Definition or6 (x b : Z) : Z := Z.lor (Z.shiftl x 6) (low6 b).

(** The character at [input] and the rest of the string, [*end_ptr].  The two
    longest forms leave their last byte in the rest. *)
Definition get_ucs2_from_utf8 (input : bytes) : option (Z * bytes) :=
  match input with
  | [] => None
  | b0 :: l =>
      if b0 =? 0 then Some (FAILED, input)
      else if b0 <? 0x80 then Some (b0, l)
      else if Z.land b0 0xE0 =? 0xC0 then
        match l with b1 :: l => Some (or6 (Z.land b0 0x1F) b1, l) | _ => None end
      else if Z.land b0 0xF0 =? 0xE0 then
        match l with
        | b1 :: b2 :: l => Some (or6 (or6 (Z.land b0 0x0F) b1) b2, l)
        | _ => None
        end
      else if Z.land b0 0xF8 =? 0xF0 then
        match l with
        | b1 :: b2 :: b3 :: l => Some (or6 (or6 (or6 (Z.land b0 0x07) b1) b2) b3, l)
        | _ => None
        end
      else if Z.land b0 0xFC =? 0xF8 then
        match l with
        | b1 :: b2 :: b3 :: (b4 :: _) as l =>
            Some (or6 (or6 (or6 (or6 (Z.land b0 0x03) b1) b2) b3) b4, drop 3 l)
        | _ => None
        end
      else if Z.land b0 0xFE =? 0xFC then
        match l with
        | b1 :: b2 :: b3 :: b4 :: (b5 :: _) as l =>
            Some (or6 (or6 (or6 (or6 (or6 (Z.land b0 0x01) b1) b2) b3) b4) b5, drop 4 l)
        | _ => None
        end
      else Some (FAILED, input)
  end.

(** The characters stored, at most [maxLength]; each is a big-endian 16-bit number. *)
Fixpoint utf8_to_ucs2 (maxLength : nat) (p : bytes) : option (list Z) :=
  match p with
  | [] => None
  | b :: _ =>
      if b =? 0 then Some []
      else match maxLength with
           | O => Some []
           | S k =>
               let? (ch, p) := get_ucs2_from_utf8 p in
               if ch <? 0 then Some []
               else (fun r => BE16 (Z.land ch 0xFFFF) :: r) <$> utf8_to_ucs2 k p
           end
  end.

(** The array of [uint16_t] as bytes. *)
Definition ucs2_bytes (l : list Z) : bytes := concat (le_bytes 2 <$> l).

(** ** Files in parts *)

Section multipart.
Context {W : Type} `{Posix W}.
Implicit Types (w : W) (file : bytes).

(** The parts 1 to 99; [p] is an offset in [file].  The result is the sum. *)
Fixpoint sum_66600 (k : nat) (i : Z) (p size : Z) (st : file_stat_t) file w : Z * bytes * W :=
  match k with
  | O => (size, file, w)
  | S k =>
      let file := overwrite (p + 4) [48 + i / 10; 48 + i mod 10] file in
      let '(r, st, w) := stat_file (Some file) st w in
      if r <? SUCCEEDED then (size, file, w)
      else sum_66600 k (i + 1) p (s64 (size + file_size st)) st file w
  end.

(** Success, size, and the path as it is left. *)
Definition getFileSizeAndProcessMultipart file (is_multi : bool) (len : Z) (st : file_stat_t) w
    : bool * Z * bytes * W :=
  let '(r, st, w) := stat_file (Some file) st w in
  if r <? 0 then (false, 0, file, w)
  else
    let size := file_size st in
    if negb is_multi || (len <? 6) then (true, size, file, w)
    else
      let p := len - 6 in
      if negb (bytes_eqb (drop (Z.to_nat (p + 1)) file) (str ".66600")) then (true, size, file, w)
      else
        let '(size, file, w) := sum_66600 99 1 p size st file w in
        (true, size, take (Z.to_nat p) file, w).
End multipart.

(** ** Decoding is the inverse of UTF-8 encoding *)

(** UTF-8, from its definition. *)
Definition utf8_encode (c : Z) : bytes :=
  if c <? 0x80 then [c]
  else if c <? 0x800 then [0xC0 + c / 64; 0x80 + c mod 64]
  else if c <? 0x10000 then [0xE0 + c / 4096; 0x80 + c / 64 mod 64; 0x80 + c mod 64]
  else [0xF0 + c / 2 ^ 18; 0x80 + c / 4096 mod 64; 0x80 + c / 64 mod 64; 0x80 + c mod 64].

Definition utf8 (l : list Z) : bytes := concat (utf8_encode <$> l).

Lemma low6_mod b : low6 b = b mod 64.
Proof. exact (Z.land_ones b 6 ltac:(lia)). Qed.

Lemma or6_add x b : or6 x b = 64 * x + b mod 64.
Proof.
  unfold or6. rewrite low6_mod, lor_below; [lia|lia|]. apply Z.mod_pos_bound. lia.
Qed.

(** A property of all bytes is checked on each of them. *)
Lemma each_byte (P : Z -> bool) :
  forallb (fun n => P (Z.of_nat n)) (seq 0 256) = true -> forall b, 0 <= b < 256 -> P b = true.
Proof.
  intros E b Hb. rewrite forallb_forall in E. rewrite <- (Z2Nat.id b) by lia.
  apply E, in_seq. lia.
Qed.

(** The length of a character, read off its first byte, and the bits of the
    character in that byte. *)
Definition lead_form (b : Z) : bool :=
  if b <? 0xC0 then true
  else if b <? 0xE0 then (Z.land b 0xE0 =? 0xC0) && (Z.land b 0x1F =? b - 0xC0)
  else if b <? 0xF0 then negb (Z.land b 0xE0 =? 0xC0) && (Z.land b 0xF0 =? 0xE0) && (Z.land b 0x0F =? b - 0xE0)
  else if b <? 0xF8 then negb (Z.land b 0xE0 =? 0xC0) && negb (Z.land b 0xF0 =? 0xE0)
    && (Z.land b 0xF8 =? 0xF0) && (Z.land b 0x07 =? b - 0xF0)
  else true.

Lemma lead_form_ok b : 0 <= b < 256 -> lead_form b = true.
Proof. apply each_byte. by vm_compute. Qed.

(** Evaluate [get_ucs2_from_utf8] at a first byte whose form is known. *)
Ltac lead b :=
  let H := fresh in
  pose proof (lead_form_ok b ltac:(lia)) as H; unfold lead_form in H;
  case_bool_in H; try lia; try discriminate; clear H; unfold get_ucs2_from_utf8;
  repeat match goal with
  | |- (if ?x =? ?y then _ else _) = _ => destruct (Z.eqb_spec x y); try lia
  | |- (if ?x <? ?y then _ else _) = _ => destruct (Z.ltb_spec x y); try lia
  end.

Lemma get_1 c l : 0 < c < 0x80 -> get_ucs2_from_utf8 (c :: l) = Some (c, l).
Proof. intros. unfold get_ucs2_from_utf8. zdecide. done. Qed.

Lemma get_2 x b1 l :
  0 <= x < 32 -> get_ucs2_from_utf8 (0xC0 + x :: b1 :: l) = Some (64 * x + b1 mod 64, l).
Proof. intros. lead (0xC0 + x). rewrite or6_add. do 2 f_equal. lia. Qed.

Lemma get_3 x b1 b2 l :
  0 <= x < 16 ->
  get_ucs2_from_utf8 (0xE0 + x :: b1 :: b2 :: l) = Some (64 * (64 * x + b1 mod 64) + b2 mod 64, l).
Proof. intros. lead (0xE0 + x). rewrite !or6_add. do 2 f_equal. lia. Qed.

Lemma get_4 x b1 b2 b3 l :
  0 <= x < 8 ->
  get_ucs2_from_utf8 (0xF0 + x :: b1 :: b2 :: b3 :: l)
    = Some (64 * (64 * (64 * x + b1 mod 64) + b2 mod 64) + b3 mod 64, l).
Proof. intros. lead (0xF0 + x). rewrite !or6_add. do 2 f_equal. lia. Qed.

Lemma cont_mod x : (0x80 + x mod 64) mod 64 = x mod 64.
Proof. Z.to_euclidean_division_equations. lia. Qed.

Lemma decode_encode c l :
  0 < c < 2 ^ 21 -> get_ucs2_from_utf8 (utf8_encode c ++ l) = Some (c, l).
Proof.
  intros Hc. unfold utf8_encode. case_bool; cbn [app].
  - apply get_1. lia.
  - rewrite get_2, cont_mod by (Z.to_euclidean_division_equations; lia).
    do 2 f_equal. Z.to_euclidean_division_equations. lia.
  - rewrite get_3, !cont_mod by (Z.to_euclidean_division_equations; lia).
    do 2 f_equal. Z.to_euclidean_division_equations. lia.
  - rewrite get_4, !cont_mod by (Z.to_euclidean_division_equations; lia).
    do 2 f_equal. Z.to_euclidean_division_equations. lia.
Qed.

Lemma utf8_encode_cons c : 0 < c < 2 ^ 21 -> exists b l, utf8_encode c = b :: l /\ b <> 0.
Proof.
  intros Hc. unfold utf8_encode.
  case_bool; do 2 eexists; (split; [done|]); Z.to_euclidean_division_equations; lia.
Qed.

(** What a Joliet name keeps of a name in UTF-8: its first [n] characters, each
    cut to 16 bits. *)
Lemma utf8_to_ucs2_decode n l t :
  Forall (fun c => 0 < c < 2 ^ 21) l ->
  utf8_to_ucs2 n (utf8 l ++ 0 :: t) = Some ((fun c => BE16 (Z.land c 0xFFFF)) <$> take n l).
Proof.
  intros Hl. revert n. induction Hl as [|c l Hc Hl IH]; intros n.
  - by destruct n.
  - unfold utf8. cbn [fmap list_fmap concat]. fold (utf8 l). rewrite <- app_assoc.
    change (list_fmap Z bytes utf8_encode l) with (utf8_encode <$> l). fold (utf8 l).
    destruct (utf8_encode_cons c Hc) as (b & r & E & Hb).
    pose proof (decode_encode c (utf8 l ++ 0 :: t) Hc) as Ed. rewrite E in *. cbn [app] in *.
    destruct n as [|n]; cbn [utf8_to_ucs2]; rewrite (proj2 (Z.eqb_neq b 0) Hb); [done|].
    rewrite Ed. destruct (Z.ltb_spec c 0); [lia|]. by rewrite IH.
Qed.
