(* ===== verification/VIsoTree.v ===== *)
(** * The tree of a virtual image: the first half of VIsoFile::build

    [build] first walks the directories breadth first, appending those of each
    to the end of the list it is walking, then lists the files of every directory
    and gives each file the next free sectors.  The interface [VisoSys] is what
    it uses of the C library beside compat.c. *)

From S2P Require Import Prelude Endian CString Os FileIso VIso VIsoView VIsoNames.

(** ** The C library *)

Record dirent := mk_dirent { d_type : Z; d_name : bytes }.
Definition DT_DIR : Z := 4.

(** [struct tm], the members that are used. *)
Record tm := mk_tm {
  tm_year : Z;  tm_mon : Z;  tm_mday : Z;  tm_hour : Z;  tm_min : Z;  tm_sec : Z;
}.

Class VisoSys (W : Type) := {
  (** scandir(3) with alphasort: the selected entries in order, or -1 *)
  sys_scandir : bytes -> (dirent -> bool) -> W -> option (list dirent) * W;
  sys_localtime : Z -> tm;
  sys_time : W -> Z * W;
  (** /dev/urandom: cannot be opened, or the bytes [fread] stores *)
  sys_urandom : Z -> W -> option bytes * W;
}.

(** What a directory holds: names and types, in alphabetical order. *)
Class VisoView (W : Type) := {
  entries_at : W -> bytes -> option (list dirent);
}.

(** None of them changes a file or a connection; [scandir] fails, or gives the
    selected entries. *)
Class VisoSysLaws (W : Type) `{VisoSys W, PosixView W, VisoView W} := {
  law_scandir p f w r w' : sys_scandir p f w = (r, w') ->
    undisturbed w w' /\ forall l, r = Some l -> exists es, entries_at w p = Some es /\ l = filter f es;
  law_entries p w w' : undisturbed w w' -> entries_at w' p = entries_at w p;
  law_time w r w' : sys_time w = (r, w') -> undisturbed w w';
  law_urandom n w r w' : sys_urandom n w = (r, w') -> undisturbed w w';
}.

Definition select_directories (e : dirent) : bool :=
  if negb (Z.land (d_type e) DT_DIR =? 0) then
    if bytes_eqb (d_name e) (str ".") || bytes_eqb (d_name e) (str "..") then false else true
  else false.

Definition select_files (e : dirent) : bool := Z.land (d_type e) DT_DIR =? 0.

(** ** Directories *)

(** [new DirList] for the [i]-th entry of the directory at position [k]. *)
Definition new_dir (d : DirList) (k : nat) (i : nat) (e : dirent) : option DirList :=
  let dlen := full_len d in
  let flen := u16 (blen (d_name e)) in
  let? path := createPath dlen (dl_path d) flen (d_name e) in
  Some (mkDirList path dlen (u16 (dlen + flen + 1)) None None (Z.of_nat i) [] k []).

Fixpoint new_dirs (d : DirList) (k : nat) (i : nat) (es : list dirent) : option (list DirList) :=
  match es with
  | [] => Some []
  | e :: es => let? x := new_dir d k i e in let? l := new_dirs d k (S i) es in Some (x :: l)
  end.

Definition with_children l d := mkDirList (dl_path d) (path_len d) (full_len d) (content d)
  (contentJoliet d) (idx d) (fileList d) (parent d) l.
Definition with_fileList l d := mkDirList (dl_path d) (path_len d) (full_len d) (content d)
  (contentJoliet d) (idx d) l (parent d) (children d).

Section build.
Context {W : Type} `{Posix W, VisoSys W}.
Implicit Types (w : W) (d : DirList).
Variable st_uninit : file_stat_t.

(** [while (dirList)]: [seen] is the list up to [dirList], [todo] the rest. *)
Fixpoint scan_dirs (fuel : nat) (seen todo : list DirList) w : option (bool * list DirList * W) :=
  match todo with
  | [] => Some (true, seen, w)
  | d :: todo =>
      match fuel with
      | O => None
      | S fuel =>
          let '(r, w) := sys_scandir (dl_path d) select_directories w in
          match r with
          | None => Some (false, seen ++ d :: todo, w)
          | Some dirs =>
              let n := length (seen ++ d :: todo) in
              let? new := new_dirs d (length seen) n dirs in
              scan_dirs fuel (seen ++ [with_children (seq n (length new)) d]) (todo ++ new) w
          end
      end
  end.

Definition root_dir (inDir : bytes) : option DirList :=
  let dlen := u16 (blen inDir) in
  let? path := dupString inDir dlen in
  Some (mkDirList path dlen dlen None None 0 [] 0%nat []).

(** ** Files *)

Definition isdigit (c : Z) : bool := (48 <=? c) && (c <=? 57).

(** A name that ends in [.666] and two digits; the digits. *)
Definition multipart_digits (name : bytes) : option (Z * Z) :=
  let flen := u16 (blen name) in
  if 6 <? flen then
    match slice (flen - 6) 6 name with
    | [a; b; c; d; x; y] =>
        if (a =? 46) && (b =? 54) && (c =? 54) && (d =? 54) && isdigit x && isdigit y
        then Some (x, y) else None
    | _ => None
    end
  else None.

(** The files of one directory.  [fl]: the list so far; the result says whether
    all went well.  Appending to an empty list when [i] is not 0 dereferences
    NULL.  On an error the last element's sector and size are never read. *)
Fixpoint add_files (dlen : Z) (dir : bytes) (i : nat) (files : list dirent) (fl : list FileList)
    (sectors : Z) w : option (bool * list FileList * Z * W) :=
  match files with
  | [] => Some (true, fl, sectors, w)
  | e :: files =>
      let flen := u16 (blen (d_name e)) in
      let multi := multipart_digits (d_name e) in
      if match multi with Some (x, y) => negb ((x =? 48) && (y =? 48)) | None => false end then
        add_files dlen dir (S i) files fl sectors w
      else if negb (i =? 0)%nat && match fl with [] => true | _ => false end then None
      else
        let? path := createPath dlen dir flen (d_name e) in
        let '(ok, size, path, w) :=
          getFileSizeAndProcessMultipart path (isSome multi) (u16 (dlen + flen)) st_uninit w in
        let fl := fl ++ [mkFileList path dlen flen sectors size (isSome multi)] in
        if ok then add_files dlen dir (S i) files fl (u32 (sectors + bytesToSectors size)) w
        else Some (false, fl, sectors, w)
  end.

(** A failed [scandir] leaves [files] indeterminate. *)
Fixpoint scan_files (seen todo : list DirList) (sectors : Z) w
    : option (bool * list DirList * Z * W) :=
  match todo with
  | [] => Some (true, seen, sectors, w)
  | d :: todo =>
      let '(r, w) := sys_scandir (dl_path d) select_files w in
      let? files := r in
      let? (ok, fl, sectors, w) := add_files (full_len d) (dl_path d) 0 files [] sectors w in
      let d := with_fileList fl d in
      if ok then scan_files (seen ++ [d]) todo sectors w
      else Some (false, seen ++ d :: todo, sectors, w)
  end.
End build.
