(* ===== verification/VIsoDirs.v ===== *)
(** * The directories of a virtual image: records, contents and path tables

    buildContent, findDirRecord, buildPathTable, fixDirLba and fixPathTableLba of
    src/VIsoFile.cpp with the structures of include/iso9660.h.  [tempBuf] is
    cleared before each use and filled from its start: it is the list of the
    bytes up to [p].  A record is the list of the bytes of its structure. *)

From S2P Require Import Prelude Endian CString Os FileIso VIso VIsoNames VIsoTree.

Definition TEMP_BUF_SIZE : Z := 4 * 1024 * 1024.
Definition MULTIEXTENT_PART_SIZE : Z := 0xFFFFF800.
Definition ISO_FILE : Z := 0.
Definition ISO_DIRECTORY : Z := 2.
Definition ISO_MULTIEXTENT : Z := 128.

(** ** A monad for [bool] functions that call the system

    The inner [None] is the result [false], the outer one undefined behaviour. *)

Definition io (W A : Type) : Type := W -> option (option A * W).

#[export] Instance io_ret W : MRet (io W) := fun A x w => Some (Some x, w).
#[export] Instance io_bind W : MBind (io W) := fun A B f m w =>
  match m w with
  | Some (Some x, w) => f x w
  | Some (None, w) => Some (None, w)
  | None => None
  end.
Definition fail {W A} : io W A := fun w => Some (None, w).
Definition undef {W A} : io W A := fun _ => None.
(** A value that is undefined when it is not there. *)
Definition defined {W A} (x : option A) : io W A :=
  match x with Some x => mret x | None => undef end.

(** ** Directory records *)

(** The record before its length: the first 33 bytes and the name. *)
Record Iso9660DirectoryRecord := mkRecord {
  dr_start : Z;
  dr_length : Z;
  dr_time : bytes;
  fileFlags : Z;
  dr_fi : bytes;
}.

Definition both32 (x : Z) : bytes := le_bytes 4 x ++ be_bytes 4 x.

Definition record_bytes (len_dr len_fi : Z) (r : Iso9660DirectoryRecord) : bytes :=
  [len_dr; 0] ++ both32 (dr_start r) ++ both32 (dr_length r) ++ dr_time r ++ [0; fileFlags r; 0; 0]
  ++ le_bytes 2 1 ++ be_bytes 2 1 ++ [len_fi] ++ dr_fi r.

(** [record->len_dr] as the code computes it, in eight bits. *)
Definition len_dr (r : Iso9660DirectoryRecord) : Z :=
  let n := u8 (0x27 + u8 (blen (dr_fi r))) in
  if Z.land n 1 =? 1 then u8 (n + 1) else n.

(** The [len_dr] bytes that are copied from the cleared block. *)
Definition record_copy (r : Iso9660DirectoryRecord) : bytes :=
  slice 0 (len_dr r) (record_bytes (len_dr r) (u8 (blen (dr_fi r))) r ++ replicate 256 0).

Definition byte_at (o : Z) (b : bytes) : Z := nth (Z.to_nat o) b 0.

(** The fields with start and length of the record at [o], as they are in memory. *)
Definition extent_at (o : Z) (b : bytes) : bytes := slice (o + 2) 16 b.
Definition set_extent (o : Z) (e b : bytes) : bytes := overwrite (o + 2) e b.

(** [buf] up to the place of a record of [len] bytes, which does not cross the
    end of a sector. *)
Definition place (buf : bytes) (len : Z) : bytes :=
  let offs := blen buf in
  if offs / SECTOR_SIZE <? (offs + len) / SECTOR_SIZE
  then buf ++ replicate (Z.to_nat (sector_align offs - offs)) 0
  else buf.

(** [None]: the buffer is full. *)
Definition add_record (buf : bytes) (r : Iso9660DirectoryRecord) : option bytes :=
  let buf := place buf (len_dr r) in
  if TEMP_BUF_SIZE <=? blen buf + len_dr r then None else Some (buf ++ record_copy r).

(** The next record from [pos] on: records, then zeros up to the end of the sector. *)
Definition next_record (pos : Z) (b : bytes) : option Z :=
  if blen b <=? pos then None
  else if negb (byte_at pos b =? 0) then Some pos
  else
    let pos := pos + (SECTOR_SIZE - Z.land pos SECTOR_MASK) in
    if (blen b <=? pos) || (byte_at pos b =? 0) then None else Some pos.

(** The name of a child, in upper case or in UCS-2. *)
Definition iso_name (joliet : bool) (n1 n2 : nat) (name : bytes) : option bytes :=
  if joliet then ucs2_bytes <$> utf8_to_ucs2 n2 (name ++ [0]) else Some (strncpy_upper n1 name).

Fixpoint find_record (fuel : nat) (pos : Z) (name b : bytes) : option Z :=
  match fuel, next_record pos b with
  | S fuel, Some pos =>
      if (byte_at (pos + 0x20) b =? u8 (blen name)) &&
         bytes_eqb (slice (pos + 0x21) (u8 (blen name)) b) (slice 0 (u8 (blen name)) name)
      then Some pos
      else find_record fuel (pos + byte_at pos b) name b
  | _, _ => None
  end.

(** The offset of the record; the outer [None]: the name is read past its end. *)
Definition findDirRecord (dirName b : bytes) (joliet : bool) : option (option Z) :=
  let? name := iso_name joliet 204 127 dirName in
  Some (find_record (S (length b)) 0 name b).

(** [current->lsbStart = LE32(LE32(current->lsbStart) + lba)], and the same of
    the big-endian copy. *)
Definition shift_start (o lba : Z) (b : bytes) : bytes :=
  overwrite (o + 2) (le_bytes 4 (u32 (le_val (slice (o + 2) 4 b) + lba)) ++
    be_bytes 4 (u32 (be_val (slice (o + 6) 4 b) + lba))) b.

Fixpoint fix_records (fuel : nat) (pos dirLba filesLba : Z) (b : bytes) : bytes :=
  match fuel, next_record pos b with
  | S fuel, Some pos =>
      let lba := if Z.land (byte_at (pos + 0x19) b) ISO_DIRECTORY =? 0 then filesLba else dirLba in
      fix_records fuel (pos + byte_at pos b) dirLba filesLba (shift_start pos lba b)
  | _, _ => b
  end.

Definition fixDirLba (dirLba filesLba : Z) (b : bytes) : bytes :=
  fix_records (S (length b)) 0 dirLba filesLba b.

(** ** Contents of a directory *)

Section content.
Context {W : Type} `{Posix W, VisoSys W}.
Variable st_uninit : file_stat_t.
Implicit Types (d : DirList) (f : FileList).
Abbreviation M := (io W).

(** [if (stat_file(path, &statbuf) < 0) return false;] *)
Definition stat_io (path : bytes) : M file_stat_t := fun w =>
  let '(r, st, w) := stat_file (Some path) st_uninit w in
  if r <? 0 then Some (None, w) else Some (Some st, w).

Definition genIso9660Time (t : Z) : bytes :=
  let x := sys_localtime t in
  [u8 (tm_year x); u8 (tm_mon x + 1); u8 (tm_mday x); u8 (tm_hour x); u8 (tm_min x); u8 (tm_sec x)].

Definition or_fail {A} (x : option A) : M A :=
  match x with Some x => mret x | None => fail end.

Definition fl_name f : bytes := drop (Z.to_nat (fl_path_len f + 1)) (fl_path f).
Definition dl_name d : bytes := drop (Z.to_nat (path_len d + 1)) (dl_path d).

(** [strcpy(s, fileName); strcpy(s + len, ";1");] into [len + 3] bytes: a name
    that is shorter than [len] keeps its own terminator. *)
Definition joliet_file_name (len : Z) (name : bytes) : option bytes :=
  if blen name <? len then Some name
  else if len + 2 <? blen name then None
  else Some (slice 0 len name ++ str ";1").

Definition file_name (joliet : bool) f : option bytes :=
  if joliet then
    let? s := joliet_file_name (file_len f) (fl_name f) in
    let? l := utf8_to_ucs2 103 (s ++ [0]) in Some (ucs2_bytes l)
  else Some (strncpy_upper 204 (fl_name f) ++ str ";1").

(** The number of records of a file. *)
Definition file_parts f : Z :=
  if 0xFFFFFFFF <? fl_size f then
    u32 (fl_size f / MULTIEXTENT_PART_SIZE) +
      (if fl_size f mod MULTIEXTENT_PART_SIZE =? 0 then 0 else 1)
  else 1.

(** Start, length and flags of the [i]-th of [parts] records, and where the next starts. *)
Definition part_extent f (parts i lba : Z) : Z * Z * Z * Z :=
  if parts =? 1 then (lba, u32 (fl_size f), ISO_FILE, lba)
  else if i =? parts - 1 then
    (lba, u32 (fl_size f - u32 (i * MULTIEXTENT_PART_SIZE)), ISO_FILE, lba)
  else (lba, MULTIEXTENT_PART_SIZE, ISO_MULTIEXTENT,
        u32 (lba + bytesToSectors MULTIEXTENT_PART_SIZE)).

Definition stat_path f : bytes :=
  if multipart f then fl_path f ++ str ".66600" else fl_path f.

Fixpoint file_records (k : nat) (joliet : bool) f (parts i lba : Z) (buf : bytes) : M bytes :=
  match k with
  | O => mret buf
  | S k =>
      st ← stat_io (stat_path f);
      let '(start, len, flags, lba) := part_extent f parts i lba in
      name ← defined (file_name joliet f);
      buf ← or_fail (add_record buf (mkRecord start len (genIso9660Time (st_mtime st)) flags name));
      file_records k joliet f parts (i + 1) lba buf
  end.

Fixpoint files_records (joliet : bool) (fl : list FileList) (buf : bytes) : M bytes :=
  match fl with
  | [] => mret buf
  | f :: fl =>
      buf ← file_records (Z.to_nat (file_parts f)) joliet f (file_parts f) 0 (rlba f) buf;
      files_records joliet fl buf
  end.

Fixpoint dirs_records (joliet : bool) (dl : list DirList) (l : list nat) (buf : bytes) : M bytes :=
  match l with
  | [] => mret buf
  | k :: l =>
      d ← defined (dl !! k);
      st ← stat_io (dl_path d);
      name ← defined (iso_name joliet 254 127 (dl_name d));
      buf ← or_fail (add_record buf (mkRecord 0 0 (genIso9660Time (st_mtime st)) ISO_DIRECTORY name));
      dirs_records joliet dl l buf
  end.

Definition get_content (joliet : bool) d : option bytes :=
  if joliet then contentJoliet d else content d.
Definition set_content (joliet : bool) b d :=
  if joliet then mkDirList (dl_path d) (path_len d) (full_len d) (content d) (Some b) (idx d)
                   (fileList d) (parent d) (children d)
  else mkDirList (dl_path d) (path_len d) (full_len d) (Some b) (contentJoliet d) (idx d)
         (fileList d) (parent d) (children d).

(** The directory at position [k]; [sectors] is [dirsSizeSectors] or
    [dirsSizeSectorsJoliet].  The record in the parent's contents is given the
    extent of the new contents. *)
Definition buildContent (joliet : bool) (dl : list DirList) (k : nat) (sectors : Z)
    : M (list DirList * Z) :=
  d ← defined (dl !! k);
  up ← defined (dl !! parent d);
  st ← stat_io (dl_path d);
  let dot := mkRecord sectors 0 (genIso9660Time (st_mtime st)) ISO_DIRECTORY [0] in
  upc ← (if (parent d =? k)%nat then mret [] else defined (get_content joliet up));
  st ← stat_io (dl_path up);
  let dotdot := mkRecord 0 0 (genIso9660Time (st_mtime st)) ISO_DIRECTORY [1] in
  let dotdot := record_copy dotdot in
  let dotdot := if (parent d =? k)%nat then dotdot else set_extent 0 (extent_at 0 upc) dotdot in
  buf ← files_records joliet (fileList d) (record_copy dot ++ dotdot);
  buf ← dirs_records joliet dl (children d) buf;
  let size := sector_align (blen buf) in
  if TEMP_BUF_SIZE <? size then undef
  else
    let p := buf ++ replicate (Z.to_nat (size - blen buf)) 0 in
    let p := overwrite 0x0A (both32 size) p in
    let sectors := u32 (sectors + bytesToSectors size) in
    if (parent d =? k)%nat then
      let p := set_extent 0x28 (extent_at 0 p) p in
      mret (<[k := set_content joliet p d]> dl, sectors)
    else
      child ← defined (findDirRecord (dl_name d) upc joliet);
      o ← or_fail child;
      if blen upc <? o + 18 then undef else
      let dl := <[parent d := set_content joliet (set_extent o (extent_at 0 p) upc) up]> dl in
      mret (<[k := set_content joliet p d]> dl, sectors).

(** The loop over all directories: [n] of them from position [k].  A directory
    that fails leaves the list and the count as they were. *)
Fixpoint build_contents (n : nat) (joliet : bool) (k : nat) (dl : list DirList) (sectors : Z) (w : W)
    : option (bool * list DirList * Z * W) :=
  match n with
  | O => Some (true, dl, sectors, w)
  | S n =>
      match buildContent joliet dl k sectors w with
      | Some (Some (dl, sectors), w) => build_contents n joliet (S k) dl sectors w
      | Some (None, w) => Some (false, dl, sectors, w)
      | None => None
      end
  end.
End content.

(** ** Path tables *)

Definition pad_even (name : bytes) : bytes := if Z.land (blen name) 1 =? 1 then [0] else [].

(** The entry of the [i]-th directory; the root is the first and its own parent. *)
Definition path_entry (msb joliet : bool) (dl : list DirList) (i : nat) (d : DirList) : option bytes :=
  let? b := get_content joliet d in
  let? name := if (i =? 0)%nat then Some [0] else iso_name joliet 254 127 (dl_name d) in
  let? up := dl !! parent d in
  let parentIdx := if (i =? 0)%nat then 1 else u16 (u16 (idx up) + 1) in
  Some ([blen name; 0] ++ (if msb then slice 6 4 b else slice 2 4 b) ++
        (if msb then be_bytes 2 parentIdx else le_bytes 2 parentIdx) ++ name ++ pad_even name).

(** The inner [None]: the buffer is too small for another entry. *)
Fixpoint path_entries (msb joliet : bool) (dl : list DirList) (i : nat) (l : list DirList)
    (buf : bytes) : option (option bytes) :=
  match l with
  | [] => Some (Some buf)
  | d :: l =>
      if 65536 <=? Z.of_nat i then Some (Some buf)
      else if TEMP_BUF_SIZE <? blen buf + 8 + MAX_ISODIR then Some None
      else let? e := path_entry msb joliet dl i d in path_entries msb joliet dl (S i) l (buf ++ e)
  end.

Definition buildPathTable (msb joliet : bool) (dl : list DirList) : option (option bytes) :=
  path_entries msb joliet dl 0 dl [].

Fixpoint fix_entries (fuel : nat) (pos dirLba : Z) (msb : bool) (b : bytes) : bytes :=
  match fuel with
  | O => b
  | S fuel =>
      if blen b <=? pos then b
      else
        let b := overwrite (pos + 2)
                   (if msb then be_bytes 4 (u32 (be_val (slice (pos + 2) 4 b) + dirLba))
                    else le_bytes 4 (u32 (le_val (slice (pos + 2) 4 b) + dirLba))) b in
        let n := byte_at pos b in
        fix_entries fuel (pos + 8 + n + Z.land n 1) dirLba msb b
  end.

Definition fixPathTableLba (dirLba : Z) (msb : bool) (b : bytes) : bytes :=
  fix_entries (S (length b)) 0 dirLba msb b.
