(* ===== verification/VIsoRecords.v ===== *)
(** * Directory contents as sequences of records

    [chain_to b pos l e]: a reader that starts at [pos] in the contents [b] and
    goes from record to record as ISO 9660 says (and as findDirRecord and
    fixDirLba do) meets the records [l], at their offsets, and is then at [e].
    What buildContent appends is read back, and the changes of extents keep the
    sequence. *)

From S2P Require Import Prelude Endian CString Os FileIso VIso VIsoView VIsoNames VIsoTree VIsoDirs.

(** ** Bytes of lists *)

Lemma byte_at_app_l o a b : 0 <= o < blen a -> byte_at o (a ++ b) = byte_at o a.
Proof. intros. unfold byte_at, blen in *. by rewrite app_nth1 by lia. Qed.

Lemma byte_at_app_r o a b : blen a <= o -> byte_at o (a ++ b) = byte_at (o - blen a) b.
Proof. intros. unfold byte_at, blen in *. rewrite app_nth2 by lia. f_equal. lia. Qed.

Lemma byte_at_zeros o n : byte_at o (replicate n 0) = 0.
Proof.
  unfold byte_at. rewrite nth_lookup. destruct (_ !! _) eqn:E; [|done].
  by apply lookup_replicate in E as [-> _].
Qed.

Lemma byte_at_out o b : blen b <= o -> byte_at o b = 0.
Proof. intros. apply nth_overflow. unfold blen in *. lia. Qed.

Lemma byte_at_slice o a n b :
  0 <= a -> 0 <= o < n -> byte_at o (slice a n b) = byte_at (a + o) b.
Proof.
  intros. unfold byte_at. rewrite !nth_lookup, slice_lookup by lia. do 2 f_equal. lia.
Qed.

Lemma slice_bytes a n b c :
  0 <= a -> blen c = n -> a + n <= blen b ->
  (forall i, 0 <= i < n -> byte_at (a + i) b = byte_at i c) -> slice a n b = c.
Proof.
  intros Ha Hn Hb E. pose proof (blen_nonneg c).
  assert (blen (slice a n b) = n) as Hs by (rewrite blen_slice; lia).
  apply (nth_ext _ _ 0 0); [unfold blen in *; lia|]. intros i Hi. unfold blen in *.
  pose proof (E (Z.of_nat i) ltac:(lia)) as Ei. rewrite <- (byte_at_slice _ _ n) in Ei by lia.
  unfold byte_at in Ei. by rewrite Nat2Z.id in Ei.
Qed.

Lemma blen_overwrite o d b :
  0 <= o -> o + blen d <= blen b -> blen (overwrite o d b) = blen b.
Proof.
  intros. unfold overwrite, blen in *. rewrite !length_app, length_take, length_drop. lia.
Qed.

Lemma byte_at_overwrite o d b i :
  0 <= o -> o + blen d <= blen b -> 0 <= i ->
  byte_at i (overwrite o d b) = if (o <=? i) && (i <? o + blen d) then byte_at (i - o) d else byte_at i b.
Proof.
  intros Ho Hb Hi. unfold overwrite. pose proof (blen_nonneg d).
  assert (blen (take (Z.to_nat o) b) = o) as Ht.
  { unfold blen in *. rewrite length_take. lia. }
  destruct (Z.leb_spec o i); cbn [andb]; [destruct (Z.ltb_spec i (o + blen d))|].
  - rewrite byte_at_app_r, byte_at_app_l by lia. by rewrite Ht.
  - rewrite !byte_at_app_r by lia. rewrite Ht. unfold byte_at, blen in *.
    rewrite !nth_lookup, lookup_drop. do 2 f_equal. lia.
  - rewrite byte_at_app_l by lia. unfold byte_at, blen in *.
    rewrite !nth_lookup, lookup_take_lt by lia. done.
Qed.

(** ** Walking over records *)

(** A record that tells its own length and holds its name. *)
Record rec_ok (r : bytes) : Prop := {
  ro_len : byte_at 0 r = blen r;
  ro_min : 34 <= blen r < SECTOR_SIZE;
  ro_name : 0 <= byte_at 0x20 r <= blen r - 33;
}.

Inductive chain_to (b : bytes) : Z -> list (Z * bytes) -> Z -> Prop :=
| chain_nil pos : chain_to b pos [] pos
| chain_cons pos o r l e :
    next_record pos b = Some o -> slice o (blen r) b = r -> rec_ok r ->
    chain_to b (o + blen r) l e -> chain_to b pos ((o, r) :: l) e.

Lemma next_record_Some pos b o :
  0 <= pos -> next_record pos b = Some o -> pos <= o < blen b /\ byte_at o b <> 0.
Proof.
  unfold next_record. intros Hp. destruct (Z.leb_spec (blen b) pos); [done|].
  destruct (Z.eqb_spec (byte_at pos b) 0); cbn [negb]; [|intros [= <-]; lia].
  set (q := pos + _). assert (pos < q) as Hq.
  { unfold q. change SECTOR_MASK with (Z.ones 11). rewrite Z.land_ones by lia.
    unfold SECTOR_SIZE. pose proof (Z.mod_pos_bound pos (2 ^ 11)). lia. }
  destruct (Z.leb_spec (blen b) q); cbn [orb]; [done|].
  destruct (Z.eqb_spec (byte_at q b) 0); [done|]. intros [= <-]. lia.
Qed.

(** Only the bytes up to the record matter. *)
Lemma next_record_ext pos b b' o :
  0 <= pos -> next_record pos b = Some o -> blen b <= blen b' ->
  (forall q, pos <= q <= o -> byte_at q b' = byte_at q b) -> next_record pos b' = Some o.
Proof.
  intros Hp E Hb Eq. pose proof (next_record_Some _ _ _ Hp E) as [Ho Hn].
  unfold next_record in *. destruct (Z.leb_spec (blen b) pos); [done|].
  destruct (Z.leb_spec (blen b') pos); [lia|].
  rewrite Eq by lia. destruct (Z.eqb_spec (byte_at pos b) 0); cbn [negb] in *; [|done].
  set (q := pos + _) in *.
  destruct (Z.leb_spec (blen b) q); cbn [orb] in E; [done|].
  destruct (Z.eqb_spec (byte_at q b) 0); [done|]. injection E as E.
  destruct (Z.leb_spec (blen b') q); [lia|]. cbn [orb]. rewrite Eq by lia.
  destruct (Z.eqb_spec (byte_at q b) 0); [done|by subst].
Qed.

Lemma chain_bounds b pos l e :
  0 <= pos -> chain_to b pos l e -> pos <= e /\
  Forall (fun '(o, r) => pos <= o /\ o + blen r <= e /\ o + blen r <= blen b) l.
Proof.
  intros Hp C. induction C as [pos|pos o r l e Hn Hr [] C IH]; [split; [lia|done]|].
  pose proof (next_record_Some _ _ _ Hp Hn) as [Ho _]. destruct (IH ltac:(lia)) as [He Hl].
  split; [lia|]. constructor.
  - split; [lia|]. split; [lia|]. pose proof (f_equal blen Hr) as Hl'.
    rewrite blen_slice in Hl' by lia. lia.
  - eapply Forall_impl; [done|]. intros [o' r'] ?. lia.
Qed.

Lemma chain_app b pos l1 m l2 e :
  chain_to b pos l1 m -> chain_to b m l2 e -> chain_to b pos (l1 ++ l2) e.
Proof. induction 1; [done|]. intros. econstructor; eauto. Qed.

Lemma chain_split b pos l1 l2 e :
  chain_to b pos (l1 ++ l2) e -> exists m, chain_to b pos l1 m /\ chain_to b m l2 e.
Proof.
  revert pos. induction l1 as [|[o r] l1 IH]; intros pos C.
  - exists pos. split; [constructor|done].
  - inversion C as [|? ? ? ? ? Hn Hr Hok C']; subst. destruct (IH _ C') as (m & C1 & C2).
    exists m. split; [by econstructor|done].
Qed.

(** The bytes between the ends determine the chain. *)
Lemma chain_ext b b' pos l e :
  0 <= pos -> chain_to b pos l e -> blen b <= blen b' ->
  (forall q, pos <= q < e -> byte_at q b' = byte_at q b) -> chain_to b' pos l e.
Proof.
  intros Hp C Hb. induction C as [pos|pos o r l e Hn Hr Hok C IH]; intros Eq; [constructor|].
  pose proof (next_record_Some _ _ _ Hp Hn) as [Ho _]. pose proof Hok as [].
  destruct (chain_bounds b pos ((o, r) :: l) e Hp) as [_ Hall]; [by econstructor|].
  apply Forall_inv in Hall as (_ & He & Hin).
  econstructor; [| |done|].
  - eapply next_record_ext; [done..|]. intros q Hq. apply Eq. lia.
  - apply slice_bytes; [lia|done|lia|]. intros i Hi. rewrite Eq by lia.
    rewrite <- (byte_at_slice i o (blen r)) by lia. by rewrite Hr.
  - apply IH; [lia|]. intros q Hq. apply Eq. lia.
Qed.

(** ** Storing into a record *)

Lemma overwrite_ok k d r :
  rec_ok r -> 1 <= k -> k + blen d <= 0x20 -> rec_ok (overwrite k d r).
Proof.
  intros [] Hk Hd. pose proof (blen_nonneg d).
  split; rewrite ?blen_overwrite, ?byte_at_overwrite by lia; zdecide; cbn [andb]; lia.
Qed.

(** A store into the [i]-th record changes this record only. *)
Lemma chain_overwrite b pos l1 o r l2 e k d :
  0 <= pos -> chain_to b pos (l1 ++ (o, r) :: l2) e -> 1 <= k -> k + blen d <= 0x20 ->
  let b' := overwrite (o + k) d b in
  blen b' = blen b /\ chain_to b' pos (l1 ++ (o, overwrite k d r) :: l2) e /\
  (forall q, 0 <= q -> q < o + k \/ o + k + blen d <= q -> byte_at q b' = byte_at q b).
Proof.
  intros Hp C Hk Hd b'. pose proof (blen_nonneg d).
  apply chain_split in C as (m & C1 & C2). pose proof (chain_bounds _ _ _ _ Hp C1) as [Hm _].
  pose proof (chain_bounds _ m _ _ ltac:(lia) C2) as [_ Hall]. apply Forall_inv in Hall as (Hmo & Hoe & Hob).
  inversion C2 as [|? ? ? ? ? Hn Hr Hok C3]; subst. pose proof Hok as [].
  assert (blen b' = blen b) as Hb by (apply blen_overwrite; lia).
  assert (forall q, 0 <= q -> byte_at q b' =
    if (o + k <=? q) && (q <? o + k + blen d) then byte_at (q - (o + k)) d else byte_at q b) as Hq.
  { intros q ?. apply byte_at_overwrite; lia. }
  assert (forall q, 0 <= q -> q < o + k \/ o + k + blen d <= q -> byte_at q b' = byte_at q b) as Hout.
  { intros q ??. rewrite Hq by lia. zdecide; done. }
  split; [done|]. split; [|done]. eapply chain_app.
  - eapply chain_ext; [done|exact C1|lia|]. intros q ?. apply Hout; lia.
  - econstructor.
    + eapply next_record_ext; [|done|lia|]; [lia|]. intros q ?. apply Hout; lia.
    + rewrite blen_overwrite by lia. apply slice_bytes; [lia|apply blen_overwrite; lia|lia|].
      intros i Hi. rewrite Hq, byte_at_overwrite by lia.
      replace (o + i - (o + k)) with (i - k) by lia.
      rewrite <- (byte_at_slice i o (blen r)), Hr by lia. zdecide; done.
    + by apply overwrite_ok.
    + rewrite blen_overwrite by lia. eapply chain_ext; [|exact C3|lia|]; [lia|].
      intros q ?. apply Hout; lia.
Qed.

(** ** Contents that are complete *)

(** [b] consists of the records [l], in whole sectors. *)
Record content_ok (b : bytes) (l : list (Z * bytes)) : Prop := {
  ct_end : exists e, chain_to b 0 l e /\ next_record e b = None;
  ct_sectors : blen b mod SECTOR_SIZE = 0;
}.

Lemma next_record_None_ext pos b b' :
  0 <= pos -> next_record pos b = None -> blen b' = blen b ->
  (forall q, pos <= q -> byte_at q b' = byte_at q b) -> next_record pos b' = None.
Proof.
  intros Hp E Hb Eq. unfold next_record in *. rewrite Hb.
  destruct (Z.leb_spec (blen b) pos); [done|]. rewrite Eq by lia.
  destruct (Z.eqb_spec (byte_at pos b) 0); cbn [negb] in *; [|done].
  set (q := pos + _) in *. assert (pos < q) as Hq.
  { unfold q. change SECTOR_MASK with (Z.ones 11). rewrite Z.land_ones by lia.
    unfold SECTOR_SIZE. pose proof (Z.mod_pos_bound pos (2 ^ 11)). lia. }
  by rewrite Eq by lia.
Qed.

Lemma content_overwrite b l1 o r l2 k d :
  content_ok b (l1 ++ (o, r) :: l2) -> 1 <= k -> k + blen d <= 0x20 ->
  content_ok (overwrite (o + k) d b) (l1 ++ (o, overwrite k d r) :: l2).
Proof.
  intros [(e & C & Hend) Hs] Hk Hd.
  destruct (chain_overwrite b 0 l1 o r l2 e k d) as (Hb & C' & Hout); [done..|].
  pose proof (chain_bounds _ 0 _ _ ltac:(lia) C) as [He Hall].
  apply Forall_app in Hall as [_ Hall]. apply Forall_inv in Hall as (Ho & Hoe & _).
  split; [|by rewrite Hb]. exists e. split; [done|].
  eapply next_record_None_ext; [done|done|done|]. intros q Hq. apply Hout; [lia|].
  apply chain_split in C as (m & _ & C2). inversion C2 as [|? ? ? ? ? _ _ [] _]; subst. lia.
Qed.

(** [find_record] finds one of the records. *)
Lemma find_record_chain fuel pos name b l e o :
  0 <= pos -> chain_to b pos l e -> next_record e b = None ->
  find_record fuel pos name b = Some o -> blen name < 256 ->
  exists r, (o, r) ∈ l /\ byte_at 0x20 r = blen name /\ slice 33 (blen name) r = name.
Proof.
  revert pos l. induction fuel as [|fuel IH]; intros pos l Hp C Hend Hf Hname; [done|].
  pose proof (blen_nonneg name) as Hn0. cbn [find_record] in Hf.
  inversion C as [|? o' r l' ? Hn Hr Hok C']; subst; [by rewrite Hend in Hf|].
  pose proof (next_record_Some _ _ _ Hp Hn) as [Ho _]. pose proof Hok as [].
  rewrite Hn in Hf. unfold u8 in Hf. rewrite Z.mod_small in Hf by lia.
  assert (forall i, 0 <= i < blen r -> byte_at (o' + i) b = byte_at i r) as Hb.
  { intros i Hi. rewrite <- (byte_at_slice i o' (blen r)) by lia. by rewrite Hr. }
  assert (byte_at o' b = blen r) as Hlen by (rewrite <- ro_len0, <- Hb by lia; f_equal; lia).
  assert (find_record fuel (o' + blen r) name b = Some o -> exists r0, (o, r0) ∈ (o', r) :: l' /\
    byte_at 0x20 r0 = blen name /\ slice 33 (blen name) r0 = name) as Hrec.
  { intros (r' & ? & ?)%(IH _ l'); [|lia|done..]. exists r'. split; [by constructor|done]. }
  rewrite Hlen in Hf. rewrite Hb in Hf by lia.
  destruct (Z.eqb_spec (byte_at 0x20 r) (blen name)) as [En|]; cbn [andb] in Hf.
  - unfold bytes_eqb in Hf. rewrite slice_all in Hf. case_bool_decide as Hs.
    + injection Hf as <-. exists r. split; [constructor|]. split; [done|].
      rewrite <- Hr, slice_slice by lia. done.
    + by apply Hrec.
  - by apply Hrec.
Qed.

(** ** fixDirLba *)

(** The record with its start moved. *)
Definition shift_record (dirLba filesLba : Z) (r : bytes) : bytes :=
  let lba := if Z.land (byte_at 0x19 r) ISO_DIRECTORY =? 0 then filesLba else dirLba in
  shift_start 0 lba r.

Definition shift_item (dirLba filesLba : Z) (x : Z * bytes) : Z * bytes :=
  (x.1, shift_record dirLba filesLba x.2).

Lemma shift_start_record o lba b r :
  0 <= o -> slice o (blen r) b = r -> 34 <= blen r -> o + blen r <= blen b ->
  exists d, blen d = 8 /\ shift_start o lba b = overwrite (o + 2) d b /\
            shift_start 0 lba r = overwrite 2 d r.
Proof.
  intros Ho Hr Hlen Hb.
  assert (forall a n, 0 <= a -> 0 <= n -> a + n <= blen r -> slice (o + a) n b = slice a n r) as Hs.
  { intros. rewrite <- Hr, slice_slice by lia. done. }
  exists (le_bytes 4 (u32 (le_val (slice (o + 2) 4 b) + lba)) ++
          be_bytes 4 (u32 (be_val (slice (o + 6) 4 b) + lba))).
  split; [rewrite blen_app, blen_be_bytes; unfold blen; by rewrite length_le_bytes|].
  split; [done|]. unfold shift_start. by rewrite !Hs by lia.
Qed.

Lemma fix_records_chain fuel pos d f b l1 l e :
  (length l < fuel)%nat -> chain_to b 0 l1 pos -> chain_to b pos l e ->
  next_record e b = None ->
  let b' := fix_records fuel pos d f b in
  blen b' = blen b /\ chain_to b' 0 (l1 ++ (shift_item d f <$> l)) e /\ next_record e b' = None.
Proof.
  revert pos b l1 l. induction fuel as [|fuel IH]; intros pos b l1 l Hf C1 C2 Hend b'; [lia|].
  pose proof (chain_bounds _ 0 _ _ ltac:(lia) C1) as [Hpos _].
  unfold b'. cbn [fix_records]. inversion C2 as [|? o r l' ? Hn Hr Hok C3]; subst.
  { rewrite Hend, app_nil_r. done. }
  rewrite Hn. pose proof (chain_bounds _ _ _ _ Hpos C2) as [He Hall].
  apply Forall_inv in Hall as (Ho & Hoe & Hob). pose proof Hok as [].
  assert (forall i, 0 <= i < blen r -> byte_at (o + i) b = byte_at i r) as Hbyte.
  { intros i Hi. rewrite <- (byte_at_slice i o (blen r)) by lia. by rewrite Hr. }
  rewrite (Hbyte 0x19) by lia.
  replace (byte_at o b) with (blen r) by (rewrite <- ro_len0, <- Hbyte by lia; f_equal; lia).
  set (lba := if _ =? 0 then f else d).
  destruct (shift_start_record o lba b r) as (x & Hx & -> & Hsr); [lia|done..|lia|lia|].
  pose proof (chain_app _ _ _ _ _ _ C1 C2) as C.
  destruct (chain_overwrite b 0 l1 o r l' e 2 x) as (Hb & C' & Hout); [lia|done|lia|lia|].
  apply chain_split in C' as (m & C1' & C2').
  assert (shift_item d f (o, r) = (o, overwrite 2 x r)) as Hit.
  { unfold shift_item, shift_record. cbn [fst snd]. fold lba. by rewrite Hsr. }
  assert (chain_to (overwrite (o + 2) x b) 0 (l1 ++ [(o, overwrite 2 x r)]) (o + blen r)) as C1''.
  { eapply chain_app; [exact C1'|]. inversion C2' as [|? ? ? ? ? Hn' Hr' Hok' C3']; subst.
    econstructor; [done..|]. rewrite blen_overwrite by lia. constructor. }
  assert (chain_to (overwrite (o + 2) x b) (o + blen r) l' e) as C3''.
  { eapply chain_ext; [|exact C3|lia|]; [lia|]. intros q Hq. apply Hout; lia. }
  assert (length l' < fuel)%nat as Hf' by exact (proj2 (Nat.succ_lt_mono _ _) Hf).
  destruct (IH _ _ _ _ Hf' C1'' C3'') as (Hb' & C4 & Hend').
  { eapply next_record_None_ext; [|exact Hend|done|]; [lia|]. intros q Hq. apply Hout; lia. }
  split; [by rewrite Hb'|]. split; [|done].
  rewrite <- app_assoc in C4. change (shift_item d f <$> (o, r) :: l')
    with (shift_item d f (o, r) :: (shift_item d f <$> l')). by rewrite Hit.
Qed.

(** Records are at least one byte apart, so the number of steps is enough. *)
Lemma chain_length b pos l e :
  0 <= pos <= blen b -> chain_to b pos l e -> blen l <= blen b - pos.
Proof.
  intros Hp C. induction C as [|pos o r l e Hn Hr Hok C IH]; [rewrite blen_nil; lia|].
  destruct (chain_bounds b pos ((o, r) :: l) e) as [_ Hall]; [lia|by econstructor|].
  apply Forall_inv in Hall as (? & ? & ?). pose proof Hok as [].
  rewrite blen_cons. specialize (IH ltac:(lia)). lia.
Qed.

Lemma fixDirLba_content d f b l :
  content_ok b l ->
  content_ok (fixDirLba d f b) (shift_item d f <$> l) /\ blen (fixDirLba d f b) = blen b.
Proof.
  intros [(e & C & Hend) Hs]. pose proof (blen_nonneg b).
  pose proof (chain_length b 0 l e ltac:(lia) C) as Hl.
  destruct (fix_records_chain (S (length b)) 0 d f b [] l e) as (Hb & C' & Hend').
  { unfold blen in *. lia. } { constructor. } { done. } { done. }
  split; [|done]. split; [by exists e|]. unfold fixDirLba. by rewrite Hb.
Qed.

(** ** Appending a record *)

(** The fields, as a reader of the disc finds them. *)
Definition rec_start (r : bytes) : Z := le_val (slice 2 4 r).
Definition rec_length (r : bytes) : Z := le_val (slice 10 4 r).
Definition rec_flags (r : bytes) : Z := byte_at 0x19 r.
Definition rec_name (r : bytes) : bytes := slice 33 (byte_at 0x20 r) r.

(** A record whose length fits its byte. *)
Record short (r : Iso9660DirectoryRecord) : Prop := {
  sh_name : blen (dr_fi r) <= 215;
  sh_time : length (dr_time r) = 6%nat;
}.

Lemma len_dr_short r : short r ->
  0x27 + blen (dr_fi r) <= len_dr r <= 0x28 + blen (dr_fi r) /\ len_dr r <= 254.
Proof.
  intros [Hn _]. pose proof (blen_nonneg (dr_fi r)). unfold len_dr, u8.
  rewrite (Z.mod_small (blen _)), (Z.mod_small (0x27 + _)) by lia.
  assert (forall x, Z.land x 1 = x mod 2) as E by (intros x; exact (Z.land_ones x 1 ltac:(lia))).
  rewrite E. destruct (Z.eqb_spec ((0x27 + blen (dr_fi r)) mod 2) 1);
    rewrite ?(Z.mod_small (_ + 1)) by (Z.to_euclidean_division_equations; lia);
    Z.to_euclidean_division_equations; lia.
Qed.

(** The 33 bytes before the name, and the name. *)
Lemma record_bytes_split a n r :
  length (dr_time r) = 6%nat ->
  exists h, record_bytes a n r = h ++ dr_fi r /\ blen h = 33 /\
    byte_at 0 h = a /\ byte_at 0x20 h = n /\ byte_at 0x19 h = fileFlags r /\
    slice 2 4 h = le_bytes 4 (dr_start r) /\ slice 10 4 h = le_bytes 4 (dr_length r).
Proof.
  intros Ht. destruct (dr_time r) as [|t0 [|t1 [|t2 [|t3 [|t4 [|t5 [|]]]]]]] eqn:E; try done.
  exists ([a; 0] ++ both32 (dr_start r) ++ both32 (dr_length r) ++ dr_time r ++ [0; fileFlags r; 0; 0]
    ++ le_bytes 2 1 ++ be_bytes 2 1 ++ [n]).
  unfold record_bytes. rewrite E, <- !app_assoc. done.
Qed.

Lemma record_copy_split r : short r ->
  exists h t, record_copy r = h ++ dr_fi r ++ t /\ blen h = 33 /\ blen (record_copy r) = len_dr r /\
    byte_at 0 h = len_dr r /\ byte_at 0x20 h = blen (dr_fi r) /\ byte_at 0x19 h = fileFlags r /\
    slice 2 4 h = le_bytes 4 (dr_start r) /\ slice 10 4 h = le_bytes 4 (dr_length r).
Proof.
  intros Hs. pose proof (len_dr_short r Hs) as [Hl Hm]. destruct Hs as [Hn Ht].
  pose proof (blen_nonneg (dr_fi r)). unfold record_copy.
  assert (u8 (blen (dr_fi r)) = blen (dr_fi r)) as -> by (apply u8_small; lia).
  destruct (record_bytes_split (len_dr r) (blen (dr_fi r)) r Ht) as (h & -> & Hh & ?).
  exists h, (replicate (Z.to_nat (len_dr r - 33 - blen (dr_fi r))) 0).
  assert (slice 0 (len_dr r) ((h ++ dr_fi r) ++ replicate 256 0)
    = h ++ dr_fi r ++ replicate (Z.to_nat (len_dr r - 33 - blen (dr_fi r))) 0) as ->.
  { rewrite <- app_assoc. unfold slice. rewrite drop_0.
    rewrite app_assoc, take_app_ge by (rewrite length_app; unfold blen in *; lia).
    rewrite <- app_assoc, take_replicate. do 3 f_equal. rewrite length_app. unfold blen in *. lia. }
  split; [done|]. split; [done|]. split; [|done]. rewrite !blen_app, blen_replicate. lia.
Qed.

Lemma record_copy_ok r : short r -> rec_ok (record_copy r).
Proof.
  intros Hs. pose proof (len_dr_short r Hs) as [Hl Hm].
  destruct (record_copy_split r Hs) as (h & t & E & Hh & Hb & H0 & Hn & _).
  pose proof (blen_nonneg (dr_fi r)). rewrite E in *.
  split; rewrite ?byte_at_app_l by lia; unfold SECTOR_SIZE; lia.
Qed.

Lemma record_copy_fields r : short r ->
  rec_start (record_copy r) = u32 (dr_start r) /\ rec_length (record_copy r) = u32 (dr_length r) /\
  rec_flags (record_copy r) = fileFlags r /\ rec_name (record_copy r) = dr_fi r.
Proof.
  intros Hs. destruct (record_copy_split r Hs) as (h & t & E & Hh & Hb & H0 & Hn & Hf & H2 & H10).
  pose proof (blen_nonneg (dr_fi r)).
  unfold rec_start, rec_length, rec_flags, rec_name. rewrite E.
  rewrite !(slice_app_l _ _ h), H2, H10, !le_val_le_bytes by lia.
  rewrite !byte_at_app_l, Hf, Hn by lia. rewrite slice_app_r, Hh by lia.
  rewrite slice_app_l by lia. split; [done|]. split; [done|]. split; [done|]. apply slice_all.
Qed.

(** The records written so far. *)
Definition records_of (buf : bytes) (l : list (Z * bytes)) : Prop := chain_to buf 0 l (blen buf).

Lemma sector_align_bounds x :
  0 <= x < 2 ^ 62 -> x <= sector_align x < x + SECTOR_SIZE /\ sector_align x mod SECTOR_SIZE = 0 /\
  sector_align x = (x + SECTOR_MASK) / SECTOR_SIZE * SECTOR_SIZE.
Proof.
  intros. rewrite sector_align_div by (unfold SECTOR_MASK; lia).
  unfold SECTOR_MASK, SECTOR_SIZE. split; [|split]; [Z.to_euclidean_division_equations; lia| |done].
  apply Z_mod_mult.
Qed.

(** The place of a record is where a reader looks for it. *)
Lemma next_record_place buf d n :
  blen buf < 2 ^ 62 -> 0 < n < SECTOR_SIZE -> blen d = n -> byte_at 0 d <> 0 ->
  next_record (blen buf) (place buf n ++ d) = Some (blen (place buf n)).
Proof.
  intros Hbuf Hn Hd H0. pose proof (blen_nonneg buf) as Hb0. unfold place.
  destruct (Z.ltb_spec (blen buf / SECTOR_SIZE) ((blen buf + n) / SECTOR_SIZE)) as [Hlt|].
  - pose proof (sector_align_bounds (blen buf) ltac:(lia)) as (Ha & Hm & Hdiv).
    set (a := sector_align (blen buf)) in *.
    unfold next_record. rewrite !blen_app, blen_replicate, Z2Nat.id by lia.
    destruct (Z.leb_spec (blen buf + (a - blen buf) + blen d) (blen buf)); [lia|].
    destruct (Z.eq_dec a (blen buf)) as [Ea|Ea].
    + replace (blen buf + (a - blen buf)) with (blen buf) by lia. rewrite Ea, Z.sub_diag. cbn [Z.to_nat replicate].
      rewrite app_nil_r, byte_at_app_r, Z.sub_diag by lia.
      destruct (Z.eqb_spec (byte_at 0 d) 0); [done|]. done.
    + rewrite <- app_assoc, byte_at_app_r, Z.sub_diag, byte_at_app_l by (rewrite ?blen_replicate; lia).
      rewrite byte_at_zeros. cbn [Z.eqb negb].
      change SECTOR_MASK with (Z.ones 11). rewrite Z.land_ones by lia.
      assert (blen buf + (SECTOR_SIZE - blen buf mod 2 ^ 11) = a) as ->.
      { unfold SECTOR_SIZE, SECTOR_MASK in *. change (2 ^ 11) with 2048.
        Z.to_euclidean_division_equations. lia. }
      destruct (Z.leb_spec (blen buf + (a - blen buf) + blen d) a); [lia|]. cbn [orb].
      rewrite !byte_at_app_r by (rewrite ?blen_replicate; lia). rewrite blen_replicate, Z2Nat.id by lia.
      replace (a - blen buf - (a - blen buf)) with 0 by lia.
      destruct (Z.eqb_spec (byte_at 0 d) 0); [done|]. f_equal. lia.
  - unfold next_record. rewrite blen_app. destruct (Z.leb_spec (blen buf + blen d) (blen buf)); [lia|].
    rewrite byte_at_app_r, Z.sub_diag by lia. by destruct (Z.eqb_spec (byte_at 0 d) 0).
Qed.

Lemma add_record_spec buf l r buf' :
  records_of buf l -> short r -> blen buf < 2 ^ 62 -> add_record buf r = Some buf' ->
  exists o, records_of buf' (l ++ [(o, record_copy r)]) /\ blen buf' < TEMP_BUF_SIZE.
Proof.
  intros C Hs Hbuf. unfold add_record. pose proof (len_dr_short r Hs) as [Hl Hm].
  destruct (record_copy_split r Hs) as (h & t & Ec & Hh & Hb & H0 & _).
  pose proof (record_copy_ok r Hs) as Hok. pose proof Hok as [].
  pose proof (blen_nonneg (dr_fi r)). pose proof (blen_nonneg buf).
  destruct (Z.leb_spec TEMP_BUF_SIZE (blen (place buf (len_dr r)) + len_dr r)) as [|Hroom]; [done|].
  intros [= <-]. set (p := place buf (len_dr r)) in *. exists (blen p).
  assert (exists z, p = buf ++ z) as [z Ez].
  { unfold p, place. destruct (_ <? _); [by eexists|]. exists []. by rewrite app_nil_r. }
  split; [|rewrite blen_app; lia]. eapply chain_app.
  - eapply chain_ext; [done|exact C|rewrite Ez, !blen_app; blia|].
    intros q Hq. rewrite Ez, <- app_assoc. apply byte_at_app_l. lia.
  - replace (blen (p ++ record_copy r)) with (blen p + blen (record_copy r)) by (by rewrite blen_app).
    econstructor; [| |done|constructor].
    + apply next_record_place; [done|lia|done|]. rewrite ro_len0. lia.
    + rewrite slice_app_r, Z.sub_diag by lia. apply slice_all.
Qed.

(** The contents, filled up to whole sectors. *)
Lemma records_content buf l size :
  records_of buf l -> size = sector_align (blen buf) -> blen buf < 2 ^ 62 ->
  content_ok (buf ++ replicate (Z.to_nat (size - blen buf)) 0) l /\
  blen (buf ++ replicate (Z.to_nat (size - blen buf)) 0) = size.
Proof.
  intros C Hs Hb. pose proof (blen_nonneg buf).
  pose proof (sector_align_bounds (blen buf) ltac:(lia)) as (Ha & Hm & _). rewrite <- Hs in *.
  assert (blen (buf ++ replicate (Z.to_nat (size - blen buf)) 0) = size) as Hl
    by (rewrite blen_app, blen_replicate; lia).
  split; [|done]. split; [|by rewrite Hl]. exists (blen buf). split.
  - eapply chain_ext; [done|exact C|lia|]. intros q Hq. apply byte_at_app_l. lia.
  - unfold next_record. rewrite Hl. destruct (Z.leb_spec size (blen buf)); [done|].
    rewrite byte_at_app_r, byte_at_zeros by lia. cbn [Z.eqb negb].
    change SECTOR_MASK with (Z.ones 11). rewrite Z.land_ones by lia.
    assert (size <= blen buf + (SECTOR_SIZE - blen buf mod 2 ^ 11)) as Hge.
    { unfold SECTOR_SIZE in *. change (2 ^ 11) with 2048. Z.to_euclidean_division_equations. lia. }
    destruct (Z.leb_spec size (blen buf + (SECTOR_SIZE - blen buf mod 2 ^ 11))); [done|lia].
Qed.
