(* ===== verification/VIsoImage.v ===== *)
(** * Making a virtual image

    [build] (its second half), [write], [generate] and [open] of src/VIsoFile.cpp,
    the parsing of PARAM.SFO, and the class as an [AbstractFile].  The image's
    structures are laid out in the list of bytes [fsBuf]; a store is
    [overwrite]. *)

From S2P Require Import Prelude Endian CMem CString Os AbsFile FileIso VIso VIsoView.
From S2P Require Import VIsoNames VIsoTree VIsoDirs.

Section methods.
Context {W : Type} `{Posix W, VisoSys W}.
(** [dirs_max] bounds the directories that are walked; [st_uninit]: [statbuf]. *)
Variables (dirs_max : nat) (st_uninit : file_stat_t).
Implicit Types (v : VIsoFile) (w : W).

(** ** build *)

Definition with_tree (l : list DirList) (files dirs dirsJ : Z) v :=
  mkVIso (v_ps3Mode v) (vFilePtr v) (fsBuf v) (fsBufSize v) l files dirs dirsJ
    (pathTableL v) (pathTableM v) (pathTableJolietL v) (pathTableJolietM v)
    (pathTableSize v) (pathTableSizeJoliet v) (volumeSize v) (totalSize v)
    (padAreaStart v) (padAreaSize v) (v_st v).
Definition with_tables (l m jl jm : option bytes) (n nj : Z) v :=
  mkVIso (v_ps3Mode v) (vFilePtr v) (fsBuf v) (fsBufSize v) (rootList v) (filesSizeSectors v)
    (dirsSizeSectors v) (dirsSizeSectorsJoliet v) l m jl jm n nj (volumeSize v) (totalSize v)
    (padAreaStart v) (padAreaSize v) (v_st v).

Definition fix_dir (isoLba jolietLba filesLba : Z) (d : DirList) : DirList :=
  mkDirList (dl_path d) (path_len d) (full_len d)
    (fixDirLba isoLba filesLba <$> content d) (fixDirLba jolietLba filesLba <$> contentJoliet d)
    (idx d) (fileList d) (parent d) (children d).

Definition fixLba (isoLba jolietLba filesLba : Z) v : VIsoFile :=
  let v := with_tree (fix_dir isoLba jolietLba filesLba <$> rootList v) (filesSizeSectors v)
             (dirsSizeSectors v) (dirsSizeSectorsJoliet v) v in
  with_tables (fixPathTableLba isoLba false <$> pathTableL v)
    (fixPathTableLba isoLba true <$> pathTableM v)
    (fixPathTableLba jolietLba false <$> pathTableJolietL v)
    (fixPathTableLba jolietLba true <$> pathTableJolietM v)
    (pathTableSize v) (pathTableSizeJoliet v) v.

(** The sectors before the contents of the directories. *)
Definition tables_end (n nj : Z) : Z := 20 + bytesToSectors n * 2 + bytesToSectors nj * 2.

(** The path tables, and the positions they and the contents have to be given. *)
Definition build_tables v : option (bool * VIsoFile) :=
  let dl := rootList v in
  let? l := buildPathTable false false dl in
  let? m := buildPathTable true false dl in
  let? jl := buildPathTable false true dl in
  let? jm := buildPathTable true true dl in
  match l, m, jl, jm with
  | Some l, Some m, Some jl, Some jm =>
      let v := with_tables (Some l) (Some m) (Some jl) (Some jm) (blen m) (blen jm) v in
      let isoLba := u32 (tables_end (blen m) (blen jm)) in
      let jolietLba := u32 (isoLba + dirsSizeSectors v) in
      let filesLba := u32 (jolietLba + dirsSizeSectorsJoliet v) in
      Some (true, fixLba isoLba jolietLba filesLba v)
  | _, _, _, _ => Some (false, reset v)
  end.

Definition build (inDir : bytes) v w : option (bool * VIsoFile * W) :=
  if u16 (blen inDir) <? 1 then Some (false, v, w)
  else
    let? root := root_dir inDir in
    let? (ok, dl, w) := scan_dirs dirs_max [] [root] w in
    if negb ok then
      Some (false, with_tree dl (filesSizeSectors v) (dirsSizeSectors v) (dirsSizeSectorsJoliet v) v, w)
    else
      let? (ok, dl, files, w) := scan_files st_uninit [] dl (filesSizeSectors v) w in
      if negb ok then
        Some (false, with_tree dl files (dirsSizeSectors v) (dirsSizeSectorsJoliet v) v, w)
      else
        let n := length dl in
        let? (ok, dl, dirs, w) := build_contents st_uninit n false 0 dl (dirsSizeSectors v) w in
        if negb ok then Some (false, with_tree dl files dirs (dirsSizeSectorsJoliet v) v, w)
        else
          let? (ok, dl, dirsJ, w) := build_contents st_uninit n true 0 dl (dirsSizeSectorsJoliet v) w in
          let v := with_tree dl files dirs dirsJ v in
          if negb ok then Some (false, v, w)
          else let? (ok, v) := build_tables v in Some (ok, v, w).

(** ** write *)

Definition spaces (n : nat) : bytes := replicate n 32.
Definition zeros (n : nat) : bytes := replicate n 0.
(** [strncpy(d, s, n)] *)
Definition strncpy (n : nat) (s : bytes) : bytes := let s := take n (cstr s) in s ++ zeros (n - length s).

(** Seventeen characters: the date in decimal and a zero. *)
Definition genIso9660TimePvd (t : Z) : bytes :=
  let x := sys_localtime t in
  let year := tm_year x + 1900 in
  let month := tm_mon x + 1 in
  let v0 := Z.land (year / 1000) 0xF in
  let v1 := Z.land ((year - v0 * 1000) / 100) 0xF in
  let v2 := Z.land ((year - v0 * 1000 - v1 * 100) / 10) 0xF in
  ((fun c => c + 48) <$>
    [v0; v1; v2; year mod 10; (if 10 <=? month then 1 else 0); month mod 10;
     Z.land (tm_mday x / 10) 0xF; tm_mday x mod 10; Z.land (tm_hour x / 10) 0xF; tm_hour x mod 10;
     Z.land (tm_min x / 10) 0xF; tm_min x mod 10; Z.land (tm_sec x / 10) 0xF; tm_sec x mod 10; 0; 0])
  ++ [0].

(** [Iso9660PVD]: the members in order.  [fill] is what the identifiers that are
    not used are filled with. *)
Definition volume_descriptor (type : Z) (system volume escape : bytes) (fill : Z)
    (size table_size table_l table_m : Z) (root creation : bytes) : bytes :=
  let ids n := replicate n fill in
  let date := replicate 16 48 ++ [0] in
  [type] ++ str "CD001" ++ [1; 0] ++ system ++ volume ++ zeros 8 ++ both32 size ++ escape
  ++ le_bytes 2 1 ++ be_bytes 2 1 ++ le_bytes 2 1 ++ be_bytes 2 1 ++ le_bytes 2 2048 ++ be_bytes 2 2048
  ++ both32 table_size ++ le_bytes 4 table_l ++ zeros 4 ++ be_bytes 4 table_m ++ zeros 4
  ++ [34] ++ slice 1 33 root
  ++ (volume ++ ids 96%nat) ++ ids 128%nat ++ ids 128%nat ++ ids 128%nat
  ++ ids 37%nat ++ ids 37%nat ++ ids 37%nat
  ++ creation ++ date ++ date ++ date ++ [1; 0] ++ zeros 512 ++ zeros 653.

(** The volume's name in upper case, filled with spaces, and in UCS-2. *)
Definition iso_volume (name : bytes) : bytes :=
  let s := strncpy_upper 32 name in s ++ spaces (32 - length s).
Definition joliet_volume (name : bytes) : option bytes :=
  let? l := utf8_to_ucs2 16 (name ++ [0]) in
  let b := ucs2_bytes l in Some (b ++ zeros (32 - length b)).

(** [get_rand]: without /dev/urandom it reads from a null stream. *)
Definition get_rand (n : Z) w : option (bytes * W) :=
  let '(r, w) := sys_urandom n w in let? d := r in Some (slice 0 n d, w).

(** Sectors 0 and 1 of a PS3 disc. *)
Definition write_ps3 (volume_size : Z) (gameCode fs : bytes) w : option (bytes * W) :=
  let fs := overwrite 0 (be_bytes 4 1 ++ zeros 4 ++ be_bytes 4 0 ++ be_bytes 4 (u32 (volume_size - 1))) fs in
  let product := slice 0 4 gameCode ++ [45] ++ strncpy 5 (drop 4 gameCode) ++ spaces 22 in
  let fs := overwrite 0x800 (str "PlayStation3" ++ [0]) fs in
  let fs := overwrite 0x810 product fs in
  let? (info, w) := get_rand 0x1B0 w in
  let fs := overwrite 0x840 info fs in
  let? (hash, w) := get_rand 0x10 w in
  Some (overwrite 0x9F0 hash fs, w).

(** Both volume descriptors and the sectors after them. *)
Definition write_descriptors (t : Z) (volumeName : bytes) (root rootJ : bytes) v (fs : bytes)
    : option bytes :=
  let n := bytesToSectors (pathTableSize v) in
  let nj := bytesToSectors (pathTableSizeJoliet v) in
  let fs := overwrite 0x8000 (volume_descriptor 1 (spaces 32) (iso_volume volumeName) (zeros 32) 32
    (volumeSize v) (pathTableSize v) 20 (20 + n) root (genIso9660TimePvd t)) fs in
  let? name := joliet_volume volumeName in
  let fs := overwrite 0x8800 (volume_descriptor 2 (zeros 32) name (str "%/@" ++ zeros 29) 0
    (volumeSize v) (pathTableSizeJoliet v) (20 + n * 2) (20 + n * 2 + nj) rootJ
    (genIso9660TimePvd t)) fs in
  let fs := overwrite 0x9000 ([0xFF] ++ str "CD001" ++ zeros 2042) fs in
  Some (overwrite 0x9800 (zeros 2048) fs).

(** [_memcpy(p, d, n); p += n;] for each. *)
Fixpoint write_all (p : Z) (l : list bytes) (fs : bytes) : Z * bytes :=
  match l with
  | [] => (p, fs)
  | d :: l => write_all (p + blen d) l (overwrite p d fs)
  end.

Definition write (volumeName gameCode : bytes) v w : option (VIsoFile * W) :=
  let '(t, w) := sys_time w in
  let fs := zeros (Z.to_nat (fsBufSize v)) in
  let? (fs, w) := if v_ps3Mode v then write_ps3 (volumeSize v) gameCode fs w else Some (fs, w) in
  let? root := mjoin (content <$> head (rootList v)) in
  let? rootJ := mjoin (contentJoliet <$> head (rootList v)) in
  let? fs := write_descriptors t volumeName root rootJ v fs in
  let n := bytesToSectors (pathTableSize v) * SECTOR_SIZE in
  let nj := bytesToSectors (pathTableSizeJoliet v) * SECTOR_SIZE in
  let? l := pathTableL v in
  let? m := pathTableM v in
  let? jl := pathTableJolietL v in
  let? jm := pathTableJolietM v in
  let fs := overwrite 0xA000 l fs in
  let fs := overwrite (0xA000 + n) m fs in
  let fs := overwrite (0xA000 + n * 2) jl fs in
  let fs := overwrite (0xA000 + n * 2 + nj) jm fs in
  let? contents := mapM content (rootList v) in
  let? contentsJ := mapM contentJoliet (rootList v) in
  let '(p, fs) := write_all (0xA000 + n * 2 + nj * 2) contents fs in
  let '(_, fs) := write_all p contentsJ fs in
  let v := with_tables None None None None (pathTableSize v) (pathTableSizeJoliet v) v in
  Some (mkVIso (v_ps3Mode v) (vFilePtr v) (Some (zext fs)) (fsBufSize v) (rootList v)
          (filesSizeSectors v) (dirsSizeSectors v) (dirsSizeSectorsJoliet v) None None None None
          (pathTableSize v) (pathTableSizeJoliet v) (volumeSize v) (totalSize v)
          (padAreaStart v) (padAreaSize v) (v_st v), w).

(** ** generate *)

(** The sizes of the image; [padSectors] makes the volume a multiple of 32
    sectors, with at least 32 of padding. *)
Definition layout v : VIsoFile :=
  let sectors := u64 (tables_end (pathTableSize v) (pathTableSizeJoliet v) +
                      dirsSizeSectors v + dirsSizeSectorsJoliet v) in
  let volume := u32 (sectors + filesSizeSectors v) in
  let low := Z.land volume 0x1F in
  let padSectors := 0x20 + (if low =? 0 then 0 else 0x20 - low) in
  let size := u32 (volume + padSectors) in
  mkVIso (v_ps3Mode v) (vFilePtr v) (fsBuf v) (u64 (sectors * SECTOR_SIZE)) (rootList v)
    (filesSizeSectors v) (dirsSizeSectors v) (dirsSizeSectorsJoliet v)
    (pathTableL v) (pathTableM v) (pathTableJolietL v) (pathTableJolietM v)
    (pathTableSize v) (pathTableSizeJoliet v) size (size * SECTOR_SIZE)
    (volume * SECTOR_SIZE) (padSectors * SECTOR_SIZE) (v_st v).

Definition with_st st v := mkVIso (v_ps3Mode v) (vFilePtr v) (fsBuf v) (fsBufSize v) (rootList v)
  (filesSizeSectors v) (dirsSizeSectors v) (dirsSizeSectorsJoliet v) (pathTableL v) (pathTableM v)
  (pathTableJolietL v) (pathTableJolietM v) (pathTableSize v) (pathTableSizeJoliet v)
  (volumeSize v) (totalSize v) (padAreaStart v) (padAreaSize v) st.

(** The [return FAILED] of this function, -1, is [true]. *)
Definition generate (inDir volumeName gameCode : bytes) v w : option (bool * VIsoFile * W) :=
  let '(r, st, w) := stat_file (Some inDir) (v_st v) w in
  let v := with_st st v in
  if negb (r =? SUCCEEDED) then Some (true, v, w)
  else
    let? (ok, v, w) := build inDir v w in
    if negb ok then Some (false, v, w)
    else let? (v, w) := write volumeName gameCode (layout v) w in Some (true, v, w).

(** ** PARAM.SFO *)

(** The keys from [str] on; [pos] is the value of the current one.  The inner
    [None]: not found. *)
Fixpoint find_field (fuel : nat) (mem : bytes) (len sfo_str pos indx : Z) (field : bytes)
    : option (option Z) :=
  match fuel with
  | O => None
  | S fuel =>
      if len <=? sfo_str then Some None
      else if byte_at sfo_str mem =? 0 then Some None
      else
        let key := cstr (drop (Z.to_nat sfo_str) mem) in
        if bytes_eqb key field then Some (if len <=? pos then None else Some pos)
        else if len + 16 <=? 0x1d + indx then None
        else
          find_field fuel mem len (sfo_str + blen key + 1)
            (u32 (pos + byte_at (0x1c + indx) mem + Z.shiftl (byte_at (0x1d + indx) mem) 8))
            (indx + 16) field
  end.

(** The value of [field] in the file behind [d], which is closed. *)
Definition parse_param_sfo (d : Z) (field : bytes) (field_len : nat) w : option (option bytes * W) :=
  let '(r, w) := seek_file d 0 SEEK_END w in
  let len := u32 r in
  let '(ok, w) := sys_malloc (len + 16) w in
  if negb ok then let '(_, w) := close_file d w in Some (None, w)
  else
    let '(_, w) := seek_file d 0 SEEK_SET w in
    let '(_, m, w) := read_file d (zext []) 0 len w in
    let '(_, w) := close_file d w in
    let mem := mload m 0 (len + 16) in
    let word o := byte_at o mem + Z.shiftl (byte_at (o + 1) mem) 8 in
    let? r := find_field (S (Z.to_nat len)) mem len (word 0x8) (word 0xc) 0 field in
    Some ((fun pos => strncpy field_len (drop (Z.to_nat pos) mem)) <$> r, w).

Definition get_title_id (dir : bytes) w : option (option bytes * W) :=
  let sfo_path := take 2046 (dir ++ str "/PS3_GAME/PARAM.SFO") in
  let '(d, w) := open_file (Some sfo_path) O_RDONLY w in
  if negb (FD_OK d) then Some (None, w)
  else parse_param_sfo d (str "TITLE_ID") 10 w.

(** ** open *)

(** [snprintf(volumeName, 32, "%s", dn)] of the path's last component. *)
Definition volume_name (path : bytes) : bytes :=
  let dn := match strrchr path 47 with Some o => drop (Z.to_nat (o + 1)) path | None => path end in
  take 31 dn.

Definition VIso_open (path : option bytes) (flags : Z) v w : option (Z * VIsoFile * W) :=
  match path with
  | None => Some (FAILED, v, w)
  | Some path =>
      if negb (flags =? O_RDONLY) then Some (FAILED, v, w)
      else
        let v := match fsBuf v with Some _ => (VIso_close v).2 | None => v end in
        let '(r, st, w) := stat_file (Some path) (v_st v) w in
        let v := with_st st v in
        if negb (r =? SUCCEEDED) then Some (FAILED, v, w)
        else if negb (is_dir st) then Some (FAILED, v, w)
        else
          let? (names, w) :=
            if v_ps3Mode v then
              let? (id, w) := get_title_id path w in
              Some ((fun id => (str "PS3VOLUME", id)) <$> id, w)
            else Some (Some (volume_name path, []), w) in
          match names with
          | None => Some (FAILED, v, w)
          | Some (volumeName, gameCode) =>
              let? (ok, v, w) := generate path volumeName gameCode v w in
              Some (if ok then SUCCEEDED else FAILED, v, w)
          end
  end.

#[export] Instance VIso_AbstractFile : AbstractFile VIsoFile W := {
  af_open := VIso_open;
  af_close v w := let '(r, v) := VIso_close v in (r, v, w);
  af_read := VIso_read;
  af_write := VIso_write;
  af_seek := VIso_seek;
  af_fstat := VIso_fstat;
  supportsBulkRead _ := true;
  af_delete _ w := w;
}.
End methods.

#[export] Instance VIso_AbstractFileView {W} `{PosixView W} : AbstractFileView VIsoFile W := {
  af_view := VIso_view;
}.

(** A virtual image keeps the promises of the interface. *)
#[export] Instance VIso_AbstractFileLaws {W} `{PosixLaws W, !VisoSys W} dirs_max st_uninit :
  AbstractFileLaws (H := VIso_AbstractFile dirs_max st_uninit) VIsoFile W.
Proof.
  split; cbn.
  - apply VIso_view_bounds.
  - intros v w w' K. apply VIso_view_frame, K.
  - intros v w c p off Hv Hoff. destruct (seek_view v w c p off Hv) as (v' & -> & Hs); [lia|].
    do 3 eexists. split; [done|]. split; [auto with netsrv|]. split; [done|]. left.
    split; [lia|apply Hs; lia].
  - intros v w c p off Hv Hoff. destruct (seek_view v w c p off Hv) as (v' & -> & _); [lia|].
    do 3 eexists. split; [done|]. split; [auto with netsrv|lia].
  - intros v w c p m o n Hv Hn. destruct (VIso_read_ok v w c p m o n Hv Hn) as (m' & v' & w' & -> & U & ? & ? & ?).
    do 4 eexists. split; [done|]. split; [apply U|]. split; [done|]. split; [split; [apply blen_nonneg|done]|].
    pose proof (afl_pos := VIso_view_bounds v w c p Hv). rewrite slice_blen by lia. done.
  - intros v w c p st Hv. destruct (viso_fstat_view v w c p st Hv) as (st' & -> & ?).
    do 3 eexists. split; [done|]. split; [auto with netsrv|]. done.
Qed.
