(* ===== verification/VIso2Tree.v ===== *)
(** * The scan of VIsoFile2.cpp

    VIsoFile2::build walks the directories as VIsoFile::build does, but with one
    flag [error] for the whole function instead of one for each directory: it is
    raised before the file of an entry is looked at and lowered when that went
    well, and what is left of a list is only freed once it is raised.  The two
    walks are proved equal: the flag never outlives the directory that raised
    it.  The functions that [build] calls have the same text in both files, and
    are those of VIsoTree.v, VIsoDirs.v and VIsoImage.v. *)

From S2P Require Import Prelude Endian CMem CString Os AbsFile FileIso VIso VIsoView.
From S2P Require Import VIsoNames VIsoTree VIsoDirs VIsoImage.

(** ** Directories *)

(** The entries of one directory, appended to its list; [new] does not give NULL,
    so [error] is as it was. *)
Fixpoint new_dirs2 (error : bool) (d : DirList) (k : nat) (i : nat) (dirs : list dirent)
    : option (list DirList) :=
  match dirs with
  | [] => Some []
  | e :: dirs =>
      if error then new_dirs2 error d k i dirs
      else let? x := new_dir d k i e in let? l := new_dirs2 error d k (S i) dirs in Some (x :: l)
  end.

Section build.
Context {W : Type} `{Posix W, VisoSys W}.
Variables (dirs_max : nat) (st_uninit : file_stat_t).
Implicit Types (w : W) (d : DirList) (v : VIsoFile).

Fixpoint scan_dirs2 (fuel : nat) (error : bool) (seen todo : list DirList) w
    : option (bool * list DirList * W) :=
  match todo with
  | [] => Some (true, seen, w)
  | d :: todo =>
      match fuel with
      | O => None
      | S fuel =>
          let '(r, w) := sys_scandir (dl_path d) select_directories w in
          match r with
          | None => Some (false, seen ++ d :: todo, w)
          | Some dirs =>
              let n := length (seen ++ d :: todo) in
              let? new := new_dirs2 error d (length seen) n dirs in
              scan_dirs2 fuel error (seen ++ [with_children (seq n (length new)) d]) (todo ++ new) w
          end
      end
  end.

(** ** Files *)

(** [for (int i = 0; i < count; i++)]: the flag, the list and the sectors used. *)
Fixpoint add_files2 (error : bool) (dlen : Z) (dir : bytes) (i : nat) (files : list dirent)
    (fl : list FileList) (sectors : Z) w : option (bool * list FileList * Z * W) :=
  match files with
  | [] => Some (error, fl, sectors, w)
  | e :: files =>
      if error then add_files2 error dlen dir (S i) files fl sectors w
      else
        let flen := u16 (blen (d_name e)) in
        let multi := multipart_digits (d_name e) in
        if match multi with Some (x, y) => negb ((x =? 48) && (y =? 48)) | None => false end then
          add_files2 error dlen dir (S i) files fl sectors w
        else if negb (i =? 0)%nat && match fl with [] => true | _ => false end then None
        else
          let error := true in
          let? path := createPath dlen dir flen (d_name e) in
          let '(ok, size, path, w) :=
            getFileSizeAndProcessMultipart path (isSome multi) (u16 (dlen + flen)) st_uninit w in
          let fl := fl ++ [mkFileList path dlen flen sectors size (isSome multi)] in
          let sectors := if ok then u32 (sectors + bytesToSectors size) else sectors in
          let error := if ok then false else error in
          add_files2 error dlen dir (S i) files fl sectors w
  end.

Fixpoint scan_files2 (error : bool) (seen todo : list DirList) (sectors : Z) w
    : option (bool * list DirList * Z * W) :=
  match todo with
  | [] => Some (true, seen, sectors, w)
  | d :: todo =>
      let '(r, w) := sys_scandir (dl_path d) select_files w in
      let? files := r in
      let? (error, fl, sectors, w) := add_files2 error (full_len d) (dl_path d) 0 files [] sectors w in
      let d := with_fileList fl d in
      if error then Some (false, seen ++ d :: todo, sectors, w)
      else scan_files2 error (seen ++ [d]) todo sectors w
  end.

(** ** build, generate *)

Definition build2 (inDir : bytes) v w : option (bool * VIsoFile * W) :=
  if u16 (blen inDir) <? 1 then Some (false, v, w)
  else
    let? root := root_dir inDir in
    let error := false in
    let? (ok, dl, w) := scan_dirs2 dirs_max error [] [root] w in
    if negb ok then
      Some (false, with_tree dl (filesSizeSectors v) (dirsSizeSectors v) (dirsSizeSectorsJoliet v) v, w)
    else
      let? (ok, dl, files, w) := scan_files2 error [] dl (filesSizeSectors v) w in
      if negb ok then
        Some (false, with_tree dl files (dirsSizeSectors v) (dirsSizeSectorsJoliet v) v, w)
      else
        let n := length dl in
        let? (ok, dl, dirs, w) := build_contents st_uninit n false 0 dl (dirsSizeSectors v) w in
        if negb ok then Some (false, with_tree dl files dirs (dirsSizeSectorsJoliet v) v, w)
        else
          let? (ok, dl, dirsJ, w) := build_contents st_uninit n true 0 dl (dirsSizeSectorsJoliet v) w in
          let v := with_tree dl files dirs dirsJ v in
          if negb ok then Some (false, v, w)
          else let? (ok, v) := build_tables v in Some (ok, v, w).

Definition generate2 (inDir volumeName gameCode : bytes) v w : option (bool * VIsoFile * W) :=
  let '(r, st, w) := stat_file (Some inDir) (v_st v) w in
  let v := with_st st v in
  if negb (r =? SUCCEEDED) then Some (true, v, w)
  else
    let? (ok, v, w) := build2 inDir v w in
    if negb ok then Some (false, v, w)
    else let? (v, w) := write volumeName gameCode (layout v) w in Some (true, v, w).

(** ** The two walks *)

Lemma new_dirs2_eq d k i dirs : new_dirs2 false d k i dirs = new_dirs d k i dirs.
Proof. revert i. induction dirs as [|e dirs IH]; intros i; cbn; [done|]. by rewrite IH. Qed.

Lemma scan_dirs2_eq fuel seen todo w : scan_dirs2 fuel false seen todo w = scan_dirs fuel seen todo w.
Proof.
  revert seen todo w. induction fuel as [|fuel IH]; intros seen [|d todo] w; cbn; [done..|].
  destruct (sys_scandir _ _ w) as [[dirs|] w1]; [|done]. rewrite new_dirs2_eq.
  destruct (new_dirs _ _ _ dirs); [|done]. apply IH.
Qed.

(** Once the flag is up, the rest of the entries is passed over. *)
Lemma add_files2_error dlen dir i files fl sectors w :
  add_files2 true dlen dir i files fl sectors w = Some (true, fl, sectors, w).
Proof. revert i. induction files as [|e files IH]; intros i; cbn; [done|apply IH]. Qed.

Lemma add_files2_eq dlen dir i files fl sectors w :
  add_files2 false dlen dir i files fl sectors w =
    let? (ok, fl, sectors, w) := add_files st_uninit dlen dir i files fl sectors w in
    Some (negb ok, fl, sectors, w).
Proof.
  revert i fl sectors w. induction files as [|e files IH]; intros i fl sectors w; cbn [add_files2 add_files]; [done|].
  cbv zeta. destruct (match multipart_digits _ with Some _ => _ | None => _ end); [apply IH|].
  destruct (_ && _); [done|]. destruct (createPath _ _ _ _) as [path|]; [|done].
  destruct (getFileSizeAndProcessMultipart _ _ _ _ w) as [[[[] size] path'] w1]; [apply IH|apply add_files2_error].
Qed.

Lemma scan_files2_eq seen todo sectors w :
  scan_files2 false seen todo sectors w = scan_files st_uninit seen todo sectors w.
Proof.
  revert seen sectors w. induction todo as [|d todo IH]; intros seen sectors w; cbn [scan_files2 scan_files]; [done|].
  destruct (sys_scandir _ _ w) as [[files|] w1]; [|done]. rewrite add_files2_eq.
  destruct (add_files _ _ _ _ _ _ _ w1) as [[[[[] fl] n] w2]|]; [apply IH|done..].
Qed.

Lemma build2_eq inDir v w : build2 inDir v w = build dirs_max st_uninit inDir v w.
Proof.
  unfold build2, build. cbv zeta. destruct (_ <? 1); [done|]. destruct (root_dir inDir) as [root|]; [|done].
  rewrite scan_dirs2_eq. destruct (scan_dirs _ _ _ w) as [[[[] dl] w1]|]; [|done..]. cbn [negb].
  by rewrite scan_files2_eq.
Qed.

Lemma generate2_eq inDir volumeName gameCode v w :
  generate2 inDir volumeName gameCode v w = generate dirs_max st_uninit inDir volumeName gameCode v w.
Proof.
  unfold generate2, generate. destruct (stat_file _ _ w) as [[r st] w1]. cbv zeta.
  by rewrite build2_eq.
Qed.
End build.
