(* ===== verification/VIso2.v ===== *)
(** * VIsoFile2.cpp: a virtual image that keeps its last file open

    The class is that of VIsoFile.cpp, with two more members: the descriptor of
    the file that was read last, and the path it was opened with.  A read of the
    same file uses the descriptor again; a read of another file, an error, [close]
    and the destructor close it.  The scan is that
    of VIso2Tree.v; the structures and the walk of [read] are the ones of VIso.v to
    VIsoImage.v: the text is the same in both files. *)

From S2P Require Import Prelude CString Os AbsFile FileIso VIso VIsoView VIsoTree VIsoImage VIso2Tree.

(** [fd] and [lastPath].  The code compares the pointers of paths; every file of
    the image has a path of its own, so that the pointer is the position of the
    file in the list of all files.  [fd] is 0 while nothing is open. *)
Record cache := mkCache {
  v_fd : Z;
  lastPath : option nat;
}.

Definition no_cache : cache := mkCache 0 None.

Record VIsoFile2 := mkVIso2 {
  image : VIsoFile;
  cached : cache;
}.

Definition VIsoFile2_ctor (this : VIsoFile) (ps3 : bool) : VIsoFile2 :=
  mkVIso2 (VIsoFile_ctor this ps3) no_cache.

Section class.
Context {W : Type} `{Posix W}.
Implicit Types (k : cache) (c : cursor) (v : VIsoFile2) (w : W).

(** Descriptor 0 is never closed. *)
Definition fd_reset k w : cache * W :=
  let w := if negb (v_fd k =? 0) && FD_OK (v_fd k) then snd (close_file (v_fd k) w) else w in
  (no_cache, w).

Definition reset2 v w : VIsoFile2 * W :=
  let '(k, w) := fd_reset (cached v) w in (mkVIso2 (reset (image v)) k, w).

(** [if(lastPath != fileList->path)]: the boolean says whether a file is open. *)
Definition open_cached (i : nat) (f : FileList) k w : bool * cache * W :=
  if decide (lastPath k = Some i) then (true, k, w)
  else
    let '(_, w) := fd_reset k w in
    let '(d, w) := open_file (Some (fl_path f)) O_RDONLY w in
    let k := mkCache d (Some i) in
    if negb (FD_OK d) then let '(k, w) := fd_reset k w in (false, k, w)
    else (true, k, w).

Definition read_data2 (i : nat) (f : FileList) (fStart : Z) c (s : cache * W)
    : bool * cursor * (cache * W) :=
  let '(k, w) := s in
  let '(ok, k, w) := open_cached i f k w in
  if negb ok then (true, c, (k, w))
  else
    let to_read := Z.min (u64 (fl_size f - (c_pos c - fStart))) (remaining c) in
    let '(_, w) := seek_file (v_fd k) (c_pos c - fStart) SEEK_SET w in
    let '(this_r, m, w) := read_file (v_fd k) (c_buf c) (c_p c) to_read w in
    let c := with_buf m c in
    if this_r <? 0 then (true, c, fd_reset k w)
    else if negb (this_r =? to_read) then (true, c, fd_reset k w)
    else (false, advance to_read c, (k, w)).

Definition VIso2_close v w : Z * VIsoFile2 * W :=
  match fsBuf (image v) with
  | None => (FAILED, v, w)
  | Some _ => let '(v, w) := reset2 v w in (SUCCEEDED, v, w)
  end.

(** [~VIsoFile]: close() and reset(). *)
Definition VIso2_delete v w : W :=
  let '(_, v, w) := VIso2_close v w in snd (reset2 v w).

Definition VIso2_read (m : mem) (o nbyte : Z) v w : Z * mem * VIsoFile2 * W :=
  let failed :=
    let '(k, w) := fd_reset (cached v) w in (FAILED, m, mkVIso2 (image v) k, w) in
  match fsBuf (image v) with
  | None => failed
  | Some fs =>
      if (totalSize (image v) <=? vFilePtr (image v)) || (nbyte =? 0) then (SUCCEEDED, m, v, w)
      else if vFilePtr (image v) <? 0 then failed
      else
        let '(r, m, x, (k, w)) := read_image read_data2 fs m o nbyte (image v) (cached v, w) in
        (r, m, mkVIso2 x k, w)
  end.

Definition VIso2_write (buf : bytes) v w : Z * VIsoFile2 * W := (FAILED, v, w).

Definition VIso2_seek (offset whence : Z) v w : Z * VIsoFile2 * W :=
  let '(r, x, w) := VIso_seek offset whence (image v) w in (r, mkVIso2 x (cached v), w).

Definition VIso2_fstat (fs : file_stat_t) v w : Z * file_stat_t * VIsoFile2 * W :=
  let '(r, fs, x, w) := VIso_fstat fs (image v) w in (r, fs, mkVIso2 x (cached v), w).
End class.

Section methods.
Context {W : Type} `{Posix W, VisoSys W}.
Variables (dirs_max : nat) (st_uninit : file_stat_t).

(** An image that is open is closed first, and its file with it. *)
Definition VIso2_open (path : option bytes) (flags : Z) (v : VIsoFile2) (w : W)
    : option (Z * VIsoFile2 * W) :=
  match path with
  | None => Some (FAILED, v, w)
  | Some path =>
      if negb (flags =? O_RDONLY) then Some (FAILED, v, w)
      else
        let '(v, w) :=
          match fsBuf (image v) with Some _ => let '(_, v, w) := VIso2_close v w in (v, w) | None => (v, w) end in
        let with_image x := mkVIso2 x (cached v) in
        let '(r, st, w) := stat_file (Some path) (v_st (image v)) w in
        let x := with_st st (image v) in
        if negb (r =? SUCCEEDED) then Some (FAILED, with_image x, w)
        else if negb (is_dir st) then Some (FAILED, with_image x, w)
        else
          let? (names, w) :=
            if v_ps3Mode x then
              let? (id, w) := get_title_id path w in
              Some ((fun id => (str "PS3VOLUME", id)) <$> id, w)
            else Some (Some (volume_name path, []), w) in
          match names with
          | None => Some (FAILED, with_image x, w)
          | Some (volumeName, gameCode) =>
              let? (ok, x, w) := generate2 dirs_max st_uninit path volumeName gameCode x w in
              Some (if ok then SUCCEEDED else FAILED, with_image x, w)
          end
  end.

#[export] Instance VIso2_AbstractFile : AbstractFile VIsoFile2 W := {
  af_open := VIso2_open;
  af_close := VIso2_close;
  af_read := VIso2_read;
  af_write := VIso2_write;
  af_seek := VIso2_seek;
  af_fstat := VIso2_fstat;
  supportsBulkRead _ := true;
  af_delete := VIso2_delete;
}.

(** What it does to the image is what VIsoFile does. *)
Lemma VIso2_open_eq path flags v w :
  VIso2_open path flags v w =
    let '(k, w) :=
      match path, fsBuf (image v) with
      | Some _, Some _ => if flags =? O_RDONLY then fd_reset (cached v) w else (cached v, w)
      | _, _ => (cached v, w)
      end in
    let? (r, x, w) := VIso_open dirs_max st_uninit path flags (image v) w in
    Some (r, mkVIso2 x k, w).
Proof.
  destruct v as [x k]. unfold VIso2_open, VIso_open, VIso2_close, VIso_close, reset2. cbn [image cached].
  destruct path as [path|]; [|by destruct (fsBuf x)].
  destruct (flags =? O_RDONLY); cbn [negb]; [|by destruct (fsBuf x)].
  destruct (fsBuf x); [destruct (fd_reset k w) as [k1 w1]|]; cbn [image cached snd];
    destruct (stat_file _ _ _) as [[r st] w2]; cbv zeta;
    (destruct (negb (r =? SUCCEEDED)); [done|]); (destruct (negb (is_dir st)); [done|]);
    (destruct (if v_ps3Mode _ then _ else _) as [[[[name code]|] w3]|]; [|done..]);
    rewrite generate2_eq; by destruct (generate _ _ _ _ _ _ w3) as [[[ok y] w4]|].
Qed.
End methods.
