(* ===== verification/VIsoBuild.v ===== *)
(** * Building the tree: what the steps keep

    Making an image only reads: files and connections stay as they are ([calm]).
    Every file gets the sectors after those of the file before it. *)

From S2P Require Import Prelude Endian CMem CString Os AbsFile FileIso VIso VIsoView.
From S2P Require Import VIsoNames VIsoTree VIsoDirs VIsoImage.

Create HintDb calm.

(** Take a successful run of a computation apart. *)
Lemma bind_Some {W A B} (m : io W A) (f : A -> io W B) w y w' :
  (m ≫= f) w = Some (Some y, w') ->
  exists x w1, m w = Some (Some x, w1) /\ f x w1 = Some (Some y, w').
Proof.
  unfold mbind, io_bind. destruct (m w) as [[[x|] w1]|]; [|done..]. eauto.
Qed.

Lemma ret_Some {W A} (x y : A) (w w' : W) :
  (mret x : io W A) w = Some (Some y, w') -> x = y /\ w = w'.
Proof. by intros [= -> ->]. Qed.

Lemma defined_Some {W A} (x : option A) y (w w' : W) :
  defined x w = Some (Some y, w') -> x = Some y /\ w = w'.
Proof. destruct x; [|done]. by intros [= -> ->]. Qed.

Lemma or_fail_Some {W A} (x : option A) y (w w' : W) :
  or_fail x w = Some (Some y, w') -> x = Some y /\ w = w'.
Proof. destruct x; [|done]. by intros [= -> ->]. Qed.

Ltac io_inv H :=
  repeat (
    let x := fresh "x" in let w := fresh "w" in let E := fresh "E" in
    apply bind_Some in H as (x & w & E & H);
    first [ apply defined_Some in E as [E ->] | apply or_fail_Some in E as [E ->] | idtac ]);
  try (apply ret_Some in H as [H ->]).

(** The relations that the calls of [build] respect. *)
Class Idle {W} `{Posix W, VisoSys W} (Q : relation W) : Prop := {
  idle_refl w : Q w w;
  idle_trans w1 w2 w3 : Q w1 w2 -> Q w2 w3 -> Q w1 w3;
  idle_stat p w r st w' : sys_stat p w = (r, st, w') -> Q w w';
  idle_scandir p f w r w' : sys_scandir p f w = (r, w') -> Q w w';
  idle_time w r w' : sys_time w = (r, w') -> Q w w';
  idle_urandom n w r w' : sys_urandom n w = (r, w') -> Q w w';
}.

Section undisturbed.
Context {W : Type} `{PosixLaws W, !VisoSys W, !VisoView W, !VisoSysLaws W}.

#[export] Instance undisturbed_idle : Idle undisturbed.
Proof.
  split.
  - apply undisturbed_refl.
  - apply undisturbed_trans.
  - intros p w r st w' E. apply law_stat in E as [K N]. exact (keeps_undisturbed _ _ _ K N).
  - intros p f w r w' E. by apply law_scandir in E as [U _].
  - apply law_time.
  - apply law_urandom.
Qed.
End undisturbed.

Section calm.
Context {W : Type} `{Posix W, VisoSys W} (Q : relation W) `{!Idle Q}.
Implicit Types (w : W).

Definition calm {A} (m : io W A) : Prop := forall w r w', m w = Some (r, w') -> Q w w'.

Lemma calm_ret {A} (x : A) : calm (mret x).
Proof. intros w r w' [= _ <-]. apply idle_refl. Qed.
Lemma calm_bind {A B} (m : io W A) (f : A -> io W B) :
  calm m -> (forall x, calm (f x)) -> calm (m ≫= f).
Proof.
  intros Hm Hf w r w'. unfold mbind, io_bind. destruct (m w) as [[[x|] w1]|] eqn:E; [| |done].
  - intros E'. eapply idle_trans; [by eapply Hm|by eapply Hf].
  - intros [= _ <-]. by eapply Hm.
Qed.
Lemma calm_fail {A} : calm (fail (A := A)).
Proof. intros w r w' [= _ <-]. apply idle_refl. Qed.
Lemma calm_undef {A} : calm (undef (A := A)).
Proof. done. Qed.
Lemma calm_defined {A} (x : option A) : calm (defined x).
Proof. destruct x; [apply calm_ret|apply calm_undef]. Qed.
Lemma calm_or_fail {A} (x : option A) : calm (or_fail x).
Proof. destruct x; [apply calm_ret|apply calm_fail]. Qed.

Lemma stat_idle (p : option bytes) st w r st' w' : stat_file p st w = (r, st', w') -> Q w w'.
Proof.
  unfold stat_file. destruct p as [p|]; [|by intros [= _ _ <-]; apply idle_refl].
  destruct (sys_stat p w) as [[r1 st1] w1] eqn:E. apply idle_stat in E.
  by destruct (r1 <? 0); intros [= _ _ <-].
Qed.

Lemma calm_stat st p : calm (stat_io st p).
Proof.
  intros w r w'. unfold stat_io. destruct (stat_file (Some p) st w) as [[r1 st1] w1] eqn:E.
  apply stat_idle in E. by destruct (r1 <? 0); intros [= _ <-].
Qed.
End calm.

#[export] Hint Resolve calm_ret calm_bind calm_fail calm_undef calm_defined calm_or_fail calm_stat
  : calm.

(** Split the matches of a computation and use what is known of its parts. *)
Ltac calm_tac :=
  repeat (intros;
    match goal with
    | |- calm ?Q (match ?x with _ => _ end) => destruct x
    | |- calm ?Q _ =>
        first [ apply (calm_bind Q) | apply (calm_ret Q) | apply (calm_fail Q) | apply (calm_undef Q)
              | apply (calm_defined Q) | apply (calm_or_fail Q) | apply (calm_stat Q)
              | solve [eauto with calm] ]
    end).

Section idle.
Context {W : Type} `{Posix W, VisoSys W} (Q : relation W) `{!Idle Q}.
Variable st_uninit : file_stat_t.
Implicit Types (w : W) (d : DirList) (f : FileList).

Lemma calm_file_records k j f parts i lba buf : calm Q (file_records st_uninit k j f parts i lba buf).
Proof. revert i lba buf; induction k as [|k IH]; intros i lba buf; cbn; calm_tac. Qed.
Lemma calm_files_records j fl buf : calm Q (files_records st_uninit j fl buf).
Proof.
  revert buf; induction fl as [|f fl IH]; intros buf; cbn; [calm_tac|].
  apply (calm_bind Q); [apply calm_file_records|done].
Qed.
Lemma calm_dirs_records j dl l buf : calm Q (dirs_records st_uninit j dl l buf).
Proof. revert buf; induction l as [|k l IH]; intros buf; cbn; calm_tac. Qed.

Lemma calm_buildContent j dl k s : calm Q (buildContent st_uninit j dl k s).
Proof.
  unfold buildContent. cbv zeta. calm_tac;
    first [apply calm_files_records | apply calm_dirs_records].
Qed.

(** ** Scanning *)

Lemma scan_dirs_idle n seen todo w r l w' : scan_dirs n seen todo w = Some (r, l, w') -> Q w w'.
Proof.
  revert seen todo w. induction n as [|n IH]; intros seen [|d todo] w; cbn;
    try (intros [= _ _ <-]; apply idle_refl).
  destruct (sys_scandir (dl_path d) select_directories w) as [[es|] w1] eqn:E; apply (idle_scandir (Q := Q)) in E.
  - destruct (new_dirs _ _ _ _); [|done]. intros E'. eapply idle_trans; [done|by eapply IH].
  - by intros [= _ _ <-].
Qed.

Lemma sum_66600_idle k i p size st file w r x w' :
  sum_66600 k i p size st file w = (r, x, w') -> Q w w'.
Proof.
  revert i size st file w. induction k as [|k IH]; intros i size st file w; cbn [sum_66600].
  { intros [= _ _ <-]. apply idle_refl. }
  set (file1 := overwrite _ _ _). destruct (stat_file (Some file1) st w) as [[r1 st1] w1] eqn:E. apply (stat_idle Q) in E.
  destruct (r1 <? SUCCEEDED); [by intros [= _ _ <-]|].
  intros E'. eapply idle_trans; [done|by eapply IH].
Qed.

Lemma getFileSize_idle file multi len st w ok size path w' :
  getFileSizeAndProcessMultipart file multi len st w = (ok, size, path, w') -> Q w w'.
Proof.
  unfold getFileSizeAndProcessMultipart. destruct (stat_file (Some file) st w) as [[r1 st1] w1] eqn:E.
  apply (stat_idle Q) in E. destruct (r1 <? 0); [by intros [= _ _ _ <-]|].
  destruct multi; cbn [negb orb]; [|by intros [= _ _ _ <-]].
  destruct (len <? 6); [by intros [= _ _ _ <-]|]. destruct (negb _); [by intros [= _ _ _ <-]|].
  destruct (sum_66600 _ _ _ _ _ _ _) as [[size1 file1] w2] eqn:E3. apply sum_66600_idle in E3.
  intros [= _ _ _ <-]. by eapply idle_trans.
Qed.

Lemma add_files_idle dlen dir i files fl s w ok fl' s' w' :
  add_files st_uninit dlen dir i files fl s w = Some (ok, fl', s', w') -> Q w w'.
Proof.
  revert i fl s w. induction files as [|e files IH]; intros i fl s w; cbn [add_files].
  { intros [= _ _ _ <-]. apply idle_refl. }
  destruct (match multipart_digits (d_name e) with Some _ => _ | None => _ end); [apply IH|].
  destruct (_ && _); [done|]. destruct (createPath _ _ _ _) as [path|]; [|done].
  destruct (getFileSizeAndProcessMultipart _ _ _ _ _) as [[[ok1 size] path1] w1] eqn:E.
  apply getFileSize_idle in E. destruct ok1; [|by intros [= _ _ _ <-]].
  intros E'%IH. by eapply idle_trans.
Qed.

Lemma scan_files_idle seen todo s w ok dl s' w' :
  scan_files st_uninit seen todo s w = Some (ok, dl, s', w') -> Q w w'.
Proof.
  revert seen s w. induction todo as [|d todo IH]; intros seen s w; cbn [scan_files].
  { intros [= _ _ _ <-]. apply idle_refl. }
  destruct (sys_scandir _ _ w) as [[files|] w1] eqn:E; [|done]. apply (idle_scandir (Q := Q)) in E.
  destruct (add_files _ _ _ _ _ _ _ _) as [[[[ok1 fl] s1] w2]|] eqn:E1; [|done].
  apply add_files_idle in E1. destruct ok1; [intros E2%IH|intros [= _ _ _ <-]];
    [do 2 (eapply idle_trans; [eassumption|]); done|by eapply idle_trans].
Qed.

Lemma build_contents_idle n j k dl s w ok dl' s' w' :
  build_contents st_uninit n j k dl s w = Some (ok, dl', s', w') -> Q w w'.
Proof.
  revert k dl s w. induction n as [|n IH]; intros k dl s w; cbn [build_contents].
  { intros [= _ _ _ <-]. apply idle_refl. }
  destruct (buildContent _ _ _ _ _ _) as [[[[dl1 s1]|] w1]|] eqn:E; [| |done]; apply calm_buildContent in E.
  - intros E'%IH. by eapply idle_trans.
  - by intros [= _ _ _ <-].
Qed.

(** ** build, write and generate *)

Lemma build_idle dirs_max inDir v w ok v' w' :
  build dirs_max st_uninit inDir v w = Some (ok, v', w') -> Q w w'.
Proof.
  unfold build. destruct (_ <? 1); [intros [= _ _ <-]; apply idle_refl|].
  destruct (root_dir inDir) as [root|]; [|done].
  destruct (scan_dirs _ _ _ _) as [[[ok1 dl1] w1]|] eqn:E1; [|done]. apply scan_dirs_idle in E1.
  destruct ok1; cbn [negb]; [|by intros [= _ _ <-]].
  destruct (scan_files _ _ _ _ _) as [[[[ok2 dl2] files] w2]|] eqn:E2; [|done]. apply scan_files_idle in E2.
  pose proof (idle_trans _ _ _ E1 E2) as U. destruct ok2; cbn [negb]; [|by intros [= _ _ <-]].
  destruct (build_contents _ _ false _ _ _ _) as [[[[ok3 dl3] dirs] w3]|] eqn:E3; [|done].
  apply build_contents_idle in E3. pose proof (idle_trans _ _ _ U E3) as U'.
  destruct ok3; cbn [negb]; [|by intros [= _ _ <-]].
  destruct (build_contents _ _ true _ _ _ _) as [[[[ok4 dl4] dirsJ] w4]|] eqn:E4; [|done].
  apply build_contents_idle in E4. pose proof (idle_trans _ _ _ U' E4) as U''.
  destruct ok4; cbn [negb]; [|by intros [= _ _ <-]].
  destruct (build_tables _) as [[ok5 v5]|]; [|done]. by intros [= _ _ <-].
Qed.

Lemma write_idle name code v w v' w' : VIsoImage.write name code v w = Some (v', w') -> Q w w'.
Proof.
  unfold VIsoImage.write. destruct (sys_time w) as [t w1] eqn:Et. apply (idle_time (Q := Q)) in Et.
  destruct (if v_ps3Mode v then _ else _) as [[fs w2]|] eqn:Ep; [|done].
  assert (Q w1 w2) as U2.
  { destruct (v_ps3Mode v); [|injection Ep as _ <-; apply idle_refl].
    unfold write_ps3, get_rand in Ep. destruct (sys_urandom 0x1B0 w1) as [[x|] w3] eqn:E3; [|done].
    destruct (sys_urandom 0x10 w3) as [[y|] w4] eqn:E4; [|done]. injection Ep as _ <-.
    apply (idle_urandom (Q := Q)) in E3, E4. by eapply idle_trans. }
  destruct (mjoin (content <$> _)); [|done]. destruct (mjoin (contentJoliet <$> _)); [|done].
  destruct (write_descriptors _ _ _ _ _ _); [|done].
  destruct (pathTableL v), (pathTableM v), (pathTableJolietL v), (pathTableJolietM v); try done.
  destruct (mapM content (rootList v)), (mapM contentJoliet (rootList v)); try done.
  destruct (write_all _ _ _) as [p fs1]. destruct (write_all p _ _) as [p' fs2].
  intros [= _ <-]. by eapply idle_trans.
Qed.

Lemma generate_idle dirs_max inDir name code v w ok v' w' :
  generate dirs_max st_uninit inDir name code v w = Some (ok, v', w') -> Q w w'.
Proof.
  unfold generate. destruct (stat_file _ _ w) as [[r st] w1] eqn:E. apply (stat_idle Q) in E.
  destruct (negb _); [by intros [= _ _ <-]|].
  destruct (build _ _ _ _ w1) as [[[ok1 v1] w2]|] eqn:E1; [|done]. apply build_idle in E1.
  pose proof (idle_trans _ _ _ E E1) as U. destruct (negb ok1); [by intros [= _ _ <-]|].
  destruct (VIsoImage.write _ _ _ _) as [[v2 w3]|] eqn:E2; [|done]. apply write_idle in E2.
  intros [= _ _ <-]. by eapply idle_trans.
Qed.
End idle.

Section steps.
Context {W : Type} `{PosixLaws W, !VisoSys W, !VisoView W, !VisoSysLaws W}.
Variable st_uninit : file_stat_t.
Implicit Types (w : W) (d : DirList) (f : FileList).

(** What the list knows of a file: its size, if it is a regular file in one part. *)
Definition recorded w f : Prop :=
  multipart f = false -> forall c, file_at w (fl_path f) = Regular c -> fl_size f = blen c.

Lemma recorded_frame w w' f : undisturbed w w' -> recorded w f -> recorded w' f.
Proof. intros [E _ _ _] R Hm c. rewrite E. by apply R. Qed.

Lemma getFileSize_spec file multi len st w ok size path w' :
  getFileSizeAndProcessMultipart file multi len st w = (ok, size, path, w') ->
  undisturbed w w' /\
  (ok = true -> multi = false -> path = file /\
     forall c, file_at w file = Regular c -> size = blen c).
Proof.
  unfold getFileSizeAndProcessMultipart.
  destruct (stat_file (Some file) st w) as [[r1 st1] w1] eqn:E.
  pose proof (stat_idle undisturbed _ _ _ _ _ _ E) as U.
  destruct (Z.ltb_spec r1 0); [by intros [= <- _ _ <-]|].
  assert (forall c, file_at w file = Regular c -> file_size st1 = blen c) as Hc.
  { intros c Hc. unfold stat_file in E. destruct (law_stat_ok _ _ _ Hc) as (st2 & w2 & E2 & Es & _).
    rewrite E2 in E. cbn in E. congruence. }
  destruct multi; cbn [negb orb].
  - intros E2. split; [|done]. eapply undisturbed_trans; [exact U|].
    destruct (len <? 6); [injection E2 as _ _ _ <-; apply undisturbed_refl|].
    destruct (negb _); [injection E2 as _ _ _ <-; apply undisturbed_refl|].
    destruct (sum_66600 _ _ _ _ _ _ _) as [[size1 file1] w2] eqn:E3.
    apply (sum_66600_idle undisturbed) in E3. by injection E2 as _ _ _ <-.
  - intros [= <- <- <- <-]. done.
Qed.

Definition files_sectors (fl : list FileList) : Z :=
  foldr (fun f n => bytesToSectors (fl_size f) + n) 0 fl.

Lemma bytesToSectors_range n : 0 <= bytesToSectors n < 2 ^ 32.
Proof. unfold bytesToSectors, u32. apply Z.mod_pos_bound. lia. Qed.

Lemma files_sectors_cons f fl :
  files_sectors (f :: fl) = bytesToSectors (fl_size f) + files_sectors fl.
Proof. done. Qed.

Lemma files_sectors_nonneg fl : 0 <= files_sectors fl.
Proof.
  induction fl as [|f fl IH]; [done|]. rewrite files_sectors_cons.
  pose proof (bytesToSectors_range (fl_size f)). lia.
Qed.

Lemma files_sectors_app l1 l2 : files_sectors (l1 ++ l2) = files_sectors l1 + files_sectors l2.
Proof.
  induction l1 as [|f l1 IH]; [done|]. change ((f :: l1) ++ l2) with (f :: l1 ++ l2).
  rewrite !files_sectors_cons. lia.
Qed.

Lemma laid_app lba l1 l2 e :
  laid lba (l1 ++ l2) e <-> laid lba l1 (lba + files_sectors l1) /\ laid (lba + files_sectors l1) l2 e.
Proof.
  revert lba. induction l1 as [|f l1 IH]; intros lba.
  - cbn. rewrite Z.add_0_r. naive_solver.
  - rewrite files_sectors_cons, Z.add_assoc. change ((f :: l1) ++ l2) with (f :: l1 ++ l2).
    cbn [laid]. rewrite IH. naive_solver.
Qed.

(** The files of the list have got the sectors from [s] on, unless the number
    of the sectors has wrapped around. *)
Definition consecutive (s : Z) (fl : list FileList) (e : Z) : Prop :=
  0 <= s -> s + files_sectors fl < 2 ^ 32 -> Forall (fun f => size_ok (fl_size f)) fl ->
  laid s fl e /\ e = s + files_sectors fl.

Lemma consecutive_nil s : consecutive s [] s.
Proof. intros _ _ _. split; [done|]. change (s = s + 0). lia. Qed.

Lemma consecutive_app s l1 m l2 e :
  consecutive s l1 m -> consecutive m l2 e -> consecutive s (l1 ++ l2) e.
Proof.
  intros C1 C2 Hs Hb Hf. rewrite files_sectors_app in *. apply Forall_app in Hf as [Hf1 Hf2].
  pose proof (files_sectors_nonneg l1). pose proof (files_sectors_nonneg l2).
  destruct (C1 Hs ltac:(lia) Hf1) as [L1 ->]. destruct (C2 ltac:(lia) ltac:(lia) Hf2) as [L2 ->].
  rewrite laid_app. split; [done|lia].
Qed.

Lemma consecutive_one f :
  consecutive (rlba f) [f] (u32 (rlba f + bytesToSectors (fl_size f))).
Proof.
  intros Hs Hb Hf%Forall_inv. rewrite files_sectors_cons in *. change (files_sectors []) with 0 in *.
  pose proof (bytesToSectors_range (fl_size f)). rewrite u32_small by lia. split; [exact (conj (conj eq_refl Hf) eq_refl)|lia].
Qed.

Lemma add_files_spec dlen dir i files fl s w ok fl' s' w' :
  add_files st_uninit dlen dir i files fl s w = Some (ok, fl', s', w') ->
  undisturbed w w' /\
  (ok = true -> exists new, fl' = fl ++ new /\ consecutive s new s' /\ Forall (recorded w') new).
Proof.
  revert i fl s w. induction files as [|e files IH]; intros i fl s w; cbn [add_files].
  { intros [= <- <- <- <-]. split; [apply undisturbed_refl|]. intros _. exists [].
    rewrite app_nil_r. split; [done|]. split; [apply consecutive_nil|done]. }
  destruct (match multipart_digits (d_name e) with Some _ => _ | None => _ end); [apply IH|].
  destruct (_ && _); [done|]. destruct (createPath _ _ _ _) as [path|]; [|done].
  destruct (getFileSizeAndProcessMultipart _ _ _ _ _) as [[[ok1 size] path1] w1] eqn:E.
  apply getFileSize_spec in E as [U1 Hsize].
  set (f := mkFileList _ _ _ _ _ _). destruct ok1; [|intros [= <- _ _ <-]; split; [exact U1|done]].
  intros (U2 & Hrec)%IH. split; [by eapply undisturbed_trans|]. intros Hok.
  destruct (Hrec Hok) as (new & -> & C & R). exists (f :: new). rewrite <- app_assoc. split; [done|].
  split; [exact (consecutive_app s [f] _ new s' (consecutive_one f) C)|]. constructor; [|done].
  intros Hm c Hc. destruct (Hsize eq_refl Hm) as [Hp Hl]. cbn in *. subst path1.
  apply Hl. rewrite <- (un_file _ _ U1), <- (un_file _ _ U2). done.
Qed.

Lemma scan_files_spec seen todo s w ok dl s' w' :
  scan_files st_uninit seen todo s w = Some (ok, dl, s', w') ->
  undisturbed w w' /\
  (ok = true -> exists new, concat (fileList <$> dl) = concat (fileList <$> seen) ++ new /\
     consecutive s new s' /\ Forall (recorded w') new).
Proof.
  revert seen s w. induction todo as [|d todo IH]; intros seen s w; cbn [scan_files].
  { intros [= <- <- <- <-]. split; [apply undisturbed_refl|]. intros _. exists [].
    rewrite app_nil_r. split; [done|]. split; [apply consecutive_nil|done]. }
  destruct (sys_scandir _ _ w) as [[files|] w1] eqn:E; [|done]. apply law_scandir in E as [E _].
  destruct (add_files _ _ _ _ _ _ _ _) as [[[[ok1 fl] s1] w2]|] eqn:E1; [|done].
  apply add_files_spec in E1 as [U1 H1']. destruct ok1.
  2: { intros [= <- _ _ <-]. split; [by eapply undisturbed_trans|done]. }
  destruct (H1' eq_refl) as (new1 & -> & C1 & R1). intros (U2 & H2')%IH.
  split; [do 2 (eapply undisturbed_trans; [eassumption|]); done|]. intros Hok.
  destruct (H2' Hok) as (new2 & -> & C2 & R2). exists (new1 ++ new2).
  rewrite fmap_app, concat_app. cbn. rewrite app_nil_r, <- app_assoc. split; [done|].
  split; [by eapply consecutive_app|]. apply Forall_app. split; [|done].
  eapply Forall_impl; [done|]. intros f. by apply recorded_frame.
Qed.
End steps.
