(* ===== verification/VIsoScan.v ===== *)
(** * Virtual images: the tree is the directory

    The list of directories that [build] makes holds the directory that is opened
    and everything below it, each once and with its parent before it; the files of
    a directory are the files that are there. *)

From S2P Require Import Prelude Endian CMem CString Os AbsFile FileIso VIso VIsoView.
From S2P Require Import VIsoNames VIsoTree VIsoDirs VIsoBuild.

Implicit Types (d x : DirList) (dl : list DirList) (e : dirent).

(** What the walk leaves of a directory it has not come to. *)
Definition core d : bytes * Z * Z * nat := (dl_path d, path_len d, full_len d, parent d).

Lemma core_eq d d' :
  core d' = core d ->
  dl_path d' = dl_path d /\ path_len d' = path_len d /\ full_len d' = full_len d /\ parent d' = parent d.
Proof. by intros [= -> -> -> ->]. Qed.

(** The length that is kept, in sixteen bits. *)
Definition len_kept d : Prop := full_len d = u16 (blen (dl_path d)).

Lemma u16_le n : 0 <= n -> 0 <= u16 n <= n.
Proof. intros. pose proof (Z.mod_pos_bound n (2 ^ 16)). pose proof (Z.mod_le n (2 ^ 16)). unfold u16. lia. Qed.

Lemma createPath_Some n dir name path :
  n = u16 (blen dir) -> createPath n dir (u16 (blen name)) name = Some path ->
  path = dir ++ [47] ++ name /\ n = blen dir /\ u16 (blen name) = blen name.
Proof.
  intros ->. unfold createPath. destruct (Z.leb_spec (blen dir + blen name) (u16 (blen dir) + u16 (blen name))); [|done].
  intros [= <-]. pose proof (u16_le (blen dir) (blen_nonneg dir)). pose proof (u16_le (blen name) (blen_nonneg name)).
  split; [done|lia].
Qed.

Lemma drop_path (dir name : bytes) : drop (Z.to_nat (blen dir + 1)) (dir ++ [47] ++ name) = name.
Proof.
  rewrite app_assoc, drop_app_ge by (rewrite length_app; unfold blen; cbn; lia).
  replace (_ - _)%nat with 0%nat by (rewrite length_app; unfold blen; cbn; lia). done.
Qed.

(** [x] is the directory that [e] names in the [k]-th directory, [d]. *)
Record child_of (k : nat) d e x : Prop := {
  ch_parent : parent x = k;
  ch_path : dl_path x = dl_path d ++ [47] ++ d_name e;
  ch_name : dl_name x = d_name e;
  ch_len : len_kept x;
}.

Lemma child_of_core k d d' e x x' :
  core d' = core d -> core x' = core x -> child_of k d e x -> child_of k d' e x'.
Proof.
  intros (Ed & _)%core_eq (Ep & El & Ef & Er)%core_eq []. split; [congruence..| |].
  - unfold dl_name in *. congruence.
  - unfold len_kept in *. congruence.
Qed.

Lemma new_dirs_spec d k i es new :
  len_kept d -> new_dirs d k i es = Some new -> Forall2 (child_of k d) es new.
Proof.
  intros Hd. revert i new. induction es as [|e es IH]; intros i new; cbn [new_dirs].
  { intros [= <-]. constructor. }
  destruct (new_dir d k i e) as [x|] eqn:E; [|done].
  destruct (new_dirs d k (S i) es) as [l|] eqn:El; [|done]. intros [= <-].
  constructor; [|by eapply IH]. unfold new_dir in E.
  destruct (createPath _ _ _ _) as [path|] eqn:Ep; [|done]. injection E as <-.
  apply createPath_Some in Ep as (-> & El' & En); [|done].
  split; cbn; [done..| |].
  - unfold dl_name. cbn. rewrite El'. apply drop_path.
  - unfold len_kept. cbn. rewrite El', En, blen_app, blen_cons. f_equal. lia.
Qed.

Section scan.
Context {W : Type} `{PosixLaws W, !VisoSys W, !VisoView W, !VisoSysLaws W}.
Implicit Types (w : W).
Variable st_uninit : file_stat_t.

(** The children of the [k]-th directory are the directories it holds. *)
Definition listed w dl (k : nat) d : Prop :=
  exists es, entries_at w (dl_path d) = Some es /\
    Forall2 (fun e c => exists x, dl !! c = Some x /\ child_of k d e x)
      (filter select_directories es) (children d).

Lemma listed_core w dl dl' k d d' :
  core <$> dl' = core <$> dl -> core d' = core d -> children d' = children d ->
  listed w dl k d -> listed w dl' k d'.
Proof.
  intros El Ed Ec (es & He & Hf). exists es. rewrite Ec. apply core_eq in Ed as E.
  split; [by rewrite (proj1 E)|]. eapply Forall2_impl; [exact Hf|]. intros e c (x & Hx & Hch).
  assert ((core <$> dl') !! c = Some (core x)) as Hx' by (by rewrite El, list_lookup_fmap, Hx).
  apply list_lookup_fmap_Some in Hx' as (x' & Ex' & Hx'). exists x'. split; [done|].
  by eapply child_of_core.
Qed.

Lemma scan_dirs_spec n seen todo w dl w' :
  scan_dirs n seen todo w = Some (true, dl, w') -> Forall len_kept todo ->
  (exists rest, dl = seen ++ rest /\ core <$> todo `prefix_of` core <$> rest) /\
  (forall k d, (length seen <= k)%nat -> dl !! k = Some d -> listed w dl k d) /\
  (forall k d, (length seen + length todo <= k)%nat -> dl !! k = Some d ->
     exists up, dl !! parent d = Some up /\ (parent d < k)%nat /\ k ∈ children up).
Proof.
  revert seen todo w. induction n as [|n IH]; intros seen [|d todo] w; cbn [scan_dirs]; try done.
  1, 2: intros [= <- _] _; split; [exists []; by rewrite app_nil_r|];
    split; intros k d Hk Hd%lookup_lt_Some; cbn in *; lia.
  destruct (sys_scandir (dl_path d) select_directories w) as [[es|] w1] eqn:E; [|done].
  apply law_scandir in E as [U Hes]. destruct (Hes _ eq_refl) as (all & Hall & Ees).
  destruct (new_dirs d (length seen) _ es) as [new|] eqn:En; [|done]. cbv zeta.
  intros Hrun [Hd Htodo]%Forall_cons. apply new_dirs_spec in En; [|done].
  apply IH in Hrun as ((rest & Edl & Hpre) & Hlist & Hup).
  2: { apply Forall_app. split; [done|]. apply Forall_lookup. intros i x Hx.
       destruct (Forall2_lookup_r _ _ _ _ _ En Hx) as (e & _ & []). done. }
  set (d' := with_children _ d) in *. rewrite fmap_app in Hpre.
  assert (forall i x, new !! i = Some x ->
    exists x', dl !! (length seen + S (length todo) + i)%nat = Some x' /\ core x' = core x) as Hnew.
  { intros i x Hx. assert ((core <$> rest) !! (length todo + i)%nat = Some (core x)) as Hr.
    { eapply prefix_lookup_Some; [|done]. rewrite lookup_app_r by (rewrite length_fmap; lia).
      rewrite length_fmap. replace (_ - _)%nat with i by lia. by rewrite list_lookup_fmap, Hx. }
    apply list_lookup_fmap_Some in Hr as (x' & Ex' & Hx'). exists x'. split; [|done].
    rewrite Edl, <- app_assoc, lookup_app_r by lia.
    replace (_ - _)%nat with (S (length todo + i)) by lia. done. }
  rewrite length_app in *. cbn [length] in *.
  assert (dl !! length seen = Some d') as Ed'.
  { rewrite Edl, <- app_assoc, lookup_app_r, Nat.sub_diag by lia. done. }
  split; [|split].
  - exists (d' :: rest). rewrite Edl, <- app_assoc. split; [done|]. cbn.
    apply prefix_cons. by apply prefix_app_l in Hpre.
  - intros k x Hk Hx. destruct (decide (k = length seen)) as [->|].
    + assert (x = d') as -> by congruence. exists all. split; [done|]. rewrite <- Ees.
      apply Forall2_same_length_lookup. split.
      { cbn. rewrite length_seq. by apply Forall2_length in En. }
      intros i e c He (-> & Hi)%lookup_seq. destruct (Forall2_lookup_l _ _ _ _ _ En He) as (y & Hy & Hch).
      destruct (Hnew _ _ Hy) as (y' & Hy' & Ec). exists y'.
      rewrite length_app. split; [exact Hy'|]. by apply (child_of_core _ d d' _ y y').
    + destruct (Hlist k x ltac:(lia) Hx) as (es' & He' & Hf). exists es'. split; [|done].
      rewrite <- He'. symmetry. by apply law_entries.
  - intros k x Hk Hx. destruct (decide (k < length seen + S (length todo) + length new)%nat) as [Hlt|].
    + set (i := (k - (length seen + S (length todo)))%nat). assert (i < length new)%nat as Hi by (unfold i; lia).
      destruct (lookup_lt_is_Some_2 new i Hi) as [y Hy]. destruct (Hnew _ _ Hy) as (y' & Hy' & Ec).
      replace (_ + i)%nat with k in Hy' by (unfold i; lia). assert (x = y') as -> by congruence.
      destruct (Forall2_lookup_r _ _ _ _ _ En Hy) as (e & _ & []). apply core_eq in Ec as (_ & _ & _ & Ep).
      exists d'. rewrite Ep, ch_parent0. split; [done|]. split; [lia|]. cbn.
      apply elem_of_seq. rewrite length_app. cbn. lia.
    + apply Hup; [|done]. rewrite length_app. lia.
Qed.

(** ** Files *)

(** The parts of a file that is split over several are listed once. *)
Definition first_part e : bool :=
  match multipart_digits (d_name e) with
  | Some (x, y) => (x =? 48) && (y =? 48)
  | None => true
  end.

(** [f] is the file that [e] names in [dir]. *)
Record file_of (dir : bytes) e (f : FileList) : Prop := {
  fo_multipart : multipart f = isSome (multipart_digits (d_name e));
  fo_path : multipart f = false -> fl_path f = dir ++ [47] ++ d_name e;
  fo_name : multipart f = false -> fl_name f = d_name e;
  fo_len : file_len f = blen (d_name e);
}.

Lemma add_files_lists d i es fl s w ok fl' s' w' :
  len_kept d -> add_files st_uninit (full_len d) (dl_path d) i es fl s w = Some (ok, fl', s', w') ->
  ok = true -> exists new, fl' = fl ++ new /\ Forall2 (file_of (dl_path d)) (filter first_part es) new.
Proof.
  intros Hd. revert i fl s w. induction es as [|e es IH]; intros i fl s w; cbn [add_files].
  { intros [= <- <- _ _] _. exists []. by rewrite app_nil_r. }
  intros Hrun Hok. rewrite filter_cons. unfold first_part at 1.
  assert (match multipart_digits (d_name e) with
    | Some (x, y) => negb ((x =? 48) && (y =? 48)) | None => false end = negb (first_part e)) as Ef.
  { unfold first_part. by destruct (multipart_digits (d_name e)) as [[x y]|]. }
  rewrite Ef in Hrun. change (match multipart_digits (d_name e) with
    | Some (x, y) => (x =? 48) && (y =? 48) | None => true end) with (first_part e).
  destruct (first_part e); cbn [negb] in Hrun.
  2: { rewrite decide_False by by intros []. by eapply IH. }
  rewrite decide_True by done.
  destruct (_ && _) in Hrun; [done|]. destruct (createPath _ _ _ _) as [path|] eqn:Ep; [|done].
  apply createPath_Some in Ep as (-> & El & En); [|done]. rewrite En, El in Hrun.
  destruct (getFileSizeAndProcessMultipart _ _ _ _ _) as [[[ok1 size] path1] w1] eqn:E.
  apply getFileSize_spec in E as [_ Hpath]. destruct ok1; [|congruence].
  set (f := mkFileList _ _ _ _ _ _) in Hrun. rewrite <- El in Hrun at 1. apply IH in Hrun as (new & -> & Hf); [|done].
  exists (f :: new). rewrite <- app_assoc. split; [done|]. constructor; [|done].
  split; cbn; [done| | |done].
  - intros Hm. by apply Hpath.
  - intros Hm. unfold fl_name. cbn. destruct (Hpath eq_refl Hm) as [-> _]. apply drop_path.
Qed.

Definition files_listed w d : Prop :=
  exists es, entries_at w (dl_path d) = Some es /\
    Forall2 (file_of (dl_path d)) (filter first_part (filter select_files es)) (fileList d).

Lemma files_listed_frame w w' d : undisturbed w w' -> files_listed w' d -> files_listed w d.
Proof. intros U (es & He & Hf). exists es. by rewrite <- (law_entries _ _ _ U). Qed.

Lemma scan_files_lists seen todo s w dl s' w' :
  scan_files st_uninit seen todo s w = Some (true, dl, s', w') -> Forall len_kept todo ->
  with_fileList [] <$> dl = with_fileList [] <$> (seen ++ todo) /\ seen `prefix_of` dl /\
  forall k d, (length seen <= k)%nat -> dl !! k = Some d -> files_listed w d.
Proof.
  revert seen s w. induction todo as [|d todo IH]; intros seen s w; cbn [scan_files].
  { intros [= <- _ _] _. rewrite app_nil_r. split; [done|]. split; [done|].
    intros k d Hk Hd%lookup_lt_Some. lia. }
  destruct (sys_scandir _ _ w) as [[files|] w1] eqn:E; [|done].
  apply law_scandir in E as [U1 Hes]. destruct (Hes _ eq_refl) as (es & He & ->).
  destruct (add_files _ _ _ _ _ _ _ _) as [[[[ok fl] s1] w2]|] eqn:E1; [|done].
  intros Hrun [Hd Htodo]%Forall_cons. pose proof (add_files_spec _ _ _ _ _ _ _ _ _ _ _ _ E1) as [U2 _].
  destruct ok; [|done]. destruct (add_files_lists _ _ _ _ _ _ _ _ _ _ Hd E1 eq_refl) as (new & -> & Hf).
  apply IH in Hrun as (Hsh & Hpre & Hfl); [|done]. rewrite length_app in Hfl. cbn [length app] in *.
  set (d' := with_fileList new d) in *.
  split; [rewrite Hsh, !fmap_app, <- app_assoc; done|]. split; [by apply prefix_app_l in Hpre|].
  intros k x Hk Hx. destruct (decide (k = length seen)) as [->|].
  - assert ((seen ++ [d']) !! length seen = Some d') as Ed by (by rewrite lookup_app_r, Nat.sub_diag).
    rewrite (prefix_lookup_Some _ _ _ _ Ed Hpre) in Hx. injection Hx as <-. by exists es.
  - apply (files_listed_frame _ w2); [by eapply undisturbed_trans|]. eapply Hfl; [|done]. lia.
Qed.

(** ** The tree *)

(** The directories from [root] downwards, with the names that lead there. *)
Inductive under w (root : bytes) : list bytes -> bytes -> Prop :=
| under_root : under w root [] root
| under_dir ns p es e :
    under w root ns p -> entries_at w p = Some es -> e ∈ es -> select_directories e = true ->
    under w root (ns ++ [d_name e]) (p ++ [47] ++ d_name e).

Record dir_tree w (root : bytes) dl : Prop := {
  tr_root : exists d, head dl = Some d /\ dl_path d = root /\ parent d = 0%nat;
  tr_dirs k d : dl !! k = Some d -> listed w dl k d;
  tr_up k d : dl !! k = Some d -> (0 < k)%nat ->
    exists up, dl !! parent d = Some up /\ (parent d < k)%nat /\ k ∈ children up;
}.

(** What the tree is made of, without contents and files. *)
Definition skel d := (core d, children d).

Lemma dir_tree_skel w w' root dl dl' :
  (forall p, entries_at w p = entries_at w' p) -> skel <$> dl' = skel <$> dl -> dir_tree w' root dl -> dir_tree w root dl'.
Proof.
  intros U E [(r & Hr & Er) Hdirs Hup].
  assert (forall k d', dl' !! k = Some d' -> exists d, dl !! k = Some d /\ skel d' = skel d) as Hl.
  { intros k d' Hd'. assert ((skel <$> dl) !! k = Some (skel d')) as (d & ? & ?)%list_lookup_fmap_Some;
      [by rewrite <- E, list_lookup_fmap, Hd'|by exists d]. }
  assert (forall k d, dl !! k = Some d -> exists d', dl' !! k = Some d' /\ skel d = skel d') as Hr'.
  { intros k d Hd. assert ((skel <$> dl') !! k = Some (skel d)) as (d' & ? & ?)%list_lookup_fmap_Some;
      [by rewrite E, list_lookup_fmap, Hd|by exists d']. }
  split.
  - rewrite head_lookup in Hr. destruct (Hr' _ _ Hr) as (r' & Hr2 & [(? & ? & ? & ?)%core_eq _]%pair_eq).
    exists r'. rewrite head_lookup. split; [done|]. by destruct Er as [<- <-].
  - intros k d' Hd'. destruct (Hl _ _ Hd') as (d & Hd & [Ec Eh]%pair_eq).
    destruct (Hdirs _ _ Hd) as (es & He & Hf). apply (listed_core _ dl _ _ d); [|done..|].
    + pose proof (f_equal (fmap fst) E) as E'. by rewrite <- !list_fmap_compose in E'.
    + exists es. by rewrite U.
  - intros k d' Hd' Hk. destruct (Hl _ _ Hd') as (d & Hd & [(_ & _ & _ & Ep)%core_eq _]%pair_eq).
    destruct (Hup _ _ Hd Hk) as (up & Eup & Hlt & Hin). rewrite Ep.
    destruct (Hr' _ _ Eup) as (up' & Eup' & [_ Eh]%pair_eq). exists up'. by rewrite <- Eh.
Qed.

Lemma dir_tree_len w root dl :
  len_kept (default (mkDirList [] 0 0 None None 0 [] 0%nat []) (head dl)) ->
  dir_tree w root dl -> Forall len_kept dl.
Proof.
  intros Hlen [(r & Hr & _) Hdirs Hup]. rewrite Hr in Hlen. cbn in Hlen.
  apply Forall_lookup. intros k d Hd. destruct (decide (k = 0%nat)) as [->|].
  { rewrite head_lookup in Hr. congruence. }
  destruct (Hup _ _ Hd ltac:(lia)) as (up & Eup & _ & Hc). destruct (Hdirs _ _ Eup) as (es & _ & Hf).
  apply list_elem_of_lookup in Hc as [i Hi].
  destruct (Forall2_lookup_r _ _ _ _ _ Hf Hi) as (e & _ & x & Hx & []). congruence.
Qed.

Lemma scan_dir_tree n inDir root w dl w' :
  root_dir inDir = Some root -> scan_dirs n [] [root] w = Some (true, dl, w') ->
  dir_tree w inDir dl /\ Forall len_kept dl.
Proof.
  unfold root_dir, dupString. destruct (Z.leb_spec (blen inDir) (u16 (blen inDir))); [|done].
  intros [= <-] Hrun. set (root := mkDirList _ _ _ _ _ _ _ _ _) in *.
  assert (len_kept root) as Hroot by done.
  apply scan_dirs_spec in Hrun as ((rest & Edl & Hpre) & Hdirs & Hup); [|by constructor].
  cbn in Edl. subst rest. destruct dl as [|d dl]; [by apply prefix_nil_inv in Hpre|].
  apply prefix_cons_inv_1 in Hpre as Ed. symmetry in Ed. apply core_eq in Ed as (Ep & _ & Ef & Er).
  assert (dir_tree w inDir (d :: dl)) as Ht.
  { split; [exists d; by rewrite Ep, Er|intros k x; apply Hdirs; cbn; lia|].
    intros k x Hx Hk. apply Hup; [cbn; lia|done]. }
  split; [done|]. eapply dir_tree_len; [|exact Ht]. cbn. unfold len_kept. by rewrite Ef, Ep.
Qed.

(** The tree with its files. *)
Record tree w (root : bytes) dl : Prop := {
  tr_tree : dir_tree w root dl;
  tr_files d : d ∈ dl -> files_listed w d;
}.

Lemma scan_tree n inDir root s w dl w1 dl' s' w2 :
  root_dir inDir = Some root -> scan_dirs n [] [root] w = Some (true, dl, w1) ->
  scan_files st_uninit [] dl s w1 = Some (true, dl', s', w2) -> tree w inDir dl'.
Proof.
  intros Hroot Hd Hf. pose proof (scan_dirs_idle undisturbed _ _ _ _ _ _ _ Hd) as U.
  destruct (scan_dir_tree _ _ _ _ _ _ Hroot Hd) as [Ht Hlen].
  destruct (scan_files_lists _ _ _ _ _ _ _ Hf Hlen) as (E & _ & Hfl). cbn [app] in E.
  split.
  - apply (dir_tree_skel w w _ dl); [done| |exact Ht].
    pose proof (f_equal (fmap skel) E) as E'. by rewrite <- !list_fmap_compose in E'.
  - intros d [k Hk]%list_elem_of_lookup. eapply files_listed_frame; [exact U|]. eapply Hfl; [|done]. cbn. lia.
Qed.

Lemma dir_tree_ordered w root dl : dir_tree w root dl -> forall k d, dl !! k = Some d -> (parent d <= k)%nat.
Proof.
  intros [(r & Hr & _ & Er) _ Hup] k d Hd. destruct (decide (k = 0%nat)) as [->|].
  - rewrite head_lookup in Hr. assert (d = r) as -> by congruence. lia.
  - destruct (Hup _ _ Hd ltac:(lia)) as (_ & _ & Hlt & _). lia.
Qed.

Lemma tree_frame w w' root dl : undisturbed w w' -> tree w root dl -> tree w' root dl.
Proof.
  intros U [Ht Hf]. pose proof (fun p => law_entries p _ _ U) as E.
  split; [by apply (dir_tree_skel w' w _ dl)|].
  intros d (es & He & Hl)%Hf. exists es. by rewrite E.
Qed.

(** A directory that is in the list has all it holds in the list. *)
Lemma tree_child w root dl k d es e :
  dir_tree w root dl -> dl !! k = Some d -> entries_at w (dl_path d) = Some es -> e ∈ es ->
  select_directories e = true -> exists c x, dl !! c = Some x /\ child_of k d e x.
Proof.
  intros [_ Hdirs _] Hk He Hin Hsel. destruct (Hdirs _ _ Hk) as (es' & He' & Hf).
  assert (es' = es) as -> by congruence.
  assert (e ∈ filter select_directories es) as Hin' by (apply list_elem_of_filter; by rewrite Hsel).
  apply list_elem_of_lookup in Hin' as [i Hi].
  destruct (Forall2_lookup_l _ _ _ _ _ Hf Hi) as (c & _ & x & Hx & Hch). eauto.
Qed.

(** The list holds exactly the directories from [root] downwards. *)
Lemma tree_complete w root dl p :
  dir_tree w root dl -> (exists ns, under w root ns p) <-> exists d, d ∈ dl /\ dl_path d = p.
Proof.
  intros Ht. pose proof Ht as [(r & Hr & Er & _) Hdirs Hup]. split.
  - intros [ns Hu]. induction Hu as [|ns p es e _ (d & Hd & <-) He Hin Hsel].
    { exists r. split; [|done]. destruct dl; [done|]. injection Hr as ->. constructor. }
    apply list_elem_of_lookup in Hd as [k Hk].
    destruct (tree_child _ _ _ _ _ _ _ Ht Hk He Hin Hsel) as (c & x & Hx & []).
    exists x. split; [by eapply list_elem_of_lookup_2|done].
  - intros (d & Hd & <-). apply list_elem_of_lookup in Hd as [k Hk]. revert d Hk.
    induction (lt_wf k) as [k _ IH]; intros d Hk. destruct (decide (k = 0%nat)) as [->|].
    { rewrite <- head_lookup, Hr in Hk. injection Hk as <-. rewrite Er. exists []. constructor. }
    destruct (Hup _ _ Hk ltac:(lia)) as (up & Eup & Hlt & Hc).
    destruct (Hdirs _ _ Eup) as (es & He & Hf). apply list_elem_of_lookup in Hc as [i Hi].
    destruct (Forall2_lookup_r _ _ _ _ _ Hf Hi) as (e & Hin & x & Hx & []).
    assert (x = d) as -> by congruence. rewrite ch_path0.
    apply list_elem_of_lookup_2, list_elem_of_filter in Hin as [Hsel Hin].
    destruct (IH _ Hlt _ Eup) as [ns Hns]. exists (ns ++ [d_name e]).
    eapply under_dir; [exact Hns|done..|]. by apply Is_true_true.
Qed.
End scan.
