(* ===== verification/VIsoContents.v ===== *)
(** * What the directories of a virtual image say about its files

    buildContent writes, for every file of a directory, records with the file's
    name, its sectors (counted from the first file's) and its length; a file of
    more than four gigabytes has a record for every part.  The records stay
    while the extents of subdirectories are entered, and fixLba moves their
    starts. *)

From S2P Require Import Prelude Endian CString Os FileIso VIso VIsoView VIsoNames VIsoTree VIsoDirs.
From S2P Require Import VIsoRecords VIsoBuild.

(** ** Names *)

Lemma blen_strncpy_upper n s : blen (strncpy_upper n s) <= Z.of_nat n.
Proof.
  revert s. induction n as [|n IH]; intros [|c s]; cbn [strncpy_upper]; rewrite ?blen_nil; try lia.
  destruct (c =? 0); rewrite ?blen_nil, ?blen_cons; [lia|]. specialize (IH s). lia.
Qed.

Lemma utf8_to_ucs2_length n p l : utf8_to_ucs2 n p = Some l -> (length l <= n)%nat.
Proof.
  revert p l. induction n as [|n IH]; intros [|b p] l; cbn [utf8_to_ucs2]; try done.
  - destruct (b =? 0); by intros [= <-].
  - destruct (b =? 0); [intros [= <-]; cbn; lia|].
    destruct (get_ucs2_from_utf8 (b :: p)) as [[ch q]|]; [|done].
    destruct (ch <? 0); [intros [= <-]; cbn; lia|].
    destruct (utf8_to_ucs2 n q) as [r|] eqn:E; [|done]. intros [= <-]. apply IH in E. cbn. lia.
Qed.

Lemma blen_ucs2_bytes l : blen (ucs2_bytes l) = 2 * blen l.
Proof.
  induction l as [|x l IH]; [done|]. unfold ucs2_bytes in *. cbn [fmap list_fmap concat].
  rewrite blen_app, blen_cons. change (list_fmap Z bytes (le_bytes 2) l) with (le_bytes 2 <$> l).
  rewrite IH. unfold blen at 1. rewrite length_le_bytes. lia.
Qed.

Lemma iso_name_length j n1 n2 name x :
  iso_name j n1 n2 name = Some x -> blen x <= Z.max (Z.of_nat n1) (2 * Z.of_nat n2).
Proof.
  unfold iso_name. destruct j.
  - destruct (utf8_to_ucs2 _ _) as [l|] eqn:E; [|done]. intros [= <-].
    apply utf8_to_ucs2_length in E. rewrite blen_ucs2_bytes. unfold blen. lia.
  - intros [= <-]. pose proof (blen_strncpy_upper n1 name). lia.
Qed.

Lemma file_name_length j f x : file_name j f = Some x -> blen x <= 206.
Proof.
  unfold file_name. destruct j.
  - destruct (joliet_file_name _ _) as [s|]; [|done].
    destruct (utf8_to_ucs2 _ _) as [l|] eqn:E; [|done]. intros [= <-].
    apply utf8_to_ucs2_length in E. rewrite blen_ucs2_bytes. unfold blen. lia.
  - intros E%(inj Some). rewrite <- E, blen_app. pose proof (blen_strncpy_upper 204 (fl_name f)).
    change (blen (str ";1")) with 2. lia.
Qed.

(** ** Fields of a record that is changed *)

Lemma slice_overwrite_in a n o (x b : bytes) :
  0 <= o -> o + blen x <= blen b -> 0 <= a -> 0 <= n -> a + n <= blen x ->
  slice (o + a) n (overwrite o x b) = slice a n x.
Proof.
  intros. apply slice_bytes; [lia|rewrite blen_slice; lia|rewrite blen_overwrite; lia|].
  intros i Hi. rewrite byte_at_overwrite, byte_at_slice by lia. zdecide; cbn [andb]. f_equal. lia.
Qed.

Lemma slice_overwrite_out a n o (x b : bytes) :
  0 <= o -> o + blen x <= blen b -> 0 <= a -> 0 <= n -> a + n <= blen b ->
  a + n <= o \/ o + blen x <= a -> slice a n (overwrite o x b) = slice a n b.
Proof.
  intros. pose proof (blen_nonneg x). apply slice_bytes; [lia|rewrite blen_slice; lia|rewrite blen_overwrite; lia|].
  intros i Hi. rewrite byte_at_overwrite, byte_at_slice by lia. zdecide; done.
Qed.

Lemma overwrite_name q x r :
  rec_ok r -> 1 <= q -> q + blen x <= 18 ->
  rec_name (overwrite q x r) = rec_name r /\ rec_flags (overwrite q x r) = rec_flags r.
Proof.
  intros [] Hq Hx. pose proof (blen_nonneg x). unfold rec_name, rec_flags.
  rewrite !byte_at_overwrite by lia. zdecide; cbn [andb]; try lia.
  split; [|done]. by rewrite slice_overwrite_out by lia.
Qed.

(** ** The records of a file *)

(** Sectors of a part that is not the last. *)
Definition PART_SECTORS : Z := bytesToSectors MULTIEXTENT_PART_SIZE.

Definition part_length (f : FileList) (i : Z) : Z :=
  if i =? file_parts f - 1 then fl_size f - i * MULTIEXTENT_PART_SIZE else MULTIEXTENT_PART_SIZE.

(** [r] is the record of the [i]-th part of [f]; [base] is the sector of the
    first file. *)
Record file_entry (j : bool) (base : Z) (f : FileList) (i : Z) (r : bytes) : Prop := {
  fe_ok : rec_ok r;
  fe_name : file_name j f = Some (rec_name r);
  fe_start : rec_start r = u32 (base + rlba f + i * PART_SECTORS);
  fe_length : rec_length r = u32 (part_length f i);
  fe_flags : Z.land (rec_flags r) ISO_DIRECTORY = 0;
}.

Definition has_parts (j : bool) (base : Z) (f : FileList) (l : list (Z * bytes)) : Prop :=
  forall i, 0 <= i < file_parts f -> exists o r, (o, r) ∈ l /\ file_entry j base f i r.

(** [r] is a record of a directory at sector [s], of [n] bytes. *)
Record subdir_entry (name : bytes) (s n : Z) (r : bytes) : Prop := {
  de_name : rec_name r = name;
  de_start : rec_start r = u32 s;
  de_length : rec_length r = u32 n;
  de_flags : Z.land (rec_flags r) ISO_DIRECTORY <> 0;
}.

(** Only files have records without the directory flag. *)
Definition only_files (j : bool) (fl : list FileList) (l : list (Z * bytes)) : Prop :=
  Forall (fun x => Z.land (rec_flags x.2) ISO_DIRECTORY = 0 ->
    exists f, f ∈ fl /\ file_name j f = Some (rec_name x.2)) l.

Lemma u32_add a b : u32 (u32 a + b) = u32 (a + b).
Proof. apply Z.add_mod_idemp_l. lia. Qed.
Lemma u32_sub a b : u32 (a - u32 b) = u32 (a - b).
Proof. apply Zminus_mod_idemp_r. Qed.

Lemma u32_u32 a : u32 (u32 a) = u32 a.
Proof. apply Z.mod_mod. lia. Qed.

(** Start and length of the [i]-th part. *)
Lemma part_extent_spec f i lba a n fl lba' :
  0 <= i < file_parts f -> u32 lba = u32 (rlba f + i * PART_SECTORS) ->
  part_extent f (file_parts f) i lba = (a, n, fl, lba') ->
  u32 a = u32 (rlba f + i * PART_SECTORS) /\ u32 n = u32 (part_length f i) /\
  Z.land fl ISO_DIRECTORY = 0 /\
  (i + 1 < file_parts f -> u32 lba' = u32 (rlba f + (i + 1) * PART_SECTORS)).
Proof.
  intros Hi Hl. unfold part_extent, part_length.
  destruct (Z.eqb_spec (file_parts f) 1) as [E1|]; [|destruct (Z.eqb_spec i (file_parts f - 1))];
    intros [= <- <- <- <-].
  - rewrite E1 in *. assert (i = 0) as -> by lia. cbn [Z.sub Z.eqb].
    rewrite Z.mul_0_l, Z.sub_0_r. split; [done|]. split; [apply u32_u32|]. split; [done|lia].
  - rewrite u32_sub. split; [done|]. split; [apply u32_u32|]. split; [done|lia].
  - split; [done|]. split; [done|]. split; [done|]. intros _. fold PART_SECTORS.
    rewrite u32_u32, <- u32_add, Hl, u32_add. f_equal. lia.
Qed.

Lemma genIso9660Time_length `{VisoSys W} t : length (genIso9660Time t) = 6%nat.
Proof. done. Qed.

Section contents.
Context {W : Type} `{Posix W, !VisoSys W}.
Variable st_uninit : file_stat_t.
Implicit Types (w : W) (d : DirList) (f : FileList).

Lemma entry_of_record j f i r :
  short r -> file_name j f = Some (dr_fi r) -> u32 (dr_start r) = u32 (rlba f + i * PART_SECTORS) ->
  u32 (dr_length r) = u32 (part_length f i) -> Z.land (fileFlags r) ISO_DIRECTORY = 0 ->
  file_entry j 0 f i (record_copy r).
Proof.
  intros Hs Hn Ha Hl Hf. destruct (record_copy_fields r Hs) as (E1 & E2 & E3 & E4).
  split; [by apply record_copy_ok| | | |]; rewrite ?E1, ?E2, ?E3, ?E4; done.
Qed.

Lemma file_records_spec k j f i lba buf l w buf' w' :
  records_of buf l -> blen buf < TEMP_BUF_SIZE -> 0 <= i -> i + Z.of_nat k = file_parts f ->
  (0 < k -> u32 lba = u32 (rlba f + i * PART_SECTORS))%nat ->
  file_records st_uninit k j f (file_parts f) i lba buf w = Some (Some buf', w') ->
  exists new, records_of buf' (l ++ new) /\ blen buf' < TEMP_BUF_SIZE /\
    (forall i', i <= i' < file_parts f -> exists o r, (o, r) ∈ new /\ file_entry j 0 f i' r) /\
    Forall (fun x => file_name j f = Some (rec_name x.2)) new.
Proof.
  revert i lba buf l w. induction k as [|k IH]; intros i lba buf l w C Hb Hi Hk Hl; cbn [file_records].
  - intros [-> ->]%ret_Some. exists []. rewrite app_nil_r. split; [done|]. split; [done|]. split; [lia|done].
  - intros Hrun. io_inv Hrun.
    destruct (part_extent f (file_parts f) i lba) as [[[a n] fl] lba1] eqn:Ep. io_inv Hrun.
    destruct (part_extent_spec f i lba a n fl lba1) as (Ha & Hn & Hfl & Hnext); [lia|apply Hl; lia|done|].
    match goal with
    | E : file_name j f = Some ?x, E' : add_record buf ?r = Some ?b |- _ =>
        assert (short r) as Hs by (split; [pose proof (file_name_length _ _ _ E); cbn; lia|done]);
        destruct (add_record_spec _ _ _ _ C Hs ltac:(unfold TEMP_BUF_SIZE in *; lia) E') as (o & C1 & Hb1);
        pose proof (entry_of_record j f i r Hs E Ha Hn Hfl) as He
    end.
    eapply IH in Hrun as (new & C2 & Hb2 & Hnew & Hall); [|exact C1|done|lia|lia|intros; apply Hnext; lia].
    rewrite <- app_assoc in C2. eexists. split; [exact C2|]. split; [done|].
    split; [|constructor; [exact (fe_name _ _ _ _ _ He)|done]]. intros i' Hi'. destruct (Z.eq_dec i' i) as [->|].
    + do 2 eexists. split; [apply elem_of_app; left; by constructor|done].
    + destruct (Hnew i' ltac:(lia)) as (o' & r' & ? & ?). exists o', r'. split; [|done].
      apply elem_of_app. by right.
Qed.

Lemma file_parts_nonneg f : 0 <= file_parts f.
Proof.
  unfold file_parts. destruct (_ <? _); [|lia].
  pose proof (Z.mod_pos_bound (fl_size f / MULTIEXTENT_PART_SIZE) (2 ^ 32) eq_refl).
  unfold u32. destruct (_ =? 0); lia.
Qed.

Lemma has_parts_mono j base f l l' : l ⊆ l' -> has_parts j base f l -> has_parts j base f l'.
Proof. intros Hl Hp i Hi. destruct (Hp i Hi) as (o & r & ? & ?). eauto. Qed.

Lemma files_records_spec j fl buf l w buf' w' :
  records_of buf l -> blen buf < TEMP_BUF_SIZE ->
  files_records st_uninit j fl buf w = Some (Some buf', w') ->
  exists new, records_of buf' (l ++ new) /\ blen buf' < TEMP_BUF_SIZE /\
    Forall (fun f => has_parts j 0 f new) fl /\ only_files j fl new.
Proof.
  revert buf l w. induction fl as [|f fl IH]; intros buf l w C Hb; cbn [files_records].
  - intros [-> ->]%ret_Some. exists []. rewrite app_nil_r. do 3 (split; [done|]). by apply Forall_nil.
  - intros (buf1 & w1 & E & Hrun)%bind_Some. pose proof (file_parts_nonneg f).
    eapply file_records_spec in E as (new1 & C1 & Hb1 & Hnew1 & Hf1);
      [|done|done|lia|lia|intros _; f_equal; lia].
    destruct (IH _ _ _ C1 Hb1 Hrun) as (new2 & C2 & Hb2 & Hnew2 & Hf2).
    exists (new1 ++ new2). rewrite app_assoc. split; [done|]. split; [done|]. split; [constructor|].
    + intros i Hi. destruct (Hnew1 i Hi) as (o & r & ? & ?). exists o, r. split; [|done].
      apply elem_of_app. by left.
    + eapply Forall_impl; [done|]. intros g. apply has_parts_mono. intros x ?. apply elem_of_app. by right.
    + apply Forall_app. split; (eapply Forall_impl; [done|]); intros x.
      * intros Hx _. exists f. split; [constructor|done].
      * intros Hx Hfl. destruct (Hx Hfl) as (g & Hg & ?). exists g. split; [by apply elem_of_cons; right|done].
Qed.

(** Names that leave the length of a record in its byte. *)
Definition short_dir (j : bool) d : Prop :=
  forall n, iso_name j 254 127 (dl_name d) = Some n -> blen n <= 215.

Lemma dirs_records_spec j dl ks buf l w buf' w' :
  Forall (short_dir j) dl -> records_of buf l -> blen buf < TEMP_BUF_SIZE ->
  dirs_records st_uninit j dl ks buf w = Some (Some buf', w') ->
  exists new, records_of buf' (l ++ new) /\ blen buf' < TEMP_BUF_SIZE /\
    Forall (fun x => Z.land (rec_flags x.2) ISO_DIRECTORY <> 0) new.
Proof.
  intros Hsh. revert buf l w. induction ks as [|k ks IH]; intros buf l w C Hb; cbn [dirs_records].
  - intros [-> ->]%ret_Some. exists []. by rewrite app_nil_r.
  - intros Hrun. io_inv Hrun.
    match goal with
    | Ed : dl !! k = Some ?d, E : iso_name j _ _ _ = Some ?x, E' : add_record buf ?r = Some ?b |- _ =>
        assert (short r) as Hs by (split; [exact (proj1 (Forall_lookup _ _) Hsh _ _ Ed _ E)|done]);
        destruct (add_record_spec _ _ _ _ C Hs ltac:(unfold TEMP_BUF_SIZE in *; lia) E') as (o & C1 & Hb1);
        destruct (record_copy_fields _ Hs) as (_ & _ & E3 & _)
    end.
    destruct (IH _ _ _ C1 Hb1 Hrun) as (new & C2 & Hb2 & Hnew). rewrite <- app_assoc in C2.
    eexists. split; [exact C2|]. split; [done|]. apply Forall_cons. split; [|done].
    cbn [snd]. by rewrite E3.
Qed.

Lemma next_record_here pos b :
  pos < blen b -> byte_at pos b <> 0 -> next_record pos b = Some pos.
Proof.
  intros. unfold next_record. destruct (Z.leb_spec (blen b) pos); [lia|].
  by destruct (Z.eqb_spec (byte_at pos b) 0).
Qed.

Lemma two_records r1 r2 :
  rec_ok r1 -> rec_ok r2 -> records_of (r1 ++ r2) [(0, r1); (blen r1, r2)].
Proof.
  intros H1 H2. pose proof H1 as []. pose proof H2 as []. unfold records_of. rewrite blen_app.
  econstructor.
  - apply next_record_here; rewrite ?blen_app, ?byte_at_app_l by lia; lia.
  - rewrite slice_app_l by lia. apply slice_all.
  - done.
  - econstructor; [| |done|constructor].
    + apply next_record_here; rewrite ?blen_app, ?byte_at_app_r, ?Z.sub_diag by lia; lia.
    + rewrite slice_app_r, Z.sub_diag by lia. apply slice_all.
Qed.

Lemma blen_both32 x : blen (both32 x) = 8.
Proof. done. Qed.

(** The contents of the directory at [k], and what happens to its parent's. *)
Inductive built (j : bool) (dl : list DirList) (k : nat) (b : bytes) : list DirList -> Prop :=
| built_root d : dl !! k = Some d -> parent d = k -> built j dl k b (<[k := set_content j b d]> dl)
| built_child d up upc name o :
    dl !! k = Some d -> parent d <> k -> dl !! parent d = Some up -> get_content j up = Some upc ->
    iso_name j 204 127 (dl_name d) = Some name ->
    find_record (S (length upc)) 0 name upc = Some o -> o + 18 <= blen upc ->
    built j dl k b (<[k := set_content j b d]> (<[parent d := set_content j (set_extent o (extent_at 0 b) upc) up]> dl)).

(** The first two records. *)
Lemma dots_ok t1 t2 s e j :
  let dot := record_copy (mkRecord s 0 (genIso9660Time t1) ISO_DIRECTORY [0]) in
  let dotdot := record_copy (mkRecord 0 0 (genIso9660Time t2) ISO_DIRECTORY [1]) in
  let dotdot' := if j : bool then dotdot else set_extent 0 e dotdot in
  blen e <= 16 ->
  records_of (dot ++ dotdot') [(0, dot); (40, dotdot')] /\
  rec_ok dotdot' /\ Z.land (rec_flags dotdot') ISO_DIRECTORY <> 0.
Proof.
  intros dot dotdot dotdot' He.
  assert (short (mkRecord s 0 (genIso9660Time t1) ISO_DIRECTORY [0])) as Hs1 by (split; [change (1 <= 215); lia|done]).
  assert (short (mkRecord 0 0 (genIso9660Time t2) ISO_DIRECTORY [1])) as Hs2 by (split; [change (1 <= 215); lia|done]).
  pose proof (record_copy_ok _ Hs1) as H1. pose proof (record_copy_ok _ Hs2) as H2.
  assert (rec_ok dotdot') as Hok.
  { unfold dotdot'. destruct j; [exact H2|]. apply (overwrite_ok 2 e); [exact H2|lia|lia]. }
  split; [exact (two_records dot dotdot' H1 Hok)|]. split; [done|].
  destruct (record_copy_fields _ Hs2) as (_ & _ & E3 & _). unfold dotdot', dotdot. destruct j; [by rewrite E3|].
  unfold set_extent. change (0 + 2) with 2.
  rewrite (proj2 (overwrite_name 2 e _ H2 ltac:(lia) ltac:(lia))). by rewrite E3.
Qed.

Lemma blen_extent b : 18 <= blen b -> blen (extent_at 0 b) = 16.
Proof. intros. unfold extent_at. rewrite blen_slice; lia. Qed.

(** What the contents [b] of the directory [d] at sector [s] say. *)
Record content_of (j : bool) d (s : Z) (b : bytes) (l : list (Z * bytes)) : Prop := {
  co_ok : content_ok b l;
  co_size : blen b <= TEMP_BUF_SIZE;
  co_files : Forall (fun f => has_parts j 0 f l) (fileList d);
  co_only : only_files j (fileList d) l;
  co_self : exists r l', l = (0, r) :: l' /\ subdir_entry [0] s (blen b) r;
}.

Lemma self_entry s t size :
  subdir_entry [0] s size (overwrite 10 (both32 size) (record_copy (mkRecord s 0 (genIso9660Time t) ISO_DIRECTORY [0]))).
Proof.
  assert (short (mkRecord s 0 (genIso9660Time t) ISO_DIRECTORY [0])) as Hs by (split; [change (1 <= 215); lia|done]).
  pose proof (record_copy_ok _ Hs) as Hok. destruct (record_copy_fields _ Hs) as (E1 & _ & E3 & E4).
  destruct (overwrite_name 10 (both32 size) _ Hok ltac:(lia) ltac:(rewrite blen_both32; lia)) as [En Ef].
  set (r := record_copy _) in *. change (blen r) with 40 in *. assert (blen r = 40) as Hr by done.
  split.
  - by rewrite En, E4.
  - unfold rec_start. rewrite slice_overwrite_out by (rewrite ?blen_both32; lia). exact E1.
  - unfold rec_length. change 10 with (10 + 0) at 1. rewrite slice_overwrite_in by (rewrite ?blen_both32; lia).
    unfold both32. change (slice 0 4 (le_bytes 4 size ++ be_bytes 4 size)) with (le_bytes 4 size).
    apply le_val_le_bytes.
  - by rewrite Ef, E3.
Qed.

Lemma parts_further j i fl l l' :
  (forall z, z ∈ l -> z ∈ l') -> Forall (fun f => has_parts j i f l) fl -> Forall (fun f => has_parts j i f l') fl.
Proof. intros Hl Hf. eapply Forall_impl; [exact Hf|]. intros f. by apply has_parts_mono. Qed.

(** The records are complete: they are padded to whole sectors, and the first one is
    told the size. *)
Lemma content_padded j d s dot dotdot new1 new2 b :
  let size := sector_align (blen b) in
  let p := overwrite 10 (both32 size) (b ++ replicate (Z.to_nat (size - blen b)) 0) in
  records_of b (([(0, dot); (40, dotdot)] ++ new1) ++ new2) -> blen b < TEMP_BUF_SIZE -> size <= TEMP_BUF_SIZE ->
  blen dot = 40 -> blen dotdot = 40 -> Z.land (rec_flags dotdot) ISO_DIRECTORY <> 0 ->
  subdir_entry [0] s size (overwrite 10 (both32 size) dot) ->
  Forall (fun f => has_parts j 0 f new1) (fileList d) -> only_files j (fileList d) new1 ->
  Forall (fun x => Z.land (rec_flags x.2) ISO_DIRECTORY <> 0) new2 ->
  content_of j d s p ((0, overwrite 10 (both32 size) dot) :: (40, dotdot) :: new1 ++ new2) /\
  blen p = size /\ 80 <= size.
Proof.
  intros size p C2 Hb Hsize Hdot Hdotdot Hdd Hself Hnew Honly Hdirs.
  destruct (records_content b _ _ C2 eq_refl) as [Hc Hs]; [unfold TEMP_BUF_SIZE in *; lia|].
  pose proof (content_overwrite _ [] 0 dot _ 10 (both32 size) Hc ltac:(lia) ltac:(done)) as Hc1.
  pose proof (chain_bounds _ 0 _ _ ltac:(lia) C2) as [_ Hall].
  apply Forall_app in Hall as [Hall _]. apply Forall_app in Hall as [Hall _].
  apply Forall_cons in Hall as [_ Hall]. apply Forall_inv in Hall as (_ & Hx & _).
  pose proof (sector_align_bounds (blen b) ltac:(unfold TEMP_BUF_SIZE in *; lia)) as [Hal _]. fold size in Hal, Hs.
  assert (blen p = size) as Hp by (unfold p; rewrite blen_overwrite; rewrite ?blen_both32; lia).
  cbn [fst snd] in Hx. split; [|lia]. split; [exact Hc1|by rewrite Hp| | |].
  - eapply parts_further; [|exact Hnew].
    intros z Hz. do 2 (apply elem_of_cons; right). apply elem_of_app. by left.
  - unfold only_files. rewrite !Forall_cons, Forall_app. cbn.
    split; [intros Hz; by destruct (de_flags _ _ _ _ Hself)|]. split; [done|]. split; [exact Honly|].
    eapply Forall_impl; [exact Hdirs|]. done.
  - do 2 eexists. split; [done|]. by rewrite Hp.
Qed.

(** The root is its own parent: its second record gets the place of the first. *)
Lemma content_root j d s b r dotdot l : rec_ok dotdot -> Z.land (rec_flags dotdot) ISO_DIRECTORY <> 0 -> 80 <= blen b ->
  Forall (fun f => has_parts j 0 f l) (fileList d) -> content_of j d s b ((0, r) :: (40, dotdot) :: l) ->
  let b' := set_extent 40 (extent_at 0 b) b in
  content_of j d s b' ((0, r) :: (40, overwrite 2 (extent_at 0 b) dotdot) :: l) /\ blen b' = blen b.
Proof.
  intros Hok Hdd Hb Hl [Hc1 Hsz _ Ho (r' & l' & [= <- _] & Hd)] b'.
  pose proof (content_overwrite b [(0, r)] 40 dotdot _ 2 (extent_at 0 b)
    Hc1 ltac:(lia) ltac:(rewrite blen_extent by lia; lia)) as Hc2.
  assert (blen b' = blen b) as Hb' by (unfold b', set_extent; rewrite blen_overwrite; rewrite ?blen_extent; lia).
  split; [|done]. split; [exact Hc2|by rewrite Hb'| | |].
  - eapply parts_further; [|exact Hl]. intros z Hz. do 2 (apply elem_of_cons; right). done.
  - unfold only_files in *. rewrite !Forall_cons in *. destruct Ho as (Ho0 & _ & Ho).
    split; [done|]. split; [|done]. cbn [snd].
    rewrite (proj2 (overwrite_name 2 (extent_at 0 b) _ Hok ltac:(lia) ltac:(rewrite blen_extent; lia))).
    intros Hz. by destruct Hdd.
  - do 2 eexists. split; [done|]. by rewrite Hb'.
Qed.

Lemma buildContent_spec j dl k s w dl' s' w' :
  buildContent st_uninit j dl k s w = Some (Some (dl', s'), w') ->
  exists d b, dl !! k = Some d /\ built j dl k b dl' /\ 0 <= s' < 2 ^ 32 /\
    (Forall (short_dir j) dl -> exists l, content_of j d s b l /\
       s' = u32 (s + bytesToSectors (blen b))).
Proof.
  intros Hrun. unfold buildContent in Hrun. cbv zeta in Hrun.
  apply bind_Some in Hrun as (d & ? & [Ed ->]%defined_Some & Hrun).
  apply bind_Some in Hrun as (up & ? & [Eup ->]%defined_Some & Hrun).
  apply bind_Some in Hrun as (st1 & w1 & _ & Hrun).
  apply bind_Some in Hrun as (upc & w2 & Eupc & Hrun).
  apply bind_Some in Hrun as (st2 & w3 & _ & Hrun).
  apply bind_Some in Hrun as (buf1 & w4 & Ef & Hrun).
  apply bind_Some in Hrun as (buf2 & w5 & Edirs & Hrun).
  pose proof (blen_slice_le (0 + 2) 16 upc ltac:(lia)) as He.
  destruct (dots_ok (st_mtime st1) (st_mtime st2) s (extent_at 0 upc) (parent d =? k)%nat He) as [C0 Hdd].
  pose proof (self_entry s (st_mtime st1)) as Hself.
  set (dot := record_copy (mkRecord s 0 _ _ [0])) in *.
  set (dotdot := record_copy (mkRecord 0 0 _ _ [1])) in *.
  set (dotdot' := if (parent d =? k)%nat then dotdot else set_extent 0 (extent_at 0 upc) dotdot) in *.
  assert (blen (dot ++ dotdot') = 80) as Hb0.
  { rewrite blen_app. change (blen dot) with 40.
    enough (blen dotdot' = 40) by lia. unfold dotdot'. destruct (_ =? _)%nat; [done|].
    apply (blen_overwrite 2); [lia|]. change (blen dotdot) with 40. unfold extent_at. lia. }
  eapply files_records_spec in Ef as (new1 & C1 & Hb1 & Hnew & Honly); [|exact C0|rewrite Hb0; done].
  set (size := sector_align (blen buf2)) in *. set (p := buf2 ++ _) in *.
  set (p1 := overwrite 10 (both32 size) p) in *. specialize (Hself size).
  destruct (Z.ltb_spec TEMP_BUF_SIZE size); [done|].
  assert (blen dotdot' = 40) as Hdl by (rewrite blen_app in Hb0; change (blen dot) with 40 in Hb0; lia).
  assert (Forall (short_dir j) dl -> exists l2,
    content_of j d s p1 ((0, overwrite 10 (both32 size) dot) :: (40, dotdot') :: new1 ++ l2) /\
    blen p1 = size /\ 80 <= size /\ Forall (fun f => has_parts j 0 f (new1 ++ l2)) (fileList d)) as Hshort.
  { intros Hsh. eapply dirs_records_spec in Edirs as (new2 & C2 & Hb2 & Hdirs); [|done..]. exists new2.
    destruct (content_padded j d s dot dotdot' new1 new2 buf2 C2 Hb2) as (? & ? & ?); try done; [by destruct Hdd|].
    do 3 (split; [done|]). eapply parts_further; [|exact Hnew]. intros z Hz. apply elem_of_app. by left. }
  exists d. destruct (Nat.eqb_spec (parent d) k) as [Ek|Ek].
  - apply ret_Some in Hrun as [[= <- <-] ->]. eexists. split; [done|]. split; [by econstructor|].
    split; [by apply Z.mod_pos_bound|]. intros Hsh. destruct (Hshort Hsh) as (l2 & Hc & Hp1 & Hsize & Hparts).
    destruct (content_root j d s p1 _ dotdot' (new1 ++ l2) (proj1 Hdd) (proj2 Hdd) ltac:(lia) Hparts Hc) as [Hc2 Hp2].
    eexists. rewrite Hp2, Hp1. by split.
  - apply bind_Some in Hrun as (child & ? & [Ec ->]%defined_Some & Hrun).
    apply bind_Some in Hrun as (o & ? & [-> ->]%or_fail_Some & Hrun).
    destruct (Z.ltb_spec (blen upc) (o + 18)); [done|]. apply ret_Some in Hrun as [[= <- <-] ->].
    apply defined_Some in Eupc as [Eupc _]. unfold findDirRecord in Ec.
    destruct (iso_name j 204 127 (dl_name d)) as [name|] eqn:En; [|done].
    injection Ec as Ec. exists p1. split; [done|].
    split; [by eapply built_child|]. split; [by apply Z.mod_pos_bound|].
    intros Hsh. destruct (Hshort Hsh) as (l2 & Hc1 & Hp1 & _).
    eexists. rewrite Hp1. split; [exact Hc1|done].
Qed.
End contents.
