(* ===== verification/VIsoTells.v ===== *)
(** * What the directories of a virtual image say

    After all contents are built, the records of every directory lead to its
    files and to the contents of its subdirectories, and its first record to
    itself.  [fixLba] turns the sectors, which are counted from the first
    directory's and the first file's, into sectors of the image. *)

From S2P Require Import Prelude Endian CString Os FileIso VIso VIsoView VIsoNames VIsoTree VIsoDirs.
From S2P Require Import VIsoImage VIsoRecords VIsoBuild VIsoContents.

Implicit Types (dl : list DirList) (d : DirList) (f : FileList) (k i c m : nat).

(** A directory without its contents. *)
Definition bare (d : DirList) : DirList :=
  mkDirList (dl_path d) (path_len d) (full_len d) None None (idx d) (fileList d) (parent d) (children d).

Lemma bare_set_content j b d : bare (set_content j b d) = bare d.
Proof. by destruct j. Qed.

Lemma bare_insert j b dl k d :
  dl !! k = Some d -> bare <$> <[k := set_content j b d]> dl = bare <$> dl.
Proof.
  intros E. rewrite list_fmap_insert, bare_set_content. apply list_insert_id.
  by rewrite list_lookup_fmap, E.
Qed.

Lemma built_bare j dl k b dl' : built j dl k b dl' -> bare <$> dl' = bare <$> dl.
Proof.
  destruct 1 as [d Ed _|d up upc name o Ed Hne Eup Eupc _ _ _]; [by apply bare_insert|].
  rewrite bare_insert; [by apply bare_insert|]. by rewrite list_lookup_insert_ne.
Qed.

Lemma built_other j dl k b dl' :
  built j dl k b dl' -> get_content (negb j) <$> dl' = get_content (negb j) <$> dl.
Proof.
  assert (forall dl k b d, dl !! k = Some d ->
    get_content (negb j) <$> <[k := set_content j b d]> dl = get_content (negb j) <$> dl) as Hins.
  { intros dl0 k0 b0 d0 E. rewrite list_fmap_insert. apply list_insert_id.
    rewrite list_lookup_fmap, E. by destruct j. }
  destruct 1 as [d Ed _|d up upc name o Ed Hne Eup Eupc _ _ _]; [by apply Hins|].
  rewrite Hins; [by apply Hins|]. by rewrite list_lookup_insert_ne.
Qed.

(** What the proofs need to know of a directory is in its bare form. *)
Lemma bare_lookup dl dl' i d' :
  bare <$> dl' = bare <$> dl -> dl' !! i = Some d' -> exists d, dl !! i = Some d /\ bare d' = bare d.
Proof.
  intros E Hd. pose proof (f_equal (fun l => l !! i) E) as Ei. cbn beta in Ei.
  rewrite !list_lookup_fmap, Hd in Ei. destruct (dl !! i) as [d|]; [|done].
  exists d. split; [done|]. by apply (inj Some) in Ei.
Qed.

Lemma bare_eq d d' :
  bare d' = bare d -> dl_name d' = dl_name d /\ fileList d' = fileList d /\ parent d' = parent d.
Proof. intros [= E1 E2 _ _ E3 E4 _]. unfold dl_name. by rewrite E1, E2, E3, E4. Qed.

(** ** Sizes and sectors *)

Definition csize (j : bool) dl k : Z :=
  match dl !! k with Some d => from_option blen 0 (get_content j d) | None => 0 end.

(** The sectors of the contents before the [k]-th. *)
Fixpoint cstart (j : bool) dl k : Z :=
  match k with O => 0 | S k => cstart j dl k + bytesToSectors (csize j dl k) end.

Lemma cstart_ext j dl dl' k :
  (forall i, (i < k)%nat -> csize j dl' i = csize j dl i) -> cstart j dl' k = cstart j dl k.
Proof. induction k as [|k IH]; intros E; cbn; [done|]. rewrite IH, E by (intros; apply E || idtac; lia). done. Qed.

Lemma csize_contents j dl dl' :
  get_content j <$> dl' = get_content j <$> dl -> forall k, csize j dl' k = csize j dl k.
Proof.
  intros E k. pose proof (f_equal (fun l => l !! k) E) as Ek. cbn beta in Ek.
  rewrite !list_lookup_fmap in Ek. unfold csize.
  destruct (dl' !! k), (dl !! k); cbn in Ek; try done. by injection Ek as ->.
Qed.

Lemma blen_set_extent o e b : 0 <= o -> o + 18 <= blen b -> blen e <= 16 -> blen (set_extent o e b) = blen b.
Proof. intros. unfold set_extent. apply blen_overwrite; lia. Qed.

(** ** Records that lead to files and directories *)

(** The children of a directory, and its files, have names of their own, as
    they are searched for. *)
Record no_clash (j : bool) dl : Prop := {
  nc_files i d f k x : dl !! i = Some d -> f ∈ fileList d -> dl !! k = Some x -> parent x = i -> k <> i ->
    iso_name j 204 127 (dl_name x) <> file_name j f;
  nc_dirs c c' x x' : dl !! c = Some x -> dl !! c' = Some x' -> parent x = parent x' ->
    c <> parent x -> c' <> parent x -> c <> c' ->
    iso_name j 204 127 (dl_name x) <> iso_name j 204 127 (dl_name x');
}.

Record good_names (j : bool) dl : Prop := {
  gn_short : Forall (short_dir j) dl;
  gn_clash : no_clash j dl;
}.

(** Directories come after their parents. *)
Definition ordered dl : Prop := forall k d, dl !! k = Some d -> (parent d <= k)%nat.

Lemma good_names_bare j dl dl' : bare <$> dl' = bare <$> dl -> good_names j dl -> good_names j dl'.
Proof.
  intros E [Hs [Hf Hd]]. split; [|split].
  - apply Forall_lookup. intros i d Hi.
    destruct (bare_lookup _ _ _ _ E Hi) as (d0 & Hd0 & (En & _)%bare_eq).
    unfold short_dir. rewrite En. exact (proj1 (Forall_lookup _ _) Hs _ _ Hd0).
  - intros i d f k x Hi Hin Hx Hp Hne.
    destruct (bare_lookup _ _ _ _ E Hi) as (d0 & Hd0 & (_ & Ef & _)%bare_eq).
    destruct (bare_lookup _ _ _ _ E Hx) as (x0 & Hx0 & (Ec & _ & Ep)%bare_eq).
    rewrite Ec. eapply Hf; [exact Hd0| |exact Hx0| |done]; congruence.
  - intros c c' x x' Hx Hx' Hp Hc Hc' Hne.
    destruct (bare_lookup _ _ _ _ E Hx) as (x0 & Hx0 & (Ec & _ & Ep)%bare_eq).
    destruct (bare_lookup _ _ _ _ E Hx') as (x0' & Hx0' & (Ec' & _ & Ep')%bare_eq).
    rewrite Ec, Ec'. apply (Hd c c'); congruence.
Qed.

Lemma ordered_bare dl dl' : bare <$> dl' = bare <$> dl -> ordered dl -> ordered dl'.
Proof.
  intros E Ho k d Hd. destruct (bare_lookup _ _ _ _ E Hd) as (d0 & Hd0 & (_ & _ & Ep)%bare_eq).
  rewrite Ep. by eapply Ho.
Qed.

(** What the contents of the [i]-th directory say, when the first [m] have been
    built.  [fb] and [db] are the sectors of the first file and directory. *)
Record dir_tells (j : bool) (fb db : Z) dl m i d (b : bytes) (l : list (Z * bytes)) : Prop := {
  dt_content : get_content j d = Some b;
  dt_ok : content_ok b l;
  dt_size : blen b <= TEMP_BUF_SIZE;
  dt_self : exists r l', l = (0, r) :: l' /\ subdir_entry [0] (db + cstart j dl i) (blen b) r;
  dt_files : Forall (fun f => has_parts j fb f l) (fileList d);
  dt_only : only_files j (fileList d) l;
  dt_dirs c x : (c < m)%nat -> dl !! c = Some x -> parent x = i -> c <> i ->
    exists o r name, (o, r) ∈ l /\ iso_name j 204 127 (dl_name x) = Some name /\
      subdir_entry name (db + cstart j dl c) (csize j dl c) r;
}.

Definition done_upto (j : bool) (fb db : Z) dl m : Prop :=
  forall i d, dl !! i = Some d -> (i < m)%nat -> exists b l, dir_tells j fb db dl m i d b l.

(** ** Entering the extent of a subdirectory *)

Lemma enter_extent b l name o e :
  content_ok b l -> find_record (S (length b)) 0 name b = Some o -> blen name < 256 -> blen e <= 16 ->
  exists r l1 l2, l = l1 ++ (o, r) :: l2 /\ rec_ok r /\ rec_name r = name /\
    content_ok (set_extent o e b) (l1 ++ (o, overwrite 2 e r) :: l2) /\
    blen (set_extent o e b) = blen b.
Proof.
  intros Hc Hf Hname He. pose proof Hc as [(end_ & C & Hend) _].
  destruct (find_record_chain _ 0 _ _ _ _ _ ltac:(lia) C Hend Hf Hname) as (r & Hin & Hn0 & Hnr).
  apply list_elem_of_split in Hin as (l1 & l2 & ->). exists r, l1, l2. split; [done|].
  pose proof (chain_split _ _ _ _ _ C) as (m & _ & C2). inversion C2; subst.
  split; [done|]. split; [unfold rec_name; by rewrite Hn0|].
  split; [apply content_overwrite; [done|lia|lia]|].
  by destruct (chain_overwrite b 0 l1 o r l2 end_ 2 e) as (Hb & _); [done..|lia|lia|].
Qed.

(** The record that is changed gets the extent of the contents. *)
Lemma entered b r0 l name s n r :
  content_ok b ((0, r0) :: l) -> subdir_entry name s n r0 -> rec_ok r ->
  Z.land (rec_flags r) ISO_DIRECTORY <> 0 ->
  subdir_entry (rec_name r) s n (overwrite 2 (extent_at 0 b) r).
Proof.
  intros [(e & C & _) _] [_ Hs Hn _] Hok Hf. pose proof Hok as [].
  inversion C as [|? ? ? ? ? Hnext Hr0 Hok0 _]; subst. pose proof Hok0 as [].
  apply next_record_Some in Hnext as [Hb _]; [|lia].
  assert (blen r0 <= blen b) as Hle.
  { pose proof (chain_bounds _ 0 _ _ ltac:(lia) C) as [_ Hall]. apply Forall_inv in Hall. lia. }
  assert (blen (extent_at 0 b) = 16) as He by (apply blen_extent; lia).
  destruct (overwrite_name 2 (extent_at 0 b) r Hok ltac:(lia) ltac:(lia)) as [En Ef].
  assert (forall q a, 0 <= q -> 0 <= a -> q + a <= 16 ->
    slice (2 + q) a (overwrite 2 (extent_at 0 b) r) = slice (2 + q) a r0) as Hx.
  { intros q a ???. rewrite slice_overwrite_in by lia. unfold extent_at.
    rewrite slice_slice by lia. rewrite <- Hr0. rewrite slice_slice by lia. done. }
  split; [done| | |by rewrite Ef].
  - unfold rec_start. by rewrite (Hx 0) by lia.
  - unfold rec_length. by rewrite (Hx 8) by lia.
Qed.

(** A directory that is not touched says what it said. *)
Lemma tells_same j fb db dl dl' m i d b l :
  (forall i, (i < m)%nat -> csize j dl' i = csize j dl i) -> (i < m)%nat ->
  (forall c x, dl' !! c = Some x -> exists y, dl !! c = Some y /\ bare x = bare y) ->
  dir_tells j fb db dl m i d b l -> dir_tells j fb db dl' m i d b l.
Proof.
  intros Hsz Hi Hbare []. assert (forall k, (k <= m)%nat -> cstart j dl' k = cstart j dl k) as Hst.
  { intros k Hk. apply cstart_ext. intros; apply Hsz; lia. }
  split; try done.
  - destruct dt_self0 as (r & l' & -> & He). exists r, l'. by rewrite Hst by lia.
  - intros c x Hc Hx Hp Hne. destruct (Hbare _ _ Hx) as (y & Hy & (En & _ & Ep)%bare_eq).
    destruct (dt_dirs0 c y Hc Hy) as (o & r & name & ? & ? & ?); [congruence|done|].
    exists o, r, name. by rewrite En, Hst, Hsz by lia.
Qed.

(** One more directory has been built, with nothing entered in it yet. *)
Lemma tells_more j fb db dl m i d b l :
  (forall x, dl !! m = Some x -> parent x = i -> m = i) ->
  dir_tells j fb db dl m i d b l -> dir_tells j fb db dl (S m) i d b l.
Proof.
  intros Hm []. split; try done. intros c x Hc Hx Hp Hne.
  destruct (decide (c = m)) as [->|]; [by destruct Hne; eapply Hm|]. apply dt_dirs0; [lia|done..].
Qed.

Lemma new_tells j dl' k d b l :
  content_of j d (cstart j dl' k) b l -> get_content j d = Some b ->
  (forall c x, (c < k)%nat -> dl' !! c = Some x -> parent x <> k) ->
  dir_tells j 0 0 dl' k k d b l.
Proof.
  intros [Hok Hsz Hf Ho (r & l' & -> & Hs)] Hb Hp. split; [done|done|done| |done|done|].
  - exists r, l'. by rewrite Z.add_0_l.
  - intros c x Hc Hx Hpar. by destruct (Hp c x Hc Hx).
Qed.

Lemma replaced_in {A} (x y z : A) l1 l2 : z ∈ l1 ++ x :: l2 -> z = x \/ z ∈ l1 ++ y :: l2.
Proof.
  intros [?|[?|?]%elem_of_cons]%elem_of_app; [right|by left|right]; apply elem_of_app;
    [by left|right; by apply elem_of_cons; right].
Qed.

Lemma strncpy_upper_nonzero n s : Forall (fun x => x <> 0) (strncpy_upper n s).
Proof.
  revert s. induction n as [|n IH]; intros [|c s]; cbn [strncpy_upper]; try constructor.
  destruct (Z.eqb_spec c 0); [constructor|]. constructor; [|apply IH].
  unfold upper. destruct (97 <=? c) eqn:E1, (c <=? 122) eqn:E2; cbn; lia.
Qed.

(** No child is taken for the directory itself. *)
Lemma iso_name_not_dot j n1 n2 s : iso_name j n1 n2 s <> Some [0].
Proof.
  unfold iso_name. destruct j.
  - destruct (utf8_to_ucs2 _ _) as [l|]; [|done]. cbn. intros E%(inj Some).
    pose proof (blen_ucs2_bytes l) as Hb. rewrite E in Hb. change (blen [0]) with 1 in Hb. lia.
  - intros E%(inj Some). pose proof (strncpy_upper_nonzero n1 s) as Hz. rewrite E in Hz.
    by apply Forall_inv in Hz.
Qed.

Section enter.
Context (j : bool) (dl dl' : list DirList) (k : nat) (d up : DirList) (b upc name : bytes) (o : Z).
Let e := extent_at 0 b.
Context (Hnames : good_names j dl) (Hbare : bare <$> dl' = bare <$> dl).
Context (Hd : dl !! k = Some d) (Hup : dl !! parent d = Some up) (Hlt : (parent d < k)%nat).
Context (Hsz : forall i, (i < k)%nat -> csize j dl' i = csize j dl i) (Hk : csize j dl' k = blen b).
Context (Hname : iso_name j 204 127 (dl_name d) = Some name).

(** The parent of the directory that has been built. *)
Lemma enter_tells lup l :
  dir_tells j 0 0 dl k (parent d) up upc lup -> content_of j d (cstart j dl k) b l ->
  find_record (S (length upc)) 0 name upc = Some o ->
  exists lup', dir_tells j 0 0 dl' (S k) (parent d) (set_content j (set_extent o e upc) up)
    (set_extent o e upc) lup'.
Proof.
  intros [_ Hok Hsize Hself Hfiles Honly Hdirs] [Hbok _ _ _ (r0 & l' & -> & Hr0)] Hfind.
  destruct (enter_extent upc lup name o e Hok Hfind) as (r & l1 & l2 & -> & Hr & Hrn & Hok' & Hlen).
  { apply iso_name_length in Hname. lia. }
  { unfold e, extent_at. apply blen_slice_le. lia. }
  assert (forall i, (i <= k)%nat -> cstart j dl' i = cstart j dl i) as Hst.
  { intros i Hi. apply cstart_ext. intros; apply Hsz; lia. }
  destruct Hnames as [_ [Hnf Hnd]].
  assert (Z.land (rec_flags r) ISO_DIRECTORY <> 0) as Hflags.
  { intros Hz. apply Forall_app in Honly as [_ Honly]. apply Forall_inv in Honly.
    destruct (Honly Hz) as (f & Hf & Ef). cbn in Ef. rewrite Hrn in Ef.
    apply (Hnf (parent d) up f k d); [done..|lia|congruence]. }
  pose proof (entered b r0 l' [0] _ _ r Hbok Hr0 Hr Hflags) as Hnew. fold e in Hnew. rewrite Hrn in Hnew.
  pose proof (proj1 (overwrite_name 2 e r Hr ltac:(lia) ltac:(unfold e, extent_at; pose proof (blen_slice_le (0 + 2) 16 b); lia))) as Hn2.
  pose proof (de_flags _ _ _ _ Hnew) as Hf2.
  eexists. split; [by destruct j|exact Hok'|by rewrite Hlen| | | |].
  - destruct Hself as (rs & ls & Els & Hs). rewrite Hlen. destruct l1 as [|x l1].
    + injection Els as -> -> _. pose proof (de_name _ _ _ _ Hs) as E. rewrite Hrn in E.
      subst name. rewrite E in Hname. by destruct (iso_name_not_dot _ _ _ _ Hname).
    + injection Els as -> _. exists rs. eexists. split; [done|]. by rewrite Hst by lia.
  - assert (fileList (set_content j (set_extent o e upc) up) = fileList up) as -> by by destruct j.
    rewrite Forall_forall in *. intros f Hf i Hi. destruct (Hfiles f Hf i Hi) as (o' & r' & Hin & He).
    exists o', r'. split; [|done]. apply (replaced_in _ (o, overwrite 2 e r)) in Hin as [[= -> ->]|]; [|done].
    destruct (Hnf (parent d) up f k d Hup Hf Hd eq_refl ltac:(lia)). by rewrite (fe_name _ _ _ _ _ He), Hrn.
  - assert (fileList (set_content j (set_extent o e upc) up) = fileList up) as -> by by destruct j.
    unfold only_files in *. rewrite Forall_app, Forall_cons in *. destruct Honly as (? & _ & ?).
    split; [done|]. split; [|done]. intros Hz. by destruct Hf2.
  - intros c x Hc Hx Hp Hne. destruct (bare_lookup _ _ _ _ Hbare Hx) as (y & Hy & (En & _ & Ep)%bare_eq).
    rewrite En. destruct (decide (c = k)) as [->|].
    + assert (y = d) as -> by congruence. exists o, (overwrite 2 e r), name. split; [|split; [done|]].
      { apply elem_of_app. right. constructor. }
      by rewrite Hst, Hk, Z.add_0_l by lia.
    + destruct (Hdirs c y ltac:(lia) Hy ltac:(congruence) Hne) as (o' & r' & n' & Hin & En' & He).
      exists o', r', n'. split; [|split; [done|by rewrite Hst, Hsz by lia]].
      apply (replaced_in _ (o, overwrite 2 e r)) in Hin as [[= -> ->]|]; [|done].
      destruct (Hnd c k y d Hy Hd) as []; [congruence|congruence|lia|done|].
      rewrite En', <- (de_name _ _ _ _ He), Hrn. by rewrite Hname.
Qed.
End enter.

(** What has been built so far, and the next one. *)
Lemma done_next j dl dl' k b d l :
  dl' !! k = Some (set_content j b d) -> content_of j d (cstart j dl k) b l ->
  bare <$> dl' = bare <$> dl -> ordered dl -> (parent d <= k)%nat ->
  (forall i, (i < k)%nat -> csize j dl' i = csize j dl i) ->
  (forall i x, (i < k)%nat -> dl' !! i = Some x -> exists bi li, dir_tells j 0 0 dl' (S k) i x bi li) ->
  done_upto j 0 0 dl' (S k).
Proof.
  intros Hk [] Hbare Hord Hp Hsz Hrest i x Hx Hi.
  destruct (decide (i = k)) as [->|]; [|apply Hrest; [lia|done]].
  assert (x = set_content j b d) as -> by congruence. exists b, l.
  assert (fileList (set_content j b d) = fileList d) as Ef by by destruct j.
  apply tells_more; [done|]. apply new_tells.
  - rewrite (cstart_ext j dl); [|done]. split; rewrite ?Ef; done.
  - by destruct j.
  - intros c y Hc Hy Hpy. pose proof (ordered_bare _ _ Hbare Hord c y Hy). lia.
Qed.

Lemma csize_set j dl k b d : dl !! k = Some d -> csize j (<[k := set_content j b d]> dl) k = blen b.
Proof. intros Hd. unfold csize. rewrite list_lookup_insert_eq by (by eapply lookup_lt_Some). by destruct j. Qed.

Lemma csize_other j dl k i x : i <> k -> csize j (<[k := x]> dl) i = csize j dl i.
Proof. intros Hi. unfold csize. by rewrite list_lookup_insert_ne. Qed.

Lemma built_sizes j dl k b dl' d :
  done_upto j 0 0 dl k -> ordered dl -> built j dl k b dl' -> dl !! k = Some d ->
  csize j dl' k = blen b /\ forall i, (i < k)%nat -> csize j dl' i = csize j dl i.
Proof.
  intros Hdone Hord Hb Hd. pose proof (Hord _ _ Hd) as Hp.
  destruct Hb as [d' Ed Ep|d' up upc name o Ed Hne Eup Eupc En Hf Ho];
    assert (d' = d) as -> by congruence; clear Ed.
  - split; [by apply csize_set|]. intros i Hi. apply csize_other. lia.
  - split; [apply csize_set; by rewrite list_lookup_insert_ne by lia|].
    intros i Hi. rewrite csize_other by lia. destruct (decide (i = parent d)) as [->|]; [|by apply csize_other].
    rewrite csize_set by done. unfold csize. rewrite Eup, Eupc. cbn [from_option].
    destruct (Hdone _ _ Eup Hi) as (upc' & lup & Hup). assert (upc' = upc) as -> by (destruct Hup; congruence).
    destruct (enter_extent upc lup name o (extent_at 0 b) (dt_ok _ _ _ _ _ _ _ _ _ Hup) Hf)
      as (? & ? & ? & _ & _ & _ & _ & ?); [|apply blen_slice_le; lia|done].
    apply iso_name_length in En. lia.
Qed.

Lemma built_done j dl k b dl' d l :
  done_upto j 0 0 dl k -> good_names j dl -> ordered dl -> built j dl k b dl' -> dl !! k = Some d ->
  content_of j d (cstart j dl k) b l -> done_upto j 0 0 dl' (S k).
Proof.
  intros Hdone Hnames Hord Hb Hd Hc. pose proof (built_bare _ _ _ _ _ Hb) as Hbare.
  pose proof (Hord _ _ Hd) as Hp. destruct (built_sizes _ _ _ _ _ _ Hdone Hord Hb Hd) as [Hszk Hsz].
  assert (forall c x, dl' !! c = Some x -> exists y, dl !! c = Some y /\ bare x = bare y) as Hl
    by (intros c x; by apply bare_lookup).
  destruct Hb as [d' Ed Ep|d' up upc name o Ed Hne Eup Eupc En Hf Ho];
    assert (d' = d) as -> by congruence; clear Ed.
  - eapply done_next; [|exact Hc|done..|].
    + rewrite list_lookup_insert_eq by (by eapply lookup_lt_Some). done.
    + intros i x Hi Hx. rewrite list_lookup_insert_ne in Hx by lia.
      destruct (Hdone i x Hx Hi) as (bi & li & Ht). exists bi, li.
      apply tells_more; [|by eapply tells_same].
      intros y Hy <-. rewrite list_lookup_insert_eq in Hy by (by eapply lookup_lt_Some).
      injection Hy as <-. by destruct j.
  - assert (parent d < k)%nat as Hlt by lia.
    destruct (Hdone _ _ Eup Hlt) as (upc' & lup & Hup). assert (upc' = upc) as -> by (destruct Hup; congruence).
    eapply done_next; [|exact Hc|done..|].
    + rewrite list_lookup_insert_eq; [done|]. rewrite length_insert. by eapply lookup_lt_Some.
    + intros i x Hi Hx. rewrite list_lookup_insert_ne in Hx by lia. destruct (decide (i = parent d)) as [->|Hi'].
      * rewrite list_lookup_insert_eq in Hx by (by eapply lookup_lt_Some). injection Hx as <-.
        eexists. eapply (enter_tells j dl); [done..|exact En|exact Hup|exact Hc|exact Hf].
      * rewrite list_lookup_insert_ne in Hx by done.
        destruct (Hdone i x Hx Hi) as (bi & li & Ht). exists bi, li.
        apply tells_more; [|by eapply tells_same].
        intros y Hy Hpar. destruct (Hl _ _ Hy) as (z & Hz & (_ & _ & Ez)%bare_eq).
        assert (z = d) as -> by congruence. congruence.
Qed.

Section loop.
Context {W : Type} `{PosixLaws W, !VisoSys W, !VisoView W, !VisoSysLaws W}.
Variable st_uninit : file_stat_t.

Lemma build_contents_keeps n j k dl s w ok dl' s' w' :
  build_contents st_uninit n j k dl s w = Some (ok, dl', s', w') ->
  undisturbed w w' /\ bare <$> dl' = bare <$> dl /\
  get_content (negb j) <$> dl' = get_content (negb j) <$> dl /\ (0 <= s < 2 ^ 32 -> 0 <= s' < 2 ^ 32).
Proof.
  revert k dl s w. induction n as [|n IH]; intros k dl s w; cbn [build_contents].
  { intros [= _ <- <- <-]. split; [apply undisturbed_refl|done]. }
  destruct (buildContent _ _ _ _ _ _) as [[[[dl1 s1]|] w1]|] eqn:E; [| |done].
  - intros (U' & Eb' & Eo' & Hs')%IH. pose proof (calm_buildContent undisturbed _ _ _ _ _ _ _ _ E) as U.
    destruct (buildContent_spec _ _ _ _ _ _ _ _ _ E) as (d & b & _ & Hb & Hs & _).
    split; [by eapply undisturbed_trans|].
    rewrite Eb', Eo', (built_bare _ _ _ _ _ Hb), (built_other _ _ _ _ _ Hb). auto.
  - intros [= _ <- <- <-]. split; [by eapply (calm_buildContent undisturbed)|done].
Qed.

Lemma build_contents_spec n j k dl s w dl' s' w' :
  build_contents st_uninit n j k dl s w = Some (true, dl', s', w') ->
  good_names j dl -> ordered dl -> done_upto j 0 0 dl k -> u32 s = u32 (cstart j dl k) ->
  done_upto j 0 0 dl' (k + n) /\ u32 s' = u32 (cstart j dl' (k + n)).
Proof.
  revert k dl s w. induction n as [|n IH]; intros k dl s w; cbn [build_contents].
  { intros [= <- <- _] _ _ Hd. by rewrite Nat.add_0_r. }
  destruct (buildContent _ _ _ _ _ _) as [[[[dl1 s1]|] w1]|] eqn:E; [|done..].
  intros Hrun Hn Ho Hd Hs.
  destruct (buildContent_spec _ _ _ _ _ _ _ _ _ E) as (d & b & Ed & Hb & _ & Hsh).
  destruct (Hsh (gn_short _ _ Hn)) as (l & Hc & Es). pose proof (built_bare _ _ _ _ _ Hb) as Eb.
  assert (content_of j d (cstart j dl k) b l) as Hc'.
  { destruct Hc as [? ? ? ? (r & l' & El & [])]. split; [done..|]. exists r, l'. split; [done|].
    split; [done|congruence|done|done]. }
  rewrite Nat.add_succ_r. apply (IH _ _ _ _ Hrun); [by eapply good_names_bare|by eapply ordered_bare| |].
  - by eapply built_done.
  - destruct (built_sizes _ _ _ _ _ _ Hd Ho Hb Ed) as [Ek Ei]. cbn [cstart].
    rewrite Ek, (cstart_ext j dl) by done. rewrite Es, u32_u32, <- u32_add, Hs, u32_add. done.
Qed.
End loop.

(** ** fixLba *)

Lemma shift_record_fields dirLba base r :
  rec_ok r -> let r' := shift_record dirLba base r in
  rec_ok r' /\ rec_name r' = rec_name r /\ rec_flags r' = rec_flags r /\ rec_length r' = rec_length r /\
  rec_start r' = u32 (rec_start r + (if Z.land (rec_flags r) ISO_DIRECTORY =? 0 then base else dirLba)).
Proof.
  intros Hok. pose proof Hok as []. cbv zeta. unfold shift_record. fold (rec_flags r).
  set (a := if _ =? 0 then base else dirLba). unfold shift_start. change (0 + 2) with 2.
  set (x := le_bytes 4 _ ++ be_bytes 4 _).
  assert (blen x = 8) as Hx by (unfold x; rewrite blen_app, blen_be_bytes; unfold blen; by rewrite length_le_bytes).
  pose proof (overwrite_name 2 x r Hok ltac:(lia) ltac:(lia)) as [En Ef].
  split; [apply (overwrite_ok 2 x r Hok); lia|]. split; [done|]. split; [done|].
  unfold rec_length, rec_start. split; [by rewrite slice_overwrite_out by lia|].
  assert (slice 2 4 (overwrite 2 x r) = le_bytes 4 (u32 (le_val (slice 2 4 r) + a))) as ->.
  { replace (slice 2 4 (overwrite 2 x r)) with (slice (2 + 0) 4 (overwrite 2 x r)) by done.
    rewrite slice_overwrite_in by lia. done. }
  rewrite le_val_le_bytes. change (2 ^ (8 * Z.of_nat 4)) with (2 ^ 32).
  fold (u32 (u32 (le_val (slice 2 4 r) + a))). apply u32_u32.
Qed.

Lemma shift_entry j dirLba base f a r :
  file_entry j 0 f a r -> file_entry j base f a (shift_record dirLba base r).
Proof.
  intros [Hok Hn Hs Hl Hf].
  destruct (shift_record_fields dirLba base r Hok) as (Hok' & En & Ef & El & Es).
  split; rewrite ?En, ?Ef, ?El; try done. rewrite Es, Hf, Hs, u32_add. cbn [Z.eqb]. f_equal. lia.
Qed.

Lemma shift_dir_entry dirLba base name s n r :
  rec_ok r -> subdir_entry name s n r -> subdir_entry name (dirLba + s) n (shift_record dirLba base r).
Proof.
  intros Hok [Hn Hs Hl Hf].
  destruct (shift_record_fields dirLba base r Hok) as (Hok' & En & Ef & El & Es).
  split; rewrite ?En, ?Ef, ?El; try done. rewrite Es, Hs, u32_add.
  destruct (Z.eqb_spec (Z.land (rec_flags r) ISO_DIRECTORY) 0); [done|]. f_equal. lia.
Qed.

Lemma content_rec_ok b l : content_ok b l -> Forall (fun x => rec_ok x.2) l.
Proof. intros [(e & C & _) _]. induction C; by constructor. Qed.

Definition dir_lba (j : bool) (a b : Z) : Z := if j then b else a.

Lemma get_content_fix j (a b fb : Z) d :
  get_content j (fix_dir a b fb d) = fixDirLba (dir_lba j a b) fb <$> get_content j d.
Proof. by destruct j. Qed.

(** After [fixLba] the sectors are counted from the start of the image. *)
Lemma done_fix j (a b fb : Z) dl :
  done_upto j 0 0 dl (length dl) ->
  done_upto j fb (dir_lba j a b) (fix_dir a b fb <$> dl) (length dl).
Proof.
  intros Hdone. assert (forall k, csize j (fix_dir a b fb <$> dl) k = csize j dl k) as Hsz.
  { intros k. unfold csize. rewrite list_lookup_fmap. destruct (dl !! k) as [d|] eqn:Ed; [|done]. cbn.
    destruct (Hdone _ _ Ed (lookup_lt_Some _ _ _ Ed)) as (x & l & Ht).
    rewrite get_content_fix, (dt_content _ _ _ _ _ _ _ _ _ Ht). cbn.
    apply (fixDirLba_content _ _ _ _ (dt_ok _ _ _ _ _ _ _ _ _ Ht)). }
  assert (forall k, cstart j (fix_dir a b fb <$> dl) k = cstart j dl k) as Hst by (intros; by apply cstart_ext).
  intros i d' (d & -> & Hd)%list_lookup_fmap_Some Hi. destruct (Hdone _ _ Hd Hi) as (x & l & Ht).
  destruct Ht as [Hc Hok Hsize (r & l' & El & Hr) Hf Ho Hdirs].
  destruct (fixDirLba_content (dir_lba j a b) fb x l Hok) as [Hok' Hlen].
  pose proof (content_rec_ok _ _ Hok) as Hrec.
  exists (fixDirLba (dir_lba j a b) fb x), (shift_item (dir_lba j a b) fb <$> l). split.
  - by rewrite get_content_fix, Hc.
  - done.
  - by rewrite Hlen.
  - subst l. do 2 eexists. split; [done|]. rewrite Hst, Hlen. apply Forall_inv in Hrec.
    by apply shift_dir_entry.
  - eapply Forall_impl; [exact Hf|]. intros f Hp n Hn. destruct (Hp n Hn) as (o & q & Hin & He).
    exists o, (shift_record (dir_lba j a b) fb q). split; [|by apply shift_entry].
    apply list_elem_of_fmap. by exists (o, q).
  - unfold only_files in *. apply Forall_fmap. rewrite Forall_forall in *. intros [o q] Hy. unfold compose, shift_item. cbn [fst snd].
    destruct (shift_record_fields (dir_lba j a b) fb q (Hrec _ Hy)) as (_ & -> & -> & _). by apply (Ho (o, q)).
  - intros k x' Hk (y & -> & Hy)%list_lookup_fmap_Some Hp Hne.
    destruct (Hdirs k y Hk Hy Hp Hne) as (o & q & name & Hin & En & He).
    exists o, (shift_record (dir_lba j a b) fb q), name. split; [apply list_elem_of_fmap; by exists (o, q)|].
    split; [done|]. rewrite Hst, Hsz. apply shift_dir_entry; [|done].
    rewrite Forall_forall in Hrec. by apply (Hrec (o, q)).
Qed.

(** A later pass over the other contents changes nothing. *)
Lemma done_same j fb db dl dl' m :
  bare <$> dl' = bare <$> dl -> get_content j <$> dl' = get_content j <$> dl ->
  done_upto j fb db dl m -> done_upto j fb db dl' m.
Proof.
  intros Eb Ec Hd i x Hx Hi. destruct (bare_lookup _ _ _ _ Eb Hx) as (y & Hy & (_ & Ef & _)%bare_eq).
  pose proof (f_equal (fun l => l !! i) Ec) as Ei. cbn beta in Ei.
  rewrite !list_lookup_fmap, Hx, Hy in Ei. apply (inj Some) in Ei.
  destruct (Hd _ _ Hy Hi) as (b & l & Ht). exists b, l. apply (tells_same j fb db dl); [|done| |].
  - intros k _. by apply csize_contents.
  - intros c z Hz. by apply (bare_lookup _ _ _ _ Eb).
  - destruct Ht. split; rewrite ?Ef, ?Ei; done.
Qed.
