(* ===== verification/VIsoTables.v ===== *)
(** * Virtual images: path tables

    A path table is the list of the directories, each with the sector of its
    contents and the number of its parent. *)

From S2P Require Import Prelude Endian CMem CString Os AbsFile FileIso VIso VIsoView.
From S2P Require Import VIsoNames VIsoTree VIsoDirs VIsoImage VIsoRecords VIsoBuild VIsoContents VIsoTells.

Implicit Types (dl : list DirList) (d : DirList) (e : bytes).

(** An entry: its name's length, and its own. *)
Record entry_ok e : Prop := {
  en_len : blen e = 8 + byte_at 0 e + Z.land (byte_at 0 e) 1;
  en_name : 0 <= byte_at 0 e;
}.

Definition shift_entry_start (dirLba : Z) (msb : bool) e : bytes :=
  overwrite 2 (if msb then be_bytes 4 (u32 (be_val (slice 2 4 e) + dirLba))
               else le_bytes 4 (u32 (le_val (slice 2 4 e) + dirLba))) e.

Lemma land_1_range n : 0 <= Z.land n 1 < 2.
Proof. change 1 with (Z.ones 1). rewrite Z.land_ones by lia. apply Z.mod_pos_bound. done. Qed.

Lemma overwrite_app_r o x a b : blen a <= o -> overwrite o x (a ++ b) = a ++ overwrite (o - blen a) x b.
Proof.
  intros Ho. unfold overwrite, blen in *. rewrite take_app_ge, drop_app_ge by lia.
  rewrite <- app_assoc. do 4 f_equal; lia.
Qed.

Lemma overwrite_app_l o x a b : 0 <= o -> o + blen x <= blen a -> overwrite o x (a ++ b) = overwrite o x a ++ b.
Proof.
  intros Ho Hx. unfold overwrite, blen in *. rewrite take_app_le, drop_app_le by lia. by rewrite <- !app_assoc.
Qed.

Lemma fix_entries_spec fuel pre es dirLba msb :
  Forall entry_ok es -> (length es < fuel)%nat ->
  fix_entries fuel (blen pre) dirLba msb (pre ++ concat es) =
  pre ++ concat (shift_entry_start dirLba msb <$> es).
Proof.
  intros He. revert fuel pre. induction He as [|e es [Hl Hn] He IH]; intros [|fuel] pre Hf; try (cbn in Hf; lia);
    cbn [fix_entries concat fmap list_fmap].
  { rewrite app_nil_r. destruct (Z.leb_spec (blen pre) (blen pre)); [done|lia]. }
  pose proof (land_1_range (byte_at 0 e)). rewrite !blen_app.
  pose proof (blen_nonneg (concat es)).
  destruct (Z.leb_spec (blen pre + (blen e + blen (concat es))) (blen pre)); [lia|].
  rewrite slice_app_r by lia. rewrite slice_app_l by lia.
  replace (blen pre + 2 - blen pre) with 2 by lia.
  set (x := if msb then _ else _).
  assert (blen x = 4) as Hx by (unfold x; destruct msb; [by rewrite blen_be_bytes|unfold blen; by rewrite length_le_bytes]).
  rewrite overwrite_app_r by lia. replace (blen pre + 2 - blen pre) with 2 by lia.
  rewrite overwrite_app_l by lia. fold (shift_entry_start dirLba msb e).
  assert (overwrite 2 x e = shift_entry_start dirLba msb e) as -> by done.
  assert (blen (shift_entry_start dirLba msb e) = blen e) as Hb.
  { unfold shift_entry_start. rewrite blen_overwrite; [done|lia|]. fold x. lia. }
  assert (byte_at 0 (shift_entry_start dirLba msb e) = byte_at 0 e) as Hfirst.
  { unfold shift_entry_start. rewrite byte_at_overwrite; [|lia|fold x; lia|lia]. fold x. zdecide; done. }
  rewrite byte_at_app_r, Z.sub_diag, byte_at_app_l, Hfirst by lia.
  rewrite app_assoc. replace (blen pre + 8 + byte_at 0 e + Z.land (byte_at 0 e) 1) with
    (blen (pre ++ shift_entry_start dirLba msb e)) by (rewrite blen_app; lia).
  rewrite IH by (cbn in Hf; lia). by rewrite <- app_assoc.
Qed.

Lemma blen_concat_entries es : Forall entry_ok es -> 8 * blen es <= blen (concat es).
Proof.
  induction 1 as [|e es [Hl Hn] _ IH]; [done|]. cbn [concat]. rewrite blen_cons, blen_app.
  pose proof (land_1_range (byte_at 0 e)). lia.
Qed.

Lemma fixPathTableLba_spec dirLba msb es :
  Forall entry_ok es ->
  fixPathTableLba dirLba msb (concat es) = concat (shift_entry_start dirLba msb <$> es).
Proof.
  intros He. unfold fixPathTableLba. apply (fix_entries_spec _ []); [done|].
  pose proof (blen_concat_entries es He). unfold blen in *. lia.
Qed.

(** ** buildPathTable *)

Lemma blen_le_bytes n x : blen (le_bytes n x) = Z.of_nat n.
Proof. unfold blen. by rewrite length_le_bytes. Qed.


Definition tall (j : bool) d : Prop := forall b, get_content j d = Some b -> 34 <= blen b.

Lemma path_entry_ok msb j dl i d e :
  tall j d -> path_entry msb j dl i d = Some e -> entry_ok e.
Proof.
  unfold path_entry. intros Ht. destruct (get_content j d) as [b|] eqn:E; [|done].
  destruct (if (i =? 0)%nat then _ else _) as [name|]; [|done]. destruct (dl !! parent d); [|done].
  specialize (Ht _ E). intros E1%(inj Some). rewrite <- E1. clear E1. pose proof (blen_nonneg name).
  set (a := if msb then slice 6 4 b else _). set (p := if msb then be_bytes 2 _ else _).
  assert (blen a = 4 /\ blen p = 2) as [Ha Hp].
  { unfold a, p. destruct msb; rewrite blen_slice by lia;
      [rewrite blen_be_bytes|unfold blen at 2; rewrite length_le_bytes]; lia. }
  assert (blen (pad_even name) = Z.land (blen name) 1) as Hpad.
  { unfold pad_even. pose proof (land_1_range (blen name)).
    destruct (Z.eqb_spec (Z.land (blen name) 1) 1); [done|]. change (blen []) with 0. lia. }
  change ([blen name; 0] ++ a ++ p ++ name ++ pad_even name) with
    (blen name :: 0 :: (a ++ p ++ name ++ pad_even name)).
  assert (byte_at 0 (blen name :: 0 :: (a ++ p ++ name ++ pad_even name)) = blen name) as E0 by done.
  split; rewrite E0; [|done]. rewrite !blen_cons, !blen_app. lia.
Qed.

(** The entries of a table: the first 65536 directories. *)
Lemma path_entries_spec msb j dl i l buf x :
  path_entries msb j dl i l buf = Some (Some x) ->
  exists es, x = buf ++ concat es /\
    (forall k e, es !! k = Some e -> exists d, l !! k = Some d /\ path_entry msb j dl (i + k) d = Some e) /\
    (Z.of_nat i + blen l <= 65536 -> length es = length l).
Proof.
  revert i buf. induction l as [|d l IH]; intros i buf; cbn [path_entries].
  { intros [= <-]. exists []. by rewrite app_nil_r. }
  rewrite blen_cons. pose proof (blen_nonneg l).
  destruct (Z.leb_spec 65536 (Z.of_nat i)).
  { intros [= <-]. exists []. rewrite app_nil_r. split; [done|]. split; [done|lia]. }
  destruct (_ <? _); [done|]. destruct (path_entry msb j dl i d) as [e|] eqn:Ee; [|done].
  intros (es & -> & Hes & Hlen)%IH. exists (e :: es). rewrite <- app_assoc. split; [done|].
  split; [|intros; cbn; rewrite Hlen by lia; done]. intros [|k] e'; cbn [lookup list_lookup].
  - intros [= <-]. exists d. by rewrite Nat.add_0_r.
  - intros Hk. rewrite Nat.add_succ_r. exact (Hes _ _ Hk).
Qed.

Lemma path_entries_bound msb j dl i l buf x :
  path_entries msb j dl i l buf = Some (Some x) -> blen buf <= TEMP_BUF_SIZE -> Forall (tall j) l ->
  blen x <= TEMP_BUF_SIZE.
Proof.
  intros Hrun Hb Ht. revert i buf Hrun Hb. induction Ht as [|d l Hd Ht IH]; intros i buf; cbn [path_entries].
  { by intros [= <-]. }
  destruct (_ <=? _); [by intros [= <-]|]. destruct (Z.ltb_spec TEMP_BUF_SIZE (blen buf + 8 + MAX_ISODIR)); [done|].
  destruct (path_entry msb j dl i d) as [e|] eqn:Ee; [|done]. intros Hrun Hb. eapply IH; [exact Hrun|].
  rewrite blen_app. pose proof (path_entry_ok _ _ _ _ _ _ Hd Ee) as [El Hn].
  unfold path_entry in Ee. destruct (get_content j d) as [b|]; [|done].
  destruct (if (i =? 0)%nat then Some [0] else iso_name j 254 127 (dl_name d)) as [name|] eqn:En; [|done].
  destruct (dl !! parent d); [|done]. injection Ee as Ee. assert (byte_at 0 e = blen name) as E0 by by rewrite <- Ee.
  assert (blen name <= 254) as Hname.
  { destruct (i =? 0)%nat; [by injection En as <-|]. apply iso_name_length in En. lia. }
  rewrite E0 in El. change 1 with (Z.ones 1) in El. rewrite Z.land_ones in El by lia.
  unfold MAX_ISODIR in *. change (2 ^ 1) with 2 in El. Z.to_euclidean_division_equations. lia.
Qed.

(** Both byte orders give tables of the same size. *)
Lemma path_entry_length j dl i d x y :
  tall j d -> path_entry false j dl i d = Some x -> path_entry true j dl i d = Some y -> blen x = blen y.
Proof.
  unfold path_entry. intros Ht. destruct (get_content j d) as [b|] eqn:E; [|done].
  destruct (if (i =? 0)%nat then _ else _); [|done]. destruct (dl !! parent d); [|done].
  specialize (Ht _ E). intros [= <-] [= <-].
  repeat rewrite ?blen_app, ?blen_cons, ?blen_le_bytes, ?blen_be_bytes. rewrite !blen_slice by lia. lia.
Qed.

Lemma path_entries_length j dl i l b1 b2 x y :
  Forall (tall j) l -> blen b1 = blen b2 ->
  path_entries false j dl i l b1 = Some (Some x) -> path_entries true j dl i l b2 = Some (Some y) ->
  blen x = blen y.
Proof.
  intros Ht. revert i b1 b2. induction Ht as [|d l Hd Ht IH]; intros i b1 b2 Hb; cbn [path_entries].
  { by intros [= <-] [= <-]. }
  destruct (_ <=? _); [by intros [= <-] [= <-]|]. rewrite Hb. destruct (_ <? _); [done|].
  destruct (path_entry false j dl i d) as [e1|] eqn:E1; [|done].
  destruct (path_entry true j dl i d) as [e2|] eqn:E2; [|done].
  apply IH. rewrite !blen_app, Hb. by rewrite (path_entry_length _ _ _ _ _ _ Hd E1 E2).
Qed.


Lemma path_entries_ok msb j dl i l buf x :
  path_entries msb j dl i l buf = Some (Some x) -> Forall (tall j) l ->
  exists es, x = buf ++ concat es /\ Forall entry_ok es.
Proof.
  intros (es & -> & Hes & _)%path_entries_spec Ht. exists es. split; [done|].
  apply Forall_lookup. intros k e He. destruct (Hes _ _ He) as (d & Hd & E).
  eapply path_entry_ok; [|exact E]. exact (proj1 (Forall_lookup _ _) Ht _ _ Hd).
Qed.

Lemma fix_table_length dirLba msb es :
  Forall entry_ok es -> blen (fixPathTableLba dirLba msb (concat es)) = blen (concat es).
Proof.
  intros He. rewrite fixPathTableLba_spec by done. induction He as [|e es [Hl Hn] He IH]; [done|].
  cbn [fmap list_fmap concat]. rewrite !blen_app. change (list_fmap bytes bytes ?f es) with (f <$> es).
  rewrite IH. f_equal. unfold shift_entry_start. pose proof (land_1_range (byte_at 0 e)).
  apply blen_overwrite; [lia|]. destruct msb; rewrite ?blen_be_bytes, ?blen_le_bytes; lia.
Qed.

(** A table of [build], and its size. *)
Lemma table_size msb j dl x dirLba :
  buildPathTable msb j dl = Some (Some x) -> Forall (tall j) dl ->
  blen (fixPathTableLba dirLba msb x) = blen x /\ blen x <= TEMP_BUF_SIZE.
Proof.
  intros E Ht. split; [|apply (path_entries_bound _ _ _ _ _ _ _ E); done].
  destruct (path_entries_ok _ _ _ _ _ _ _ E Ht) as (es & -> & He). by apply fix_table_length.
Qed.
