(* ===== verification/VIsoWrite.v ===== *)
(** * Virtual images: where [write] puts what

    The stores of [write] stay inside [fsBuf]; the contents of the directories
    are found at their sectors afterwards, and the volume descriptors hold the
    root directories' records. *)

From S2P Require Import Prelude Endian CMem CString Os AbsFile FileIso VIso VIsoView.
From S2P Require Import VIsoNames VIsoTree VIsoDirs VIsoImage VIsoRecords VIsoBuild VIsoContents VIsoTells VIsoTables.

(** ** Stores *)

(** A store of [d] at [o] that stays inside and leaves the slice at [a]. *)
Lemma store_keeps o d fs a n :
  0 <= o -> o + blen d <= blen fs -> 0 <= a -> 0 <= n -> a + n <= o \/ o + blen d <= a ->
  a + n <= blen fs ->
  blen (overwrite o d fs) = blen fs /\ slice a n (overwrite o d fs) = slice a n fs.
Proof. intros. split; [apply blen_overwrite; lia|apply slice_overwrite_out; lia]. Qed.

Lemma blen_store o d fs n : 0 <= o -> o + blen d <= n -> blen fs = n -> blen (overwrite o d fs) = n.
Proof. intros ?? <-. by apply blen_overwrite. Qed.

Definition total (l : list bytes) : Z := foldr (fun d n => blen d + n) 0 l.

Lemma total_cons d l : total (d :: l) = blen d + total l.
Proof. done. Qed.

Lemma total_nonneg l : 0 <= total l.
Proof. induction l as [|d l IH]; [done|]. rewrite total_cons. pose proof (blen_nonneg d). lia. Qed.

Lemma total_take l k : total (take k l) <= total l.
Proof.
  revert k. induction l as [|d l IH]; intros [|k]; cbn [take]; rewrite ?total_cons; [done|done| |].
  - pose proof (blen_nonneg d). pose proof (total_nonneg l). change (total []) with 0. lia.
  - specialize (IH k). lia.
Qed.

Lemma write_all_spec l p fs :
  0 <= p -> p + total l <= blen fs ->
  let '(p', fs') := write_all p l fs in
  p' = p + total l /\ blen fs' = blen fs /\
  (forall k d, l !! k = Some d -> slice (p + total (take k l)) (blen d) fs' = d) /\
  (forall a n, 0 <= a -> 0 <= n -> a + n <= blen fs -> a + n <= p \/ p + total l <= a ->
     slice a n fs' = slice a n fs).
Proof.
  revert p fs. induction l as [|d l IH]; intros p fs Hp Hl; cbn [write_all].
  { change (total []) with 0. rewrite Z.add_0_r. split; [done|]. split; [done|]. split; [done|done]. }
  rewrite total_cons in *. pose proof (blen_nonneg d). pose proof (total_nonneg l).
  assert (blen (overwrite p d fs) = blen fs) as Hb by (apply blen_overwrite; lia).
  specialize (IH (p + blen d) (overwrite p d fs) ltac:(lia) ltac:(lia)).
  destruct (write_all _ _ _) as [p' fs']. destruct IH as (-> & Hb' & Hin & Hout).
  split; [lia|]. split; [lia|]. split.
  - intros [|k] x; cbn [lookup list_lookup take].
    + intros [= <-]. change (total []) with 0. rewrite Z.add_0_r, Hout by lia.
      pose proof (slice_overwrite_in 0 (blen d) p d fs) as E. rewrite Z.add_0_r in E.
      rewrite E by lia. apply slice_all.
    + intros Hx. rewrite total_cons, Z.add_assoc. by apply Hin.
  - intros a n ????. rewrite Hout by lia. apply slice_overwrite_out; lia.
Qed.

(** ** Volume descriptors *)

Lemma volume_descriptor_spec type system volume escape fill size table_size l m root creation :
  blen system = 32 -> blen volume = 32 -> blen escape = 32 -> blen creation = 17 -> 34 <= blen root ->
  let d := volume_descriptor type system volume escape fill size table_size l m root creation in
  blen d = 2048 /\ slice 156 34 d = 34 :: slice 1 33 root.
Proof.
  intros Hs Hv He Hc Hr d. unfold d, volume_descriptor.
  assert (blen (slice 1 33 root) = 33) as Hroot by (rewrite blen_slice; lia).
  assert (forall x, blen (both32 x) = 8) as Hb by done.
  split.
  - repeat rewrite ?blen_app, ?blen_cons, ?blen_replicate, ?blen_le_bytes, ?blen_be_bytes, ?Hb, ?Hs, ?Hv, ?He, ?Hc, ?Hroot,
      ?blen_nil. unfold zeros. rewrite !blen_replicate. change (blen (str "CD001")) with 5. lia.
  - set (rest := (volume ++ _) ++ _). rewrite (app_assoc _ _ rest).
    rewrite !(app_assoc _ _ (([34] ++ slice 1 33 root) ++ rest)).
    match goal with |- slice _ _ (?h ++ _) = _ => assert (blen h = 156) as Hh end.
    { repeat rewrite ?blen_app, ?blen_cons, ?blen_replicate, ?blen_le_bytes, ?blen_be_bytes, ?Hb, ?Hs, ?Hv, ?He, ?blen_nil.
      unfold zeros. rewrite !blen_replicate. change (blen (str "CD001")) with 5. lia. }
    rewrite slice_app_r, Hh, Z.sub_diag by lia. rewrite slice_app_l by (rewrite ?blen_app, ?Hroot; change (blen [34]) with 1; lia).
    change ([34] ++ slice 1 33 root) with (34 :: slice 1 33 root).
    replace 34 with (blen (34 :: slice 1 33 root)) at 1 by (rewrite blen_cons; lia). apply slice_all.
Qed.

Lemma genIso9660TimePvd_length `{VisoSys W} t : blen (genIso9660TimePvd t) = 17.
Proof. done. Qed.

Lemma iso_volume_length name : blen (iso_volume name) = 32.
Proof.
  unfold iso_volume, spaces. rewrite blen_app, blen_replicate. pose proof (blen_strncpy_upper 32 name).
  unfold blen in *. lia.
Qed.

Lemma joliet_volume_length name b : joliet_volume name = Some b -> blen b = 32.
Proof.
  unfold joliet_volume. destruct (utf8_to_ucs2 16 _) as [l|] eqn:E; [|done]. intros [= <-].
  apply utf8_to_ucs2_length in E. pose proof (blen_ucs2_bytes l) as Hl.
  rewrite blen_app. unfold zeros. rewrite blen_replicate. unfold blen in *. lia.
Qed.

(** ** write *)

(** The contents of all directories, in sectors. *)
Fixpoint sectors_of (l : list bytes) : Z :=
  match l with [] => 0 | b :: l => bytesToSectors (blen b) + sectors_of l end.

Definition whole (b : bytes) : Prop := blen b mod SECTOR_SIZE = 0 /\ blen b <= 2 ^ 43 - SECTOR_SIZE.

Lemma whole_sectors b : whole b -> bytesToSectors (blen b) * SECTOR_SIZE = blen b.
Proof.
  intros [Hm Hs]. pose proof (blen_nonneg b). destruct (sectors_size (blen b)) as [-> _]; [split; lia|].
  unfold SECTOR_SIZE in *. Z.to_euclidean_division_equations. lia.
Qed.

Lemma total_sectors l : Forall whole l -> total l = sectors_of l * SECTOR_SIZE.
Proof.
  induction 1 as [|b l Hb _ IH]; [done|]. rewrite total_cons, IH. cbn [sectors_of].
  rewrite <- (whole_sectors b Hb) at 1. lia.
Qed.

(** The root directory's record in a volume descriptor. *)
Definition root_record (j : bool) : Z := 0x8000 + (if j then 0x800 else 0) + 156.

Lemma write_ps3_length `{VisoSys W} n code fs w fs' w' :
  0xA000 <= blen fs -> write_ps3 n code fs w = Some (fs', w') -> blen fs' = blen fs.
Proof.
  intros Hb. unfold write_ps3, get_rand. cbv zeta.
  destruct (sys_urandom 0x1B0 w) as [[x|] w1]; [|done]. destruct (sys_urandom 0x10 w1) as [[y|] w2]; [|done].
  intros [<- _]%(inj Some)%pair_eq. pose proof (blen_slice_le 0 0x1B0 x ltac:(lia)). pose proof (blen_slice_le 0 0x10 y ltac:(lia)).
  set (a := be_bytes 4 1 ++ zeros 4 ++ _). set (p := slice 0 4 code ++ [45] ++ _).
  assert (blen a = 16) as Ha by (unfold a; rewrite !blen_app, !blen_be_bytes; done).
  assert (blen p <= 32) as Hp.
  { unfold p, strncpy, spaces, zeros. rewrite !blen_app, !blen_replicate. pose proof (blen_slice_le 0 4 code ltac:(lia)).
    unfold blen. rewrite length_take. cbn [length]. unfold blen in *. lia. }
  set (s := str "PlayStation3" ++ [0]). assert (blen s = 13) as Hs by done.
  repeat apply blen_store; lia || done.
Qed.

Lemma write_descriptors_spec `{VisoSys W} t name root rootJ v fs fs' :
  0xA000 <= blen fs -> 34 <= blen root -> 34 <= blen rootJ ->
  write_descriptors t name root rootJ v fs = Some fs' ->
  blen fs' = blen fs /\
  forall j : bool, slice (root_record j) 34 fs' = 34 :: slice 1 33 (if j then rootJ else root).
Proof.
  intros Hb Hr Hj. unfold write_descriptors. cbv zeta.
  destruct (joliet_volume name) as [vol|] eqn:Ev; [|done]. apply joliet_volume_length in Ev.
  intros E%(inj Some). rewrite <- E. clear E.
  set (d1 := volume_descriptor 1 _ _ _ _ _ _ _ _ _ _). set (d2 := volume_descriptor 2 _ _ _ _ _ _ _ _ _ _).
  destruct (volume_descriptor_spec 1 (spaces 32) (iso_volume name) (zeros 32) 32 (volumeSize v) (pathTableSize v)
    20 (20 + bytesToSectors (pathTableSize v)) root (genIso9660TimePvd t)) as [L1 S1];
    [done|apply iso_volume_length|done|done|done|].
  destruct (volume_descriptor_spec 2 (zeros 32) vol (str "%/@" ++ zeros 29) 0 (volumeSize v) (pathTableSizeJoliet v)
    (20 + bytesToSectors (pathTableSize v) * 2)
    (20 + bytesToSectors (pathTableSize v) * 2 + bytesToSectors (pathTableSizeJoliet v)) rootJ (genIso9660TimePvd t))
    as [L2 S2]; [done..|].
  fold d1 in L1, S1. fold d2 in L2, S2.
  set (x := [0xFF] ++ _). assert (blen x = 2048) as Lx by done.
  assert (blen (zeros 2048) = 2048) as Lz by done.
  assert (blen (overwrite 0x8000 d1 fs) = blen fs) as B1 by (apply blen_store; lia).
  assert (blen (overwrite 0x8800 d2 (overwrite 0x8000 d1 fs)) = blen fs) as B2 by (apply blen_store; lia).
  assert (blen (overwrite 0x9000 x (overwrite 0x8800 d2 (overwrite 0x8000 d1 fs))) = blen fs) as B3
    by (apply blen_store; lia).
  split; [apply blen_store; lia|]. intros j. unfold root_record.
  rewrite !(slice_overwrite_out _ _ _ (zeros 2048)) by (destruct j; lia).
  rewrite !(slice_overwrite_out _ _ _ x) by (destruct j; lia). destruct j.
  - rewrite <- S2. change (0x8000 + 0x800 + 156) with (0x8800 + 156). apply slice_overwrite_in; lia.
  - rewrite slice_overwrite_out by lia. rewrite <- S1. apply (slice_overwrite_in 156 34 0x8000); lia.
Qed.

(** The sectors of the contents of the [j] tree in the image. *)
Definition base_sector (j : bool) v : Z :=
  tables_end (pathTableSize v) (pathTableSizeJoliet v) +
  (if j then from_option sectors_of 0 (mapM content (rootList v)) else 0).

(** What [write] has to be given: whole sectors, and room for them. *)
Record ready v : Prop := {
  rd_tables : exists l m jl jm, pathTableL v = Some l /\ pathTableM v = Some m /\
    pathTableJolietL v = Some jl /\ pathTableJolietM v = Some jm /\
    pathTableSize v = blen m /\ blen l = blen m /\ pathTableSizeJoliet v = blen jm /\ blen jl = blen jm /\
    blen m <= 2 ^ 43 - SECTOR_SIZE /\ blen jm <= 2 ^ 43 - SECTOR_SIZE;
  rd_contents : exists c cj, mapM content (rootList v) = Some c /\ mapM contentJoliet (rootList v) = Some cj /\
    Forall whole c /\ Forall whole cj /\ Forall (fun b => 34 <= blen b) c /\ Forall (fun b => 34 <= blen b) cj /\
    fsBufSize v = (tables_end (pathTableSize v) (pathTableSizeJoliet v) + sectors_of c + sectors_of cj) * SECTOR_SIZE;
}.

Lemma mapM_content j dl l k d b :
  mapM (get_content j) dl = Some l -> dl !! k = Some d -> get_content j d = Some b -> l !! k = Some b.
Proof.
  intros Hl Hd Hb. apply mapM_Some in Hl. destruct (Forall2_lookup_l _ _ _ _ _ Hl Hd) as (x & Hx & E). congruence.
Qed.

Lemma table_fits x n : 0 <= x <= n -> n <= 2 ^ 43 - SECTOR_SIZE -> x <= bytesToSectors n * SECTOR_SIZE.
Proof.
  intros Hx Hn. destruct (sectors_size n) as [-> _]; [split; lia|].
  pose proof (Z.mod_pos_bound (- n) SECTOR_SIZE). unfold SECTOR_SIZE in *. lia.
Qed.

(** Each piece lies inside the sum of all. *)
Lemma total_upto c k b : c !! k = Some b -> total (take k c) + blen b <= total c.
Proof.
  intros Hk. pose proof (total_take c (S k)) as Ht. rewrite (take_S_r _ _ _ Hk) in Ht.
  enough (total (take k c ++ [b]) = total (take k c) + blen b) by lia.
  clear. induction (take k c) as [|x lx IH]; cbn [app]; rewrite ?total_cons; [change (total []) with 0; lia|lia].
Qed.

(** The buffer before the descriptors. *)
Lemma first_sectors_length `{VisoSys W} v code (w : W) fs w' : 0xA000 <= fsBufSize v ->
  (if v_ps3Mode v then write_ps3 (volumeSize v) code (zeros (Z.to_nat (fsBufSize v))) w
   else Some (zeros (Z.to_nat (fsBufSize v)), w)) = Some (fs, w') -> blen fs = fsBufSize v.
Proof.
  intros Hv. assert (blen (zeros (Z.to_nat (fsBufSize v))) = fsBufSize v) as Bz by (unfold zeros; rewrite blen_replicate; lia).
  destruct (v_ps3Mode v); [|by intros [= <- _]]. rewrite <- Bz at 2. apply write_ps3_length. lia.
Qed.

(** The path tables are after the descriptors. *)
Lemma tables_after_records j fs l m jl jm n nj :
  0 <= n -> 0 <= nj -> blen l <= n -> blen m <= n -> blen jl <= nj -> 0xA000 + n * 2 + nj * 2 <= blen fs -> blen jm <= nj ->
  slice (root_record j) 34 (overwrite (0xA000 + n * 2 + nj) jm (overwrite (0xA000 + n * 2) jl
    (overwrite (0xA000 + n) m (overwrite 0xA000 l fs)))) = slice (root_record j) 34 fs.
Proof.
  intros Hn Hnj Hl Hm Hjl Hfs Hjm. pose proof (blen_nonneg l). pose proof (blen_nonneg m). pose proof (blen_nonneg jl).
  assert (0 <= root_record j /\ root_record j + 34 <= 0xA000) by (unfold root_record; destruct j; lia).
  repeat (rewrite slice_overwrite_out; [|lia|..]; try (rewrite ?blen_overwrite; rewrite ?blen_overwrite; rewrite ?blen_overwrite; lia)).
  done.
Qed.

Lemma write_spec `{VisoSys W} name code v (w : W) v' w' :
  ready v -> VIsoImage.write name code v w = Some (v', w') ->
  exists fs, fsBuf v' = Some (zext fs) /\ blen fs = fsBufSize v /\
    (forall j k d b l, mapM (get_content j) (rootList v) = Some l -> rootList v !! k = Some d ->
       get_content j d = Some b ->
       slice ((base_sector j v + sectors_of (take k l)) * SECTOR_SIZE) (blen b) fs = b) /\
    (forall j d b, head (rootList v) = Some d -> get_content j d = Some b ->
       slice (root_record j) 34 fs = 34 :: slice 1 33 b).
Proof.
  intros [(l & m & jl & jm & El & Em & Ejl & Ejm & Sm & Sl & Sjm & Sjl & Bm & Bjm)
    (c & cj & Ec & Ecj & Wc & Wcj & Tc & Tcj & Sfs)].
  unfold VIsoImage.write. destruct (sys_time w) as [t w1]. cbv zeta.
  pose proof (total_sectors c Wc) as Ttc. pose proof (total_sectors cj Wcj) as Ttcj.
  pose proof (total_nonneg c). pose proof (total_nonneg cj).
  set (n := bytesToSectors (pathTableSize v) * SECTOR_SIZE) in *.
  set (nj := bytesToSectors (pathTableSizeJoliet v) * SECTOR_SIZE) in *.
  assert (blen m <= n /\ blen jm <= nj) as [Hn Hnj].
  { unfold n, nj. rewrite Sm, Sjm. split; apply table_fits; split || lia; pose proof (blen_nonneg m);
      pose proof (blen_nonneg jm); lia. }
  pose proof (blen_nonneg m). pose proof (blen_nonneg jm).
  assert (fsBufSize v = 0xA000 + n * 2 + nj * 2 + total c + total cj) as Sz.
  { rewrite Sfs, Ttc, Ttcj. unfold tables_end, n, nj, SECTOR_SIZE. lia. }
  destruct (if v_ps3Mode v then _ else _) as [[fs0 w2]|] eqn:Ep; [|done].
  assert (blen fs0 = fsBufSize v) as B0 by (apply first_sectors_length in Ep; [done|lia]).
  clear Ep. destruct (head (rootList v)) as [d0|] eqn:Eh; cbn [fmap option_fmap option_map mjoin option_join]; [|done].
  destruct (content d0) as [root|] eqn:Er; [|done]. destruct (contentJoliet d0) as [rootJ|] eqn:Erj; [|done].
  rewrite head_lookup in Eh.
  pose proof (mapM_content false _ _ _ _ _ Ec Eh Er) as Hroot. pose proof (mapM_content true _ _ _ _ _ Ecj Eh Erj) as HrootJ.
  destruct (write_descriptors t name root rootJ v fs0) as [fs1|] eqn:Ed; [|done].
  apply write_descriptors_spec in Ed as [B1 R1]; [|lia| |];
    [|exact (proj1 (Forall_lookup _ _) Tc _ _ Hroot)|exact (proj1 (Forall_lookup _ _) Tcj _ _ HrootJ)].
  rewrite El, Em, Ejl, Ejm, Ec, Ecj.
  set (fs2 := overwrite _ jm _).
  assert (blen fs2 = fsBufSize v) as B2.
  { unfold fs2. repeat apply blen_store; lia. }
  assert (forall j, slice (root_record j) 34 fs2 = slice (root_record j) 34 fs1) as R2.
  { intros j. unfold fs2. apply tables_after_records; lia. }
  pose proof (write_all_spec c (0xA000 + n * 2 + nj * 2) fs2 ltac:(lia) ltac:(lia)) as Hc.
  destruct (write_all _ c fs2) as [p fs3]. destruct Hc as (-> & B3 & In3 & Out3).
  pose proof (write_all_spec cj (0xA000 + n * 2 + nj * 2 + total c) fs3 ltac:(lia) ltac:(lia)) as Hcj.
  destruct (write_all _ cj fs3) as [p fs4]. destruct Hcj as (_ & B4 & In4 & Out4).
  intros [= <- _]. exists fs4. split; [done|]. split; [lia|]. split.
  - intros j k d b l0 Hl Hd Hb. pose proof (mapM_content _ _ _ _ _ _ Hl Hd Hb) as Hk.
    unfold base_sector. rewrite Ec. cbn [from_option].
    assert (forall lx, Forall whole lx -> total (take k lx) = sectors_of (take k lx) * SECTOR_SIZE) as Htk
      by (intros lx Hw; by apply total_sectors, Forall_take).
    destruct j; [change (get_content true) with contentJoliet in Hl|change (get_content false) with content in Hl].
    + assert (l0 = cj) as -> by congruence. rewrite <- (In4 _ _ Hk) at 2. f_equal.
      rewrite Ttc, (Htk _ Wcj). unfold tables_end, n, nj, SECTOR_SIZE. lia.
    + assert (l0 = c) as -> by congruence. pose proof (In3 _ _ Hk) as Hin.
      pose proof (total_upto _ _ _ Hk) as Hle.
      pose proof (total_nonneg (take k c)). pose proof (blen_nonneg b).
      rewrite <- Out4 in Hin by lia. rewrite <- Hin at 2. f_equal.
      rewrite (Htk _ Wc). unfold tables_end, n, nj, SECTOR_SIZE. lia.
  - intros j d b [= <-] Hb.
    assert (0 <= root_record j /\ root_record j + 34 <= 0xA000) by (unfold root_record; destruct j; lia).
    rewrite Out4, Out3, R2, R1 by lia. destruct j; cbn in Hb; congruence.
Qed.
