(* ===== verification/VIsoSpec.v ===== *)
(** * Virtual images: properties

    Opening a directory gives an image whose contents [VIsoView.image_bytes] are
    the structures, the files one after the other and the padding.  Each of its
    two trees leads from the volume descriptor to every directory and to the
    bytes of every file. *)

From S2P Require Import Prelude Endian CMem CString Os AbsFile FileIso VIso VIsoView.
From S2P Require Import VIsoNames VIsoTree VIsoDirs VIsoImage VIsoRecords VIsoBuild VIsoScan VIsoContents.
From S2P Require Import VIsoTells VIsoTables VIsoWrite.

(** ** From the tree to the image *)

Implicit Types (dl : list DirList) (d : DirList) (j : bool).

Lemma bare_fix a b c d : bare (fix_dir a b c d) = bare d.
Proof. done. Qed.

Lemma bare_fix_list a b c dl : bare <$> (fix_dir a b c <$> dl) = bare <$> dl.
Proof. rewrite <- list_fmap_compose. by apply list_fmap_ext. Qed.

Lemma bare_fmap {A} (g : DirList -> A) dl dl' :
  (forall d, g (bare d) = g d) -> bare <$> dl' = bare <$> dl -> g <$> dl' = g <$> dl.
Proof.
  intros Hg E. pose proof (f_equal (fmap g) E) as E'. rewrite <- !list_fmap_compose in E'.
  erewrite list_fmap_ext, (list_fmap_ext _ (g ∘ bare) dl); [exact E'|..]; intros; cbn; by rewrite Hg.
Qed.

Lemma bare_files dl dl' :
  bare <$> dl' = bare <$> dl -> concat (fileList <$> dl') = concat (fileList <$> dl).
Proof. intros E. f_equal. by apply bare_fmap. Qed.

Section spec.
Context {W : Type} `{PosixLaws W, !VisoSys W, !VisoView W, !VisoSysLaws W}.
Variables (dirs_max : nat) (st_uninit : file_stat_t).
Implicit Types (v : VIsoFile) (w : W).

Lemma tree_bare w root dl dl' : bare <$> dl' = bare <$> dl -> tree w root dl -> tree w root dl'.
Proof.
  intros E [Ht Hf]. split.
  - apply (dir_tree_skel w w _ dl); [done|by apply bare_fmap|done].
  - intros d' [k Hk]%list_elem_of_lookup. destruct (bare_lookup _ _ _ _ E Hk) as (d & Hd & Eb).
    apply list_elem_of_lookup_2, Hf in Hd. injection Eb as E1 _ _ _ E5 _ _.
    unfold files_listed in *. by rewrite E1, E5.
Qed.

(** The sectors of the first directory of either tree and of the first file. *)
Definition iso_lba v : Z := u32 (tables_end (pathTableSize v) (pathTableSizeJoliet v)).
Definition joliet_lba v : Z := u32 (iso_lba v + dirsSizeSectors v).
Definition files_lba v : Z := u32 (joliet_lba v + dirsSizeSectorsJoliet v).
Definition dirs_lba j v : Z := dir_lba j (iso_lba v) (joliet_lba v).

Definition dirs_sectors j v : Z := if j then dirsSizeSectorsJoliet v else dirsSizeSectors v.

(** The sectors before the first file. *)
Definition meta_sectors v : Z :=
  tables_end (pathTableSize v) (pathTableSizeJoliet v) + dirsSizeSectors v + dirsSizeSectorsJoliet v.

(** What [build] establishes: the tree, the sectors of the files, records that
    lead there in both trees, and path tables. *)
Record tree_built (inDir : bytes) v w v' w' : Prop := {
  tb_tree : tree w inDir (rootList v');
  tb_files : consecutive (filesSizeSectors v) (all_files v') (filesSizeSectors v');
  tb_recorded : Forall (recorded w') (all_files v');
  tb_ptr : vFilePtr v' = vFilePtr v;
  tb_calm : undisturbed w w';
  tb_range j : 0 <= dirs_sectors j v < 2 ^ 32 -> 0 <= dirs_sectors j v' < 2 ^ 32;
  tb_tells j : good_names j (rootList v') -> dirs_sectors j v = 0 ->
    done_upto j (files_lba v') (dirs_lba j v') (rootList v') (length (rootList v')) /\
    u32 (dirs_sectors j v') = u32 (cstart j (rootList v') (length (rootList v')));
  tb_tables : (forall j, good_names j (rootList v')) -> (forall j, dirs_sectors j v = 0) -> exists l m jl jm,
    pathTableL v' = Some l /\ pathTableM v' = Some m /\
    pathTableJolietL v' = Some jl /\ pathTableJolietM v' = Some jm /\
    pathTableSize v' = blen m /\ blen l = blen m /\ pathTableSizeJoliet v' = blen jm /\ blen jl = blen jm /\
    blen m <= TEMP_BUF_SIZE /\ blen jm <= TEMP_BUF_SIZE;
}.

Lemma content_tall b l r : content_ok b ((0, r) :: l) -> 34 <= blen b.
Proof.
  intros [(e & C & _) _]. pose proof (chain_bounds _ 0 _ _ ltac:(lia) C) as [_ Hall].
  inversion C as [|? ? ? ? ? _ _ Hok _]; subst. destruct Hok. apply Forall_inv in Hall. lia.
Qed.

(** The contents of all directories. *)
Lemma done_contents j fb db dl :
  done_upto j fb db dl (length dl) -> exists l, mapM (get_content j) dl = Some l /\
    Forall whole l /\ Forall (fun b => 34 <= blen b) l /\ Forall (tall j) dl /\
    forall k, (k <= length dl)%nat -> cstart j dl k = sectors_of (take k l).
Proof.
  intros Hd.
  assert (Forall (fun d => exists b, get_content j d = Some b /\ whole b /\ 34 <= blen b) dl) as Ha.
  { apply Forall_lookup. intros k d Hk.
    destruct (Hd _ _ Hk (lookup_lt_Some _ _ _ Hk)) as (b & l & []). exists b. split; [done|].
    destruct dt_self as (r & l' & -> & _). split; [|by eapply content_tall].
    split; [apply dt_ok|]. unfold TEMP_BUF_SIZE, SECTOR_SIZE in *. lia. }
  assert (exists l, mapM (get_content j) dl = Some l) as [l Hl].
  { clear Hd. induction Ha as [|d dl (b & Hb & _) _ [l IH]]; [by exists []|]. exists (b :: l).
    apply mapM_Some. constructor; [done|by apply mapM_Some]. }
  exists l. split; [done|]. apply mapM_Some in Hl as Hf.
  assert (Forall (fun b => whole b /\ 34 <= blen b) l) as Hw.
  { apply Forall_lookup. intros k b Hk. destruct (Forall2_lookup_r _ _ _ _ _ Hf Hk) as (d & Hdk & Eb).
    destruct (proj1 (Forall_lookup _ _) Ha _ _ Hdk) as (b' & Eb' & ?). congruence. }
  split; [eapply Forall_impl; [exact Hw|naive_solver]|].
  split; [eapply Forall_impl; [exact Hw|naive_solver]|]. split.
  - eapply Forall_impl; [exact Ha|]. intros d (b & Hb & _ & Ht) b' Hb'. congruence.
  - intros k. induction k as [|k IH]; intros Hk; [done|]. cbn [cstart]. rewrite IH by lia.
    destruct (lookup_lt_is_Some_2 dl k Hk) as [d Ed]. destruct (Forall2_lookup_l _ _ _ _ _ Hf Ed) as (b & Eb & Ec).
    rewrite (take_S_r _ _ _ Eb). unfold csize. rewrite Ed, Ec. cbn [from_option].
    clear. induction (take k l) as [|x lx IH]; cbn [app sectors_of] in *; lia.
Qed.

Lemma build_tables_spec v v' :
  build_tables v = Some (true, v') ->
  rootList v' = fix_dir (iso_lba v') (joliet_lba v') (files_lba v') <$> rootList v /\
  filesSizeSectors v' = filesSizeSectors v /\ vFilePtr v' = vFilePtr v /\
  (forall j, dirs_sectors j v' = dirs_sectors j v) /\
  exists l m jl jm,
    (buildPathTable false false (rootList v) = Some (Some l) /\ buildPathTable true false (rootList v) = Some (Some m) /\
     buildPathTable false true (rootList v) = Some (Some jl) /\ buildPathTable true true (rootList v) = Some (Some jm)) /\
    pathTableL v' = Some (fixPathTableLba (iso_lba v') false l) /\
    pathTableM v' = Some (fixPathTableLba (iso_lba v') true m) /\
    pathTableJolietL v' = Some (fixPathTableLba (joliet_lba v') false jl) /\
    pathTableJolietM v' = Some (fixPathTableLba (joliet_lba v') true jm) /\
    pathTableSize v' = blen m /\ pathTableSizeJoliet v' = blen jm.
Proof.
  unfold build_tables.
  destruct (buildPathTable false false (rootList v)) as [[l|]|], (buildPathTable true false (rootList v)) as [[m|]|],
    (buildPathTable false true (rootList v)) as [[jl|]|], (buildPathTable true true (rootList v)) as [[jm|]|];
    try done; intros [= <-].
  split; [done|]. split; [done|]. split; [done|]. split; [by intros []|]. by exists l, m, jl, jm.
Qed.

(** A table of both byte orders, with its sectors entered. *)
Lemma tables_built j dl (a b : Z) l m :
  buildPathTable false j dl = Some (Some l) -> buildPathTable true j dl = Some (Some m) -> Forall (tall j) dl ->
  blen (fixPathTableLba a false l) = blen (fixPathTableLba b true m) /\
  blen m = blen (fixPathTableLba b true m) /\ blen (fixPathTableLba b true m) <= TEMP_BUF_SIZE.
Proof.
  intros El Em Ht. destruct (table_size _ _ _ _ a El Ht) as [Hl _]. destruct (table_size _ _ _ _ b Em Ht) as [Hm Hb].
  rewrite Hl, Hm. split; [|done]. exact (path_entries_length _ _ _ _ _ _ _ _ Ht eq_refl El Em).
Qed.

(** The contents of one tree after the other. *)
Lemma both_contents n dl2 dl3 dl4 s0 s1 dirs dirsJ w2 w3 w4 j : n = length dl2 ->
  build_contents st_uninit n false 0 dl2 s0 w2 = Some (true, dl3, dirs, w3) ->
  build_contents st_uninit n true 0 dl3 s1 w3 = Some (true, dl4, dirsJ, w4) ->
  ordered dl2 -> good_names j dl2 -> (if j then s1 else s0) = 0 ->
  done_upto j 0 0 dl4 (length dl4) /\ u32 (if j then dirsJ else dirs) = u32 (cstart j dl4 (length dl4)).
Proof.
  intros En E3 E4 Hord Hg Hz. pose proof (build_contents_keeps _ _ _ _ _ _ _ _ _ _ _ E3) as (_ & B3 & _).
  pose proof (build_contents_keeps _ _ _ _ _ _ _ _ _ _ _ E4) as (_ & B4 & O4 & _). cbn [negb] in O4.
  assert (n = length dl4) as Hlen by by rewrite En, <- (length_fmap bare dl2), <- (length_fmap bare dl4), B4, B3.
  destruct j.
  - destruct (build_contents_spec _ _ _ _ _ _ _ _ _ _ E4) as [H4 S4];
      [by eapply good_names_bare|by eapply ordered_bare|intros ???; lia|by rewrite Hz|].
    rewrite Nat.add_0_l, Hlen in *. done.
  - destruct (build_contents_spec _ _ _ _ _ _ _ _ _ _ E3) as [H3' S3]; [done|done|intros ???; lia|by rewrite Hz|].
    rewrite Nat.add_0_l, Hlen in *. split; [by apply (done_same false _ _ dl3)|].
    rewrite S3. f_equal. apply cstart_ext. intros i _. symmetry. by apply csize_contents.
Qed.

Lemma build_spec inDir v w v' w' :
  build dirs_max st_uninit inDir v w = Some (true, v', w') -> tree_built inDir v w v' w'.
Proof.
  unfold build. destruct (_ <? 1); [done|].
  destruct (root_dir inDir) as [root|] eqn:E0; [|done].
  destruct (scan_dirs _ _ _ _) as [[[ok1 dl1] w1]|] eqn:E1; [|done].
  destruct ok1; cbn [negb]; [|done].
  destruct (scan_files _ _ _ _ _) as [[[[ok2 dl2] files] w2]|] eqn:E2; [|done].
  destruct ok2; cbn [negb]; [|done].
  destruct (build_contents st_uninit (length dl2) false 0 dl2 _ w2) as [[[[ok3 dl3] dirs] w3]|] eqn:E3; [|done].
  destruct ok3; cbn [negb]; [|done].
  destruct (build_contents st_uninit (length dl2) true 0 dl3 _ w3) as [[[[ok4 dl4] dirsJ] w4]|] eqn:E4; [|done].
  destruct ok4; cbn [negb]; [|done].
  destruct (build_tables _) as [[ok5 v5]|] eqn:E5; [|done]. intros [= -> -> ->].
  apply build_tables_spec in E5 as (Er & Ef & Ep & Ed & l & m & jl & jm & (El & Em & Ejl & Ejm) & Tl & Tm & Tjl & Tjm & Sm & Sjm).
  cbn [rootList with_tree filesSizeSectors vFilePtr] in *.
  pose proof (scan_tree _ _ _ _ _ _ _ _ _ _ _ E0 E1 E2) as Htree.
  apply (scan_dirs_idle undisturbed) in E1. apply scan_files_spec in E2 as [U2 Hscan].
  destruct (Hscan eq_refl) as (new & Enew & Hcons & Hrec). cbn in Enew. subst new.
  pose proof (build_contents_keeps _ _ _ _ _ _ _ _ _ _ _ E3) as (U3 & B3 & _ & D3).
  pose proof (build_contents_keeps _ _ _ _ _ _ _ _ _ _ _ E4) as (U4 & B4 & O4 & D4). cbn [negb] in O4.
  assert (bare <$> rootList v' = bare <$> dl2) as B by (by rewrite Er, bare_fix_list, B4).
  assert (all_files v' = concat (fileList <$> dl2)) as Eall by (by apply bare_files).
  pose proof (dir_tree_ordered _ _ _ (tr_tree _ _ _ Htree)) as Hord.
  assert (forall j, good_names j (rootList v') -> dirs_sectors j v = 0 ->
    done_upto j 0 0 dl4 (length dl4) /\ u32 (dirs_sectors j v') = u32 (cstart j dl4 (length dl4))) as Hdone.
  { intros j Hg Hz. rewrite Ed. apply (both_contents _ _ _ _ _ _ _ _ _ _ _ j eq_refl E3 E4 Hord); [|by destruct j].
    by eapply good_names_bare. }
  split.
  - by apply (tree_bare _ _ dl2).
  - by rewrite Eall, Ef.
  - rewrite Eall. eapply Forall_impl; [exact Hrec|]. intros f.
    by apply recorded_frame, (undisturbed_trans _ w3).
  - done.
  - do 3 (eapply undisturbed_trans; [eassumption|]). done.
  - intros j. rewrite Ed. destruct j; done.
  - intros j Hg Hz. destruct (Hdone j Hg Hz) as [Hd4 Hs4]. rewrite Hs4, Er, length_fmap.
    split; [by apply done_fix|]. f_equal. apply cstart_ext. intros i Hi.
    unfold csize. rewrite list_lookup_fmap. destruct (dl4 !! i) as [d|] eqn:Edi; [|done]. cbn.
    destruct (Hd4 _ _ Edi Hi) as (x & lx & Ht). rewrite get_content_fix, (dt_content _ _ _ _ _ _ _ _ _ Ht). cbn.
    symmetry. apply (fixDirLba_content _ _ _ _ (dt_ok _ _ _ _ _ _ _ _ _ Ht)).
  - intros Hg Hz.
    assert (forall j, Forall (tall j) dl4) as Htall.
    { intros j. destruct (done_contents j _ _ _ (proj1 (Hdone j (Hg j) (Hz j)))) as (? & _ & _ & _ & ? & _). done. }
    destruct (tables_built false dl4 (iso_lba v') (iso_lba v') l m El Em (Htall false)) as (A1 & A2 & A3).
    destruct (tables_built true dl4 (joliet_lba v') (joliet_lba v') jl jm Ejl Ejm (Htall true)) as (A4 & A5 & A6).
    do 4 eexists. rewrite Tl, Tm, Tjl, Tjm, Sm, Sjm. do 4 (split; [done|]). done.
Qed.

(** *** The layout *)

Lemma tables_end_range n m : 20 <= tables_end n m < 2 ^ 35.
Proof.
  unfold tables_end. pose proof (bytesToSectors_range n). pose proof (bytesToSectors_range m). lia.
Qed.

(** The sizes of [layout], when the number of sectors does not wrap. *)
Lemma layout_sizes v :
  let sectors := meta_sectors v in
  0 <= dirsSizeSectors v -> 0 <= dirsSizeSectorsJoliet v -> 0 <= filesSizeSectors v ->
  sectors + filesSizeSectors v + 64 < 2 ^ 32 ->
  fsBufSize (layout v) = sectors * SECTOR_SIZE /\ files_lba (layout v) = sectors /\
  padAreaStart (layout v) = (sectors + filesSizeSectors v) * SECTOR_SIZE /\
  32 * SECTOR_SIZE <= padAreaSize (layout v) < 64 * SECTOR_SIZE /\
  totalSize (layout v) = padAreaStart (layout v) + padAreaSize (layout v) /\
  totalSize (layout v) mod (32 * SECTOR_SIZE) = 0.
Proof.
  intros sectors Hd Hj Hf Hb. unfold files_lba, joliet_lba, iso_lba, layout. cbn [fsBufSize padAreaStart padAreaSize totalSize
    pathTableSize pathTableSizeJoliet dirsSizeSectors dirsSizeSectorsJoliet filesSizeSectors].
  pose proof (tables_end_range (pathTableSize v) (pathTableSizeJoliet v)).
  change (tables_end _ _ + _ + _) with sectors. unfold meta_sectors in sectors.
  set (t := tables_end _ _) in *.
  assert (SECTOR_SIZE = 2048) as ES by done.
  rewrite (u64_small sectors) by (unfold sectors in *; lia).
  rewrite (u32_small t) by lia. rewrite (u32_small (t + _)) by (unfold sectors in *; lia).
  rewrite (u32_small (t + _ + _)) by (unfold sectors in *; lia). fold sectors.
  set (volume := sectors + filesSizeSectors v) in *. rewrite (u32_small volume) by (unfold sectors in *; lia).
  rewrite u64_small by (unfold sectors in *; lia).
  change 0x1F with (Z.ones 5). rewrite Z.land_ones by lia. change (2 ^ 5) with 32.
  set (pad := 0x20 + _).
  assert (32 <= pad < 64 /\ (volume + pad) mod 32 = 0) as [Hpad Hm].
  { unfold pad. destruct (Z.eqb_spec (volume mod 32) 0); Z.to_euclidean_division_equations; lia. }
  rewrite (u32_small (volume + pad)) by (unfold sectors in *; lia).
  split; [done|]. split; [done|]. split; [done|]. split; [lia|]. split; [lia|].
  rewrite Z.mul_mod_distr_r by lia. lia.
Qed.

(** *** write and open *)

(** What [write] leaves as it is. *)
Lemma write_same name code v w v' w' :
  VIsoImage.write name code v w = Some (v', w') ->
  undisturbed w w' /\ rootList v' = rootList v /\
  filesSizeSectors v' = filesSizeSectors v /\ vFilePtr v' = vFilePtr v /\
  dirsSizeSectors v' = dirsSizeSectors v /\ dirsSizeSectorsJoliet v' = dirsSizeSectorsJoliet v /\
  pathTableSize v' = pathTableSize v /\ pathTableSizeJoliet v' = pathTableSizeJoliet v /\
  fsBufSize v' = fsBufSize v /\ padAreaStart v' = padAreaStart v /\
  padAreaSize v' = padAreaSize v /\ totalSize v' = totalSize v.
Proof.
  intros E. split; [exact (write_idle undisturbed _ _ _ _ _ _ E)|]. unfold VIsoImage.write in E.
  destruct (sys_time w) as [t w1]. destruct (if v_ps3Mode v then _ else _) as [[fs w2]|]; [|done].
  destruct (mjoin (content <$> _)); [|done]. destruct (mjoin (contentJoliet <$> _)); [|done].
  destruct (write_descriptors _ _ _ _ _ _); [|done].
  destruct (pathTableL v), (pathTableM v), (pathTableJolietL v), (pathTableJolietM v); try done.
  destruct (mapM content (rootList v)), (mapM contentJoliet (rootList v)); try done.
  destruct (write_all _ _ _) as [p fs1]. destruct (write_all p _ _) as [p' fs2].
  by injection E as <- <-.
Qed.

(** The sectors of the contents of a tree. *)
Definition tree_sectors j v : Z := cstart j (rootList v) (length (rootList v)).

(** The sectors of the volume can be numbered in 32 bits. *)
Definition fits v : Prop :=
  tables_end (pathTableSize v) (pathTableSizeJoliet v) + tree_sectors false v + tree_sectors true v
  + files_sectors (all_files v) + 64 < 2 ^ 32.

(** The structures are in the buffer. *)
Record structures v (fs : bytes) : Prop := {
  st_fs : fsBuf v = Some (zext fs);
  st_blen : blen fs = fsBufSize v;
  st_dirs j k d b : rootList v !! k = Some d -> get_content j d = Some b ->
    slice ((dirs_lba j v + cstart j (rootList v) k) * SECTOR_SIZE) (blen b) fs = b;
  st_root j d b : head (rootList v) = Some d -> get_content j d = Some b ->
    slice (root_record j) 34 fs = 34 :: slice 1 33 b;
}.

(** What a successful [open] of a new object has done. *)
Record opened (path : bytes) v w' : Prop := {
  od_tree : tree w' path (rootList v);
  od_files : consecutive 0 (all_files v) (filesSizeSectors v);
  od_recorded : Forall (recorded w') (all_files v);
  od_ptr : vFilePtr v = 0;
  od_image : fits v -> (forall j, good_names j (rootList v)) -> 0 <= filesSizeSectors v ->
    filesSizeSectors v = files_sectors (all_files v) ->
    (forall j, done_upto j (files_lba v) (dirs_lba j v) (rootList v) (length (rootList v))) /\
    (exists fs, structures v fs) /\
    (forall j, dirs_lba j v = tables_end (pathTableSize v) (pathTableSizeJoliet v) + (if j then tree_sectors false v else 0)) /\
    fsBufSize v = files_lba v * SECTOR_SIZE /\
    files_lba v = tables_end (pathTableSize v) (pathTableSizeJoliet v) + tree_sectors false v + tree_sectors true v /\
    padAreaStart v = (files_lba v + filesSizeSectors v) * SECTOR_SIZE /\
    32 * SECTOR_SIZE <= padAreaSize v < 64 * SECTOR_SIZE /\
    totalSize v = padAreaStart v + padAreaSize v /\ totalSize v mod (32 * SECTOR_SIZE) = 0;
}.

Lemma sectors_of_nonneg l : 0 <= sectors_of l.
Proof. induction l as [|b l IH]; cbn; [lia|]. pose proof (bytesToSectors_range (blen b)). lia. Qed.

(** The sectors of all directories, counted in 32 bits. *)
Lemma all_sectors j v c : mapM (get_content j) (rootList v) = Some c ->
  (forall k, (k <= length (rootList v))%nat -> cstart j (rootList v) k = sectors_of (take k c)) ->
  cstart j (rootList v) (length (rootList v)) = sectors_of c.
Proof.
  intros Hl Hs. rewrite (Hs _ (Nat.le_refl _)). apply mapM_Some in Hl. apply Forall2_length in Hl.
  by rewrite Hl, firstn_all.
Qed.

Lemma dirs_counted j v c : 0 <= dirs_sectors j v < 2 ^ 32 -> 0 <= sectors_of c < 2 ^ 32 ->
  cstart j (rootList v) (length (rootList v)) = sectors_of c ->
  u32 (dirs_sectors j v) = u32 (cstart j (rootList v) (length (rootList v))) -> dirs_sectors j v = sectors_of c.
Proof. intros Hd Hc ->. by rewrite !u32_small by lia. Qed.

(** The image of a tree that has been built. *)
Lemma image_built inDir v0 w v w1 name code v' w' :
  tree_built inDir v0 w v w1 -> (forall j, dirs_sectors j v0 = 0) -> vFilePtr v0 = 0 -> filesSizeSectors v0 = 0 ->
  VIsoImage.write name code (layout v) w1 = Some (v', w') -> opened inDir v' w'.
Proof.
  intros [Tt Tf Tr Tp Tc Trange Ttells Ttab] Hz Hp Hf E.
  pose proof (write_same _ _ _ _ _ _ E) as (U & Er & Ef & Ep & E1 & E2 & E3 & E4 & E5 & E6 & E7 & E8).
  cbn [layout rootList filesSizeSectors vFilePtr dirsSizeSectors dirsSizeSectorsJoliet pathTableSize pathTableSizeJoliet] in Er, Ef, Ep, E1, E2, E3, E4.
  assert (all_files v' = all_files v) as Ea by (unfold all_files; by rewrite Er).
  assert (iso_lba v' = iso_lba v /\ joliet_lba v' = joliet_lba v /\ files_lba v' = files_lba v) as (Ei & Ej & El)
    by (unfold files_lba, joliet_lba, iso_lba; by rewrite E1, E2, E3, E4).
  assert (forall j, dirs_lba j v' = dirs_lba j v) as Edl by (intros j; unfold dirs_lba; by rewrite Ei, Ej).
  split.
  - rewrite Er. apply (tree_frame w); [by eapply undisturbed_trans|done].
  - by rewrite Ea, Ef, <- Hf.
  - rewrite Ea. eapply Forall_impl; [exact Tr|]. intros f. by apply recorded_frame.
  - by rewrite Ep, Tp.
  - rewrite Er, Ef, Ea. intros Hfit Hg Hn Hfs.
    assert (forall j, done_upto j (files_lba v) (dirs_lba j v) (rootList v) (length (rootList v)) /\
      u32 (dirs_sectors j v) = u32 (cstart j (rootList v) (length (rootList v)))) as Hd by (intros j; by apply Ttells).
    unfold fits, tree_sectors in Hfit. rewrite Er, Ea, E3, E4 in Hfit.
    pose proof (tables_end_range (pathTableSize v) (pathTableSizeJoliet v)) as Hte.
    set (te := tables_end (pathTableSize v) (pathTableSizeJoliet v)) in *.
    pose proof (files_sectors_nonneg (all_files v)).
    destruct (done_contents false _ _ _ (proj1 (Hd false))) as (c & Hc & Wc & Tc' & _ & Sc).
    destruct (done_contents true _ _ _ (proj1 (Hd true))) as (cj & Hcj & Wcj & Tcj & _ & Scj).
    pose proof (all_sectors _ _ _ Hc Sc) as Sc'. pose proof (all_sectors _ _ _ Hcj Scj) as Scj'.
    pose proof (sectors_of_nonneg c). pose proof (sectors_of_nonneg cj). rewrite Sc', Scj' in Hfit.
    pose proof (dirs_counted false v c (Trange false ltac:(rewrite Hz; lia)) ltac:(lia) Sc' (proj2 (Hd false))) as Dc.
    pose proof (dirs_counted true v cj (Trange true ltac:(rewrite Hz; lia)) ltac:(lia) Scj' (proj2 (Hd true))) as Dcj.
    cbn [dirs_sectors] in Dc, Dcj.
    destruct (layout_sizes v) as (L1 & L2 & L3 & L4 & L5 & L6); [lia|lia|lia|unfold meta_sectors; fold te; lia|].
    unfold meta_sectors in *. fold te in L1, L2, L3. change (files_lba (layout v)) with (files_lba v) in L2.
    assert (forall j, dirs_lba j v = te + (if j then sectors_of c else 0)) as Hlba.
    { intros j. unfold dirs_lba, dir_lba, joliet_lba, iso_lba. fold te. rewrite (u32_small te) by lia.
      destruct j; [|lia]. rewrite Dc. apply u32_small. lia. }
    unfold tree_sectors. rewrite Er, El, E3, E4, E5, E6, E7, E8. fold te. rewrite Sc', Scj'.
    split; [|split].
    + intros j. rewrite Edl. apply Hd.
    + destruct (Ttab Hg Hz) as (l & m & jl & jm & T1 & T2 & T3 & T4 & T5 & T6 & T7 & T8 & T9 & T10).
      assert (ready (layout v)) as Hready.
      { split; [|exists c, cj; rewrite L1, Dc, Dcj; done].
        exists l, m, jl, jm. unfold TEMP_BUF_SIZE, SECTOR_SIZE in *. do 8 (split; [done|]). lia. }
      destruct (write_spec _ _ _ _ _ _ Hready E) as (fs & Efs & Bfs & Hdirs & Hroot). exists fs.
      assert (forall j, base_sector j (layout v) = dirs_lba j v) as Hbase.
      { intros j. rewrite Hlba. unfold base_sector. cbn [layout pathTableSize pathTableSizeJoliet rootList].
        change (mapM content (rootList v) = Some c) in Hc. fold te. by rewrite Hc. }
      split; [done|by rewrite Bfs, E5| |by rewrite Er].
      intros j k d b Hk Hb. rewrite Er, Edl in *. pose proof (lookup_lt_Some _ _ _ Hk).
      destruct j; [rewrite Scj by lia; rewrite <- (Hdirs true k d b cj Hcj Hk Hb) at 2
                  |rewrite Sc by lia; rewrite <- (Hdirs false k d b c Hc Hk Hb) at 2]; by rewrite Hbase.
    + split; [intros j; by rewrite Edl, Hlba|]. rewrite L1, L2, L3, Dc, Dcj in *. done.
Qed.

(** Whether a path can be asked about is a matter of what it names. *)
Lemma stat_succeeds p st w r st' w' :
  stat_file (Some p) st w = (r, st', w') -> r = (if meta_at w p then SUCCEEDED else -1) /\ meta_at w' p = meta_at w p.
Proof.
  unfold stat_file. destruct (sys_stat p w) as [[r0 st0] w0] eqn:E.
  pose proof (law_stat_meta _ _ _ _ _ E) as Hm. apply law_stat in E as [K _].
  destruct (meta_at w p) as [[sz md]|] eqn:Em.
  - destruct Hm as (-> & _). cbn. intros [= <- _ <-]. by rewrite (kf_meta _ _ _ K).
  - subst r0. cbn. intros [= <- _ <-]. by rewrite (kf_meta _ _ _ K).
Qed.

Lemma title_id_meta dir w r w' p :
  get_title_id dir w = Some (r, w') -> meta_at w' p = meta_at w p.
Proof.
  unfold get_title_id. destruct (open_file _ _ w) as [d w1] eqn:E1. unfold open_file in E1.
  apply law_open in E1 as (_ & K1 & _). apply kf_meta with (p := p) in K1 as M1.
  destruct (FD_OK d); cbn [negb]; [|by intros [= _ <-]].
  unfold parse_param_sfo, seek_file, close_file, read_file.
  destruct (sys_lseek d 0 SEEK_END w1) as [r2 w2] eqn:E2. apply law_lseek in E2 as [K2 _].
  apply kf_meta with (p := p) in K2 as M2.
  destruct (sys_malloc _ w2) as [ok w3] eqn:E3. apply law_malloc in E3 as [K3 _].
  apply kf_meta with (p := p) in K3 as M3. destruct ok; cbn [negb].
  - destruct (sys_lseek d 0 SEEK_SET w3) as [r4 w4] eqn:E4. apply law_lseek in E4 as [K4 _].
    destruct (sys_read d _ w4) as [[r5 b5] w5] eqn:E5. apply law_read in E5 as (_ & K5 & _).
    destruct (sys_close d w5) as [r6 w6] eqn:E6. apply law_close in E6 as (K6 & _ & _).
    apply kf_meta with (p := p) in K4 as M4. apply kf_meta with (p := p) in K5 as M5.
    apply kf_meta with (p := p) in K6 as M6.
    destruct (find_field _ _ _ _ _ _ _) as [x|]; [|done]. intros [= _ <-]. congruence.
  - destruct (sys_close d w3) as [r6 w6] eqn:E6. apply law_close in E6 as (K6 & _ & _).
    apply kf_meta with (p := p) in K6 as M6. intros [= _ <-]. congruence.
Qed.

Lemma viso_open_spec this ps3 path w v' w' :
  VIso_open dirs_max st_uninit (Some path) O_RDONLY (VIsoFile_ctor this ps3) w = Some (SUCCEEDED, v', w') ->
  opened path v' w'.
Proof.
  unfold VIso_open. cbn [O_RDONLY Z.eqb negb]. cbn [fsBuf VIsoFile_ctor cleared].
  destruct (stat_file (Some path) _ w) as [[r st] w1] eqn:E0.
  apply stat_succeeds in E0 as [Er M1]. destruct (Z.eqb_spec r SUCCEEDED) as [->|]; cbn [negb]; [|done].
  destruct (negb (is_dir st)); [done|].
  destruct (if v_ps3Mode _ then _ else _) as [[[[name code]|] w2]|] eqn:E1; [|done..].
  assert (meta_at w2 path = meta_at w1 path) as M2.
  { destruct (v_ps3Mode _); [|by injection E1 as _ _ <-].
    destruct (get_title_id path w1) as [[id w3]|] eqn:E2; [|done].
    injection E1 as _ <-. by eapply title_id_meta. }
  unfold generate. destruct (stat_file (Some path) _ w2) as [[r2 st2] w3] eqn:E3.
  apply stat_succeeds in E3 as [Er2 _]. rewrite M2, M1, <- Er in Er2. subst r2. cbn [Z.eqb negb SUCCEEDED].
  destruct (build _ _ path _ w3) as [[[ok v1] w4]|] eqn:E; [|done].
  destruct ok; cbn [negb]; [|done].
  destruct (VIsoImage.write _ _ _ _) as [[v2 w5]|] eqn:Ew; [|done]. intros [= <- <-].
  apply build_spec in E. eapply image_built; [exact E|by intros []|done..|exact Ew].
Qed.
End spec.
