(* ===== verification/VIsoServe.v ===== *)
(** * Virtual images: what a reader finds

    A reader of the image that follows the records from a volume descriptor
    ([finds]) comes to every directory below the one that was opened, and from
    there to the bytes of its files. *)

From S2P Require Import Prelude Endian CMem CString Os AbsFile FileIso VIso VIsoView.
From S2P Require Import VIsoNames VIsoTree VIsoDirs VIsoImage VIsoRecords VIsoBuild VIsoScan VIsoContents.
From S2P Require Import VIsoTells VIsoTables VIsoWrite VIsoSpec.

Implicit Types (dl : list DirList) (d : DirList) (j : bool).

(** The directory with the names [ns] is at sector [s] and has [n] bytes. *)
Inductive finds (X : bytes) j : list bytes -> Z -> Z -> Prop :=
| finds_root : let r := slice (root_record j) 34 X in finds X j [] (rec_start r) (rec_length r)
| finds_dir ns s n l o r :
    finds X j ns s n -> content_ok (slice (s * SECTOR_SIZE) n X) l -> (o, r) ∈ l ->
    Z.land (rec_flags r) ISO_DIRECTORY <> 0 ->
    finds X j (ns ++ [rec_name r]) (rec_start r) (rec_length r).

(** The name of a file as the two trees have it. *)
Definition disc_name j (name : bytes) : option bytes :=
  if j then ucs2_bytes <$> utf8_to_ucs2 103 ((name ++ str ";1") ++ [0])
  else Some (strncpy_upper 204 name ++ str ";1").

(** The pieces that a file's records have. *)
Definition extents (c : bytes) : list bytes :=
  if blen c <=? 0xFFFFFFFF then [c]
  else (fun i => slice (Z.of_nat i * MULTIEXTENT_PART_SIZE) MULTIEXTENT_PART_SIZE c) <$>
         seq 0 (Z.to_nat ((blen c + MULTIEXTENT_PART_SIZE - 1) / MULTIEXTENT_PART_SIZE)).

Lemma slice_over off a n (l : bytes) : 0 <= off -> 0 <= a <= n -> blen l <= off + a -> slice off n l = slice off a l.
Proof.
  intros. unfold slice. rewrite !take_ge; [done|..]; rewrite length_drop; unfold blen in *; lia.
Qed.

Lemma concat_slices k m (c : bytes) :
  0 < k -> concat ((fun i => slice (Z.of_nat i * k) k c) <$> seq 0 m) = slice 0 (Z.of_nat m * k) c.
Proof.
  intros Hk. induction m as [|m IH]; [by rewrite slice_0|].
  rewrite seq_S, fmap_app, concat_app, IH. cbn [fmap list_fmap concat]. rewrite app_nil_r, Nat.add_0_l.
  replace (Z.of_nat (S m) * k) with (Z.of_nat m * k + k) by lia. rewrite slice_split by lia. done.
Qed.

(** The pieces are the whole file. *)
Lemma extents_concat c : concat (extents c) = c.
Proof.
  unfold extents. destruct (Z.leb_spec (blen c) 0xFFFFFFFF); [apply app_nil_r|].
  rewrite concat_slices by done. pose proof (blen_nonneg c).
  assert (0 < MULTIEXTENT_PART_SIZE) by done. set (k := MULTIEXTENT_PART_SIZE) in *.
  assert (blen c <= (blen c + k - 1) / k * k) by (Z.to_euclidean_division_equations; nia).
  rewrite Z2Nat.id by (apply Z.div_pos; lia). rewrite (slice_over _ (blen c)) by lia. apply slice_all.
Qed.

(** The number of records, and their lengths. *)
Lemma extents_parts f c :
  fl_size f = blen c -> blen c <= 2 ^ 43 ->
  Z.of_nat (length (extents c)) = file_parts f /\
  forall i x, extents c !! i = Some x ->
    let o := Z.of_nat i * MULTIEXTENT_PART_SIZE in
    let n := part_length f (Z.of_nat i) in
    0 <= o /\ 0 <= n < 2 ^ 32 /\ (i = 0%nat \/ 0 < n) /\ o + n <= blen c /\ x = slice o n c /\ o = Z.of_nat i * PART_SECTORS * SECTOR_SIZE.
Proof.
  intros Es Hc. unfold extents, file_parts, part_length, file_parts. rewrite Es. pose proof (blen_nonneg c).
  assert (PART_SECTORS * SECTOR_SIZE = MULTIEXTENT_PART_SIZE) as Hps by done.
  assert (0 < MULTIEXTENT_PART_SIZE /\ MULTIEXTENT_PART_SIZE = 4294965248) as [Hk Ek] by done.
  destruct (Z.leb_spec (blen c) 0xFFFFFFFF), (Z.ltb_spec 0xFFFFFFFF (blen c)); try lia.
  - split; [done|]. intros [|[|i]] x; try done. intros [= <-]. cbv zeta. change (Z.of_nat 0) with 0.
    change (0 =? 1 - 1) with true. cbv iota. rewrite !Z.mul_0_l, Z.sub_0_r. split; [done|]. split; [lia|]. split; [by left|].
    split; [lia|]. split; [by rewrite slice_all|done].
  - set (k := MULTIEXTENT_PART_SIZE) in *. set (m := u32 (blen c / k) + _).
    assert (m = (blen c + k - 1) / k /\ m * k < blen c + k /\ blen c <= m * k) as (Em & Hm1 & Hm2).
    { unfold m. rewrite u32_small by (rewrite Ek in *; Z.to_euclidean_division_equations; lia).
      rewrite Ek in *. destruct (Z.eqb_spec (blen c mod 4294965248) 0); Z.to_euclidean_division_equations; lia. }
    rewrite <- Em. rewrite length_fmap, length_seq. split; [lia|].
    intros i x (i' & -> & [-> Hi]%lookup_seq)%list_lookup_fmap_Some. cbv zeta. rewrite Nat.add_0_l.
    assert (0 <= Z.of_nat i * k) by nia.
    assert (Z.of_nat i * PART_SECTORS * SECTOR_SIZE = Z.of_nat i * k) as -> by (rewrite <- Hps; lia).
    destruct (Z.eqb_spec (Z.of_nat i) (m - 1)) as [Ei|].
    + assert (Z.of_nat i * k = m * k - k) by (rewrite Ei; lia).
      split; [done|]. split; [lia|]. split; [right; lia|]. split; [lia|]. split; [apply slice_over; lia|done].
    + split; [done|]. split; [lia|]. split; [right; lia|]. split; [nia|done].
Qed.

Section serve.
Context {W : Type} `{PosixLaws W, !VisoSys W, !VisoView W, !VisoSysLaws W}.
Implicit Types (v : VIsoFile) (w : W).

(** A file an image can present: a regular file in one part, below 8 terabytes. *)
Definition servable w (f : FileList) : Prop :=
  multipart f = false /\
  exists c, file_at w (fl_path f) = Regular c /\ blen c <= 2 ^ 43 - SECTOR_SIZE.

Lemma servable_contents w fl :
  Forall (servable w) fl -> Forall (recorded w) fl ->
  Forall (fun f => size_ok (fl_size f)) fl /\ exists cs, mapM (file_contents w) fl = Some cs.
Proof.
  intros Hs Hr. induction fl as [|f fl IH]; [split; [done|by exists []]|].
  apply Forall_cons in Hs as [(Hm & c & Hc & Hl) Hs]. apply Forall_cons in Hr as [Rf Hr].
  destruct (IH Hs Hr) as (Hsz & cs & Ecs). pose proof (Rf Hm c Hc) as Ef.
  split; [constructor; [unfold size_ok; rewrite Ef; pose proof (blen_nonneg c); lia|done]|].
  exists (c :: cs). apply mapM_Some. constructor; [|by apply mapM_Some].
  unfold file_contents. by rewrite Hm, Hc, Ef, Z.eqb_refl.
Qed.

(** The bytes of one file in the image, in its sectors. *)
Lemma padded_slice w fl lba e cs f c n :
  mapM (file_contents w) fl = Some cs -> laid lba fl e -> f ∈ fl -> file_contents w f = Some c ->
  0 <= n <= blen c ->
  forall o, 0 <= o -> o + n <= blen c ->
  lba <= rlba f /\ (rlba f - lba) * SECTOR_SIZE + o + n <= (e - lba) * SECTOR_SIZE /\
  slice ((rlba f - lba) * SECTOR_SIZE + o) n (concat (pad_sector <$> cs)) = slice o n c.
Proof.
  intros Hcs Hl Hf Hc Hn o Ho Hb. revert lba cs Hcs Hl Hf.
  induction fl as [|g fl IH]; intros lba cs Hcs Hl Hf; [by apply elem_of_nil in Hf|].
  apply mapM_Some, Forall2_cons_inv_l in Hcs as (x & xs & Hx & Hxs%mapM_Some & ->).
  destruct Hl as [[El Hsz] Hl]. cbn [fmap list_fmap concat].
  change (list_fmap bytes bytes pad_sector xs) with (pad_sector <$> xs).
  pose proof (file_contents_Some _ _ _ Hx) as (_ & _ & Ex).
  assert (blen (pad_sector x) = bytesToSectors (fl_size g) * SECTOR_SIZE) as Hp
    by (rewrite blen_pad_sector; by rewrite Ex).
  pose proof (bytesToSectors_range (fl_size g)).
  apply elem_of_cons in Hf as [->|Hf].
  - assert (x = c) as -> by congruence. apply laid_mono in Hl. split; [lia|].
    rewrite El, Z.sub_diag, Z.mul_0_l, Z.add_0_l. split.
    { pose proof (proj1 (sectors_size _ Hsz)) as Hr. rewrite <- Ex in *.
      pose proof (Z.mod_pos_bound (- blen c) SECTOR_SIZE). unfold SECTOR_SIZE in *. lia. }
    unfold pad_sector. rewrite <- app_assoc. by rewrite slice_app_l by lia.
  - destruct (IH _ _ Hxs Hl Hf) as (Hge & Hle & Hs). unfold SECTOR_SIZE in *. split; [lia|].
    split; [lia|]. rewrite slice_app_r by lia. rewrite <- Hs. f_equal. lia.
Qed.

Lemma image_file v w fs cs f c o n :
  image_ok v -> mapM (file_contents w) (all_files v) = Some cs -> f ∈ all_files v ->
  file_contents w f = Some c -> 0 <= o -> 0 <= n -> o + n <= blen c ->
  slice (fsBufSize v + rlba f * SECTOR_SIZE + o) n (image_bytes v fs cs) = slice o n c.
Proof.
  intros Hok Hcs Hf Hc Ho Hn Hb. pose proof (io_laid v Hok) as io_laid. pose proof (io_fs v Hok).
  destruct (image_areas v w fs cs Hcs Hok) as (_ & _ & HF & _).
  destruct (padded_slice w _ _ _ _ f c n Hcs io_laid Hf Hc ltac:(lia) o Ho Hb) as (Hr & Hle & Hs).
  rewrite !Z.sub_0_r in *. rewrite <- Hs, <- HF. unfold SECTOR_SIZE in *.
  rewrite slice_slice by lia. f_equal. lia.
Qed.

(** The sectors of a file are before those of the padding. *)
Lemma file_sectors v w cs f c :
  image_ok v -> mapM (file_contents w) (all_files v) = Some cs -> f ∈ all_files v ->
  file_contents w f = Some c -> 0 <= rlba f /\ rlba f * SECTOR_SIZE + blen c <= filesSizeSectors v * SECTOR_SIZE.
Proof.
  intros Hok Hcs Hf Hc. pose proof (blen_nonneg c).
  destruct (padded_slice w _ _ _ _ f c (blen c) Hcs (io_laid _ Hok) Hf Hc ltac:(lia) 0 ltac:(lia) ltac:(lia))
    as (? & ? & _). lia.
Qed.

(** The image [X] of an object. *)
Record served_as X v w : Prop := {
  sd_view : VIso_view v w = Some (X, 0);
  sd_whole : blen X mod (32 * SECTOR_SIZE) = 0;
  sd_tells j k d : rootList v !! k = Some d -> exists b l,
    dir_tells j (files_lba v) (dirs_lba j v) (rootList v) (length (rootList v)) k d b l /\
    slice ((dirs_lba j v + cstart j (rootList v) k) * SECTOR_SIZE) (blen b) X = b /\
    0 <= dirs_lba j v + cstart j (rootList v) k < 2 ^ 32;
  sd_root j d b : head (rootList v) = Some d -> get_content j d = Some b ->
    slice (root_record j) 34 X = 34 :: slice 1 33 b;
  sd_file f c : f ∈ all_files v -> file_contents w f = Some c ->
    0 <= rlba f /\ 0 <= files_lba v /\ files_lba v + rlba f < 2 ^ 32 /\
    (files_lba v + rlba f) * SECTOR_SIZE + blen c <= 2 ^ 32 * SECTOR_SIZE /\
    forall o n, 0 <= o -> 0 <= n -> o + n <= blen c ->
      slice ((files_lba v + rlba f) * SECTOR_SIZE + o) n X = slice o n c;
}.

Lemma cstart_nonneg j dl k : 0 <= cstart j dl k.
Proof. induction k as [|k IH]; cbn [cstart]; [lia|]. pose proof (bytesToSectors_range (csize j dl k)). lia. Qed.

Lemma cstart_mono j dl k m : (k <= m)%nat -> cstart j dl k <= cstart j dl m.
Proof.
  induction 1 as [|m _ IH]; [lia|]. cbn [cstart]. pose proof (bytesToSectors_range (csize j dl m)). lia.
Qed.

Lemma open_served path v w :
  opened path v w -> fits v -> (forall j, good_names j (rootList v)) -> Forall (servable w) (all_files v) ->
  exists X, served_as X v w.
Proof.
  intros [_ Of Or Op Oi] Hfit Hg Hsv.
  destruct (servable_contents w _ Hsv Or) as (Hsz & cs & Ecs).
  pose proof (files_sectors_nonneg (all_files v)) as Hfn.
  pose proof (tables_end_range (pathTableSize v) (pathTableSizeJoliet v)) as Hte.
  assert (0 <= tree_sectors false v) as C1 by apply cstart_nonneg.
  assert (0 <= tree_sectors true v) as C2 by apply cstart_nonneg.
  unfold fits in Hfit. destruct (Of ltac:(lia) ltac:(lia) Hsz) as [Hlaid Hend].
  destruct (Oi Hfit Hg ltac:(lia) ltac:(lia)) as (Hd & (fs & [Sfs Sb Sd Sr]) & Hlba & E1 & E2 & E3 & E4 & E5 & E6).
  assert (SECTOR_SIZE = 2048) as ES by done.
  assert (image_ok v) as Hok.
  { rewrite ES in *.
    split; rewrite ?Op, ?E1, ?E3, ?E5; try lia; [apply Z_mod_mult|done]. }
  set (te := tables_end _ _) in *. set (X := image_bytes v (zext fs) cs).
  destruct (image_areas v w (zext fs) cs Ecs Hok) as (Lx & Sx & _). fold X in Lx, Sx.
  assert (mload (zext fs) 0 (fsBufSize v) = fs) as Efs.
  { rewrite <- Sb. rewrite mload_zext_in; [apply slice_all|lia|apply blen_nonneg|lia]. }
  rewrite Efs in Sx.
  assert (forall o n, 0 <= o -> 0 <= n -> o + n <= fsBufSize v -> slice o n X = slice o n fs) as Hin.
  { intros o n ???. rewrite <- Sx. rewrite slice_slice by lia. f_equal. }
  exists X. split.
  - apply VIso_view_Some. exists (zext fs), cs. rewrite Op. done.
  - by rewrite Lx.
  - intros j k d Hk. pose proof (lookup_lt_Some _ _ _ Hk) as Hlt.
    destruct (Hd j _ _ Hk Hlt) as (b & l & Ht). exists b, l. split; [done|].
    pose proof (cstart_nonneg j (rootList v) k).
    pose proof (cstart_mono j (rootList v) (S k) (length (rootList v)) Hlt) as Hm. cbn [cstart] in Hm.
    assert (csize j (rootList v) k = blen b) as Hb.
    { unfold csize. by rewrite Hk, (dt_content _ _ _ _ _ _ _ _ _ Ht). }
    rewrite Hb in Hm. assert (bytesToSectors (blen b) * SECTOR_SIZE = blen b) as Hs.
    { apply whole_sectors. split; [apply (dt_ok _ _ _ _ _ _ _ _ _ Ht)|].
      pose proof (dt_size _ _ _ _ _ _ _ _ _ Ht). unfold TEMP_BUF_SIZE in *. rewrite ES. lia. }
    pose proof (blen_nonneg b). fold (tree_sectors j v) in Hm. pose proof (Hlba j) as Hj. rewrite ES in *.
    assert (0 <= dirs_lba j v /\ dirs_lba j v + tree_sectors j v <= files_lba v) as [Hj0 Hj1] by (destruct j; lia).
    split; [|lia]. rewrite Hin by (rewrite ?E1; lia).
    exact (Sd _ _ _ _ Hk (dt_content _ _ _ _ _ _ _ _ _ Ht)).
  - intros j d b Hh Hb. rewrite Hin; [by eapply Sr|..]; rewrite ?E1, ?ES; unfold root_record; destruct j; lia.
  - intros f c Hf Hc. destruct (file_sectors v w cs f c Hok Ecs Hf Hc) as [Hr Hle]. pose proof (blen_nonneg c).
    rewrite ES in *. split; [done|]. split; [lia|]. split; [|split; [lia|]].
    { pose proof (file_contents_Some _ _ _ Hc) as (_ & _ & Ec). lia. }
    intros o n Ho Hn Hb. rewrite <- (image_file v w (zext fs) cs f c o n); [|done..]. fold X. rewrite E1, ES.
    f_equal. lia.
Qed.

(** ** Following the records *)

(** The root directory's record in a volume descriptor is that of its contents. *)
Lemma root_fields b r l s n :
  content_ok b ((0, r) :: l) -> subdir_entry [0] s n r ->
  rec_start (34 :: slice 1 33 b) = u32 s /\ rec_length (34 :: slice 1 33 b) = u32 n.
Proof.
  intros [(e & C & _) _] [_ Hs Hn _].
  pose proof (chain_bounds _ 0 _ _ ltac:(lia) C) as [_ Hall]. apply Forall_inv in Hall.
  inversion C as [|? ? ? ? ? _ Hr Hok _]; subst. destruct Hok.
  assert (forall a, 2 <= a <= 10 -> slice a 4 (34 :: slice 1 33 b) = slice a 4 r) as Ha.
  { intros a Ha. rewrite <- Hr at 1. rewrite slice_slice by lia.
    change (34 :: slice 1 33 b) with ([34] ++ slice 1 33 b). rewrite slice_app_r by (change (blen [34]) with 1; lia).
    change (blen [34]) with 1. rewrite slice_slice by lia. f_equal; lia. }
  unfold rec_start, rec_length in *. by rewrite !Ha by lia.
Qed.

Lemma app_sep_ne (p name : bytes) : p ++ [47] ++ name <> p.
Proof. intros E. apply (f_equal length) in E. rewrite !length_app in E. cbn in E. lia. Qed.

(** Every directory below is found. *)
Lemma finds_directory X path v w j ns p :
  served_as X v w -> dir_tree w path (rootList v) -> under w path ns p ->
  exists k d names, rootList v !! k = Some d /\ dl_path d = p /\
    Forall2 (fun n x => iso_name j 204 127 n = Some x) ns names /\
    finds X j names (dirs_lba j v + cstart j (rootList v) k) (csize j (rootList v) k).
Proof.
  intros [_ _ Htells Hroot _] Ht Hu.
  assert (forall k d b l fb db dl, dl !! k = Some d -> dir_tells j fb db dl (length dl) k d b l ->
    csize j dl k = blen b /\ 0 <= blen b < 2 ^ 32) as Hsize.
  { intros k d b l fb db dl Hk []. unfold csize. rewrite Hk, dt_content. pose proof (blen_nonneg b).
    unfold TEMP_BUF_SIZE in *. cbn. split; [done|lia]. }
  induction Hu as [|ns p es e Hu (k & d & names & Hk & <- & Hns & Hf) He Hin Hsel].
  - pose proof (tr_root _ _ _ Ht) as (d & Hd & Ep & _). pose proof Hd as Hd0. rewrite head_lookup in Hd0.
    destruct (Htells j _ _ Hd0) as (b & l & Htd & _ & Hrange). pose proof (Hsize _ _ _ _ _ _ _ Hd0 Htd) as [Es Hb].
    pose proof (dt_self _ _ _ _ _ _ _ _ _ Htd) as (r & l' & -> & Hr).
    destruct (root_fields _ _ _ _ _ (dt_ok _ _ _ _ _ _ _ _ _ Htd) Hr) as [E1 E2].
    rewrite <- (Hroot j d b Hd (dt_content _ _ _ _ _ _ _ _ _ Htd)) in E1, E2.
    exists 0%nat, d, []. split; [done|]. split; [done|]. split; [constructor|].
    rewrite u32_small in E1, E2 by lia. rewrite Es, <- E1, <- E2. constructor.
  - destruct (tree_child _ _ _ _ _ _ _ Ht Hk He Hin Hsel) as (c & x & Hx & [Hpar Hpath Hname _]).
    destruct (Htells j _ _ Hk) as (b & l & Htd & Hsl & _). pose proof (Hsize _ _ _ _ _ _ _ Hk Htd) as [Es _].
    destruct (Htells j _ _ Hx) as (bx & lx & Htx & _ & Hrx). pose proof (Hsize _ _ _ _ _ _ _ Hx Htx) as [Ex Hbx].
    assert (c <> k) as Hck.
    { intros ->. assert (x = d) as -> by congruence. by apply (app_sep_ne (dl_path d) (d_name e)). }
    destruct (dt_dirs _ _ _ _ _ _ _ _ _ Htd c x (lookup_lt_Some _ _ _ Hx) Hx Hpar Hck)
      as (o & r & name & Hr & En & [Ern Ers Erl Erf]).
    exists c, x, (names ++ [name]). split; [done|]. split; [done|].
    split; [apply Forall2_app; [done|constructor; [by rewrite <- Hname|constructor]]|].
    rewrite Ex, <- Ern. rewrite Ex in Erl. rewrite u32_small in Ers, Erl by lia. rewrite <- Ers, <- Erl.
    eapply finds_dir; [exact Hf| |exact Hr|exact Erf]. rewrite Es, Hsl. apply Htd.
Qed.

Lemma joliet_whole_name name : joliet_file_name (blen name) name = Some (name ++ str ";1").
Proof.
  unfold joliet_file_name. destruct (Z.ltb_spec (blen name) (blen name)); [lia|].
  destruct (Z.ltb_spec (blen name + 2) (blen name)); [lia|]. by rewrite slice_all.
Qed.

Lemma file_disc_name j dir e f : file_of dir e f -> multipart f = false -> file_name j f = disc_name j (d_name e).
Proof.
  intros [] Hm. unfold file_name, disc_name. rewrite fo_name, fo_len by done.
  destruct j; [|done]. rewrite joliet_whole_name. by destruct (utf8_to_ucs2 _ _).
Qed.

(** The files of a directory, and their records. *)
Lemma finds_file X path v w j k d es e c :
  served_as X v w -> tree w path (rootList v) -> Forall (servable w) (all_files v) -> Forall (recorded w) (all_files v) ->
  rootList v !! k = Some d -> entries_at w (dl_path d) = Some es -> e ∈ es -> select_files e = true ->
  multipart_digits (d_name e) = None -> file_at w (dl_path d ++ [47] ++ d_name e) = Regular c ->
  exists l name,
    content_ok (slice ((dirs_lba j v + cstart j (rootList v) k) * SECTOR_SIZE) (csize j (rootList v) k) X) l /\
    disc_name j (d_name e) = Some name /\
    forall i x, extents c !! i = Some x -> exists o r, (o, r) ∈ l /\ rec_name r = name /\
      Z.land (rec_flags r) ISO_DIRECTORY = 0 /\ slice (rec_start r * SECTOR_SIZE) (rec_length r) X = x.
Proof.
  intros Hsv [_ Hfiles] Hserv Hrec Hk He Hin Hsel Hm Hc.
  destruct (Hfiles d (list_elem_of_lookup_2 _ _ _ Hk)) as (es' & He' & Hf). assert (es' = es) as -> by congruence.
  assert (e ∈ filter first_part (filter select_files es)) as Hin'.
  { apply list_elem_of_filter. unfold first_part. rewrite Hm. split; [done|].
    apply list_elem_of_filter. by rewrite Hsel. }
  apply list_elem_of_lookup in Hin' as [i0 Hi0]. destruct (Forall2_lookup_l _ _ _ _ _ Hf Hi0) as (f & Hfi & Hfo).
  apply list_elem_of_lookup_2 in Hfi as Hfd. assert (multipart f = false) as Hmf by (by rewrite (fo_multipart _ _ _ Hfo), Hm).
  assert (f ∈ all_files v) as Hfa.
  { unfold all_files. apply list_elem_of_In, in_concat. exists (fileList d). rewrite <- !list_elem_of_In.
    split; [|done]. apply list_elem_of_fmap. exists d. split; [done|]. by eapply list_elem_of_lookup_2. }
  rewrite Forall_forall in Hserv, Hrec. rewrite <- (fo_path _ _ _ Hfo Hmf) in Hc.
  pose proof (Hrec f Hfa Hmf c Hc) as Es. destruct (Hserv f Hfa) as (_ & c' & Hc' & Hlen).
  assert (c' = c) as -> by congruence.
  assert (file_contents w f = Some c) as Hfc by (unfold file_contents; by rewrite Hmf, Hc, Es, Z.eqb_refl).
  destruct (sd_tells _ _ _ Hsv j _ _ Hk) as (b & l & Htd & Hsl & _).
  destruct (extents_parts f c Es ltac:(unfold SECTOR_SIZE in *; lia)) as [Hn Hx].
  destruct (sd_file _ _ _ Hsv f c Hfa Hfc) as (Hr0 & Hl0 & Hr1 & Hr2 & Hbytes).
  assert (csize j (rootList v) k = blen b) as Hb.
  { unfold csize. by rewrite Hk, (dt_content _ _ _ _ _ _ _ _ _ Htd). }
  pose proof (dt_files _ _ _ _ _ _ _ _ _ Htd) as Hp. rewrite Forall_forall in Hp. specialize (Hp f Hfd).
  assert (exists name, disc_name j (d_name e) = Some name) as [name Ename].
  { destruct (Hp 0) as (o & r & _ & He0).
    - split; [done|]. destruct (extents c) eqn:Ee; [|cbn in Hn; lia]. pose proof (extents_concat c) as E. rewrite Ee in E.
      cbn in E. subst c. done.
    - rewrite <- (file_disc_name j _ _ _ Hfo Hmf), (fe_name _ _ _ _ _ He0). eauto. }
  exists l, name. rewrite Hb, Hsl. split; [apply Htd|]. split; [done|].
  intros i x Hix. destruct (Hx i x Hix) as (Ho & Hn0 & Hpos & Hle & -> & Epos).
  destruct (Hp (Z.of_nat i)) as (o & r & Hr & [_ En Est El Efl]).
  { apply lookup_lt_Some in Hix. lia. }
  exists o, r. split; [done|]. split.
  { rewrite (file_disc_name j _ _ _ Hfo Hmf) in En. congruence. }
  split; [done|]. rewrite Est, El, u32_small, u32_small.
  - rewrite <- Hbytes; [|lia..]. f_equal. rewrite Epos. unfold SECTOR_SIZE. lia.
  - done.
  - unfold SECTOR_SIZE in *. pose proof (blen_nonneg c). split; [lia|].
    destruct Hpos as [->|]; [lia|]. rewrite Epos in Hle, Ho. lia.
Qed.
End serve.
