(* ===== verification/Client.v ===== *)
(** * A connection: client_t and the wire format

    [client_t] is the slot of one connection, with the functions of main.cpp
    that set it up and tear it down.  The commands and results of
    include/netiso.h are byte strings: [cmd_field] is how the handlers take a
    field from a received command, the [netiso_..._result] functions are the
    packed structures they send. *)

From S2P Require Import Prelude Endian Os CString AbsFile FileIso.

Definition BUFFER_SIZE : Z := 4 * 1048576.
Definition MAX_CLIENTS : Z := 5.
Definition MAX_ENTRIES : Z := 4096.
Definition MAX_PATH_LEN : Z := 510.
Definition MAX_FILE_LEN : Z := 255.
Definition MAX_LINK_LEN : Z := 2048.
Definition NONE : Z := -1.
Definition NO_SOCKET : Z := -1.
Definition SOCKET_OK (sock : Z) : bool := 0 <=? sock.

Definition IS_RANGE (a b c : Z) : bool := (b <=? a) && (a <=? c).

(** [a] is a NUL-terminated name. *)
Definition IS_PARENT_DIR (a : bytes) : bool :=
  match a with
  | [46] | [46; 46] => true
  | _ => false
  end.

Inductive viso_t := VISO_NONE | VISO_PS3 | VISO_ISO.

#[export] Instance viso_eq_dec : EqDecision viso_t.
Proof. solve_decision. Defined.

(** What [new File()] and [new VIsoFile(ps3)] construct. *)
Class RoFactory (R : Type) := {
  new_File : R;
  new_VIsoFile : bool -> R;
}.

(** ** The slot of a connection *)

Record client_t (R : Type) `{Aes} := mk_client {
  s : Z;
  ro_file : option R;
  wo_file : option File;
  dir : option Z;
  dirpath : option bytes;
  buf : option mem;
  connected : bool;
  ip_addr : Z;
  has_thread : bool;
  CD_SECTOR_SIZE : Z;
  subdirs : Z;
  ro_file_size : Z;
  eof_pad_logged : bool;
}.
Arguments mk_client {R _}.
Arguments s {R _} _.
Arguments ro_file {R _} _.
Arguments wo_file {R _} _.
Arguments dir {R _} _.
Arguments dirpath {R _} _.
Arguments buf {R _} _.
Arguments connected {R _} _.
Arguments ip_addr {R _} _.
Arguments has_thread {R _} _.
Arguments CD_SECTOR_SIZE {R _} _.
Arguments subdirs {R _} _.
Arguments ro_file_size {R _} _.
Arguments eof_pad_logged {R _} _.

Section setters.
Context {R : Type} `{Aes}.
Implicit Types c : client_t R.

Definition set_s x c : client_t R := mk_client x (ro_file c) (wo_file c) (dir c) (dirpath c) (buf c)
  (connected c) (ip_addr c) (has_thread c) (CD_SECTOR_SIZE c) (subdirs c) (ro_file_size c)
  (eof_pad_logged c).
Definition set_ro (x : option R) c : client_t R := mk_client (s c) x (wo_file c) (dir c) (dirpath c) (buf c)
  (connected c) (ip_addr c) (has_thread c) (CD_SECTOR_SIZE c) (subdirs c) (ro_file_size c)
  (eof_pad_logged c).
Definition set_wo x c : client_t R := mk_client (s c) (ro_file c) x (dir c) (dirpath c) (buf c)
  (connected c) (ip_addr c) (has_thread c) (CD_SECTOR_SIZE c) (subdirs c) (ro_file_size c)
  (eof_pad_logged c).
Definition set_dir d p c : client_t R := mk_client (s c) (ro_file c) (wo_file c) d p (buf c)
  (connected c) (ip_addr c) (has_thread c) (CD_SECTOR_SIZE c) (subdirs c) (ro_file_size c)
  (eof_pad_logged c).
Definition set_buf x c : client_t R := mk_client (s c) (ro_file c) (wo_file c) (dir c) (dirpath c) x
  (connected c) (ip_addr c) (has_thread c) (CD_SECTOR_SIZE c) (subdirs c) (ro_file_size c)
  (eof_pad_logged c).
Definition set_connected x c : client_t R := mk_client (s c) (ro_file c) (wo_file c) (dir c) (dirpath c)
  (buf c) x (ip_addr c) (has_thread c) (CD_SECTOR_SIZE c) (subdirs c) (ro_file_size c)
  (eof_pad_logged c).
Definition set_cd x c : client_t R := mk_client (s c) (ro_file c) (wo_file c) (dir c) (dirpath c) (buf c)
  (connected c) (ip_addr c) (has_thread c) x (subdirs c) (ro_file_size c) (eof_pad_logged c).
Definition set_subdirs x c : client_t R := mk_client (s c) (ro_file c) (wo_file c) (dir c) (dirpath c)
  (buf c) (connected c) (ip_addr c) (has_thread c) (CD_SECTOR_SIZE c) x (ro_file_size c)
  (eof_pad_logged c).
(** [ro_file_size] and [eof_pad_logged] *)
Definition set_size n logged c : client_t R := mk_client (s c) (ro_file c) (wo_file c) (dir c) (dirpath c)
  (buf c) (connected c) (ip_addr c) (has_thread c) (CD_SECTOR_SIZE c) (subdirs c) n logged.
End setters.

Section lifecycle.
Context {W R : Type} `{Posix W, Aes, AbstractFile R W}.
Variables (root_len make_iso : Z) (st_uninit : file_stat_t).
Implicit Types (c : client_t R) (w : W).

(** [memset(client, 0, ...)], then the fields one by one; [heap] is the
    indeterminate contents of the buffer [malloc] returns. *)
Definition initialize_client (heap : mem) w : Z * client_t R * W :=
  let zero := mk_client 0 None None None None None false 0 false 0 0 0 false in
  let c := set_s NO_SOCKET zero in
  let '(ok, w) := sys_malloc BUFFER_SIZE w in
  if negb ok then (FAILED, c, w)
  else
    (SUCCEEDED,
     mk_client NO_SOCKET None None None None (Some heap) true (ip_addr c) (has_thread c)
               2352 0 0 false, w).

Definition delete_ro c w : W :=
  match ro_file c with Some f => af_delete f w | None => w end.

Definition delete_wo c w : W :=
  match wo_file c with Some f => File_delete f w | None => w end.

(** The socket is shut down and closed ([sys_shutdown]; [closesocket] is
    [close]); then the files, the directory and the buffers are released. *)
Definition finalize_client c w : client_t R * W :=
  let sock := s c in
  let w := if SOCKET_OK sock then (sys_close sock (sys_shutdown sock w)).2 else w in
  let w := delete_ro c w in
  let w := delete_wo c w in
  let w := match dir c with Some d => sys_closedir d w | None => w end in
  (mk_client NO_SOCKET None None None None None (connected c) (ip_addr c) (has_thread c)
     2352 0 (ro_file_size c) (eof_pad_logged c), w).
End lifecycle.

(** ** The wire format *)

Definition NETISO_CMD_OPEN_FILE : Z := 0x1224.
Definition NETISO_CMD_READ_FILE_CRITICAL : Z := 0x1225.
Definition NETISO_CMD_READ_CD_2048_CRITICAL : Z := 0x1226.
Definition NETISO_CMD_READ_FILE : Z := 0x1227.
Definition NETISO_CMD_CREATE_FILE : Z := 0x1228.
Definition NETISO_CMD_WRITE_FILE : Z := 0x1229.
Definition NETISO_CMD_OPEN_DIR : Z := 0x122A.
Definition NETISO_CMD_READ_DIR_ENTRY : Z := 0x122B.
Definition NETISO_CMD_DELETE_FILE : Z := 0x122C.
Definition NETISO_CMD_MKDIR : Z := 0x122D.
Definition NETISO_CMD_RMDIR : Z := 0x122E.
Definition NETISO_CMD_READ_DIR_ENTRY_V2 : Z := 0x122F.
Definition NETISO_CMD_STAT_FILE : Z := 0x1230.
Definition NETISO_CMD_GET_DIR_SIZE : Z := 0x1231.
Definition NETISO_CMD_READ_DIR : Z := 0x1232.

(** [sizeof(netiso_cmd)]; every command is this long. *)
Definition netiso_cmd_size : Z := 16.

(** A field of [n] bytes at offset [o], as the host loads it. *)
Definition cmd_field (o n : Z) (cmd : bytes) : Z := le_val (slice o n cmd).

Definition cmd_opcode (cmd : bytes) : Z := BE16 (cmd_field 0 2 cmd).
(** [fp_len] / [dp_len] of the commands that a path follows *)
Definition cmd_path_len (cmd : bytes) : Z := BE16 (cmd_field 2 2 cmd).
(** [num_bytes] and [offset] of the read and write commands *)
Definition cmd_num_bytes (cmd : bytes) : Z := BE32 (cmd_field 4 4 cmd).
Definition cmd_offset (cmd : bytes) : Z := BE64 (cmd_field 8 8 cmd).
(** netiso_read_cd_2048_critical_cmd *)
Definition cmd_start_sector (cmd : bytes) : Z := BE32 (cmd_field 4 4 cmd).
Definition cmd_sector_count (cmd : bytes) : Z := BE32 (cmd_field 8 4 cmd).

(** The packed results, from the values their fields are assigned. *)
Definition netiso_open_result (file_size mtime : Z) : bytes :=
  le_bytes 8 file_size ++ le_bytes 8 mtime.
(** the results that are one 32-bit integer: read_file, create, write_file,
    open_dir, delete_file, mkdir, rmdir *)
Definition netiso_int32_result (r : Z) : bytes := le_bytes 4 r.
(** ... and one 64-bit integer: read_dir, get_dir_size *)
Definition netiso_int64_result (r : Z) : bytes := le_bytes 8 r.
Definition netiso_read_dir_entry_result (file_size fn_len is_directory : Z) : bytes :=
  le_bytes 8 file_size ++ le_bytes 2 fn_len ++ le_bytes 1 is_directory.
Definition netiso_read_dir_entry_result_v2 (file_size mtime ctime atime fn_len is_directory : Z)
    : bytes :=
  le_bytes 8 file_size ++ le_bytes 8 mtime ++ le_bytes 8 ctime ++ le_bytes 8 atime ++
  le_bytes 2 fn_len ++ le_bytes 1 is_directory.
Definition netiso_stat_result (file_size mtime ctime atime is_directory : Z) : bytes :=
  le_bytes 8 file_size ++ le_bytes 8 mtime ++ le_bytes 8 ctime ++ le_bytes 8 atime ++
  le_bytes 1 is_directory.

(** The fields of a command are its big-endian bytes. *)
Section fields.
Variable cmd : bytes.
Hypotheses (Hb : Forall is_byte cmd) (Hl : blen cmd = netiso_cmd_size).

Lemma field_bytes o n : Forall is_byte (slice o n cmd).
Proof using Hb. by apply Forall_take, Forall_drop. Qed.

Lemma field_length o n : 0 <= o -> 0 <= n -> o + n <= 16 -> length (slice o n cmd) = Z.to_nat n.
Proof using Hl.
  intros. pose proof (blen_slice o n cmd) as E. rewrite Hl in E. unfold netiso_cmd_size, blen in *. lia.
Qed.

Lemma cmd_path_len_be : cmd_path_len cmd = be_val (slice 2 2 cmd).
Proof using Hb Hl. apply BE16_load; [apply field_bytes|by apply field_length]. Qed.
Lemma cmd_num_bytes_be : cmd_num_bytes cmd = be_val (slice 4 4 cmd).
Proof using Hb Hl. apply BE32_load; [apply field_bytes|by apply field_length]. Qed.
Lemma cmd_offset_be : cmd_offset cmd = be_val (slice 8 8 cmd).
Proof using Hb Hl. apply BE64_load; [apply field_bytes|by apply field_length]. Qed.
Lemma cmd_sector_count_be : cmd_sector_count cmd = be_val (slice 8 4 cmd).
Proof using Hb Hl. apply BE32_load; [apply field_bytes|by apply field_length]. Qed.

Lemma be_slice_range o n : 0 <= o -> 0 <= n -> o + n <= 16 ->
  0 <= be_val (slice o n cmd) < 2 ^ (8 * n).
Proof using Hb Hl.
  intros. pose proof (be_val_range _ (field_bytes o n)) as Hr.
  unfold blen in Hr. rewrite field_length, Z2Nat.id in Hr by done. done.
Qed.

Lemma cmd_num_bytes_range : 0 <= cmd_num_bytes cmd < 2 ^ 32.
Proof using Hb Hl. rewrite cmd_num_bytes_be. by apply be_slice_range. Qed.
Lemma cmd_start_sector_range : 0 <= cmd_start_sector cmd < 2 ^ 32.
Proof using Hb Hl. apply cmd_num_bytes_range. Qed.
Lemma cmd_sector_count_range : 0 <= cmd_sector_count cmd < 2 ^ 32.
Proof using Hb Hl. rewrite cmd_sector_count_be. by apply be_slice_range. Qed.
Lemma cmd_offset_range : 0 <= cmd_offset cmd < 2 ^ 64.
Proof using Hb Hl. rewrite cmd_offset_be. by apply be_slice_range. Qed.
Lemma cmd_path_len_range : 0 <= cmd_path_len cmd < 2 ^ 16.
Proof using Hb Hl. rewrite cmd_path_len_be. by apply be_slice_range. Qed.
End fields.

(** The value a client puts in a field, big-endian, is the one that is taken. *)
Section requests.
Variables (a b : bytes) (x : Z).

Lemma field_taken n o : o = blen a -> cmd_field o (Z.of_nat n) (a ++ be_bytes n x ++ b) = le_val (be_bytes n x).
Proof. intros ->. unfold cmd_field. by rewrite slice_mid by (rewrite ?blen_be_bytes; done). Qed.

Lemma field_16 o : o = blen a -> 0 <= x < 2 ^ 16 -> BE16 (cmd_field o 2 (a ++ be_bytes 2 x ++ b)) = x.
Proof.
  intros Ho Hx. change 2 with (Z.of_nat 2) at 1. rewrite field_taken by done.
  rewrite BE16_load, be_val_be_bytes by (apply be_bytes_is_byte || apply length_be_bytes).
  by apply Z.mod_small.
Qed.

Lemma field_32 o : o = blen a -> 0 <= x < 2 ^ 32 -> BE32 (cmd_field o 4 (a ++ be_bytes 4 x ++ b)) = x.
Proof.
  intros Ho Hx. change 4 with (Z.of_nat 4) at 1. rewrite field_taken by done.
  rewrite BE32_load, be_val_be_bytes by (apply be_bytes_is_byte || apply length_be_bytes).
  by apply Z.mod_small.
Qed.
End requests.
