(* ===== verification/RoFile.v ===== *)
(** * The files a connection reads: File or virtual image

    [client->ro_file] points to a [File] or to a [VIsoFile], chosen when the file
    is opened; a call through it goes to the object's class.  The class of virtual
    images is any class [V] with the operations (and, where they are needed, the
    laws) of [AbstractFile]; VIsoImage.v gives VIsoFile as one, and Scenario.v
    puts it in.

    [RoLaws] adds to them what opening a plain file gives. *)

From S2P Require Import Prelude Os Stream CString AbsFile FileIso FileView FileOpen Client.

Section sum.
Context {W V : Type} `{Posix W, PosixView W, Aes, !AbstractFile V W, !AbstractFileView V W}.
(** [root_len] and [make_iso] of main.cpp; the storage of a new object; [new VIsoFile(ps3)]. *)
Variables (root_len make_iso : Z) (st_uninit : file_stat_t) (this : File) (new_V : bool -> V).
Abbreviation ro := (File + V)%type.
#[local] Existing Instance File_AbstractFile.
#[local] Instance file_ops : AbstractFile File W := File_AbstractFile root_len make_iso st_uninit.

(** Call dispatch. *)
Definition on_file {A} (r : A * File * W) : A * ro * W := let '(a, f, w) := r in (a, inl f, w).
Definition on_viso {A} (r : A * V * W) : A * ro * W := let '(a, v, w) := r in (a, inr v, w).

#[export] Instance ro_AbstractFile : AbstractFile ro W := {
  af_open path flags f w :=
    match f with
    | inl f => on_file <$> af_open path flags f w
    | inr v => on_viso <$> af_open path flags v w
    end;
  af_close f w :=
    match f with inl f => on_file (af_close f w) | inr v => on_viso (af_close v w) end;
  af_read m o n f w :=
    match f with inl f => on_file (af_read m o n f w) | inr v => on_viso (af_read m o n v w) end;
  af_write d f w :=
    match f with inl f => on_file (af_write d f w) | inr v => on_viso (af_write d v w) end;
  af_seek off wh f w :=
    match f with inl f => on_file (af_seek off wh f w) | inr v => on_viso (af_seek off wh v w) end;
  af_fstat st f w :=
    match f with inl f => on_file (af_fstat st f w) | inr v => on_viso (af_fstat st v w) end;
  supportsBulkRead f := match f with inl f => supportsBulkRead f | inr v => supportsBulkRead v end;
  af_delete f w := match f with inl f => af_delete f w | inr v => af_delete v w end;
}.

#[export] Instance ro_factory : RoFactory ro := {
  new_File := inl (File_ctor this);
  new_VIsoFile ps3 := inr (new_V ps3);
}.

#[export] Instance ro_AbstractFileView : AbstractFileView ro W := {
  af_view f w := match f with inl f => File_view f w | inr v => af_view v w end;
}.
End sum.

(** What a class of read-only files promises beyond [AbstractFileLaws]. *)
Class RoLaws (R W : Type) `{AbstractFile R W, AbstractFileView R W, Posix W, PosixView W, RoFactory R} := {
  ro_plain : bytes -> bool;
  rol_open p c w : ro_plain p = true -> file_at w p = Regular c ->
    exists f w', af_open (Some p) O_RDONLY new_File w = Some (SUCCEEDED, f, w') /\
      af_view f w' = Some (c, 0) /\ supportsBulkRead f = true /\ keeps_net w w';
}.

(** The time that fstat answers of such a file. *)
Class RoTimes (R W : Type) `{RoLaws R W, !StreamView W} := {
  rot_mtime p c w f w1 st st' f' w2 : ro_plain p = true -> file_at w p = Regular c ->
    af_open (Some p) O_RDONLY new_File w = Some (SUCCEEDED, f, w1) ->
    af_fstat st f w1 = (0, st', f', w2) -> st_mtime st' = mtime_at w p;
}.

Section laws.
Context {W V : Type} `{PosixLaws W, Aes, !AbstractFile V W, !AbstractFileView V W,
                       !AbstractFileLaws V W}.
Variables (root_len : Z) (st_uninit : file_stat_t) (this : File) (new_V : bool -> V).
Abbreviation ro := (File + V)%type.
#[local] Instance ops make_iso : AbstractFile ro W := ro_AbstractFile root_len make_iso st_uninit.
#[local] Instance factory : RoFactory ro := ro_factory this new_V.

#[export] Instance ro_AbstractFileLaws make_iso :
  @AbstractFileLaws ro W (ro_AbstractFile root_len make_iso st_uninit) _ _ _.
Proof.
  pose proof (File_AbstractFileLaws (W := W) root_len make_iso st_uninit) as L. split.
  - intros [f|v]; [exact (afl_view (AbstractFileLaws := L) f)|exact (afl_view v)].
  - intros [f|v]; [exact (afl_frame (AbstractFileLaws := L) f)|exact (afl_frame v)].
  - intros [f|v] w c p off Hv Hoff.
    + destruct (afl_seek (AbstractFileLaws := L) f w c p off Hv Hoff) as (r & f' & w' & E & ?).
      exists r, (inl f'), w'. cbn in *. by rewrite E.
    + destruct (afl_seek v w c p off Hv Hoff) as (r & f' & w' & E & ?).
      exists r, (inr f'), w'. cbn in *. by rewrite E.
  - intros [f|v] w c p off Hv Hoff.
    + destruct (afl_seek_neg (AbstractFileLaws := L) f w c p off Hv Hoff) as (r & f' & w' & E & ?).
      exists r, (inl f'), w'. cbn in *. by rewrite E.
    + destruct (afl_seek_neg v w c p off Hv Hoff) as (r & f' & w' & E & ?).
      exists r, (inr f'), w'. cbn in *. by rewrite E.
  - intros [f|v] w c p m o n Hv Hn.
    + destruct (afl_read (AbstractFileLaws := L) f w c p m o n Hv Hn) as (r & m' & f' & w' & E & ?).
      exists r, m', (inl f'), w'. cbn in *. by rewrite E.
    + destruct (afl_read v w c p m o n Hv Hn) as (r & m' & f' & w' & E & ?).
      exists r, m', (inr f'), w'. cbn in *. by rewrite E.
  - intros [f|v] w c p st Hv.
    + destruct (afl_fstat (AbstractFileLaws := L) f w c p st Hv) as (st' & f' & w' & E & ?).
      exists st', (inl f'), w'. cbn in *. by rewrite E.
    + destruct (afl_fstat v w c p st Hv) as (st' & f' & w' & E & ?).
      exists st', (inr f'), w'. cbn in *. by rewrite E.
Qed.

#[export] Instance ro_RoLaws :
  @RoLaws ro W (ro_AbstractFile root_len 0 st_uninit) _ _ _ (ro_factory this new_V).
Proof.
  refine {| ro_plain := plain_path root_len |}. intros p c w Hp Hc.
  destruct (open_plain root_len st_uninit this p c w Hp Hc) as (f & w' & E & Hv & Hb & Hnet).
  exists (inl f), w'. split; [|done]. change (on_file (V := V) <$> File_open root_len 0 st_uninit (Some p) O_RDONLY
    (File_ctor this) w = Some (SUCCEEDED, inl f, w')). by rewrite E.
Defined.

#[export] Instance ro_RoTimes `{!StreamView W, !StreamLaws W} :
  @RoTimes ro W (ro_AbstractFile root_len 0 st_uninit) _ _ _ (ro_factory this new_V) ro_RoLaws _.
Proof.
  split. intros p c w f w1 st st' f' w2 Hp Hc Eo Es.
  destruct (law_open_ok _ _ _ Hc) as (d & w0 & E & Hd & Hv).
  destruct (open_plain_file root_len st_uninit this p _ w d w0 Hp E Hd) as (f0 & E0 & Hfd & Hm & _).
  change (on_file (V := V) <$> File_open root_len 0 st_uninit (Some p) O_RDONLY (File_ctor this) w =
    Some (SUCCEEDED, f, w1)) in Eo. rewrite E0 in Eo. cbn in Eo. injection Eo as <- <-.
  change (on_file (V := V) (File_fstat st_uninit st f0 w0) = (0, st', f', w2)) in Es.
  unfold File_fstat in Es. rewrite Hm, Hfd in Es. unfold FD_OK in Es. rewrite (proj2 (Z.leb_le 0 d) Hd) in Es. cbn [Z.eqb negb] in Es.
  destruct (law_fstat_ok _ _ _ _ Hv) as (st1 & w3 & E3 & _). unfold fstat_file in Es. rewrite E3 in Es.
  cbn in Es. injection Es as <- _ _. exact (sl_mtime _ _ _ _ _ _ _ Hc E E3).
Qed.
End laws.
