(* ===== verification/Scenario.v ===== *)
(** * A concrete server

    The system of Os.Sim with a few files, a cipher, the class of virtual images
    and a connection, at which the theorems' hypotheses are seen to hold. *)

From S2P Require Import Prelude Endian CMem CString Os Stream AbsFile FileIso FileView FileOpen.
From S2P Require Import VIso VIsoView VIsoTree VIsoImage Client RoFile.

#[export] Existing Instances Sim.posix Sim.view Sim.laws.

(** A cipher that leaves its input alone has all that is asked of one. *)
#[export] Instance aes : Aes := {|
  aes_context := unit;
  aes_setkey_dec _ _ := (0, tt);
  aes_setkey_enc _ _ := (0, tt);
  aes_crypt_cbc _ _ _ iv d := (0, iv, d);
|}.

#[export] Instance aes_laws : AesLaws.
Proof. split; try done. intros ctx enc n iv d _ _ _ <-. by exists iv, d. Qed.

Definition key0 : aes_context := tt.
Definition st0 : file_stat_t := mk_stat 0 0 0 0 0.
Definition this0 : File := mkFile _ 0 [] 0 0 0 kDiscTypeNone 0 None key0 [] false.
Definition root : bytes := str "/srv".

(** The C library of the virtual images: the directories of the simulated system. *)
Definition sim_entries (w : Sim.sim) (p : bytes) : option (list dirent) :=
  let entry n := mk_dirent (if dir_at w (p ++ [47] ++ n) then DT_DIR else 8) n in
  (fun l : list bytes => entry <$> l) <$> dir_at w p.

#[export] Instance viso_sys : VisoSys Sim.sim := {
  sys_scandir p f w := (filter f <$> sim_entries w p, w);
  sys_localtime _ := mk_tm 124 0 2 3 4 5;
  sys_time w := (0, w);
  sys_urandom n w := (Some (replicate (Z.to_nat n) 7), w);
}.
#[export] Instance viso_view : VisoView Sim.sim := { entries_at := sim_entries }.

#[export] Instance viso_laws : VisoSysLaws Sim.sim.
Proof.
  split.
  - intros p f w r w' [= <- <-]. split; [apply undisturbed_refl|]. intros l E.
    change (entries_at w p) with (sim_entries w p).
    destruct (sim_entries w p) as [es|]; [|done]. injection E as <-. by exists es.
  - intros p w w' [_ _ Ed _]. change (sim_entries w' p = sim_entries w p). unfold sim_entries. rewrite Ed.
    destruct (dir_at w p) as [l|]; [|done]. apply (f_equal Some), list_fmap_ext. intros i n _. by rewrite Ed.
  - intros w r w' [= _ <-]. apply undisturbed_refl.
  - intros n w r w' [= _ <-]. apply undisturbed_refl.
Qed.

Definition viso0 : VIsoFile := mkVIso false 0 None 0 [] 0 0 0 None None None None 0 0 0 0 0 0 st0.
Definition dirs_max0 : nat := 10.

Definition ro : Type := File + VIsoFile.
#[export] Instance file_ops : AbstractFile File Sim.sim | 0 := File_AbstractFile (blen root) 0 st0.
#[export] Instance file_laws : AbstractFileLaws File Sim.sim | 0 := File_AbstractFileLaws (blen root) 0 st0.
#[export] Instance viso_ops : AbstractFile VIsoFile Sim.sim | 0 := VIso_AbstractFile dirs_max0 st0.
#[export] Instance viso_file_laws : AbstractFileLaws VIsoFile Sim.sim | 0 := VIso_AbstractFileLaws dirs_max0 st0.
#[export] Instance ro_ops : AbstractFile ro Sim.sim | 0 := ro_AbstractFile (blen root) 0 st0.
#[export] Instance ro_view : AbstractFileView ro Sim.sim | 0 := ro_AbstractFileView.
#[export] Instance ro_laws : AbstractFileLaws ro Sim.sim | 0 := ro_AbstractFileLaws (blen root) st0 0.
#[export] Instance ro_new : RoFactory ro | 0 := ro_factory this0 (VIsoFile_ctor viso0).
#[export] Instance ro_open_laws : RoLaws ro Sim.sim | 0 :=
  ro_RoLaws (blen root) st0 this0 (VIsoFile_ctor viso0).
#[export] Instance ro_times : RoTimes ro Sim.sim | 0 :=
  ro_RoTimes (blen root) st0 this0 (VIsoFile_ctor viso0).

Definition path_a : bytes := str "/srv/a.bin".
Definition data_a : bytes := [10; 11; 12; 13; 14].
Definition path_0 : bytes := str "/srv/x.iso.0".
Definition path_1 : bytes := str "/srv/x.iso.1".
Definition data_0 : bytes := [1; 2; 3].
Definition data_1 : bytes := [4; 5].

(** Descriptor 0 is open on [path_a], 1 and 2 on the parts of an image. *)
Definition sim0 : Sim.sim :=
  Sim.mk_sim {[ path_a := data_a; path_0 := data_0; path_1 := data_1 ]}
    {[ root := [str "a.bin"; str "x.iso.0"; str "x.iso.1"] ]}
    [Some (path_a, 0); Some (path_0, 0); Some (path_1, 0)] [] ∅ ∅ [] [] false.

Definition file_a : File :=
  mkFile _ 0 (replicate 64 INVALID_FD) 0 0 0 kDiscTypeNone 0 None key0 [] false.
Definition file_x : File :=
  mkFile _ 1 (1 :: 2 :: replicate 62 INVALID_FD) 2 3 0 kDiscTypeNone 0 None key0 [] false.

Definition ro_a : ro := inl file_a.
Definition ro_x : ro := inl file_x.

(** A connection on socket 7 with the file [f] of [n] bytes open. *)
Definition client0 (f : ro) (n : Z) : client_t ro :=
  mk_client 7 (Some f) None None None (Some (zext [])) true 0 true 2352 0 n false.

(** Commands: [num_bytes] and [offset] of a read, [start_sector] and
    [sector_count] of a CD read. *)
Definition cmd_read (opcode num_bytes offset : Z) : bytes :=
  be_bytes 2 opcode ++ [0; 0] ++ be_bytes 4 num_bytes ++ be_bytes 8 offset.
Definition cmd_cd (start count : Z) : bytes :=
  be_bytes 2 NETISO_CMD_READ_CD_2048_CRITICAL ++ [0; 0] ++ be_bytes 4 start ++ be_bytes 4 count ++ [0; 0; 0; 0].

Lemma view_a : File_view file_a sim0 = Some (data_a, 0).
Proof. by vm_compute. Qed.
Lemma view_x : File_view file_x sim0 = Some (data_0 ++ data_1, 0).
Proof. vm_compute. reflexivity. Qed.

(** Discharge a hypothesis about concrete data by evaluation. *)
Ltac concrete :=
  cbn [writable Sim.view] in *;
  first [ done | by split | by apply not_elem_of_nil | by left | vm_compute; done
        | apply (bool_decide_unpack _); vm_compute; exact I
        | vm_compute; lia | by vm_compute; left ].
