(* ===== verification/VIsoProps.v ===== *)
(** * Virtual images: the properties

    What a client may rely on when it opens a directory as an image, and where
    it may not. *)

From S2P Require Import Prelude Endian CMem CString Os AbsFile FileIso VIso VIsoView.
From S2P Require Import VIsoNames VIsoTree VIsoDirs VIsoImage VIsoRecords VIsoBuild VIsoScan VIsoContents.
From S2P Require Import VIsoTells VIsoTables VIsoWrite VIsoSpec VIsoServe FileView FileOpen Client RoFile Scenario.

Section properties.
Context {W : Type} `{PosixLaws W, !VisoSys W, !VisoView W, !VisoSysLaws W}.
Variables (dirs_max : nat) (st_uninit : file_stat_t).
Implicit Types (v : VIsoFile) (w : W).

(** The sectors of the files, when they can be counted. *)
Lemma files_fit path v w :
  opened path v w -> fits v -> Forall (fun f => size_ok (fl_size f)) (all_files v) ->
  0 <= filesSizeSectors v /\ filesSizeSectors v = files_sectors (all_files v).
Proof.
  intros [_ Of _ _ _] Hfit Hs. unfold fits in Hfit.
  pose proof (tables_end_range (pathTableSize v) (pathTableSizeJoliet v)).
  pose proof (cstart_nonneg false (rootList v) (length (rootList v))).
  pose proof (cstart_nonneg true (rootList v) (length (rootList v))).
  pose proof (files_sectors_nonneg (all_files v)). unfold tree_sectors in Hfit.
  destruct (Of ltac:(lia) ltac:(lia) Hs) as [_ ->]. lia.
Qed.

(** The digits of the part's number are stored behind the prefix that is kept. *)
Lemma sum_66600_prefix k i p size st file w s1 file1 w1 :
  sum_66600 k i p size st file w = (s1, file1, w1) -> 0 <= p -> p + 6 <= blen file ->
  take (Z.to_nat p) file1 = take (Z.to_nat p) file.
Proof.
  revert i size st file w. induction k as [|k IH]; intros i size st file w; cbn [sum_66600].
  { by intros [= _ <- _]. }
  set (x := [_; _]). intros E Hp Hl.
  assert (take (Z.to_nat p) (overwrite (p + 4) x file) = take (Z.to_nat p) file) as Ht.
  { unfold overwrite. rewrite take_app_le by (rewrite length_take; unfold blen in *; lia).
    rewrite take_take. f_equal. lia. }
  destruct (stat_file _ st w) as [[r st1] w2]. destruct (r <? SUCCEEDED); [injection E as _ <- _; exact Ht|].
  apply IH in E as ->; [done|done|]. rewrite blen_overwrite; [done|lia|]. change (blen x) with 2. lia.
Qed.

(** Big-endian UCS-2 as characters. *)
Fixpoint ucs2_text (b : bytes) : list Z :=
  match b with x :: y :: b => x * 256 + y :: ucs2_text b | _ => [] end.

Lemma ucs2_text_bytes l :
  Forall (fun c => 0 < c < 2 ^ 16) l -> ucs2_text (ucs2_bytes ((fun c => BE16 (Z.land c 0xFFFF)) <$> l)) = l.
Proof.
  induction 1 as [|c l Hc _ IH]; [done|]. unfold ucs2_bytes. cbn [fmap list_fmap concat].
  assert (le_bytes 2 (BE16 (Z.land c 0xFFFF)) = [c / 256; c mod 256]) as ->.
  { change 0xFFFF with (Z.ones 16). rewrite Z.land_ones, Z.mod_small, BE16_store by lia.
    change (be_bytes 2 c) with [Z.land (Z.shiftr c 8) 255; Z.land c 255].
    rewrite !land_255, Z.shiftr_div_pow2 by lia. change (2 ^ 8) with 256.
    rewrite (Z.mod_small (c / 256)); [done|]. Z.to_euclidean_division_equations. lia. }
  cbn [app ucs2_text]. rewrite <- IH at 2. f_equal. Z.to_euclidean_division_equations. lia.
Qed.

(** C6. A directory that is opened becomes an image, a multiple of 32 sectors long,
    with two file systems (ISO 9660 and Joliet), in both of which a reader that
    starts at the volume descriptor and follows the records finds every directory
    at or below the one that was opened and every file in it: under the file's
    name there are records whose extents, one after the other, are the bytes of
    the file.  This holds as long as [fits]: the volume has less than 2^32 sectors;
    [servable]: the files are regular files in one part of less than 8 TB; [short_dir]:
    the name of every directory below it has at most 215 bytes in ISO 9660
    and at most 215 in UCS-2, that is 107 characters, since for a longer one the length
    of its record overflows a byte; and [no_clash]: as they are written into the image,
    upper-cased and cut, no subdirectory has the name of a file or of another subdirectory
    beside it. *)
Theorem viso_serves_tree this ps3 path w v' w' :
  VIso_open dirs_max st_uninit (Some path) O_RDONLY (VIsoFile_ctor this ps3) w = Some (SUCCEEDED, v', w') ->
  fits v' -> (forall j, good_names j (rootList v')) -> Forall (servable w') (all_files v') ->
  exists X, VIso_view v' w' = Some (X, 0) /\ blen X mod (32 * SECTOR_SIZE) = 0 /\
    forall j ns p, under w' path ns p -> exists names s n,
      Forall2 (fun a b => iso_name j 204 127 a = Some b) ns names /\ finds X j names s n /\
      forall es e c, entries_at w' p = Some es -> e ∈ es -> select_files e = true ->
        multipart_digits (d_name e) = None -> file_at w' (p ++ [47] ++ d_name e) = Regular c ->
        exists l name,
          content_ok (slice (s * SECTOR_SIZE) n X) l /\ disc_name j (d_name e) = Some name /\
          concat (extents c) = c /\
          forall i x, extents c !! i = Some x -> exists o r, (o, r) ∈ l /\ rec_name r = name /\
            Z.land (rec_flags r) ISO_DIRECTORY = 0 /\ slice (rec_start r * SECTOR_SIZE) (rec_length r) X = x.
Proof.
  intros Ho%viso_open_spec Hfit Hg Hs. destruct (open_served path v' w' Ho Hfit Hg Hs) as [X Hx].
  exists X. split; [apply Hx|]. split; [apply Hx|]. intros j ns p Hu.
  pose proof (od_tree _ _ _ Ho) as Ht.
  destruct (finds_directory X path v' w' j ns p Hx (tr_tree _ _ _ Ht) Hu) as (k & d & names & Hk & <- & Hns & Hf).
  exists names, (dirs_lba j v' + cstart j (rootList v') k), (csize j (rootList v') k).
  split; [done|]. split; [done|]. intros es e c He Hin Hsel Hm Hc.
  destruct (finds_file X path v' w' j k d es e c Hx Ht Hs (od_recorded _ _ _ Ho) Hk He Hin Hsel Hm Hc)
    as (l & name & Hl & Hname & Hr).
  exists l, name. split; [done|]. split; [done|]. split; [apply extents_concat|done].
Qed.


(** C13. The structures of an image fill the buffer that was allocated for them: all
    that [write] stores is inside it, and every directory's contents are at the
    sectors that were reserved for them.  This is for the trees of C6, of files of
    whatever kind that were found with less than 8 TB: [fits] (less than 2^32 sectors),
    [short_dir] (directory names of at most 215 bytes in ISO 9660 and 107 characters in Joliet)
    and [no_clash] (no subdirectory has the name of a file or of another subdirectory
    beside it). *)
Theorem viso_structures_inside this ps3 path w v' w' :
  VIso_open dirs_max st_uninit (Some path) O_RDONLY (VIsoFile_ctor this ps3) w = Some (SUCCEEDED, v', w') ->
  fits v' -> (forall j, good_names j (rootList v')) -> Forall (fun f => size_ok (fl_size f)) (all_files v') ->
  exists fs, fsBuf v' = Some (zext fs) /\ blen fs = fsBufSize v' /\
    forall j k d b, rootList v' !! k = Some d -> get_content j d = Some b ->
      slice ((dirs_lba j v' + cstart j (rootList v') k) * SECTOR_SIZE) (blen b) fs = b.
Proof.
  intros Ho%viso_open_spec Hfit Hg Hs. destruct (files_fit _ _ _ Ho Hfit Hs) as [Hn Hf].
  destruct (od_image _ _ _ Ho Hfit Hg Hn Hf) as (_ & (fs & []) & _). by exists fs.
Qed.

(** A file in parts, [x.66600], [x.66601], ...: the path that is left for it lacks
    the last character of [x] as well, so what buildContent asks for is not the
    file that was found. *)
Theorem multipart_path_cut pre x st w ok size path w' :
  getFileSizeAndProcessMultipart (pre ++ [x] ++ str ".66600") true (blen pre + 6) st w = (ok, size, path, w') ->
  ok = true ->
  path = pre /\
  forall dlen flen lba, stat_path (mkFileList path dlen flen lba size true) = pre ++ str ".66600".
Proof.
  unfold getFileSizeAndProcessMultipart. intros E Hok.
  destruct (stat_file _ st w) as [[r st1] w1]. destruct (r <? 0); [congruence|].
  pose proof (blen_nonneg pre). cbn [negb orb] in E. destruct (Z.ltb_spec (blen pre + 6) 6); [lia|].
  replace (blen pre + 6 - 6) with (blen pre) in E by lia.
  replace (drop (Z.to_nat (blen pre + 1)) (pre ++ [x] ++ str ".66600")) with (str ".66600") in E
    by (rewrite app_assoc, drop_app_ge by (rewrite length_app; unfold blen; cbn; lia);
        rewrite length_app; unfold blen; cbn [length]; by replace (_ - _)%nat with 0%nat by lia).
  unfold bytes_eqb in E. rewrite bool_decide_eq_true_2 in E by done. cbn [negb] in E.
  destruct (sum_66600 _ _ _ _ _ _ _) as [[s1 file1] w2] eqn:Es. injection E as _ _ <- _.
  apply sum_66600_prefix in Es; [|rewrite ?blen_app; change (blen [x]) with 1; change (blen (str ".66600")) with 6; lia..].
  rewrite Es. unfold blen. rewrite Nat2Z.id, take_app_length. done.
Qed.

(** C39. A name in UTF-8 of at most [n] characters, all of the basic plane, is in the
    Joliet tree as those characters in big-endian UCS-2: it can be read back. *)
Theorem joliet_name_roundtrip n l t :
  Forall (fun c => 0 < c < 2 ^ 16) l -> (length l <= n)%nat ->
  exists u, utf8_to_ucs2 n (utf8 l ++ 0 :: t) = Some u /\ ucs2_text (ucs2_bytes u) = l.
Proof.
  intros Hl Hn. eexists. split.
  - apply utf8_to_ucs2_decode. eapply Forall_impl; [exact Hl|]. cbn. lia.
  - rewrite take_ge by done. by apply ucs2_text_bytes.
Qed.
End properties.

(** ** A directory with a file and a subdirectory *)

Definition viso_sim : Sim.sim := Sim.mk_sim
  {[ str "/g/a.bin" := [1; 2; 3]; str "/g/d/b.txt" := [4; 5] ]}
  {[ str "/g" := [str "a.bin"; str "d"]; str "/g/d" := [str "b.txt"] ]} [] [] ∅ ∅ [] [] false.

Definition viso_dirs : list DirList :=
  [ mkDirList (str "/g") 2 2 None None 0 [mkFileList (str "/g/a.bin") 2 5 0 3 false] 0%nat [1%nat];
    mkDirList (str "/g/d") 2 4 None None 1 [mkFileList (str "/g/d/b.txt") 4 5 1 2 false] 0%nat [] ].

Definition viso_run : option (Z * VIsoFile * Sim.sim) :=
  VIso_open dirs_max0 st0 (Some (str "/g")) O_RDONLY (VIsoFile_ctor viso0 false) viso_sim.

Lemma viso_run_ok : exists v, viso_run = Some (SUCCEEDED, v, viso_sim) /\ fits v /\ bare <$> rootList v = viso_dirs.
Proof.
  assert (match viso_run with
          | Some (r, v, w) => r = SUCCEEDED /\ w = viso_sim /\ fits v /\ bare <$> rootList v = viso_dirs
          | None => False end) as H by (vm_compute; by repeat split).
  destruct viso_run as [[[r v] w]|]; [|done]. destruct H as (-> & -> & ? & ?). by exists v.
Qed.

Lemma viso_names j : good_names j viso_dirs.
Proof.
  split; [|split].
  - repeat constructor; intros n; destruct j; intros [= <-]; vm_compute; discriminate.
  - intros i d f k x Hd Hf Hx Hp Hne. destruct k as [|[|[|]]]; try done; injection Hx as <-; subst i; [done|].
    injection Hd as <-. apply list_elem_of_singleton in Hf as ->. by destruct j.
  - intros c c' x x' Hx Hx' Hp Hc Hc' Hne. destruct c as [|[|[|]]], c' as [|[|[|]]]; try done.
    + injection Hx as <-. by destruct Hc.
    + injection Hx' as <-. injection Hx as <-. by destruct Hc'.
Qed.

Lemma viso_good v : bare <$> rootList v = viso_dirs -> forall j, good_names j (rootList v).
Proof. intros E j. apply (good_names_bare j viso_dirs); [by rewrite E|apply viso_names]. Qed.

Lemma viso_servable v : bare <$> rootList v = viso_dirs -> Forall (servable viso_sim) (all_files v).
Proof.
  intros E. unfold all_files. rewrite (bare_files viso_dirs) by (by rewrite E).
  repeat constructor; eexists; (split; [by vm_compute|by vm_compute]).
Qed.

Lemma viso_serves_tree_witness :
  exists v X names s n l o r, viso_run = Some (SUCCEEDED, v, viso_sim) /\ VIso_view v viso_sim = Some (X, 0) /\
    finds X true names s n /\ content_ok (slice (s * SECTOR_SIZE) n X) l /\ (o, r) ∈ l /\
    slice (rec_start r * SECTOR_SIZE) (rec_length r) X = [4; 5].
Proof.
  destruct viso_run_ok as (v & E & Hfit & Hb).
  destruct (viso_serves_tree dirs_max0 st0 viso0 false (str "/g") viso_sim v viso_sim E Hfit (viso_good v Hb)
    (viso_servable v Hb)) as (X & HX & _ & Hall).
  assert (under viso_sim (str "/g") ([] ++ [str "d"]) (str "/g" ++ [47] ++ str "d")) as Hu.
  { apply (under_dir viso_sim (str "/g") [] (str "/g") [mk_dirent 8 (str "a.bin"); mk_dirent 4 (str "d")]
      (mk_dirent 4 (str "d"))); [constructor|by vm_compute| |done]. by right; left. }
  destruct (Hall true _ _ Hu) as (names & s & n & _ & Hf & Hfiles).
  destruct (Hfiles [mk_dirent 8 (str "b.txt")] (mk_dirent 8 (str "b.txt")) [4; 5]) as (l & name & Hl & _ & _ & Hr);
    [by vm_compute|by left|done|by vm_compute|by vm_compute|].
  destruct (Hr 0%nat [4; 5] eq_refl) as (o & r & Hin & _ & _ & Hs).
  exists v, X, names, s, n, l, o, r. split; [exact E|]. split; [exact HX|]. split; [exact Hf|].
  split; [exact Hl|]. split; [exact Hin|exact Hs].
Defined.


Lemma viso_structures_inside_witness :
  exists v fs, viso_run = Some (SUCCEEDED, v, viso_sim) /\ fsBuf v = Some (zext fs) /\ blen fs = fsBufSize v.
Proof.
  destruct viso_run_ok as (v & E & Hfit & Hb).
  destruct (viso_structures_inside dirs_max0 st0 viso0 false (str "/g") viso_sim v viso_sim E Hfit (viso_good v Hb))
    as (fs & Hfs & Hlen & _).
  { unfold all_files. rewrite (bare_files viso_dirs) by (by rewrite Hb). by repeat constructor. }
  exists v, fs. split; [exact E|]. split; [exact Hfs|exact Hlen].
Defined.

Lemma multipart_path_cut_witness :
  exists size path w', getFileSizeAndProcessMultipart (str "/srv/a.66600") true 11 st0
    (Sim.mk_sim {[ str "/srv/a.66600" := [1] ]} ∅ [] [] ∅ ∅ [] [] false) = (true, size, path, w') /\ path = str "/srv/".
Proof.
  destruct (getFileSizeAndProcessMultipart (str "/srv/a.66600") true 11 st0
    (Sim.mk_sim {[ str "/srv/a.66600" := [1] ]} ∅ [] [] ∅ ∅ [] [] false)) as [[[ok size] path] w'] eqn:E.
  assert (ok = true) as Hok by (apply (f_equal (fun x => x.1.1.1)) in E; vm_compute in E; congruence).
  destruct (multipart_path_cut (str "/srv/") 97 st0 _ ok size path w' E Hok) as [Hp _].
  subst ok. by exists size, path, w'.
Defined.

Lemma joliet_name_roundtrip_witness :
  exists u, utf8_to_ucs2 103 (utf8 [0x41; 0xE9; 0x20AC] ++ [0]) = Some u /\
    ucs2_text (ucs2_bytes u) = [0x41; 0xE9; 0x20AC].
Proof. apply (joliet_name_roundtrip 103 [0x41; 0xE9; 0x20AC] []); [repeat constructor; lia|cbn; lia]. Defined.
