(* ===== verification/FileProps.v ===== *)
(** * File: properties

    What a client of File.cpp may rely on, and where it may not. *)

From S2P Require Import Prelude Endian CMem CString Os Stream AbsFile FileIso FileView FileCrypt.
From S2P Require Import FileOpen Client RoFile Scenario.

Section contents.
Context {W : Type} `{PosixLaws W} `{Aes}.
Implicit Types (f : File) (w : W) (m : mem).

(** C27. Reading a plain or multi-part image delivers a prefix of its contents at
    the read position, stores nothing else, advances by what was read, and stops
    short of the request only at the end of the image (for a multi-part image:
    as long as the request is no longer than a part).  The contents of a
    multi-part image are its parts, one after the other. *)
Theorem file_read_contents f w X p m o n :
  File_view f w = Some (X, p) -> 0 <= n < 2 ^ 63 ->
  is_multipart f = 0 \/ n <= part_size f ->
  exists m' f' w', File_read m o n f w = (blen (slice p n X), m', f', w') /\
    mload m' o (blen (slice p n X)) = slice p n X /\ same_outside o n m m' /\
    File_view f' w' = Some (X, p + blen (slice p n X)).
Proof.
  intros Hv Hn Hshort. pose proof (File_read_promise f w X p m o n Hv Hn) as Hr.
  pose proof (File_view_bounds f w X p Hv) as [HX Hp].
  pose proof (blen_slice p n X ltac:(lia) ltac:(lia)) as Hs.
  assert ((File_read m o n f w).1.1.1 = blen (slice p n X)) as Hfull.
  { destruct (File_read m o n f w) as [[[r m'] f'] w'] eqn:E. destruct Hr as (_ & _ & Hr & _ & _ & _ & Hall).
    cbn. destruct (decide (is_multipart f = 0)) as [Hm|Hm].
    - unfold File_view in Hv. rewrite Hm in Hv. cbn in Hv. destruct (plain_file f) eqn:Ep; [|done].
      unfold File_read in E. rewrite Hm, Ep in E. cbn [Z.eqb] in E.
      destruct (read_file_ok (fd f) m o n w X p Hv Hn) as (w1 & E1 & _). rewrite E1 in E. congruence.
    - pose proof (read_multi_complete f w X p m o n Hm Hv) as Hc. rewrite E in Hc. cbn in Hc. lia. }
  destruct (File_read m o n f w) as [[[r m'] f'] w']. cbn in Hfull. subst r.
  destruct Hr as (_ & _ & _ & Hm & Ho & Hv' & _).
  rewrite slice_blen in Hm by lia. by exists m', f', w'.
Qed.

(** [fstat] answers the length of the contents: for a multi-part image the sum
    of the sizes of its parts. *)
Theorem file_fstat_size st_uninit st f w X p :
  File_view f w = Some (X, p) ->
  exists st' w', File_fstat st_uninit st f w = (0, st', f, w') /\ file_size st' = blen X /\
    File_view f w' = Some (X, p).
Proof.
  intros Hv. destruct (fstat_view st_uninit f w X p st Hv) as (st' & w' & ? & _ & ? & ?). eauto.
Qed.

(** Seeking within an image puts the read position at the offset asked for,
    whatever part it is in; only an offset that no part covers is refused, and
    then the position stays where it was. *)
Theorem file_seek_position f w X p off :
  File_view f w = Some (X, p) -> 0 <= off < 2 ^ 63 ->
  exists r f' w', File_seek off SEEK_SET f w = (r, f', w') /\
    (0 <= r /\ File_view f' w' = Some (X, off) \/
     r < 0 /\ File_view f' w' = Some (X, p) /\ is_multipart f <> 0 /\ blen X <= off).
Proof.
  intros Hv Hoff. destruct (afl_seek (AbstractFileLaws := File_AbstractFileLaws 0 0 (mk_stat 0 0 0 0 0)) f w X p off Hv Hoff)
    as (r & f' & w' & E & _ & _ & Hr). exists r, f', w'. split; [done|].
  destruct Hr as [Hr|(Hr & Hv' & Hb & Hle)]; [by left|right]. split; [done|]. split; [done|].
  split; [|done]. intros Hm. cbn in Hb. unfold File_supportsBulkRead in Hb. rewrite Hm in Hb.
  unfold File_view in Hv. rewrite Hm in Hv. cbn in *. destruct (plain_file f) eqn:Ep; [|done].
  destruct (seek_plain f w X p off Hm) as (w1 & E1 & _ & _); [|done|].
  { unfold File_view. by rewrite Hm, Ep. }
  change (File_seek off SEEK_SET f w = (r, f', w')) in E. rewrite E1 in E. injection E as <- _ _. lia.
Qed.

(** C26. Opening [x.iso.0] for reading opens the parts [x.iso.1], [x.iso.2], ... up to
    the first that is missing, and the result contains all of them in order; it fails
    only when there is no memory for the names of the parts.  All parts but the last
    have the size of part 0, which is not empty, and there are at most 64. *)
Theorem open_multipart_concat `{!StreamView W, !StreamLaws W} root_len st_uninit this base c0 cs w :
  let path := base ++ str ".iso.0" in
  0 < blen c0 -> parts_sized (blen c0) (c0 :: cs) -> blen cs <= 63 ->
  (1 + blen cs) * blen c0 < 2 ^ 63 ->
  file_at w path = Regular c0 ->
  (forall j c, cs !! j = Some c ->
     file_at w (part_name (base ++ str ".iso") (1 + Z.of_nat j)) = Regular c) ->
  (blen cs < 63 -> file_at w (part_name (base ++ str ".iso") (1 + blen cs)) = Missing) ->
  exists r f w', File_open root_len 0 st_uninit (Some path) O_RDONLY (File_ctor this) w
      = Some (r, f, w') /\
    (r = SUCCEEDED /\ File_view f w' = Some (concat (c0 :: cs), 0) \/ r = FAILED /\ ~ memory w).
Proof.
  intros path Hpos Hs Hc Ht Hp Hparts Hmiss.
  destruct (open_multi root_len st_uninit this base c0 cs w) as (r & f & w' & E & _ & Hr); try done.
  by exists r, f, w'.
Qed.

(** When reading a part fails and another part follows, the failure is not
    reported: the next part is read for one byte more than requested, to one byte
    before the buffer, and the result is one less than what was read. *)
Theorem multipart_error_underflow f w w1 r1 w2 k d w3 m o n :
  is_multipart f <> 0 -> index f + 1 < is_multipart f -> 0 <= n < 2 ^ 62 ->
  sys_read (fp_at f (index f)) n w = (-1, [], w1) ->
  sys_lseek (fp_at f (index f + 1)) 0 SEEK_SET w1 = (r1, w2) ->
  sys_read (fp_at f (index f + 1)) (n + 1) w2 = (k, d, w3) ->
  exists m', File_read m o n f w = (k - 1, m', with_index (index f + 1) f, w3) /\
    m' ≡ₘ mstore m (o - 1) d.
Proof.
  intros Hm Hi Hn E1 E2 E3. unfold File_read. rewrite (proj2 (Z.eqb_neq _ _) Hm).
  unfold read_file. rewrite E1. destruct (Z.ltb_spec (-1) n); [|lia].
  destruct (Z.ltb_spec (index f + 1) (is_multipart f)); [|lia]. cbn [andb].
  change (fp_at (with_index (index f + 1) f) (index (with_index (index f + 1) f)))
    with (fp_at f (index f + 1)).
  unfold seek_file. rewrite E2. rewrite u64_small by lia.
  replace (n - -1) with (n + 1) by lia. rewrite E3.
  eexists. split; [f_equal; f_equal; f_equal; lia|]. by rewrite mstore_nil.
Qed.
End contents.

(** The image of two parts, [1; 2; 3] and [4; 5]. *)
Definition data_x : bytes := data_0 ++ data_1.

Lemma file_read_contents_witness :
  exists m' f' w', File_read (zext []) 0 3 file_x sim0 = (blen (slice 0 3 data_x), m', f', w') /\
    mload m' 0 (blen (slice 0 3 data_x)) = slice 0 3 data_x /\ same_outside 0 3 (zext []) m' /\
    File_view f' w' = Some (data_x, 0 + blen (slice 0 3 data_x)).
Proof. apply (file_read_contents file_x sim0 data_x 0 (zext []) 0 3); [exact view_x|done|by right]. Defined.

Lemma file_fstat_size_witness :
  exists st' w', File_fstat st0 st0 file_x sim0 = (0, st', file_x, w') /\ file_size st' = blen data_x /\
    File_view file_x w' = Some (data_x, 0).
Proof. apply (file_fstat_size st0 st0 file_x sim0 data_x 0 view_x). Defined.

Lemma file_seek_position_witness :
  exists r f' w', File_seek 4 SEEK_SET file_x sim0 = (r, f', w') /\
    (0 <= r /\ File_view f' w' = Some (data_x, 4) \/
     r < 0 /\ File_view f' w' = Some (data_x, 0) /\ is_multipart file_x <> 0 /\ blen data_x <= 4).
Proof. apply (file_seek_position file_x sim0 data_x 0 4 view_x). done. Defined.

Lemma open_multipart_concat_witness :
  exists f w', File_open 4 0 st0 (Some (str "/srv/x" ++ str ".iso.0")) O_RDONLY (File_ctor this0) sim0
      = Some (SUCCEEDED, f, w') /\ File_view f w' = Some (concat [data_0; data_1], 0).
Proof.
  destruct (open_multipart_concat 4 st0 this0 (str "/srv/x") data_0 [data_1] sim0)
    as (r & f & w' & E & Hr); [concrete..| | |].
  - intros [|[|j]] c; [intros [= <-]; concrete|done|done].
  - concrete.
  - destruct Hr as [[-> Hv]|[_ Hno]]; [|by destruct Hno]. exists f, w'. split; [exact E|exact Hv].
Defined.

(** The first part is on a failing disk. *)
Definition sim_bad : Sim.sim :=
  Sim.mk_sim (Sim.files sim0) (Sim.dirs sim0) (Sim.fds sim0) [] ∅ ∅ [path_0] [] false.

Lemma multipart_error_underflow_witness :
  exists m', File_read (zext []) 0 1 file_x sim_bad =
      (2 - 1, m', with_index (index file_x + 1) file_x, Sim.set_fd 2 (Some (path_1, 2)) sim_bad) /\
    m' ≡ₘ mstore (zext []) (0 - 1) [4; 5].
Proof.
  apply (multipart_error_underflow file_x sim_bad sim_bad 0 sim_bad
    2 [4; 5] (Sim.set_fd 2 (Some (path_1, 2)) sim_bad) (zext []) 0 1); concrete.
Defined.
