(* ===== verification/CryptProps.v ===== *)
(** * Encrypted images: properties

    Key files, region tables, decryption and the 3k3y block of File.cpp. *)

From S2P Require Import Prelude Endian CMem CString Os AbsFile FileIso FileView FileCrypt.
From S2P Require Import FileOpen Client RoFile Scenario.

(** A key file of 32 hexadecimal digits, in upper or lower case or both, gives
    the key it spells. *)
Theorem key_text_roundtrip case key :
  Forall is_byte key -> keystr_to_keyarr (hex_of case 0 key) = key.
Proof. apply keystr_hex. Qed.

Lemma key_text_roundtrip_witness :
  keystr_to_keyarr (hex_of Nat.odd 0 [0; 0x1f; 0xab; 255]) = [0; 0x1f; 0xab; 255].
Proof. apply (key_text_roundtrip Nat.odd). concrete. Defined.

(** C28. The region table of an image, when its boundaries are in order, cuts the
    image without gap or overlap into regions that are plain and encrypted in
    turn, starting with a plain one: every address up to the end of the last
    region is in exactly one region, the one that [File::read] looks up, and it is
    encrypted just when its index is odd. *)
Theorem regions_partition k sec rl pos :
  let rs := build_regions k 0 0 sec in
  Forall (fun r => regions_first_addr r <= regions_last_addr r) rs ->
  last rs = Some rl -> 0 <= pos <= regions_last_addr rl ->
  exists (j : nat) r, rs !! j = Some r /\ in_region pos r = true /\
    List.find (in_region pos) rs = Some r /\ encrypted r = Nat.odd j /\
    forall j' r', rs !! j' = Some r' -> in_region pos r' = true -> j' = j.
Proof.
  intros rs Hf Hl Hpos. pose proof (build_regions_tiles k 0 0 sec ltac:(lia) ltac:(lia)) as Ht.
  destruct (tiles_find rs 0 false pos rl Ht Hf Hl Hpos) as (j & r & ? & ? & ? & He & ?).
  exists j, r. split; [done|]. split; [done|]. split; [done|]. split; [|done].
  rewrite He. by destruct (Nat.odd j).
Qed.

(** Sector 0 of an image with two plain regions: sectors 0-3 and 8-15, and an
    encrypted one between them. *)
Definition sector0 : mem := zext ([0; 0; 0; 2; 0; 0; 0; 0] ++ be_bytes 4 0 ++ be_bytes 4 3 ++ be_bytes 4 8 ++ be_bytes 4 15).

Lemma regions_partition_witness :
  exists (j : nat) r, build_regions 3 0 0 sector0 !! j = Some r /\ in_region 9000 r = true /\
    List.find (in_region 9000) (build_regions 3 0 0 sector0) = Some r /\ encrypted r = Nat.odd j /\
    forall j' r', build_regions 3 0 0 sector0 !! j' = Some r' -> in_region 9000 r' = true -> j' = j.
Proof.
  apply (regions_partition 3 sector0 (mkRegion false 16384 32767) 9000); [|by vm_compute|by vm_compute].
  replace (build_regions 3 0 0 sector0) with
    [mkRegion false 0 8191; mkRegion true 8192 16383; mkRegion false 16384 32767] by (by vm_compute).
  by repeat constructor.
Defined.

Section crypt.
Context {W : Type} `{PosixLaws W} `{AesLaws}.
Implicit Types (f : File) (w : W) (m : mem).

(** [decrypt_data] decrypts every one of [n] sectors with the initialisation
    vector of its own number, and changes nothing outside them. *)
Theorem decrypt_data_sectors aes m o n lba iv :
  0 <= n -> let m' := (decrypt_data aes m o n lba iv).1 in
  (forall j, 0 <= j < n ->
     mload m' (o + 2048 * j) 2048 =
     (aes_crypt_cbc aes false 2048 (replicate 12 0 ++ be_bytes 4 (u32 (lba + j)))
        (mload m (o + 2048 * j) 2048)).2) /\
  same_outside o (2048 * n) m m'.
Proof.
  intros Hn m'. destruct (decrypt_data_spec aes m o n lba iv Hn) as [Hd Ho]. split; [|done].
  intros j Hj. unfold m'. rewrite (Hd j Hj). unfold sector_dec, kSectorSize.
  rewrite reset_iv_be; [done|]. apply Z.mod_pos_bound. lia.
Qed.

(** C14. A sector-aligned read of a Redump image delivers the bytes of the file,
    decrypted sector by sector in an encrypted region and as they are in a plain
    one, and stores nothing outside the buffer. *)
Theorem redump_read_decrypts f w c p r rs m o n :
  is_multipart f = 0 -> enc_type_ f = kDiscTypeRedump ->
  region_count_ f <> 0 -> region_info_ f = Some rs -> region_of f p = Some r ->
  fd_view w (fd f) = Some (c, p) ->
  p mod 2048 = 0 -> n mod 2048 = 0 -> 0 <= n < 2 ^ 31 -> p + n <= blen c ->
  exists m' f' w', File_read m o n f w = (n, m', f', w') /\
    fd_view w' (fd f') = Some (c, p + n) /\ same_outside o n m m' /\
    forall j, 0 <= j < n / 2048 ->
      mload m' (o + 2048 * j) 2048 =
      plain_sector (aes_dec_ f) (encrypted r) (p / 2048 + j) (slice (p + 2048 * j) 2048 c).
Proof.
  intros. destruct (read_redump f w c p r rs m o n) as (m' & f' & w' & E & _ & ? & ? & ?); try done.
  by exists m', f', w'.
Qed.
End crypt.

Lemma decrypt_data_sectors_witness :
  let m' := (decrypt_data key0 sector0 0 1 0 []).1 in
  (forall j, 0 <= j < 1 ->
     mload m' (0 + 2048 * j) 2048 =
     (aes_crypt_cbc key0 false 2048 (replicate 12 0 ++ be_bytes 4 (u32 (0 + j)))
        (mload sector0 (0 + 2048 * j) 2048)).2) /\
  same_outside 0 (2048 * 1) sector0 m'.
Proof. apply (decrypt_data_sectors key0 sector0 0 1 0 []). done. Defined.

(** An image of one encrypted sector between plain ones, read in that sector. *)
Definition data_enc : bytes := mload sector0 0 8192.
Definition file_enc : File :=
  mkFile _ 0 (replicate 64 INVALID_FD) 0 0 0 kDiscTypeRedump 3
    (Some [mkRegion false 0 2047; mkRegion true 2048 4095; mkRegion false 4096 8191]) key0 [] true.
Definition sim_enc : Sim.sim :=
  Sim.mk_sim {[ path_a := data_enc ]} ∅ [Some (path_a, 2048)] [] ∅ ∅ [] [] false.

Lemma redump_read_decrypts_witness :
  exists m' f' w', File_read (zext []) 0 2048 file_enc sim_enc = (2048, m', f', w') /\
    fd_view w' (fd f') = Some (data_enc, 2048 + 2048) /\ same_outside 0 2048 (zext []) m' /\
    forall j, 0 <= j < 2048 / 2048 ->
      mload m' (0 + 2048 * j) 2048 =
      plain_sector key0 true (2048 / 2048 + j) (slice (2048 + 2048 * j) 2048 data_enc).
Proof.
  apply (redump_read_decrypts file_enc sim_enc data_enc 2048 (mkRegion true 2048 4095)
    [mkRegion false 0 2047; mkRegion true 2048 4095; mkRegion false 4096 8191] (zext []) 0 2048);
    concrete.
Defined.

(** ** The 3k3y information block *)

(** On a 3k3y image, a read that ends before the end of the information block
    (0xF70 to 0x1070) shows zeros for the bytes of the block and leaves all other
    bytes, in the buffer and around it, alone. *)
Theorem mask_hides_block m o pos ret :
  0 <= pos -> 0 <= ret -> pos + ret < 0x1070 ->
  forall i, mask_3k3y m o pos ret i =
    if (0 <=? i - o) && (i - o <? ret) && (0xF70 <=? pos + (i - o)) then 0 else m i.
Proof. apply mask_below. Qed.

Lemma mask_hides_block_witness :
  mask_3k3y (fun _ => 7) 0 0xF00 0x100 0x80 = 0 /\ mask_3k3y (fun _ => 7) 0 0xF00 0x100 0x6F = 7.
Proof. split; apply (mask_hides_block (fun _ => 7) 0 0xF00 0x100); concrete. Defined.

(** A read that starts before 0xE70 and reaches the end of the block clears all
    memory from the block's first byte on: the length it computes is negative, and
    [_memset] takes it as an unsigned size of more than 2^63. *)
Theorem mask_wipes_memory m o pos ret i :
  0 <= pos < 0xE70 -> 0x1070 <= pos + ret -> o + (0xF70 - pos) <= i < o + 2 ^ 63 ->
  mask_3k3y m o pos ret i = 0.
Proof. apply mask_beyond. Qed.

(** A read of 64 KB at the start of the image, and a byte behind the 4 MB buffer. *)
Lemma mask_wipes_memory_witness : mask_3k3y (fun _ => 7) 0 0 0x10000 0x400000 = 0.
Proof. apply (mask_wipes_memory (fun _ => 7) 0 0 0x10000 0x400000); concrete. Defined.

(** ** Region tables that are not there *)

Section regions.
Context {W : Type} `{PosixLaws W} `{Aes}.
Implicit Types (f : File) (w : W).

(** Looking for a region table in a plain image that has none leaves the read
    position behind the two sectors that were looked at, at 4096, not at the start. *)
Theorem no_regions_moves_position st_uninit f w c :
  is_multipart f = 0 -> fd_view w (fd f) = Some (c, 0) -> 4096 <= blen c ->
  char_arr_BE_to_uint (zext c) 0 = 0 ->
  exists sec f' w', load_regions st_uninit f w = (false, sec, f', w') /\
    fd f' = fd f /\ fd_view w' (fd f') = Some (c, 4096).
Proof.
  intros Hm Hv Hlen Hcount. unfold load_regions, File_fstat.
  pose proof (law_view _ _ _ _ Hv) as (Hfd & _). unfold FD_OK.
  destruct (Z.leb_spec 0 (fd f)); [|lia]. cbn [negb]. rewrite Hm. cbn [Z.eqb].
  destruct (fstat_file_ok (fd f) st_uninit w c 0 Hv) as (st & w1 & -> & Hst & Hk1 & _).
  rewrite <- (kf_fd _ _ _ Hk1) in Hv by done.
  cbn [Z.leb Z.compare andb]. rewrite Hst. unfold kSectorSize.
  destruct (Z.leb_spec (2048 * 2) (blen c)); [|lia]. unfold File_seek. rewrite Hm. cbn [Z.eqb orb].
  destruct (seek_cur_ok (fd f) w1 c 0 Hv) as (w2 & -> & Hv2 & _). cbn [negb Z.eqb].
  destruct (read_file_ok (fd f) (zext []) 0 (2048 * 2) w2 c 0 Hv2) as (w3 & -> & Hv3 & _); [lia|].
  assert (blen (slice 0 (2048 * 2) c) = 4096) as Hs by (rewrite blen_slice; lia).
  rewrite Hs in *. change (4096 =? 2048 * 2) with true. cbn iota.
  assert (char_arr_BE_to_uint (mstore (zext []) 0 (slice 0 (2048 * 2) c)) 0 = 0) as ->.
  { etransitivity; [|exact Hcount]. unfold char_arr_BE_to_uint.
    assert (forall i, 0 <= i < 4 -> mstore (zext []) 0 (slice 0 (2048 * 2) c) i = zext c i) as E.
    { intros i Hi. rewrite mstore_in, zext_in by lia. rewrite !nth_lookup, slice_lookup by lia.
      do 2 f_equal. lia. }
    by rewrite !E by lia. }
  cbn [Z.ltb Z.compare andb]. eexists _, _, w3. split; [done|]. by split.
Qed.
End regions.

Definition sim_plain : Sim.sim :=
  Sim.mk_sim {[ path_a := replicate 4096 0 ]} ∅ [Some (path_a, 0)] [] ∅ ∅ [] [] false.

Lemma no_regions_moves_position_witness :
  exists sec f' w', load_regions st0 file_a sim_plain = (false, sec, f', w') /\
    fd f' = fd file_a /\ fd_view w' (fd f') = Some (replicate 4096 0, 4096).
Proof. apply (no_regions_moves_position st0 file_a sim_plain (replicate 4096 0)); concrete. Defined.
