(* ===== verification/AesImage.v ===== *)
(** * Encrypted images, with the bundled AES

    [PolarAes.v] as the implementation of the interface [Aes] that the class [File]
    uses: the properties of the cipher, and what they give for a disc image that
    was encrypted sector by sector, as the discs are. *)

From S2P Require Import Prelude Endian Os CString AbsFile FileIso FileView FileCrypt PolarAes Fips197 PolarAesSpec.
From S2P Require Import Scenario.

(** ** The interface *)

(** [cty] is the context on the stack of aes_setkey_dec, [ctx] the one that is
    filled: what they hold before is indeterminate. *)
#[export] Instance polarssl (cty ctx : PolarAes.aes_context) : Aes | 10 := {|
  FileIso.aes_context := PolarAes.aes_context;
  FileIso.aes_setkey_enc := PolarAes.aes_setkey_enc ctx;
  FileIso.aes_setkey_dec := PolarAes.aes_setkey_dec cty ctx;
  FileIso.aes_crypt_cbc := PolarAes.aes_crypt_cbc;
|}.

Lemma ecb_length ctx enc s : length (aes_crypt_ecb ctx enc s).2 = 16%nat.
Proof.
  unfold aes_crypt_ecb. destruct (double_rounds _ _ _ _) as [p x].
  by destruct ((if enc then _ else _) _ _ _) as [[[X0 X1] X2] X3].
Qed.

Lemma xor_block_length a b : length a = 16%nat -> length b = 16%nat -> length (xor_block a b) = 16%nat.
Proof. intros Ha Hb. unfold xor_block. rewrite length_zip_with. lia. Qed.

Lemma cbc_length_out ctx (enc : bool) k : forall iv d, length iv = 16%nat -> blen d = 16 * Z.of_nat k ->
  blen ((if enc then cbc_encrypt else cbc_decrypt) k ctx (16 * Z.of_nat k) iv d).2 = 16 * Z.of_nat k.
Proof.
  induction k as [|k IH]; intros iv d Hiv Hd; [by destruct enc|].
  assert (length (take 16 d) = 16%nat) as Ht by (rewrite length_take; unfold blen in Hd; lia).
  assert (blen (drop 16 d) = 16 * Z.of_nat k) as Hr by (unfold blen in *; rewrite length_drop; lia).
  destruct enc; cbn [cbc_encrypt cbc_decrypt]; (destruct (Z.ltb_spec 0 (16 * Z.of_nat (S k))); [|lia]);
    replace (16 * Z.of_nat (S k) - 16) with (16 * Z.of_nat k) by lia.
  - pose proof (ecb_length ctx true (xor_block (take 16 d) iv)) as Ho.
    destruct (aes_crypt_ecb ctx true _) as [r o]. cbn [snd] in Ho. specialize (IH o (drop 16 d) Ho Hr).
    destruct (cbc_encrypt k _ _ _ _) as [iv' rest]. cbn [snd] in *. rewrite blen_app, IH. unfold blen. lia.
  - pose proof (ecb_length ctx false (take 16 d)) as Ho.
    destruct (aes_crypt_ecb ctx false _) as [r o]. cbn [snd] in Ho. specialize (IH (take 16 d) (drop 16 d) Ht Hr).
    destruct (cbc_decrypt k _ _ _ _) as [iv' rest]. cbn [snd] in *. rewrite blen_app, IH. unfold blen.
    rewrite xor_block_length by done. lia.
Qed.

(** What [File] relies on, of this implementation. *)
#[export] Instance polarssl_laws cty ctx : AesLaws (H := polarssl cty ctx).
Proof.
  split; cbn.
  - intros k _. unfold aes_setkey_dec, aes_setkey_enc. done.
  - intros k _. unfold aes_setkey_enc. done.
  - intros c enc n iv d Hn Hm Hiv Hd. unfold aes_crypt_cbc. rewrite Hm. cbn [Z.eqb negb].
    assert (n = 16 * Z.of_nat (Z.to_nat (n / 16))) as En.
    { rewrite Z2Nat.id by (apply Z.div_pos; lia). pose proof (Z.div_mod n 16). lia. }
    pose proof (cbc_length_out c enc (Z.to_nat (n / 16)) iv d Hiv) as Hl. rewrite <- En in Hl.
    destruct ((if enc then _ else _) _ _ _ _ _) as [iv' out]. exists iv', out. split; [done|]. by apply Hl.
Qed.

(** ** The cipher *)

(** Data as blocks. *)
Lemma blen_concat_blocks bs : Forall is_block bs -> blen (concat bs) = 16 * blen bs.
Proof.
  induction 1 as [|b bs [Hb _] _ IH]; [done|]. cbn [concat]. rewrite blen_app, blen_cons, IH. unfold blen at 1. lia.
Qed.

Lemma in_blocks k : forall d, length d = (16 * k)%nat -> Forall is_byte d ->
  exists bs, d = concat bs /\ Forall is_block bs /\ length bs = k.
Proof.
  induction k as [|k IH]; intros d Hl Hb.
  - exists []. destruct d; [done|]. cbn in Hl. lia.
  - destruct (IH (drop 16 d)) as (bs & E & Hbs & Hk); [rewrite length_drop; lia|by apply Forall_drop|].
    exists (take 16 d :: bs). cbn [concat]. rewrite <- E, take_drop. split; [done|]. split; [|cbn; lia].
    apply Forall_cons. split; [|done]. split; [rewrite length_take; lia|by apply Forall_take].
Qed.

(** C16. The AES that is bundled with the program is the standard one: with the contexts
    that the two key schedules make of a key of 128, 192 or 256 bits, aes_crypt_ecb
    is the Cipher and the InvCipher of FIPS 197 on every block, and the second
    undoes the first. *)
Theorem aes_is_fips197 cty ctx key keysize Nk :
  key_size keysize Nk -> Forall is_byte key -> length key = (4 * Nk)%nat ->
  exists e d, aes_setkey_enc ctx key keysize = (0, e) /\ aes_setkey_dec cty ctx key keysize = (0, d) /\
    forall s, is_block s ->
      aes_crypt_ecb e true s = (0, Cipher key Nk s) /\ aes_crypt_ecb d false s = (0, InvCipher key Nk s) /\
      aes_crypt_ecb d false (Cipher key Nk s) = (0, s).
Proof.
  intros Hk Hb Hl. destruct (setkey_enc_cipher key keysize Nk Hk Hb Hl ctx) as (e & Ee & He).
  destruct (setkey_dec_inverse key keysize Nk Hk Hb Hl cty ctx) as (d & Ed & Hd).
  exists e, d. split; [done|]. split; [done|]. intros s Hs. split; [by apply He|]. split; [by apply Hd|].
  rewrite Hd by (by apply (Cipher_block key keysize Nk)). by rewrite (InvCipher_Cipher key keysize Nk).
Qed.

(** C20. What aes_crypt_cbc encrypts it also decrypts: with the contexts of one key and
    the same initialisation vector, any number of whole blocks comes back. *)
Theorem cbc_roundtrip cty ctx key keysize Nk e d iv data :
  key_size keysize Nk -> Forall is_byte key -> length key = (4 * Nk)%nat ->
  aes_setkey_enc ctx key keysize = (0, e) -> aes_setkey_dec cty ctx key keysize = (0, d) ->
  is_block iv -> Forall is_byte data -> blen data mod 16 = 0 ->
  exists iv1 iv2 secret, aes_crypt_cbc e true (blen data) iv data = (0, iv1, secret) /\
    blen secret = blen data /\ aes_crypt_cbc d false (blen data) iv secret = (0, iv2, data).
Proof.
  intros Hk Hb Hl Ee Ed Hiv Hdata Hm. destruct (setkey_enc_cipher key keysize Nk Hk Hb Hl ctx) as (e' & Ee' & He).
  destruct (setkey_dec_inverse key keysize Nk Hk Hb Hl cty ctx) as (d' & Ed' & Hd).
  rewrite Ee in Ee'. injection Ee' as <-. rewrite Ed in Ed'. injection Ed' as <-.
  pose proof (Cipher_block key keysize Nk Hk Hb Hl) as Hc.
  destruct (in_blocks (Z.to_nat (blen data / 16)) data) as (bs & -> & Hbs & Hlen); [|done|].
  { unfold blen in *. pose proof (Z.div_mod (Z.of_nat (length data)) 16). pose proof (Z.div_pos (Z.of_nat (length data)) 16). lia. }
  assert (Forall is_block (cbc_enc (Cipher key Nk) iv bs)) as Hs by (by apply cbc_enc_block).
  pose proof (length_cbc_enc (Cipher key Nk) iv bs) as Hls.
  rewrite !(blen_concat_blocks bs) by done. do 3 eexists. split; [apply (crypt_cbc_encrypt e (Cipher key Nk)); [auto|done|done]|].
  split; [rewrite blen_concat_blocks by done; unfold blen; by rewrite Hls|].
  pose proof (crypt_cbc_decrypt d _ iv _ Hd Hs) as E. unfold blen in E at 1. rewrite Hls in E.
  rewrite (cbc_dec_enc (Cipher key Nk) (InvCipher key Nk)) in E; [exact E|done| |done|done].
  intros s. apply (InvCipher_Cipher key keysize Nk Hk Hb Hl).
Qed.

(** ** Images *)

(** A sector as the disc has it: its blocks chained in CBC mode, starting from the
    sector's number. *)
Definition disc_sector (key : bytes) (lba : Z) (blocks : list bytes) : bytes :=
  concat (cbc_enc (Cipher key 4) (replicate 12 0 ++ be_bytes 4 (u32 lba)) blocks).

Lemma sector_iv_block lba : is_block (replicate 12 0 ++ be_bytes 4 (u32 lba)).
Proof.
  split; [done|]. apply Forall_app. split; [|apply be_bytes_is_byte].
  apply Forall_replicate. unfold is_byte. lia.
Qed.

Section image.
Context {W : Type} `{PosixLaws W}.
Variables (cty ctx : PolarAes.aes_context).
#[local] Instance the_aes : Aes := polarssl cty ctx.
#[local] Instance the_aes_laws : AesLaws := polarssl_laws cty ctx.

(** One sector. *)
Lemma disc_sector_decrypted key (d : FileIso.aes_context) lba blocks :
  Forall is_byte key -> length key = 16%nat -> FileIso.aes_setkey_dec key 128 = (0, d) ->
  Forall is_block blocks -> length blocks = 128%nat ->
  sector_dec d lba (disc_sector key lba blocks) = concat blocks.
Proof.
  intros Hb Hl Ed Hbs Hn. destruct (setkey_dec_inverse key 128 4 key_128 Hb Hl cty ctx) as (d' & Ed' & Hd).
  change (PolarAes.aes_setkey_dec cty ctx key 128 = (0, d)) in Ed. rewrite Ed in Ed'. injection Ed' as <-.
  pose proof (sector_iv_block lba) as Hiv. pose proof (Cipher_block key 128 4 key_128 Hb Hl) as Hc.
  unfold sector_dec, disc_sector. rewrite reset_iv_be by (apply Z.mod_pos_bound; lia).
  set (iv := replicate 12 0 ++ _) in *.
  assert (Forall is_block (cbc_enc (Cipher key 4) iv blocks)) as Hs by (by apply cbc_enc_block).
  pose proof (crypt_cbc_decrypt d _ iv _ Hd Hs) as E. unfold blen in E. rewrite length_cbc_enc, Hn in E.
  change (16 * Z.of_nat 128) with kSectorSize in E. cbn [FileIso.aes_crypt_cbc the_aes polarssl].
  rewrite E. cbn [snd]. f_equal. apply (cbc_dec_enc (Cipher key 4)); [done| |done|done].
  intros s. apply (InvCipher_Cipher key 128 4 key_128 Hb Hl).
Qed.

(** C15. End to end, with the bundled AES: from a Redump image whose sectors were
    encrypted with AES-128 in CBC mode, each from its own number on, the server
    reads the sectors that were encrypted, whichever of them are asked for. *)
Theorem encrypted_image_reads_plain f (w : W) c p r rs m o n key plain :
  Forall is_byte key -> length key = 16%nat -> FileIso.aes_setkey_dec key 128 = (0, aes_dec_ f) ->
  is_multipart f = 0 -> enc_type_ f = kDiscTypeRedump ->
  region_count_ f <> 0 -> region_info_ f = Some rs -> region_of f p = Some r -> encrypted r = true ->
  fd_view w (fd f) = Some (c, p) ->
  p mod 2048 = 0 -> n mod 2048 = 0 -> 0 <= n < 2 ^ 31 -> p + n <= blen c ->
  (forall lba, p / 2048 <= lba < (p + n) / 2048 ->
     Forall is_block (plain lba) /\ length (plain lba) = 128%nat /\
     slice (2048 * lba) 2048 c = disc_sector key lba (plain lba)) ->
  exists m' f' w', File_read m o n f w = (n, m', f', w') /\
    fd_view w' (fd f') = Some (c, p + n) /\ same_outside o n m m' /\
    forall lba, p / 2048 <= lba < (p + n) / 2048 ->
      mload m' (o + (2048 * lba - p)) 2048 = concat (plain lba).
Proof.
  intros Hb Hl Ed Hm He Hrc Hri Hr Hre Hv Hp Hn Hn' Hle Hplain.
  destruct (read_redump f w c p r rs m o n Hm He Hrc Hri Hr Hv Hp Hn Hn' Hle)
    as (m' & f' & w' & E & _ & Hv' & Ho & Hs).
  exists m', f', w'. split; [done|]. split; [done|]. split; [done|]. intros lba Hlba.
  destruct (Hplain lba Hlba) as (Hbs & Hlen & Hc).
  pose proof (Z.div_mod p 2048). pose proof (Z.div_mod n 2048).
  assert ((p + n) / 2048 = p / 2048 + n / 2048) as Ed2.
  { replace (p + n) with (p + (n / 2048) * 2048) by lia. by rewrite Z.div_add. }
  assert (0 <= lba - p / 2048 < n / 2048) as Hj by lia.
  specialize (Hs (lba - p / 2048) Hj).
  replace (2048 * (lba - p / 2048)) with (2048 * lba - p) in Hs by lia. rewrite Hs.
  replace (p + (2048 * lba - p)) with (2048 * lba) by lia.
  replace (p / 2048 + (lba - p / 2048)) with lba by lia.
  rewrite Hc, Hre. cbn [plain_sector]. by apply disc_sector_decrypted.
Qed.
End image.

(** ** Witnesses *)

(** The example of FIPS 197, appendix C.1. *)
Definition key_c1 : bytes := Z.of_nat <$> seq 0 16.
Definition plain_c1 : bytes := (fun i => 0x11 * Z.of_nat i) <$> seq 0 16.
Definition cipher_c1 : bytes :=
  [0x69; 0xc4; 0xe0; 0xd8; 0x6a; 0x7b; 0x04; 0x30; 0xd8; 0xcd; 0xb7; 0x80; 0x70; 0xb4; 0xc5; 0x5a].
Definition context0 : PolarAes.aes_context := mkContext 0 (replicate 68 0).

(** The same with the keys of C.2 and C.3. *)
Definition cipher_c2 : bytes :=
  [0xdd; 0xa9; 0x7c; 0xa4; 0x86; 0x4c; 0xdf; 0xe0; 0x6e; 0xaf; 0x70; 0xa0; 0xec; 0x0d; 0x71; 0x91].
Definition cipher_c3 : bytes :=
  [0x8e; 0xa2; 0xb7; 0xca; 0x51; 0x67; 0x45; 0xbf; 0xea; 0xfc; 0x49; 0x90; 0x4b; 0x49; 0x60; 0x89].

Example known_answers :
  (fun n : nat => (aes_crypt_ecb (aes_setkey_enc context0 (Z.of_nat <$> seq 0 n) (8 * Z.of_nat n)).2 true plain_c1).2)
    <$> [16%nat; 24%nat; 32%nat] = [cipher_c1; cipher_c2; cipher_c3].
Proof. vm_compute. reflexivity. Qed.

Lemma aes_is_fips197_witness :
  exists e d, aes_setkey_enc context0 key_c1 128 = (0, e) /\ aes_setkey_dec context0 context0 key_c1 128 = (0, d) /\
    aes_crypt_ecb e true plain_c1 = (0, Cipher key_c1 4 plain_c1) /\
    aes_crypt_ecb d false (Cipher key_c1 4 plain_c1) = (0, plain_c1).
Proof.
  destruct (aes_is_fips197 context0 context0 key_c1 128 4 key_128) as (e & d & Ee & Ed & H).
  - apply (bool_decide_unpack (Forall (fun b => 0 <= b < 256) key_c1)). vm_compute. exact I.
  - reflexivity.
  - exists e, d. split; [exact Ee|]. split; [exact Ed|].
    destruct (H plain_c1) as (H1 & _ & H3); [apply (bool_decide_unpack _); vm_compute; exact I|].
    split; [exact H1|exact H3].
Defined.

Lemma cbc_roundtrip_witness :
  let e := (aes_setkey_enc context0 key_c1 128).2 in
  let d := (aes_setkey_dec context0 context0 key_c1 128).2 in
  exists iv1 iv2 secret, aes_crypt_cbc e true 32 plain_c1 (key_c1 ++ plain_c1) = (0, iv1, secret) /\
    aes_crypt_cbc d false 32 plain_c1 secret = (0, iv2, key_c1 ++ plain_c1).
Proof.
  intros e d.
  destruct (cbc_roundtrip context0 context0 key_c1 128 4 e d plain_c1 (key_c1 ++ plain_c1) key_128)
    as (iv1 & iv2 & secret & H1 & _ & H2);
    [apply (bool_decide_unpack (Forall (fun b => 0 <= b < 256) key_c1)); vm_compute; exact I|reflexivity
    |vm_compute; reflexivity|vm_compute; reflexivity
    |apply (bool_decide_unpack _); vm_compute; exact I
    |apply (bool_decide_unpack (Forall (fun b => 0 <= b < 256) (key_c1 ++ plain_c1))); vm_compute; exact I
    |reflexivity|].
  exists iv1, iv2, secret. split; [exact H1|exact H2].
Defined.

(** An image of four sectors, the second one encrypted. *)
Definition blocks0 : list bytes := replicate 128 plain_c1.
Definition image0 : bytes := replicate 2048 0 ++ disc_sector key_c1 1 blocks0 ++ replicate 4096 0.

Lemma blocks0_block : Forall is_block blocks0.
Proof. apply Forall_replicate. apply (bool_decide_unpack _). vm_compute. exact I. Qed.

Lemma key_c1_bytes : Forall is_byte key_c1.
Proof. apply (bool_decide_unpack (Forall (fun b => 0 <= b < 256) key_c1)). vm_compute. exact I. Qed.

Lemma blen_disc_sector : blen (disc_sector key_c1 1 blocks0) = 2048.
Proof.
  unfold disc_sector. rewrite blen_concat_blocks.
  - unfold blen. by rewrite length_cbc_enc.
  - apply cbc_enc_block; [|apply sector_iv_block|apply blocks0_block].
    apply (Cipher_block key_c1 128 4 key_128 key_c1_bytes). reflexivity.
Qed.

Definition sim_image (c : bytes) : Sim.sim :=
  Sim.mk_sim {[ path_a := c ]} ∅ [Some (path_a, 2048)] [] ∅ ∅ [] [] false.

Lemma sim_image_view c : blen c = 8192 -> fd_view (sim_image c) 0 = Some (c, 2048).
Proof.
  intros Hc. change (('(p, c, o) ← Sim.fd_data (sim_image c) 0; if Sim.readable (sim_image c) p then Some (c, o) else None)
    = Some (c, 2048)).
  assert (Sim.fd_data (sim_image c) 0 = Some (path_a, c, 2048)) as ->; [|reflexivity].
  unfold Sim.fd_data. change (Sim.fd_entry (sim_image c) 0) with (Some (path_a, 2048)).
  change (Sim.files (sim_image c)) with ({[path_a := c]} : gmap bytes bytes). cbn [mbind option_bind].
  rewrite lookup_singleton_eq. cbn [mbind option_bind]. by rewrite Hc.
Qed.

Definition file_enc0 : @File (polarssl context0 context0) :=
  mkFile (polarssl context0 context0) 0 (replicate 64 INVALID_FD) 0 0 0 kDiscTypeRedump 3
    (Some [mkRegion false 0 2047; mkRegion true 2048 4095; mkRegion false 4096 8191])
    (aes_setkey_dec context0 context0 key_c1 128).2 [] true.

Lemma encrypted_image_reads_plain_witness :
  exists m' f' w', File_read (zext []) 0 2048 file_enc0 (sim_image image0) = (2048, m', f', w') /\
    mload m' 0 2048 = concat blocks0.
Proof.
  assert (blen image0 = 8192) as Hlen.
  { unfold image0. rewrite !blen_app, blen_disc_sector, !blen_replicate. reflexivity. }
  destruct (encrypted_image_reads_plain context0 context0 file_enc0 (sim_image image0) image0 2048 (mkRegion true 2048 4095)
    [mkRegion false 0 2047; mkRegion true 2048 4095; mkRegion false 4096 8191] (zext []) 0 2048 key_c1 (fun _ => blocks0))
    as (m' & f' & w' & E & _ & _ & H);
    [exact key_c1_bytes|reflexivity|vm_compute; reflexivity|reflexivity|reflexivity|discriminate|reflexivity|reflexivity
    |reflexivity|exact (sim_image_view image0 Hlen)|reflexivity|reflexivity|lia|rewrite Hlen; lia| |].
  - intros lba Hlba. change (1 <= lba < 2) in Hlba. assert (lba = 1) as -> by lia.
    split; [exact blocks0_block|]. split; [reflexivity|]. unfold image0. rewrite slice_app_r by (rewrite blen_replicate; lia).
    rewrite blen_replicate, slice_app_l by (rewrite ?blen_disc_sector; lia).
    change (2048 * 1 - Z.of_nat 2048) with 0. rewrite <- blen_disc_sector. apply slice_all.
  - exists m', f', w'. split; [exact E|]. apply (H 1). split; reflexivity.
Defined.
