(* ===== verification/Padlock.v ===== *)
(** * src/padlock.c: the AES instructions of VIA processors

    On 32-bit x86 the program asks the processor for the PadLock unit; where there
    is one, the hooks of src/aes.c place the round keys on a boundary of sixteen
    bytes and leave the blocks to the unit, CBC only when the buffers are on such a
    boundary too.  This is padlock.c, and the functions of PolarAes.v with their
    hooks.  The instructions are the interface [Padlock], which PadlockSpec.v
    gives their documented meaning; [None] is a fault. *)

From S2P Require Import Prelude PolarAes.

(** [cpuid] gives eax, ebx, ecx and edx.  The others take ecx, edx, ebx, esi and edi
    (for CBC eax, which points to the initialisation vector) and what the pointers
    point to: the control word, the round keys, the data. *)
Class Padlock := {
  cpuid : Z -> Z * Z * Z * Z;
  xcrypt_ecb : forall (count ctrl_at key_at src_at dst_at control : Z) (keys : list Z) (data : bytes), option bytes;
  xcrypt_cbc : forall (count ctrl_at key_at src_at dst_at iv_at control : Z) (keys : list Z) (iv data : bytes),
    option (bytes * bytes);
}.

Definition PADLOCK_ACE : Z := 0x00C0.
Definition POLARSSL_ERR_PADLOCK_DATA_MISALIGNED : Z := -0x0030.
Definition PADLOCK_ALIGN16 (x : Z) : Z := u32 (16 + Z.land (s32 x) (Z.lnot 15)).

(** [buf] is at the address [buf_at], and [rk] points to its word [rk]. *)
Record aes_context := mkContext {
  buf_at : Z;
  nr : Z;
  rk : nat;
  buf : list Z;
}.

Definition round_keys (ctx : aes_context) : list Z := drop (rk ctx) (buf ctx).
Definition rk_at (ctx : aes_context) : Z := buf_at ctx + 4 * Z.of_nat (rk ctx).

(** [0x80 | ctx->nr | ( ( ctx->nr + (mode^1) - 10 ) << 9 )] *)
Definition control_word (nr : Z) (encrypt : bool) : Z :=
  u32 (Z.lor (Z.lor 0x80 nr) (Z.shiftl (nr + Z.lxor (Z.b2z encrypt) 1 - 10) 9)).

(** The static variables of padlock_supports and of aes.c, -1 before the first use. *)
Record statics := mkStatics {
  flags : Z;
  aes_padlock_ace : Z;
}.

Section unit.
Context `{Padlock}.

(** Result, [flags]. *)
Definition padlock_supports (feature flags : Z) : Z * Z :=
  let flags :=
    if flags =? -1 then
      let '(eax, _, _, _) := cpuid 0xC0000000 in
      s32 (if eax <? 0xC0000001 then 0 else let '(_, _, _, edx) := cpuid 0xC0000001 in edx)
    else flags in
  (Z.land flags feature, flags).

(** [stack] is the address of the local array [buf] of 256 bytes, [m] what it holds. *)
Definition padlock_xcryptecb (stack : Z) (m : mem) (ctx : aes_context) (encrypt : bool) (input : bytes)
    : option (Z * bytes) :=
  let blk := PADLOCK_ALIGN16 stack - stack in
  let m := mstore m blk (take 16 input) in
  let ctrl := blk + 16 in
  let m := mstore m ctrl (PUT_UINT32_LE (control_word (nr ctx) encrypt)) in
  let? out := xcrypt_ecb 1 (stack + ctrl) (rk_at ctx) (stack + blk) (stack + blk)
                (GET_UINT32_LE (mload m ctrl 4) 0) (round_keys ctx) (mload m blk 16) in
  let m := mstore m blk out in
  Some (0, mload m blk 16).

(** Result, iv, output; the buffers are at [in_at] and [out_at]. *)
Definition padlock_xcryptcbc (stack : Z) (m : mem) (ctx : aes_context) (encrypt : bool) (length : Z) (iv : bytes)
    (in_at out_at : Z) (input : bytes) : option (Z * bytes * bytes) :=
  if negb (Z.land in_at 15 =? 0) || negb (Z.land out_at 15 =? 0) then
    Some (POLARSSL_ERR_PADLOCK_DATA_MISALIGNED, iv, [])
  else
    let iw := PADLOCK_ALIGN16 stack - stack in
    let m := mstore m iw (take 16 iv) in
    let ctrl := iw + 16 in
    let m := mstore m ctrl (PUT_UINT32_LE (control_word (nr ctx) encrypt)) in
    let count := Z.shiftr (u32 (length + 15)) 4 in
    let? (iv, out) := xcrypt_cbc count (stack + ctrl) (rk_at ctx) in_at out_at (stack + iw)
                        (GET_UINT32_LE (mload m ctrl 4) 0) (round_keys ctx) (mload m iw 16) (slice 0 (16 * count) input) in
    let m := mstore m iw iv in
    Some (0, mload m iw 16, out).

(** ** The hooks of aes.c *)

(** [if( aes_padlock_ace == -1 )] *)
Definition detect (st : statics) : statics :=
  if aes_padlock_ace st =? -1 then
    let '(r, f) := padlock_supports PADLOCK_ACE (flags st) in mkStatics f r
  else st.

(** Where [ctx->rk] points. *)
Definition rk_place (st : statics) (buf_at : Z) : nat :=
  if negb (aes_padlock_ace st =? 0) then Z.to_nat ((PADLOCK_ALIGN16 buf_at - buf_at) / 4) else 0.

(** The schedule is that of PolarAes.v, from the word [rk] on. *)
Definition aes_setkey_enc (st : statics) (ctx : aes_context) (key : bytes) (keysize : Z)
    : Z * statics * aes_context :=
  match rounds_of keysize with
  | None => (POLARSSL_ERR_AES_INVALID_KEY_LENGTH, st, ctx)
  | Some nr =>
      let st := detect st in
      let o := rk_place st (buf_at ctx) in
      let '(ret, c) := PolarAes.aes_setkey_enc (PolarAes.mkContext nr (drop o (buf ctx))) key keysize in
      (ret, st, mkContext (buf_at ctx) nr o (take o (buf ctx) ++ PolarAes.buf c))
  end.

Definition aes_setkey_dec (st : statics) (cty ctx : aes_context) (key : bytes) (keysize : Z)
    : Z * statics * aes_context :=
  match rounds_of keysize with
  | None => (POLARSSL_ERR_AES_INVALID_KEY_LENGTH, st, ctx)
  | Some nr =>
      let st := detect st in
      let o := rk_place st (buf_at ctx) in
      let '(ret, st, cty) := aes_setkey_enc st cty key keysize in
      if negb (ret =? 0) then (ret, st, mkContext (buf_at ctx) nr o (buf ctx))
      else
        let n := Z.to_nat nr in
        let sk := round_keys cty in
        let keys := key_block sk n ++ inner_keys (n - 1) sk ++ key_block sk 0 in
        (0, st, mkContext (buf_at ctx) nr o
                  (take o (buf ctx) ++ keys ++ drop (length keys) (drop o (buf ctx))))
  end.

Variables (stack : Z) (junk : mem) (st : statics).

(** Without the unit, the code of PolarAes.v from [ctx->rk] on. *)
Definition aes_crypt_ecb (ctx : aes_context) (encrypt : bool) (input : bytes) : option (Z * bytes) :=
  let software := Some (PolarAes.aes_crypt_ecb (PolarAes.mkContext (nr ctx) (round_keys ctx)) encrypt input) in
  if negb (aes_padlock_ace st =? 0) then
    let? (ret, output) := padlock_xcryptecb stack junk ctx encrypt input in
    if ret =? 0 then Some (0, output) else software
  else software.

(** The loops of aes_crypt_cbc, over this aes_crypt_ecb. *)
Fixpoint cbc_decrypt (k : nat) (ctx : aes_context) (length : Z) (iv input : bytes) : option (bytes * bytes) :=
  if 0 <? length then
    match k with
    | O => None
    | S k =>
        let temp := take 16 input in
        let? (_, output) := aes_crypt_ecb ctx false temp in
        let output := xor_block output iv in
        let? (iv, rest) := cbc_decrypt k ctx (length - 16) temp (drop 16 input) in
        Some (iv, output ++ rest)
    end
  else Some (iv, []).

Fixpoint cbc_encrypt (k : nat) (ctx : aes_context) (length : Z) (iv input : bytes) : option (bytes * bytes) :=
  if 0 <? length then
    match k with
    | O => None
    | S k =>
        let output := xor_block (take 16 input) iv in
        let? (_, output) := aes_crypt_ecb ctx true output in
        let? (iv, rest) := cbc_encrypt k ctx (length - 16) output (drop 16 input) in
        Some (iv, output ++ rest)
    end
  else Some (iv, []).

Definition aes_crypt_cbc (ctx : aes_context) (encrypt : bool) (length : Z) (iv : bytes) (in_at out_at : Z)
    (input : bytes) : option (Z * bytes * bytes) :=
  if negb (length mod 16 =? 0) then Some (POLARSSL_ERR_AES_INVALID_INPUT_LENGTH, iv, [])
  else
    let software :=
      let? (iv, output) := (if encrypt then cbc_encrypt else cbc_decrypt) (Z.to_nat (length / 16)) ctx length iv input in
      Some (0, iv, output) in
    if negb (aes_padlock_ace st =? 0) then
      let? (ret, iv', output) := padlock_xcryptcbc stack junk ctx encrypt length iv in_at out_at input in
      if ret =? 0 then Some (0, iv', output) else software
    else software.
End unit.
