(* ===== verification/PadlockSpec.v ===== *)
(** * The PadLock unit computes AES

    The documented meaning of the instructions, in terms of FIPS 197: [PadlockLaws].
    They fault unless the control word, the keys and the data are on boundaries of
    sixteen bytes and the unit is enabled.  With them the functions of aes.c give
    with the unit what PolarAes.v gives without, wherever the compiler and the
    caller put the contexts and the buffers. *)

From S2P Require Import Prelude Fips197 PolarAes PolarAesSpec AesImage Padlock.

(** ** The instructions *)

(** The equivalent inverse cipher of FIPS 197, section 5.3.5, with its round keys in
    the order in which they are used. *)
Definition eq_decrypt (first : bytes) (inner : list bytes) (last : bytes) (input : bytes) : bytes :=
  add_block (inv_sub_bytes (inv_shift_rows
    (foldl (fun s k => add_block (inv_mix_columns (inv_sub_bytes (inv_shift_rows s))) k)
       (add_block input first) inner))) last.

(** The control word: rounds in bits 0-3, the algorithm in 4-6 (0 is AES), round keys
    from memory in 7, the intermediate mode in 8, decryption in 9, the size of the
    key in 10-11. *)
Definition rounds (control : Z) : Z := Z.land control 15.
Definition decrypts (control : Z) : bool := Z.testbit control 9.

Record valid_control (control : Z) : Prop := {
  vc_rounds : In (rounds control) [10; 12; 14];
  vc_algorithm : Z.land (Z.shiftr control 4) 7 = 0;
  vc_keys : Z.testbit control 7 = true;
  vc_intermediate : Z.testbit control 8 = false;
  vc_size : Z.shiftr control 10 = (rounds control - 10) / 2;
}.

Definition unit_block (control : Z) (keys : list Z) (s : bytes) : bytes :=
  let n := Z.to_nat (rounds control) in
  (if decrypts control then eq_decrypt else encrypt) (key_at keys 0) (inner_keys_at keys n) (key_at keys (4 * n)) s.

Definition aligned (x : Z) : Prop := x mod 16 = 0.

(** The same buffer, or two that do not meet. *)
Definition apart_or_same (n x y : Z) : Prop := x = y \/ x + n <= y \/ y + n <= x.

(** Bit 6: there is a unit; bit 7: it is enabled. *)
Definition unit_flags `{Padlock} : Z :=
  let '(eax, _, _, _) := cpuid 0xC0000000 in
  if eax <? 0xC0000001 then 0 else let '(_, _, _, edx) := cpuid 0xC0000001 in edx.
Definition unit_enabled `{Padlock} : Prop := Z.land unit_flags PADLOCK_ACE = PADLOCK_ACE.

Record unit_ready `{Padlock} (control : Z) (keys : list Z) : Prop := {
  ur_enabled : unit_enabled;
  ur_control : valid_control control;
  ur_keys : (4 * (Z.to_nat (rounds control) + 1) <= length keys)%nat;
}.

Class PadlockLaws `{Padlock} : Prop := {
  law_ecb control keys bs ctrl_at key_at src_at dst_at :
    unit_ready control keys -> Forall aligned [ctrl_at; key_at; src_at; dst_at] ->
    apart_or_same (16 * blen bs) src_at dst_at -> Forall is_block bs ->
    xcrypt_ecb (blen bs) ctrl_at key_at src_at dst_at control keys (concat bs) =
      Some (concat (unit_block control keys <$> bs));
  (** The vector in memory is the next one; for encryption, where eax moves on to it,
      nothing is said. *)
  law_cbc control keys iv bs ctrl_at key_at src_at dst_at iv_at :
    unit_ready control keys -> Forall aligned [ctrl_at; key_at; src_at; dst_at; iv_at] ->
    apart_or_same (16 * blen bs) src_at dst_at -> is_block iv -> Forall is_block bs ->
    exists iv', length iv' = 16%nat /\ (decrypts control = true -> iv' = default iv (last bs)) /\
      xcrypt_cbc (blen bs) ctrl_at key_at src_at dst_at iv_at control keys iv (concat bs) =
        Some (iv', concat ((if decrypts control then cbc_dec else cbc_enc) (unit_block control keys) iv bs));
}.

(** ** Addresses *)

Lemma land_not_15 x : Z.land x (Z.lnot 15) = x - x mod 16.
Proof.
  rewrite <- Z.ldiff_land. change 15 with (Z.ones 4). rewrite Z.ldiff_ones_r by lia.
  rewrite Z.shiftl_mul_pow2, Z.shiftr_div_pow2 by lia. change (2 ^ 4) with 16. pose proof (Z.div_mod x 16). lia.
Qed.

Lemma land_15 x : Z.land x 15 = x mod 16.
Proof. change 15 with (Z.ones 4). by rewrite Z.land_ones. Qed.

(** The boundary after an address, at most sixteen bytes on. *)
Lemma align16 x : 0 <= x -> x + 16 < 2 ^ 32 -> PADLOCK_ALIGN16 x = x + (16 - x mod 16).
Proof.
  intros H0 H1. unfold PADLOCK_ALIGN16. rewrite land_not_15. unfold u32, s32.
  pose proof (Z.mod_pos_bound x 16 eq_refl). destruct (Z.lt_ge_cases x (2 ^ 31)).
  - rewrite (Z.mod_small (x + 2 ^ 31)) by lia. replace (x + 2 ^ 31 - 2 ^ 31) with x by lia. rewrite Z.mod_small; lia.
  - replace ((x + 2 ^ 31) mod 2 ^ 32) with (x - 2 ^ 31)
      by (apply (Z.mod_unique_pos _ _ 1); lia).
    replace (x - 2 ^ 31 - 2 ^ 31) with (x + (- 2 ^ 28) * 16) by lia. rewrite Z.mod_add by lia.
    symmetry. apply (Z.mod_unique_pos _ _ (-1)); lia.
Qed.

Lemma aligned_next x : aligned (x + (16 - x mod 16)).
Proof. unfold aligned. pose proof (Z.div_mod x 16). symmetry. apply (Z.mod_unique_pos _ _ (x / 16 + 1)); lia. Qed.

Lemma aligned_add x k : aligned x -> aligned (x + 16 * k).
Proof. unfold aligned. intros Hx. by rewrite (Z.mul_comm 16), Z.mod_add. Qed.

(** ** The control word *)

Lemma control_word_eq n encrypt : In n [10; 12; 14] ->
  control_word n encrypt = n + 128 + (if encrypt then 0 else 512) + (n - 10) / 2 * 1024.
Proof. intros [<-|[<-|[<-|[]]]]; by destruct encrypt. Qed.

Lemma control_word_valid n encrypt : In n [10; 12; 14] ->
  valid_control (control_word n encrypt) /\ rounds (control_word n encrypt) = n /\
  decrypts (control_word n encrypt) = negb encrypt /\ 0 <= control_word n encrypt < 2 ^ 32.
Proof.
  intros Hn. destruct Hn as [<-|[<-|[<-|[]]]]; destruct encrypt; (split; [split; cbv; tauto|]); by vm_compute.
Qed.

(** ** One block *)

Section unit.
Context `{PadlockLaws}.

(** The code of PolarAes.v sees the keys from [rk] on. *)
Definition view (ctx : aes_context) : PolarAes.aes_context := PolarAes.mkContext (nr ctx) (round_keys ctx).

(** An array on the stack. *)
Definition in_memory (n x : Z) : Prop := 0 <= x /\ x + n < 2 ^ 32.

(** A context with a schedule, where the unit can read it. *)
Record scheduled (ctx : aes_context) : Prop := {
  sc_rounds : In (nr ctx) [10; 12; 14];
  sc_keys : (4 * (Z.to_nat (nr ctx) + 1) <= length (round_keys ctx))%nat;
  sc_aligned : aligned (rk_at ctx);
}.

Lemma control_read m x encrypt n : In n [10; 12; 14] ->
  GET_UINT32_LE (mload (mstore m x (PUT_UINT32_LE (control_word n encrypt))) x 4) 0 = control_word n encrypt.
Proof. 
  intros Hn. change 4 with (blen (PUT_UINT32_LE (control_word n encrypt))) at 1. rewrite mload_mstore.
  destruct Hn as [<-|[<-|[<-|[]]]]; by destruct encrypt.
Qed.

(** What the unit makes of a block is what the code makes of it. *)
Lemma unit_block_ecb ctx encrypt s : scheduled ctx -> is_block s ->
  PolarAes.aes_crypt_ecb (view ctx) encrypt s = (0, unit_block (control_word (nr ctx) encrypt) (round_keys ctx) s).
Proof.
  intros [Hn _ _] Hs. destruct (control_word_valid (nr ctx) encrypt Hn) as (_ & Er & Ed & _).
  unfold unit_block. rewrite Er, Ed.
  assert (nr ctx = Z.of_nat (Z.to_nat (nr ctx)) /\ (1 < Z.to_nat (nr ctx))%nat /\ Nat.even (Z.to_nat (nr ctx)) = true)
    as (En & H1 & He) by (destruct Hn as [<-|[<-|[<-|[]]]]; repeat split; cbn; lia).
  destruct encrypt; cbn [negb]; [by apply ecb_encrypt|by apply ecb_decrypt].
Qed.

Lemma ready_unit ctx encrypt : unit_enabled -> scheduled ctx ->
  unit_ready (control_word (nr ctx) encrypt) (round_keys ctx).
Proof.
  intros He [Hn Hk _]. destruct (control_word_valid (nr ctx) encrypt Hn) as (Hv & Er & _).
  split; [done|done|by rewrite Er].
Qed.

(** The frame of both functions: a block, then the control word. *)
Lemma frame_read m x d n encrypt : In n [10; 12; 14] -> length d = 16%nat ->
  let m := mstore (mstore m x d) (x + 16) (PUT_UINT32_LE (control_word n encrypt)) in
  GET_UINT32_LE (mload m (x + 16) 4) 0 = control_word n encrypt /\ mload m x 16 = d.
Proof.
  intros Hn Hd. cbv zeta. split; [by apply control_read|].
  rewrite (mload_same_outside (x + 16) 4 (mstore m x d)); [|apply (same_outside_mstore _ (PUT_UINT32_LE _))|lia].
  replace 16 with (blen d) by (unfold blen; lia). apply mload_mstore.
Qed.

Lemma xcryptecb_view stack m ctx encrypt s :
  unit_enabled -> scheduled ctx -> in_memory 256 stack -> is_block s ->
  padlock_xcryptecb stack m ctx encrypt s = Some (PolarAes.aes_crypt_ecb (view ctx) encrypt s).
Proof.
  intros He Hsc [Hlo Hhi] Hs. pose proof (ecb_length (view ctx) encrypt s) as Hl. rewrite unit_block_ecb in Hl |- * by done.
  cbn [snd] in Hl. unfold padlock_xcryptecb. rewrite align16 by lia. pose proof (aligned_next stack) as Ha.
  replace (stack + (16 - stack mod 16) - stack) with (16 - stack mod 16) by lia. set (x := 16 - stack mod 16) in *. cbv zeta.
  rewrite (firstn_all2 s) by (by destruct Hs as [-> _]).
  destruct (frame_read m x s (nr ctx) encrypt) as [-> ->]; [apply Hsc|apply Hs|].
  pose proof (law_ecb _ _ [s] (stack + (x + 16)) (rk_at ctx) (stack + x) (stack + x) (ready_unit ctx encrypt He Hsc)) as E.
  cbn [concat fmap list_fmap] in E. rewrite !app_nil_r in E. change (blen [s]) with 1 in E. rewrite E.
  - f_equal. f_equal. set (out := unit_block _ _ s) in *. replace 16 with (blen out) by (unfold blen; lia).
    apply mload_mstore.
  - repeat (apply Forall_cons; split); [|apply Hsc|done..]. rewrite Z.add_assoc. by apply (aligned_add _ 1).
  - by left.
  - by apply Forall_singleton.
Qed.

(** ** CBC *)

Definition chained (encrypt : bool) : (bytes -> bytes) -> bytes -> list bytes -> list bytes :=
  if encrypt then cbc_enc else cbc_dec.

Lemma chained_ext (encrypt : bool) E E' bs : forall iv, (forall s, is_block s -> E s = E' s /\ (encrypt = true -> is_block (E s))) -> is_block iv ->
  Forall is_block bs -> chained encrypt E iv bs = chained encrypt E' iv bs.
Proof.
  induction bs as [|b bs IH]; intros iv HE Hiv Hb; [by destruct encrypt|]. apply Forall_cons in Hb as [Hb Hbs].
  destruct encrypt; cbn [chained cbc_enc cbc_dec] in *; unfold chained in IH.
  - destruct (HE (add_block b iv)) as [<- Ho]; [auto with aes|]. f_equal. apply IH; auto.
  - destruct (HE b Hb) as [<- _]. f_equal. by apply IH.
Qed.

Variables (stack : Z) (junk : mem).
Hypothesis Hstack : in_memory 256 stack.

Section chain.
Variables (ctx : aes_context) (encrypt : bool) (E : bytes -> bytes).
Hypothesis HE : forall s, is_block s ->
  PolarAes.aes_crypt_ecb (view ctx) encrypt s = (0, E s) /\ (encrypt = true -> is_block (E s)).

Lemma cbc_unit length : length = 16 * (length / 16) -> 0 <= length < 2 ^ 32 - 15 ->
  Z.shiftr (u32 (length + 15)) 4 = length / 16.
Proof.
  intros El Hl. rewrite u32_small, Z.shiftr_div_pow2 by lia. change (2 ^ 4) with 16.
  symmetry. apply (Z.div_unique _ _ _ 15); lia.
Qed.

Lemma xcryptcbc_blocks iv bs in_at out_at : unit_enabled -> scheduled ctx ->
  16 * blen bs < 2 ^ 32 - 15 -> apart_or_same (16 * blen bs) in_at out_at -> is_block iv -> Forall is_block bs ->
  aligned in_at -> aligned out_at ->
  exists iv', (encrypt = false -> iv' = default iv (last bs)) /\
    padlock_xcryptcbc stack junk ctx encrypt (16 * blen bs) iv in_at out_at (concat bs) =
      Some (0, iv', concat (chained encrypt E iv bs)).
Proof.
  intros He Hsc Hlen Hap Hiv Hbs Hi Ho. destruct Hstack as [Hlo Hhi]. pose proof (blen_nonneg bs) as Hn.
  unfold padlock_xcryptcbc. rewrite !land_15, Hi, Ho, align16 by lia. pose proof (aligned_next stack) as Ha.
  replace (stack + (16 - stack mod 16) - stack) with (16 - stack mod 16) by lia. set (x := 16 - stack mod 16) in *. cbv zeta.
  change (negb (0 =? 0) || negb (0 =? 0)) with false. cbv iota.
  assert (16 * blen bs / 16 = blen bs) as Ed by (rewrite Z.mul_comm; by apply Z.div_mul).
  rewrite cbc_unit, Ed by lia. rewrite (firstn_all2 iv) by (by destruct Hiv as [-> _]).
  destruct (frame_read junk x iv (nr ctx) encrypt) as [-> ->]; [apply Hsc|apply Hiv|].
  rewrite <- (blen_concat_blocks bs Hbs), slice_all.
  destruct (law_cbc _ _ iv bs (stack + (x + 16)) (rk_at ctx) in_at out_at (stack + x) (ready_unit ctx encrypt He Hsc))
    as (iv' & Hl' & Hiv' & Ec); [|done..|].
  { repeat (apply Forall_cons; split); [|apply Hsc|done..]. rewrite Z.add_assoc. by apply (aligned_add _ 1). }
  destruct (control_word_valid (nr ctx) encrypt) as (_ & _ & Edec & _); [apply Hsc|]. rewrite Edec in Hiv', Ec.
  exists iv'. split; [intros ->; by apply Hiv'|]. rewrite Ec.
  replace (mload _ x 16) with iv' by (replace 16 with (blen iv') by (unfold blen; lia); by rewrite mload_mstore).
  do 3 f_equal. transitivity (chained encrypt (unit_block (control_word (nr ctx) encrypt) (round_keys ctx)) iv bs); [by destruct encrypt|].
  symmetry. apply chained_ext; [|done..]. intros s Hs. destruct (HE s Hs) as [E1 E2]. split; [|done].
  rewrite unit_block_ecb in E1 by done. by injection E1.
Qed.

(** With the unit or without it. *)
Variable st : statics.
Hypothesis Hunit : aes_padlock_ace st <> 0 -> unit_enabled /\ scheduled ctx.

Lemma crypt_ecb_block s : is_block s -> aes_crypt_ecb stack junk st ctx encrypt s = Some (0, E s).
Proof.
  intros Hs. unfold aes_crypt_ecb. destruct (HE s Hs) as [E1 _].
  destruct (Z.eqb_spec (aes_padlock_ace st) 0); cbn [negb]; [by rewrite <- E1|].
  destruct Hunit; [done|]. by rewrite xcryptecb_view, E1.
Qed.

Lemma software_blocks bs : forall iv, is_block iv -> Forall is_block bs ->
  exists iv', (encrypt = false -> iv' = default iv (last bs)) /\
    (if encrypt then cbc_encrypt stack junk st else cbc_decrypt stack junk st) (length bs) ctx (16 * blen bs) iv (concat bs) =
      Some (iv', concat (chained encrypt E iv bs)).
Proof.
  pose proof HE as HE'. pose proof crypt_ecb_block as Hecb.
  induction bs as [|b bs IH]; intros iv Hiv Hb; [exists iv; by destruct encrypt|]. apply Forall_cons in Hb as [Hb Hbs].
  pose proof (blen_nonneg bs) as Hn. destruct Hb as [Hl Hby]. 
  assert (take 16 (b ++ concat bs) = b /\ drop 16 (b ++ concat bs) = concat bs) as [Et Ed]
    by (split; [by apply take_app_length'|by apply drop_app_length']).
  destruct encrypt; cbn [cbc_encrypt cbc_decrypt length concat chained cbc_enc cbc_dec]; rewrite blen_cons;
    (destruct (Z.ltb_spec 0 (16 * (1 + blen bs))); [|lia]); rewrite Et, Ed;
    replace (16 * (1 + blen bs) - 16) with (16 * blen bs) by lia.
  - assert (is_block (xor_block b iv)) as Hx by (by apply add_block_block).
    rewrite Hecb by done. destruct (HE' _ Hx) as [_ Ho]. destruct (IH (E (xor_block b iv))) as (iv' & _ & E2); [auto|done|].
    exists iv'. rewrite E2. by split.
  - rewrite Hecb by done. destruct (IH b) as (iv' & E1 & E2); [done|done|]. rewrite E2. exists iv'. split; [|done].
    intros _. rewrite (E1 eq_refl). by destruct bs as [|b' bs]; [|rewrite last_cons_cons; destruct (last (b' :: bs)) eqn:El; [|by apply last_None in El]].
Qed.

Lemma crypt_cbc_blocks iv bs in_at out_at :
  16 * blen bs < 2 ^ 32 - 15 -> apart_or_same (16 * blen bs) in_at out_at -> is_block iv -> Forall is_block bs ->
  exists iv', (encrypt = false -> iv' = default iv (last bs)) /\
    aes_crypt_cbc stack junk st ctx encrypt (16 * blen bs) iv in_at out_at (concat bs) =
      Some (0, iv', concat (chained encrypt E iv bs)).
Proof.
  intros Hlen Hap Hiv Hbs. unfold aes_crypt_cbc. destruct (cbc_length bs) as [-> ->]. cbn [Z.eqb negb].
  destruct (software_blocks bs iv Hiv Hbs) as (iv' & Ei & Es).
  destruct (Z.eqb_spec (aes_padlock_ace st) 0); cbn [negb]; [exists iv'; by rewrite Es|].
  destruct (decide (aligned in_at /\ aligned out_at)) as [[Hi Ho]|Hmis].
  - destruct (xcryptcbc_blocks iv bs in_at out_at) as (iv2 & Ei2 & ->); [by apply Hunit..|done|done|done|done|done|done|]. by exists iv2.
  - exists iv'. split; [done|]. unfold padlock_xcryptcbc. rewrite !land_15. unfold aligned in Hmis.
    replace (negb (in_at mod 16 =? 0) || negb (out_at mod 16 =? 0)) with true by (symmetry; lia).
    cbn [POLARSSL_ERR_PADLOCK_DATA_MISALIGNED Z.eqb]. by rewrite Es.
Qed.
End chain.
End unit.

(** ** Key schedules *)

Lemma length_expand_128 k : forall i rk, length (expand_128 k i rk) = (length rk + 4 * k)%nat.
Proof. induction k as [|k IH]; intros i rk; cbn [expand_128]; cbv zeta; [lia|]. rewrite IH, length_app. cbn. lia. Qed.
Lemma length_expand_192 k : forall i rk, length (expand_192 k i rk) = (length rk + 6 * k)%nat.
Proof. induction k as [|k IH]; intros i rk; cbn [expand_192]; cbv zeta; [lia|]. rewrite IH, length_app. cbn. lia. Qed.
Lemma length_expand_256 k : forall i rk, length (expand_256 k i rk) = (length rk + 8 * k)%nat.
Proof. induction k as [|k IH]; intros i rk; cbn [expand_256]; cbv zeta; [lia|]. rewrite IH, length_app. cbn. lia. Qed.

(** A schedule takes at most 64 words. *)
Lemma setkey_enc_buf ctx key keysize Nk : key_size keysize Nk -> (64 <= length (PolarAes.buf ctx))%nat ->
  exists c, PolarAes.aes_setkey_enc ctx key keysize = (0, c) /\ PolarAes.nr c = Z.of_nat (Nk + 6) /\
    length (PolarAes.buf c) = length (PolarAes.buf ctx).
Proof.
  intros Hk Hl. unfold PolarAes.aes_setkey_enc. destruct (key_size_rounds _ _ Hk) as (-> & -> & _).
  eexists. split; [done|]. split; [done|]. cbn [PolarAes.buf]. rewrite length_app, length_drop, Nat2Z.id.
  assert (forall x, (x <= 64)%nat -> (x + (length (PolarAes.buf ctx) - x) = length (PolarAes.buf ctx))%nat) as Hle by lia.
  destruct Hk; cbn [seq fmap list_fmap]; simpl (_ =? _); cbv iota; apply Hle;
    rewrite ?length_expand_128, ?length_expand_192, ?length_expand_256; cbn; lia.
Qed.

Section schedule.
Context `{PadlockLaws}.

Definition initial : statics := mkStatics (-1) (-1).

(** Before the first key schedule, and after it. *)
Definition reachable (st : statics) : Prop := st = initial \/ st = detect initial.

Lemma ace_detected : aes_padlock_ace (detect initial) = Z.land unit_flags PADLOCK_ACE.
Proof.
  unfold detect, padlock_supports, unit_flags. cbn [initial aes_padlock_ace flags Z.eqb Pos.eqb].
  destruct (cpuid 0xC0000000) as [[[eax ?] ?] ?]. cbn [aes_padlock_ace].
  generalize (if eax <? 0xC0000001 then 0 else let '(_, _, _, edx) := cpuid 0xC0000001 in edx). intros x.
  unfold PADLOCK_ACE, s32. change 0xC0 with (Z.land (Z.ones 31) 0xC0). rewrite !Z.land_assoc, !Z.land_ones by lia. f_equal.
  replace ((x + 2 ^ 31) mod 2 ^ 32 - 2 ^ 31) with (x + (- 2 * ((x + 2 ^ 31) / 2 ^ 32)) * 2 ^ 31)
    by (pose proof (Z.div_mod (x + 2 ^ 31) (2 ^ 32)); lia).
  by rewrite Z.mod_add by lia.
Qed.

Lemma detect_reachable st : reachable st -> detect st = detect initial.
Proof.
  intros [->| ->]; [done|]. unfold detect at 1. pose proof ace_detected as E.
  destruct (Z.eqb_spec (aes_padlock_ace (detect initial)) (-1)) as [E1|]; [|done].
  rewrite E1 in E. pose proof (Z.land_nonneg unit_flags PADLOCK_ACE) as [_ Hn]. unfold PADLOCK_ACE in *. lia.
Qed.

(** A context, anywhere in memory. *)
Record roomy (ctx : aes_context) : Prop := {
  ro_memory : in_memory 272 (buf_at ctx);
  ro_words : buf_at ctx mod 4 = 0;
  ro_length : length (buf ctx) = 68%nat;
}.

Lemma rk_place_ok st ctx : roomy ctx ->
  (rk_place st (buf_at ctx) <= 4)%nat /\
  (aes_padlock_ace st <> 0 -> aligned (buf_at ctx + 4 * Z.of_nat (rk_place st (buf_at ctx)))).
Proof.
  intros [[Hlo Hhi] Hw _]. unfold rk_place. destruct (Z.eqb_spec (aes_padlock_ace st) 0); cbn [negb]; [split; [lia|done]|].
  rewrite align16 by lia. pose proof (Z.mod_pos_bound (buf_at ctx) 16 eq_refl).
  replace (buf_at ctx + (16 - buf_at ctx mod 16) - buf_at ctx) with (16 - buf_at ctx mod 16) by lia.
  assert ((16 - buf_at ctx mod 16) mod 4 = 0) as Hm by (Z.to_euclidean_division_equations; lia).
  pose proof (Z.div_mod (16 - buf_at ctx mod 16) 4) as Hq. rewrite Hm in Hq.
  split; [lia|]. intros _. rewrite Z2Nat.id by lia.
  replace (4 * ((16 - buf_at ctx mod 16) / 4)) with (16 - buf_at ctx mod 16) by lia. apply aligned_next.
Qed.

(** The schedule that PolarAes.v makes, from [rk] on. *)
Lemma setkey_enc_view st ctx key keysize Nk : key_size keysize Nk -> reachable st -> roomy ctx ->
  exists e c ctx0, aes_setkey_enc st ctx key keysize = (0, detect initial, e) /\
    PolarAes.aes_setkey_enc ctx0 key keysize = (0, c) /\ view e = c /\ roomy e /\
    nr e = Z.of_nat (Nk + 6) /\ rk e = rk_place (detect initial) (buf_at e).
Proof.
  intros Hk Hst Hr. unfold aes_setkey_enc. destruct (key_size_rounds _ _ Hk) as (-> & _). rewrite detect_reachable by done.
  destruct (rk_place_ok (detect initial) ctx Hr) as [Ho _]. set (o := rk_place _ _) in *. destruct Hr as [Hm Hw Hl].
  set (ctx0 := PolarAes.mkContext _ _).
  destruct (setkey_enc_buf ctx0 key keysize Nk Hk) as (c & E & En & Hc); [cbn; rewrite length_drop; lia|].
  cbn [ctx0 PolarAes.buf] in Hc. rewrite length_drop in Hc. rewrite E. do 3 eexists. split; [done|]. split; [exact E|].
  split; [|split; [|done]].
  - unfold view, round_keys. cbn [nr rk buf]. rewrite drop_app_length' by (rewrite length_take; lia).
    destruct c; cbn in *; by subst.
  - split; [done|done|]. cbn [buf]. rewrite length_app, length_take. lia.
Qed.

Lemma length_inner_keys sk i : (4 * i + 4 <= length sk)%nat -> length (inner_keys i sk) = (4 * i)%nat.
Proof.
  induction i as [|i IH]; intros Hi; [done|]. cbn [inner_keys]. rewrite length_app, length_fmap, key_block_length, IH by lia. lia.
Qed.

Lemma setkey_dec_view st cty ctx key keysize Nk : key_size keysize Nk -> reachable st -> roomy cty -> roomy ctx ->
  exists d c cty0 ctx0, aes_setkey_dec st cty ctx key keysize = (0, detect initial, d) /\
    PolarAes.aes_setkey_dec cty0 ctx0 key keysize = (0, c) /\ view d = c /\ roomy d /\
    nr d = Z.of_nat (Nk + 6) /\ rk d = rk_place (detect initial) (buf_at d).
Proof.
  intros Hk Hst Hrc Hr. destruct (setkey_enc_view (detect initial) cty key keysize Nk Hk (or_intror eq_refl) Hrc)
    as (e & c & cty0 & Ee & Ec & Ev & Hre & Ene & Erk).
  unfold aes_setkey_dec. destruct (key_size_rounds _ _ Hk) as (E & _). rewrite E, detect_reachable by done.
  rewrite Ee. cbn [Z.eqb negb]. destruct (rk_place_ok (detect initial) ctx Hr) as [Ho _].
  set (o := rk_place (detect initial) (buf_at ctx)) in *.
  destruct Hr as [Hm Hw Hl]. rewrite Nat2Z.id. set (keys := key_block _ _ ++ _).
  exists (mkContext (buf_at ctx) (Z.of_nat (Nk + 6)) o (take o (buf ctx) ++ keys ++ drop (length keys) (drop o (buf ctx)))).
  do 2 eexists. exists (PolarAes.mkContext 0 (drop o (buf ctx))). split; [done|]. split.
  { unfold PolarAes.aes_setkey_dec. rewrite E, Ec. cbn [Z.eqb negb]. rewrite Nat2Z.id, <- Ev. reflexivity. }
  split; [|split; [|done]].
  - unfold view, round_keys. cbn [nr rk buf PolarAes.buf]. by rewrite drop_app_length' by (rewrite length_take; lia).
  - split; [done|done|]. cbn [buf]. destruct (rk_place_ok (detect initial) e Hre) as [Ho' _]. rewrite <- Erk in Ho'.
    assert (64 <= length (round_keys e))%nat as He by (unfold round_keys; rewrite length_drop, (ro_length _ Hre); lia).
    assert (length keys = 4 * (Nk + 6) + 4)%nat as Ek.
    { unfold keys. rewrite !length_app, !key_block_length, length_inner_keys by (destruct Hk; lia). destruct Hk; lia. }
    rewrite !length_app, length_take, !length_drop, Ek, Hl. destruct Hk; lia.
Qed.

Lemma placed_scheduled ctx Nk keysize : key_size keysize Nk -> roomy ctx -> nr ctx = Z.of_nat (Nk + 6) ->
  rk ctx = rk_place (detect initial) (buf_at ctx) -> aes_padlock_ace (detect initial) <> 0 -> scheduled ctx.
Proof.
  intros Hk Hr Hn Ho Ha. destruct (rk_place_ok (detect initial) ctx Hr) as [Hle Hal]. rewrite <- Ho in Hle, Hal.
  split; [rewrite Hn; destruct Hk; cbn; tauto| |by apply Hal].
  unfold round_keys. rewrite length_drop, (ro_length _ Hr), Hn, Nat2Z.id. destruct Hk; lia.
Qed.

(** ** AES *)

(** A context that PolarAes.v's functions would use as [E], used with the unit or without. *)
Record crypts (stack : Z) (junk : mem) (st : statics) (ctx : aes_context) (encrypt : bool) (E : bytes -> bytes) : Prop := {
  cr_ecb s : is_block s -> aes_crypt_ecb stack junk st ctx encrypt s = Some (0, E s);
  cr_cbc iv bs in_at out_at :
    16 * blen bs < 2 ^ 32 - 15 -> apart_or_same (16 * blen bs) in_at out_at -> is_block iv -> Forall is_block bs ->
    exists iv', (encrypt = false -> iv' = default iv (last bs)) /\
      aes_crypt_cbc stack junk st ctx encrypt (16 * blen bs) iv in_at out_at (concat bs) =
        Some (0, iv', concat (chained encrypt E iv bs));
}.

Lemma schedule_crypts stack junk ctx encrypt E keysize Nk :
  in_memory 256 stack -> Z.land unit_flags PADLOCK_ACE = 0 \/ unit_enabled -> key_size keysize Nk -> roomy ctx ->
  nr ctx = Z.of_nat (Nk + 6) -> rk ctx = rk_place (detect initial) (buf_at ctx) ->
  (forall s, is_block s -> PolarAes.aes_crypt_ecb (view ctx) encrypt s = (0, E s) /\ (encrypt = true -> is_block (E s))) ->
  crypts stack junk (detect initial) ctx encrypt E.
Proof.
  intros Hs He Hk Hr Hn Ho HE.
  assert (aes_padlock_ace (detect initial) <> 0 -> unit_enabled /\ scheduled ctx) as Hunit.
  { intros Ha. split; [rewrite ace_detected in Ha; by destruct He|by eapply placed_scheduled]. }
  split; [intros; by apply crypt_ecb_block|intros; by apply crypt_cbc_blocks].
Qed.

(** C17. On a 32-bit x86 processor, with a PadLock unit or without one, the program
    computes AES.  Wherever the contexts are in memory, and at the first key as at the
    later ones, the key schedules write their round keys into the 68 words of the
    context, where the unit can read them; a block is the Cipher or the InvCipher of
    FIPS 197; and CBC chains them, whether the buffers are on the boundaries that the
    unit asks for or the code falls back to its own loop, in place or not. *)
Theorem padlock_is_aes st cty ctx key keysize Nk stack junk :
  reachable st -> Z.land unit_flags PADLOCK_ACE = 0 \/ unit_enabled -> roomy cty -> roomy ctx -> in_memory 256 stack ->
  key_size keysize Nk -> Forall is_byte key -> length key = (4 * Nk)%nat ->
  exists st' e d, aes_setkey_enc st ctx key keysize = (0, st', e) /\ aes_setkey_dec st cty ctx key keysize = (0, st', d) /\
    reachable st' /\ roomy e /\ roomy d /\
    crypts stack junk st' e true (Cipher key Nk) /\ crypts stack junk st' d false (InvCipher key Nk).
Proof.
  intros Hst He Hrc Hr Hs Hk Hb Hl.
  destruct (setkey_enc_view st ctx key keysize Nk Hk Hst Hr) as (e & c & ctx1 & Ee & Ec & Ev & Hre & Ene & Ere).
  destruct (setkey_dec_view st cty ctx key keysize Nk Hk Hst Hrc Hr) as (d & c2 & cty2 & ctx2 & Ed & Ec2 & Ev2 & Hrd & End & Erd).
  destruct (setkey_enc_cipher key keysize Nk Hk Hb Hl ctx1) as (c' & Ec' & Hc). rewrite Ec in Ec'. injection Ec' as <-.
  destruct (setkey_dec_inverse key keysize Nk Hk Hb Hl cty2 ctx2) as (c2' & Ec2' & Hc2). rewrite Ec2 in Ec2'. injection Ec2' as <-.
  exists (detect initial), e, d. do 2 (split; [done|]). split; [by right|]. do 2 (split; [done|]).
  split; (eapply schedule_crypts; [done..|]); intros s Hbs; rewrite ?Ev, ?Ev2.
  - split; [by apply Hc|]. intros _. by apply (Cipher_block key keysize Nk).
  - split; [by apply Hc2|done].
Qed.
End schedule.

(** ** A processor with a unit *)

Definition bytes16 (k : nat) (d : bytes) : list bytes := (fun i : nat => slice (16 * Z.of_nat i) 16 d) <$> seq 0 k.

Definition all_aligned (l : list Z) : bool := forallb (fun x => x mod 16 =? 0) l.

#[export] Instance nehemiah : Padlock := {
  cpuid leaf := if leaf =? 0xC0000000 then (0xC0000001, 0, 0, 0) else (0, 0, 0, 0xC0);
  xcrypt_ecb count ctrl_at key_at src_at dst_at control keys data :=
    if all_aligned [ctrl_at; key_at; src_at; dst_at]
    then Some (concat (unit_block control keys <$> bytes16 (Z.to_nat count) data)) else None;
  xcrypt_cbc count ctrl_at key_at src_at dst_at iv_at control keys iv data :=
    if all_aligned [ctrl_at; key_at; src_at; dst_at; iv_at] then
      let bs := bytes16 (Z.to_nat count) data in
      let out := (if decrypts control then cbc_dec else cbc_enc) (unit_block control keys) iv bs in
      Some (if decrypts control then default iv (last bs) else iv, concat out)
    else None;
}.

Lemma all_aligned_true l : Forall aligned l -> all_aligned l = true.
Proof. intros Hl. apply forallb_forall. intros x Hx. apply Z.eqb_eq. apply (proj1 (Forall_forall aligned l) Hl). by apply list_elem_of_In. Qed.

Lemma bytes16_concat bs : Forall is_block bs -> bytes16 (Z.to_nat (blen bs)) (concat bs) = bs.
Proof.
  unfold blen. rewrite Nat2Z.id. intros Hb. apply list_eq. intros i. unfold bytes16. rewrite list_lookup_fmap.
  destruct (bs !! i) as [b|] eqn:Ei.
  2: { rewrite lookup_ge_None in Ei. by rewrite lookup_seq_ge. }
  rewrite lookup_seq_lt by by eapply lookup_lt_Some. cbn. f_equal.
  rewrite <- (take_drop_middle _ _ _ Ei) in Hb |- * at 1. apply Forall_app in Hb as [H1 H2].
  apply Forall_cons in H2 as [[Hlb _] _]. rewrite concat_app. cbn [concat].
  assert (blen (concat (take i bs)) = 16 * Z.of_nat i) as El.
  { rewrite blen_concat_blocks by done. unfold blen. rewrite length_take. apply lookup_lt_Some in Ei. lia. }
  rewrite <- El. replace 16 with (blen b) by (unfold blen; lia). by apply slice_mid.
Qed.

#[export] Instance nehemiah_laws : PadlockLaws.
Proof.
  split; cbn [xcrypt_ecb xcrypt_cbc nehemiah]; intros.
  - by rewrite all_aligned_true, bytes16_concat.
  - rewrite all_aligned_true, bytes16_concat by done. eexists. split; [|split; [|done]].
    + destruct (decrypts control); [|by apply H2]. destruct (last bs) as [b|] eqn:Eb; [|by apply H2].
      apply last_Some in Eb as [l ->]. by apply Forall_app in H3 as [_ [Hb _]%Forall_cons]; destruct Hb.
    + by intros ->.
Qed.

(** The key and the cipher text of FIPS 197, C.1, with the contexts and the stack at
    addresses that are not on a boundary. *)
Definition key_c1 : bytes := Z.of_nat <$> seq 0 16.
Definition text_c1 : bytes :=
  [0x69; 0xc4; 0xe0; 0xd8; 0x6a; 0x7b; 0x04; 0x30; 0xd8; 0xcd; 0xb7; 0x80; 0x70; 0xb4; 0xc5; 0x5a].
Definition context_at (x : Z) : aes_context := mkContext x 0 0 (replicate 68 0).

Lemma padlock_is_aes_witness :
  exists st' e d, aes_setkey_enc initial (context_at 1012) key_c1 128 = (0, st', e) /\
    aes_setkey_dec initial (context_at 2008) (context_at 1012) key_c1 128 = (0, st', d) /\
    aes_padlock_ace st' = 0xC0 /\
    aes_crypt_ecb 3001 (zext []) st' d false text_c1 = Some (0, InvCipher key_c1 4 text_c1) /\
    aes_crypt_cbc 3001 (zext []) st' d false 32 text_c1 4000 4000 (text_c1 ++ text_c1) =
      Some (0, text_c1, concat (cbc_dec (InvCipher key_c1 4) text_c1 [text_c1; text_c1])).
Proof.
  destruct (padlock_is_aes initial (context_at 2008) (context_at 1012) key_c1 128 4 3001 (zext []))
    as (st' & e & d & Ee & Ed & Hst & _ & _ & _ & [Hecb Hcbc]).
  - by left.
  - right. by vm_compute.
  - repeat split; cbn; lia.
  - repeat split; cbn; lia.
  - split; lia.
  - constructor.
  - apply Forall_forall. intros x [i [-> Hi%elem_of_seq]]%list_elem_of_fmap. unfold is_byte. lia.
  - done.
  - exists st', e, d. assert (is_block text_c1) as Hb by (split; [done|by repeat constructor; cbn]).
    split; [exact Ee|]. split; [exact Ed|]. split.
    + destruct Hst as [->| ->]; [|by vm_compute]. apply (f_equal (fun r => aes_padlock_ace r.1.2)) in Ee. revert Ee. by vm_compute.
    + split; [by apply Hecb|]. destruct (Hcbc text_c1 [text_c1; text_c1] 4000 4000) as (iv' & Hiv & E);
        [by vm_compute|by left|done|by repeat constructor|]. rewrite (Hiv eq_refl) in E. exact E.
Defined.
