(* ===== verification/ReadCmds.v ===== *)
(** * The read commands

    process_read_file_critical, process_read_cd_2048_critical_cmd and
    process_read_file_cmd of main.cpp, over any file [R] that keeps the promises
    of [AbstractFileLaws].  Both critical commands answer with exactly the bytes
    asked for: those of the file, followed by zeros where it has ended. *)

From S2P Require Import Prelude Endian Os AbsFile FileIso Client.

Section commands.
Context {W R : Type} `{Posix W, Aes, AbstractFile R W}.
Implicit Types (c : client_t R) (w : W) (f : R) (m : mem) (cmd : bytes).

(** The file and the buffer after a read into the buffer. *)
Definition put_read f m c : client_t R := set_buf (Some m) (set_ro (Some f) c).

(** The message it prints is not modelled. *)
Definition log_eof_padding (pos : Z) c : client_t R :=
  if eof_pad_logged c then c else set_size (ro_file_size c) true c.

(** [while (remaining > 0) { ... }] *)
Fixpoint critical_loop (fuel : nat) (read_size remaining pos : Z) f m c w
    : option (Z * client_t R * W) :=
  match fuel with
  | O => None
  | S fuel =>
      if remaining <=? 0 then Some (SUCCEEDED, c, w)
      else
        let read_size := if remaining <? read_size then remaining else read_size in
        let '(read_ret, m, f, w) := af_read m 0 read_size f w in
        let c := put_read f m c in
        if read_ret <? 0 then Some (FAILED, c, w)
        else
          let short := negb (u64 read_ret =? read_size) in
          if short && (u64 (pos + read_ret) <? ro_file_size c) then Some (FAILED, c, w)
          else
            let c := if short then log_eof_padding (u64 (pos + read_ret)) c else c in
            let m := if short then mfill m read_ret (u64 (read_size - read_ret)) 0 else m in
            let c := set_buf (Some m) c in
            let '(send_ret, w) := sys_send (s c) (mload m 0 read_size) w in
            let send_ret := s32 send_ret in
            if (send_ret <? 0) || negb (u32 send_ret =? read_size) then Some (FAILED, c, w)
            else critical_loop fuel read_size (u32 (remaining - read_size))
                   (u64 (pos + read_size)) f m c w
  end.

Definition process_read_file_critical cmd c w : option (Z * client_t R * W) :=
  match ro_file c, buf c with
  | Some f, Some m =>
      let offset := cmd_offset cmd in
      let remaining := cmd_num_bytes cmd in
      let '(r, f, w) := af_seek (s64 offset) SEEK_SET f w in
      let c := set_ro (Some f) c in
      if r <? 0 then Some (FAILED, c, w)
      else
        let read_size := if BUFFER_SIZE <=? remaining then BUFFER_SIZE else remaining in
        critical_loop (Z.to_nat (remaining / BUFFER_SIZE) + 2) read_size remaining offset f m c w
  | _, _ => Some (FAILED, c, w)
  end.

(** *** CD sectors *)

(** The fast path's copy of each sector's payload from [scratch] to the buffer. *)
Fixpoint gather (k : nat) (i ss : Z) (scratch m : mem) : mem :=
  match k with
  | O => m
  | S k => gather k (i + 1) ss scratch (mstore m (2048 * i) (mload scratch (i * ss) 2048))
  end.

(** One seek and one read of the whole span into [scratch]. *)
Definition cd_bulk (offset sector_count : Z) (scratch : mem) f m c w
    : bool * client_t R * W :=
  let ss := CD_SECTOR_SIZE c in
  let span := u64 ((sector_count - 1) * ss + 24 + 2048) in
  let '(_, f, w) := af_seek (s64 (offset + 24)) SEEK_SET f w in
  let '(bulk_ret, scratch, f, w) := af_read scratch 0 span f w in
  let pad := (0 <=? bulk_ret) && (u64 bulk_ret <? span)
             && (ro_file_size c <=? u64 (offset + 24 + bulk_ret)) in
  let c := set_ro (Some f) c in
  let c := if pad then log_eof_padding (u64 (offset + 24 + bulk_ret)) c else c in
  let scratch := if pad then mfill scratch bulk_ret (u64 (span - bulk_ret)) 0 else scratch in
  let bulk_ret := if pad then s64 span else bulk_ret in
  if negb (bulk_ret =? s64 span) then (false, c, w)
  else (true, set_buf (Some (gather (Z.to_nat sector_count) 0 ss scratch m)) c, w).

(** One seek and one read per sector, straight into the buffer. *)
Fixpoint cd_sectors (k : nat) (i offset : Z) f m c w : bool * client_t R * W :=
  match k with
  | O => (true, c, w)
  | S k =>
      let '(_, f, w) := af_seek (s64 (offset + 24)) SEEK_SET f w in
      let '(sec_ret, m, f, w) := af_read m (2048 * i) 2048 f w in
      let pad := (0 <=? sec_ret) && (sec_ret <? 2048)
                 && (ro_file_size c <=? u64 (offset + 24 + sec_ret)) in
      let c := if pad then log_eof_padding (u64 (offset + 24 + sec_ret)) c else c in
      let m := if pad then mfill m (2048 * i + sec_ret) (u64 (2048 - sec_ret)) 0 else m in
      let c := put_read f m c in
      let sec_ret := if pad then 2048 else sec_ret in
      if negb (sec_ret =? 2048) then (false, c, w)
      else cd_sectors k (i + 1) (u64 (offset + CD_SECTOR_SIZE c)) f m c w
  end.

(** [heap] is the indeterminate contents of the scratch buffer. *)
Definition process_read_cd_2048_critical_cmd (heap : mem) cmd c w : Z * client_t R * W :=
  match ro_file c, buf c with
  | Some f, Some m =>
      let offset := u64 (cmd_start_sector cmd * CD_SECTOR_SIZE c) in
      let sector_count := cmd_sector_count cmd in
      if BUFFER_SIZE <? sector_count * 2048 then (FAILED, c, w)
      else
        let '(scratch, w) :=
          if (0 <? sector_count) && supportsBulkRead f then
            sys_malloc (u64 ((sector_count - 1) * CD_SECTOR_SIZE c + 24 + 2048)) w
          else (false, w) in
        let '(ok, c, w) :=
          if scratch then cd_bulk offset sector_count heap f m c w
          else cd_sectors (Z.to_nat sector_count) 0 offset f m c w in
        if negb ok then (FAILED, c, w)
        else
          let n := u32 (sector_count * 2048) in
          let '(send_ret, w) := sys_send (s c) (mload (default m (buf c)) 0 n) w in
          let send_ret := s32 send_ret in
          if (send_ret <? 0) || negb (u32 send_ret =? n) then (FAILED, c, w)
          else (SUCCEEDED, c, w)
  | _, _ => (FAILED, c, w)
  end.

(** *** The read with a result *)

(** The result, then the data read, if any. *)
Definition send_read_result (bytes_read : Z) c w : Z * client_t R * W :=
  let '(r, w) := sys_send (s c) (netiso_int32_result (BE32 (u32 bytes_read))) w in
  if negb (r =? 4) then (FAILED, c, w)
  else if 0 <? bytes_read then
    let '(r, w) := sys_send (s c) (mload (default (zext []) (buf c)) 0 bytes_read) w in
    if negb (r =? bytes_read) then (FAILED, c, w) else (SUCCEEDED, c, w)
  else (SUCCEEDED, c, w).

Definition process_read_file_cmd cmd c w : Z * client_t R * W :=
  let read_size := cmd_num_bytes cmd in
  let offset := cmd_offset cmd in
  match ro_file c, buf c with
  | Some f, Some m =>
      if BUFFER_SIZE <? read_size then send_read_result NONE c w
      else
        let '(r, f, w) := af_seek (s64 offset) SEEK_SET f w in
        let c := set_ro (Some f) c in
        if r <? 0 then send_read_result NONE c w
        else
          let '(ret, m, f, w) := af_read m 0 read_size f w in
          let bytes_read := s32 ret in
          let c := put_read f m c in
          send_read_result (if bytes_read <? 0 then NONE else bytes_read) c w
  | _, _ => send_read_result NONE c w
  end.
End commands.
