(* ===== verification/Faults.v ===== *)
(** * Files whose calls may fail

    [AbstractFileLaws] speaks of healthy files, whose reads succeed.  [FaultyFile]
    is the weaker promise of a file on a medium that may fail at any call: a seek
    reaches the position or fails, and a read delivers some of the bytes at the
    position or fails, in which case it may have stored anything, but only where
    it was to store the bytes.  A [File] of one part without a key keeps it over
    any system whose descriptors do ([FaultLaws]), and healthy files of every kind do. *)

From S2P Require Import Prelude Os AbsFile FileIso FileView Client RoFile VIso VIsoView Scenario.

(** ** Descriptors *)

Class FaultView (W : Type) := {
  (** contents and offset of an open file, readable or not *)
  fd_contents : W -> Z -> option (bytes * Z);
}.

Class FaultLaws (W : Type) `{Posix W, PosixView W, FaultView W} := {
  fl_bounds w d c o : fd_contents w d = Some (c, o) -> blen c < 2 ^ 63 /\ 0 <= o < 2 ^ 63;
  fl_send s x w r w' d : sys_send s x w = (r, w') -> fd_contents w' d = fd_contents w d;
  (** read(2): an error, or the bytes at the offset, as many as it says *)
  fl_read d n w r x w' c o : fd_contents w d = Some (c, o) -> sys_read d n w = (r, x, w') ->
    r = -1 /\ x = [] \/
    r = blen x /\ x = slice o r c /\ r <= blen (slice o n c) /\ fd_contents w' d = Some (c, o + r);
  fl_lseek d off w r w' c o : fd_contents w d = Some (c, o) -> 0 <= off < 2 ^ 63 ->
    sys_lseek d off SEEK_SET w = (r, w') -> r < 0 \/ fd_contents w' d = Some (c, off);
}.

(** ** Files *)

Class FaultyFile (F W : Type) `{AbstractFile F W, Posix W, PosixView W} := {
  (** contents and read position of an open file *)
  ff_view : F -> W -> option (bytes * Z);
  ff_bounds f w c p : ff_view f w = Some (c, p) -> blen c < 2 ^ 63 /\ 0 <= p < 2 ^ 63;
  ff_send f s x w r w' : sys_send s x w = (r, w') -> ff_view f w' = ff_view f w;
  ff_seek f w c p off : ff_view f w = Some (c, p) -> 0 <= off < 2 ^ 63 ->
    exists r f' w', af_seek off SEEK_SET f w = (r, f', w') /\ keeps_net w w' /\
      (r < 0 \/ ff_view f' w' = Some (c, off));
  ff_read f w c p m o n : ff_view f w = Some (c, p) -> 0 <= n < 2 ^ 63 ->
    exists r m' f' w', af_read m o n f w = (r, m', f', w') /\ keeps_net w w' /\ same_outside o n m m' /\
      (r < 0 \/ 0 <= r <= blen (slice p n c) /\ mload m' o r = slice p r c /\ ff_view f' w' = Some (c, p + r));
}.

Section instances.
Context {W V : Type} `{PosixLaws W, !FaultView W, !FaultLaws W, Aes}.
Context `{!AbstractFile V W, !AbstractFileView V W, !AbstractFileLaws V W}.
Variables (root_len make_iso : Z) (st_uninit : file_stat_t).
Implicit Types (f : File) (w : W).

(** A plain descriptor behind the object. *)
Definition one_part (f : File) : bool := (is_multipart f =? 0) && plain_file f.

Lemma one_part_spec f : one_part f = true -> is_multipart f = 0 /\ plain_file f = true.
Proof. unfold one_part. by intros [?%Z.eqb_eq ?]%andb_true_iff. Qed.

Lemma one_part_seek f w c p off : one_part f = true -> fd_contents w (fd f) = Some (c, p) -> 0 <= off < 2 ^ 63 ->
  exists r w', File_seek off SEEK_SET f w = (r, f, w') /\ keeps_net w w' /\
    (r < 0 \/ fd_contents w' (fd f) = Some (c, off)).
Proof.
  intros [Hm _]%one_part_spec Hv Ho. unfold File_seek, seek_file. rewrite Hm. cbn [Z.eqb orb].
  destruct (sys_lseek (fd f) off SEEK_SET w) as [r w'] eqn:E. exists r, w'. split; [done|].
  split; [by apply law_lseek in E as []|by eapply fl_lseek].
Qed.

Lemma one_part_read f w c p m o n : one_part f = true -> fd_contents w (fd f) = Some (c, p) -> 0 <= n < 2 ^ 63 ->
  exists r m' w', File_read m o n f w = (r, m', f, w') /\ keeps_net w w' /\ same_outside o n m m' /\
    (r < 0 \/ 0 <= r <= blen (slice p n c) /\ mload m' o r = slice p r c /\ fd_contents w' (fd f) = Some (c, p + r)).
Proof.
  intros [Hm Hp]%one_part_spec Hv Hn. unfold File_read, read_file. rewrite Hm, Hp. cbn [Z.eqb].
  destruct (sys_read (fd f) n w) as [[r x] w'] eqn:E. exists r, (mstore m o x), w'. split; [done|].
  pose proof (law_read _ _ _ _ _ _ E) as (Hr & _ & Hnet). split; [done|]. split.
  { eapply same_outside_weaken; [apply same_outside_mstore|lia|]. destruct Hr as [[_ ->]|[_ ?]]; [rewrite blen_nil|]; lia. }
  destruct (fl_read _ _ _ _ _ _ _ _ Hv E) as [[-> _]|(-> & Hx & Hle & Hv')]; [left; lia|right].
  split; [pose proof (blen_nonneg x); lia|]. split; [by rewrite mload_mstore|done].
Qed.

(** The files of a connection: one part or several, with a key or without, or an image. *)
Definition ro_contents (r : File + V) w : option (bytes * Z) :=
  match r with
  | inl f => if one_part f then fd_contents w (fd f) else File_view f w
  | inr v => af_view v w
  end.

#[local] Instance ops : AbstractFile (File + V) W := ro_AbstractFile root_len make_iso st_uninit.

(** A healthy file keeps the weaker promise. *)
Lemma healthy_seek {F} `{!AbstractFile F W, !AbstractFileView F W, !AbstractFileLaws F W} (x : F) w c p off : af_view x w = Some (c, p) -> 0 <= off < 2 ^ 63 ->
  exists r x' w', af_seek off SEEK_SET x w = (r, x', w') /\ keeps_net w w' /\ (r < 0 \/ af_view x' w' = Some (c, off)).
Proof.
  intros Hv Ho. destruct (afl_seek x w c p off Hv Ho) as (r & x' & w' & E & Hn & _ & Hr).
  exists r, x', w'. split; [done|]. split; [done|]. destruct Hr as [[_ ?]|[? _]]; [by right|by left].
Qed.

Lemma healthy_read {F} `{!AbstractFile F W, !AbstractFileView F W, !AbstractFileLaws F W} (x : F) w c p m o n : af_view x w = Some (c, p) -> 0 <= n < 2 ^ 63 ->
  exists r m' x' w', af_read m o n x w = (r, m', x', w') /\ keeps_net w w' /\ same_outside o n m m' /\
    (r < 0 \/ 0 <= r <= blen (slice p n c) /\ mload m' o r = slice p r c /\ af_view x' w' = Some (c, p + r)).
Proof.
  intros Hv Hn. destruct (afl_read x w c p m o n Hv Hn) as (r & m' & x' & w' & E & Hnet & _ & Hr & Hm & Ho & Hv' & _).
  exists r, m', x', w'. split; [done|]. split; [done|]. split; [done|]. by right.
Qed.

Lemma File_seek_part off wh f w r f' w' : File_seek off wh f w = (r, f', w') -> one_part f' = one_part f.
Proof.
  unfold File_seek, seek_file. destruct (_ || _); [|destruct (_ || _); [by intros [= _ <- _]|]];
    destruct (sys_lseek _ _ _ _); by intros [= _ <- _].
Qed.

Lemma File_read_part m o n f w r m' f' w' : File_read m o n f w = (r, m', f', w') -> one_part f' = one_part f.
Proof.
  unfold File_read. destruct (is_multipart f =? 0); [destruct (plain_file f)|].
  - destruct (read_file _ _ _ _ _) as [[? ?] ?]. by intros [= _ _ <- _].
  - destruct (File_seek _ _ _ _) as [[p f1] w1] eqn:E1. apply File_seek_part in E1. rewrite <- E1.
    destruct (p <? 0); [by intros [= _ _ <- _]|]. destruct (read_file _ _ _ _ _) as [[? ?] ?].
    destruct (bool_decide (enc_type_ f1 = kDiscType3k3yDec)); [by intros [= _ _ <- _]|].
    destruct (List.find _ _) as [x|]; [|by intros [= _ _ <- _]].
    destruct (negb (encrypted x)); [by intros [= _ _ <- _]|]. destruct (decrypt_data _ _ _ _ _ _). by intros [= _ _ <- _].
  - destruct (read_file _ _ _ _ _) as [[? ?] ?]. destruct (_ && _); [|by intros [= _ _ <- _]].
    destruct (seek_file _ _ _ _). destruct (read_file _ _ _ _ _) as [[? ?] ?]. by intros [= _ _ <- _].
Qed.

#[export] Instance ro_FaultyFile : @FaultyFile (File + V) W ops _ _.
Proof.
  pose proof (File_AbstractFileLaws (W := W) root_len make_iso st_uninit) as L.
  refine {| ff_view := ro_contents |}.
  - intros [f|v] w c p; cbn; [|apply afl_view]. destruct (one_part f); [apply fl_bounds|].
    exact (afl_view (AbstractFileLaws := L) f w c p).
  - intros [f|v] s x w r w' E; cbn.
    + destruct (one_part f); [by eapply fl_send|]. apply law_send in E as (_ & K & _).
      exact (afl_frame (AbstractFileLaws := L) f w w' K).
    + apply law_send in E as (_ & K & _). by apply afl_frame.
  - intros [f|v] w c p off; cbn; intros Hv Ho.
    + destruct (one_part f) eqn:Hp.
      * destruct (one_part_seek f w c p off Hp Hv Ho) as (r & w' & E & Hr). exists r, (inl f), w'.
        rewrite E. cbn. by rewrite Hp.
      * destruct (healthy_seek (AbstractFileLaws1 := L) f w c p off Hv Ho) as (r & f' & w' & E & Hr).
        exists r, (inl f'), w'. cbn in *. rewrite E. by rewrite (File_seek_part _ _ _ _ _ _ _ E), Hp.
    + destruct (healthy_seek v w c p off Hv Ho) as (r & v' & w' & E & Hr). exists r, (inr v'), w'. by rewrite E.
  - intros [f|v] w c p m o n; cbn; intros Hv Hn.
    + destruct (one_part f) eqn:Hp.
      * destruct (one_part_read f w c p m o n Hp Hv Hn) as (r & m' & w' & E & Hr). exists r, m', (inl f), w'.
        rewrite E. cbn. by rewrite Hp.
      * destruct (healthy_read (AbstractFileLaws1 := L) f w c p m o n Hv Hn) as (r & m' & f' & w' & E & Hr).
        exists r, m', (inl f'), w'. cbn in *. rewrite E. by rewrite (File_read_part _ _ _ _ _ _ _ _ _ E), Hp.
    + destruct (healthy_read v w c p m o n Hv Hn) as (r & m' & v' & w' & E & Hr). exists r, m', (inr v'), w'. by rewrite E.
Defined.
End instances.

(** ** The simulated system

    A path of [sim_eio] is open with its contents all the same. *)
Module SimFaults.
Import Sim.

#[export] Instance view : FaultView sim := {
  fd_contents w d := '(_, c, o) ← fd_data w d; Some (c, o);
}.

Lemma contents_Some w d c o : fd_contents w d = Some (c, o) <-> exists p, fd_data w d = Some (p, c, o).
Proof.
  cbn. destruct (fd_data w d) as [[[p c'] o']|]; cbn; (split; [|by intros (? & [=]); simplify_eq]); [|done].
  intros [= <- <-]. by exists p.
Qed.

#[export] Instance laws : FaultLaws sim.
Proof.
  split.
  - intros w d c o (p & (_ & _ & ? & ?)%fd_data_Some)%contents_Some. done.
  - intros s x w r w' d. cbn. unfold send. case_bool_decide; by intros [= <- <-].
  - intros d n w r x w' c o (p & E)%contents_Some. cbn. unfold read. rewrite E.
    destruct (readable w p); cbn [andb]; [|intros [= <- <- _]; by left].
    destruct (Z.leb_spec 0 n); intros [= <- <- <-]; [right|by left].
    pose proof E as (Ee & Ef & Hc & Ho)%fd_data_Some. split; [done|].
    split; [symmetry; by apply slice_blen; lia|]. split; [lia|]. apply contents_Some. exists p. apply fd_data_Some.
    split; [by erewrite fd_entry_set_eq|]. split; [done|]. pose proof (slice_bound c o n). blia.
  - intros d off w r w' c o (p & E)%contents_Some Ho. cbn. unfold lseek. rewrite E. cbn.
    destruct (Z.ltb_spec off 0); [lia|]. intros [= <- <-]. right. apply contents_Some. exists p.
    pose proof E as (Ee & Ef & Hc & _)%fd_data_Some. apply fd_data_Some. by erewrite fd_entry_set_eq.
Qed.
End SimFaults.

#[export] Existing Instances SimFaults.view SimFaults.laws.
#[export] Instance ro_faulty : FaultyFile ro Sim.sim | 0 :=
  ro_FaultyFile (V := VIsoFile) (AbstractFileLaws0 := viso_file_laws) (blen root) 0 st0.
