(* ===== verification/ReadSpec.v ===== *)
(** * What the read commands answer

    [padded content o n]: the [n] bytes at offset [o] of an infinite file that
    continues [content] with zeros.  The critical commands send exactly such
    bytes; when they fail, what they had sent is a prefix of them. *)

From S2P Require Import Prelude Endian Os AbsFile FileIso Client Scenario ReadCmds Faults.

Definition padded (content : bytes) (o n : Z) : bytes := mload (zext content) o n.

Lemma blen_padded content o n : 0 <= n -> blen (padded content o n) = n.
Proof. apply blen_mload. Qed.

(** [r] bytes read at [q], the rest filled with zeros: the padded bytes at [pos],
    where [q] and [pos] are the same or both past the end. *)
Lemma fill_padded content m o n r q pos :
  0 <= q -> 0 <= pos -> 0 <= r <= n -> r <= blen (slice q n content) ->
  q = pos \/ blen content <= q /\ blen content <= pos ->
  mload m o r = slice q r content -> (r < n -> blen content <= pos + r) ->
  mload (if negb (r =? n) then mfill m (o + r) (n - r) 0 else m) o n = padded content pos n.
Proof.
  intros Hq Hpos Hr Hrb Heq Hm Hend. pose proof (blen_slice q n content Hq ltac:(lia)) as Hs.
  apply mload_ext. intros k Hk. destruct (decide (k < r)) as [Hkr|Hkr].
  - assert (q = pos) as -> by lia.
    transitivity (m (o + k)).
    { destruct (Z.eqb_spec r n); cbn; [done|]. apply mfill_out; lia. }
    rewrite zext_in by lia.
    rewrite <- (mload_zext_in content pos r) in Hm by lia.
    rewrite (mload_inj _ _ _ _ _ Hm) by lia. by rewrite zext_in by lia.
  - destruct (Z.eqb_spec r n); [lia|]. cbn. rewrite mfill_in, zext_out by lia. done.
Qed.

Lemma padded_split content o a b :
  0 <= a -> 0 <= b -> padded content o (a + b) = padded content o a ++ padded content (o + a) b.
Proof. apply mload_split. Qed.

Lemma take_prefix {A} k (l1 l2 : list A) : exists k', take k l1 = take k' (l1 ++ l2).
Proof.
  exists (k `min` length l1)%nat. rewrite take_app_le by lia.
  destruct (decide (k <= length l1)%nat); [by rewrite Nat.min_l by lia|].
  by rewrite Nat.min_r, !take_ge by lia.
Qed.

Section critical.
Context {W R : Type} `{PosixLaws W, Aes, !AbstractFile R W, !AbstractFileView R W,
                       !AbstractFileLaws R W}.
Implicit Types (c : client_t R) (w : W) (f : R) (m : mem) (cmd content : bytes).

(** The connection [c] serves [content] from [f], which is at position [q]. *)
Record serving c w content f m q : Prop := {
  sv_file : ro_file c = Some f;
  sv_buf : buf c = Some m;
  sv_view : af_view f w = Some (content, q);
  sv_size : ro_file_size c = blen content;
}.

(** What a read command may change: the file object, the bytes of the 4 MB
    buffer and the flag of [log_eof_padding]. *)
Definition after_read c m c' : Prop :=
  exists f' m' b, c' = set_size (ro_file_size c) b (put_read f' m' c) /\
    same_outside 0 BUFFER_SIZE m m'.

Lemma after_read_intro c m f' m' b :
  same_outside 0 BUFFER_SIZE m m' ->
  after_read c m (set_size (ro_file_size c) b (put_read f' m' c)).
Proof. intros. by exists f', m', b. Qed.

Lemma after_read_put c m f' m' :
  same_outside 0 BUFFER_SIZE m m' -> after_read c m (put_read f' m' c).
Proof. intros. by exists f', m', (eof_pad_logged c). Qed.

Lemma after_read_trans c m c1 m1 c2 :
  after_read c m c1 -> buf c1 = Some m1 -> after_read c1 m1 c2 -> after_read c m c2.
Proof.
  intros (f1 & m1' & b1 & -> & E1) [= ->] (f2 & m2 & b2 & -> & E2).
  exists f2, m2, b2. split; [done|]. by eapply same_outside_trans.
Qed.

Lemma send_view s0 d w r w' f : sys_send s0 d w = (r, w') -> af_view f w' = af_view f w.
Proof. intros E. eapply afl_frame. by apply law_send in E as (_ & ? & _). Qed.

Lemma log_eof_set c pos : exists b, log_eof_padding pos c = set_size (ro_file_size c) b c.
Proof.
  unfold log_eof_padding. destruct (eof_pad_logged c) eqn:E; [exists true|by exists true].
  destruct c; cbn in *. by subst.
Qed.

(** What a run that serves [content] and owes the client [reply] promises. *)
Record answers c w content f m (reply : bytes) (r : Z) c' w' : Prop := {
  an_result : r = SUCCEEDED \/ r = FAILED;
  an_prefix : exists k, sent w' (s c) = sent w (s c) ++ take k reply;
  an_exact : r = SUCCEEDED -> sent w' (s c) = sent w (s c) ++ reply;
  an_live : supportsBulkRead f = true -> writable w (s c) -> r = SUCCEEDED /\ writable w' (s c);
  an_after : after_read c m c';
  an_serving : exists f' m' q', serving c' w' content f' m' q' /\
               supportsBulkRead f' = supportsBulkRead f;
}.

Lemma answers_nothing c w content f m q : serving c w content f m q -> answers c w content f m [] SUCCEEDED c w.
Proof.
  intros Hs. split; rewrite ?app_nil_r; auto.
  - exists 0%nat. by rewrite app_nil_r.
  - exists f, m, (eof_pad_logged c). split; [|done]. destruct Hs, c; cbn in *. by subst.
  - by exists f, m, q.
Qed.

(** The client after a block was read, or was not, into the buffer; its log flag is [b]. *)
Definition with_block c f m b : client_t R := set_size (ro_file_size c) b (put_read f m c).

(** The file failed: nothing was sent. *)
Lemma answers_failed c w w1 content f f1 m m1 q b reply :
  keeps_net w w1 -> same_outside 0 BUFFER_SIZE m m1 -> supportsBulkRead f1 = supportsBulkRead f ->
  serving (with_block c f1 m1 b) w1 content f1 m1 q -> supportsBulkRead f <> true ->
  answers c w content f m reply FAILED (with_block c f1 m1 b) w1.
Proof.
  intros Hn Ho Hb Hs Hf. split; try done; [by right| | |].
  - exists 0%nat. by rewrite app_nil_r, (kn_sent _ _ Hn).
  - by apply after_read_intro.
  - by exists f1, m1, q.
Qed.

(** A block of the reply was sent, in part or whole. *)
Section block.
Context (c : client_t R) (w w1 w2 : W) (content : bytes) (f f1 : R) (m m1 : mem) (q : Z) (b : bool) (d rest : bytes) (sr : Z).
Hypothesis Hnet : keeps_net w w1.
Hypothesis Hout : same_outside 0 BUFFER_SIZE m m1.
Hypothesis Hbulk : supportsBulkRead f1 = supportsBulkRead f.
Hypothesis Hserving : serving (with_block c f1 m1 b) w1 content f1 m1 q.
Hypothesis Hsend : sys_send (s c) d w1 = (sr, w2).

Lemma serving_sent : serving (with_block c f1 m1 b) w2 content f1 m1 q.
Proof. destruct Hserving. split; [done..| |done]. by rewrite (send_view _ _ _ _ _ _ Hsend). Qed.

Lemma answers_cut : sr <> blen d -> answers c w content f m (d ++ rest) FAILED (with_block c f1 m1 b) w2.
Proof.
  intros Hsr. pose proof (law_send _ _ _ _ _ Hsend) as (_ & _ & (k & Hk) & _ & Hlive).
  rewrite (kn_sent _ _ Hnet) in Hk. split; try done; [by right|..].
  - rewrite Hk. destruct (take_prefix k d rest) as (k' & ->). by exists k'.
  - intros _ Hw. apply (kn_writable _ _ Hnet), Hlive in Hw as [? _]. done.
  - by apply after_read_intro.
  - exists f1, m1, q. split; [apply serving_sent|done].
Qed.

Lemma answers_more r c' w' : sr = blen d ->
  answers (with_block c f1 m1 b) w2 content f1 m1 rest r c' w' -> answers c w content f m (d ++ rest) r c' w'.
Proof.
  intros Hsr [A1 A2 A3 A4 A5 A6]. pose proof (law_send _ _ _ _ _ Hsend) as (_ & _ & _ & Hfull & Hlive).
  rewrite (kn_sent _ _ Hnet) in Hfull. specialize (Hfull Hsr). change (s (with_block c f1 m1 b)) with (s c) in *.
  rewrite Hfull in A2, A3. split; [done|..].
  - destruct A2 as (k' & ->). exists (length d + k')%nat. by rewrite <- app_assoc, take_app_add.
  - intros Hr. by rewrite A3, app_assoc by done.
  - intros Hb Hw. apply A4; [by rewrite Hbulk|]. by apply Hlive, (kn_writable _ _ Hnet).
  - eapply after_read_trans; [by apply after_read_intro|done..].
  - destruct A6 as (f' & m' & q' & Hs & Hb'). exists f', m', q'. by rewrite Hb', Hbulk.
Qed.
End block.

(** One block is read, and what is missing at the end of the file is zeros. *)
Lemma read_block rs pos f m c w content q :
  serving c w content f m q -> q = pos \/ blen content <= q /\ blen content <= pos ->
  0 < rs <= BUFFER_SIZE -> 0 <= pos ->
  exists r m1 f1 w1, af_read m 0 rs f w = (r, m1, f1, w1) /\ 0 <= r <= rs /\
    keeps_net w w1 /\ supportsBulkRead f1 = supportsBulkRead f /\ af_view f1 w1 = Some (content, q + r) /\
    let short := negb (r =? rs) in
    let m2 := if short then mfill m1 r (rs - r) 0 else m1 in
    same_outside 0 BUFFER_SIZE m m1 /\ same_outside 0 BUFFER_SIZE m m2 /\
    if short && (pos + r <? blen content) then supportsBulkRead f <> true
    else mload m2 0 rs = padded content pos rs /\
      (q + r = pos + rs \/ blen content <= q + r /\ blen content <= pos + rs).
Proof.
  intros [Hf Hm Hv Hsz] Hq Hrs Hpos. unfold BUFFER_SIZE in *. pose proof (afl_view _ _ _ _ Hv) as [Hlen Hq2].
  destruct (afl_read f w content q m 0 rs Hv ltac:(lia))
    as (r & m1 & f1 & w1 & -> & Hnet & Hbulk & Hr & Hm1 & Hout & Hv1 & Hall).
  pose proof (blen_slice q rs content ltac:(lia) ltac:(lia)) as Hs.
  exists r, m1, f1, w1. split; [done|]. split; [lia|]. do 3 (split; [done|]).
  assert (same_outside 0 (4 * 1048576) m m1) as Hout1 by (eapply same_outside_weaken; [done|lia|lia]).
  cbv zeta. split; [done|]. split.
  { eapply same_outside_trans; [done|]. destruct (negb _); [|done].
    eapply same_outside_weaken; [apply same_outside_mfill|lia..]. }
  destruct (negb (r =? rs) && (pos + r <? blen content)) eqn:Herr.
  - intros Hb. rewrite Hall in Herr by done. case_bool_in Herr; done || lia.
  - assert (r < rs -> blen content <= pos + r) by (case_bool_in Herr; done || lia).
    split; [|lia]. by apply (fill_padded content m1 0 rs r q pos); try done; lia.
Qed.

Lemma put_read_block c f m : put_read f m c = with_block c f m (eof_pad_logged c).
Proof. by destruct c. Qed.

Lemma log_block c f m pos (short : bool) m2 :
  exists b, set_buf (Some m2) (if short then log_eof_padding pos (put_read f m c) else put_read f m c)
    = with_block c f m2 b.
Proof.
  destruct short; [|by exists (eof_pad_logged c); destruct c].
  destruct (log_eof_set (put_read f m c) pos) as (b & ->). by exists b.
Qed.

Lemma critical_loop_spec fuel : forall read_size remaining pos f m c w content q,
  serving c w content f m q ->
  q = pos \/ blen content <= q /\ blen content <= pos ->
  0 <= pos -> 0 <= remaining < 2 ^ 32 -> pos + remaining < 2 ^ 64 ->
  0 <= read_size <= BUFFER_SIZE -> read_size = BUFFER_SIZE \/ remaining <= read_size ->
  remaining <= BUFFER_SIZE * (Z.of_nat fuel - 1) ->
  exists r c' w', critical_loop fuel read_size remaining pos f m c w = Some (r, c', w') /\
    answers c w content f m (padded content pos remaining) r c' w'.
Proof.
  unfold BUFFER_SIZE.
  induction fuel as [|fuel IH]; intros rs rem pos f m c w content q Hsv Hq Hpos
    Hrem Hov Hrs Hrs' Hfuel; [lia|]. cbn [critical_loop].
  destruct (Z.leb_spec rem 0).
  { assert (rem = 0) as -> by lia. eexists _, _, _; split; [done|].
    unfold padded. rewrite mload_0 by lia. by eapply answers_nothing. }
  set (rs' := if rem <? rs then rem else rs).
  assert (0 < rs' <= 4 * 1048576 /\ rs' <= rem /\ (rs' = rem \/ rs' = 4 * 1048576)) as (Hr1 & Hr2 & Hr3).
  { subst rs'. zdecide. }
  clearbody rs'. destruct (read_block rs' pos f m c w content q Hsv Hq Hr1 Hpos)
    as (r & m1 & f1 & w1 & -> & Hr & Hnet & Hbulk & Hv1 & Hout1 & Hout2 & Hcase).
  destruct (Z.ltb_spec r 0); [lia|]. rewrite !u64_small by lia. change (ro_file_size (put_read f1 m1 c)) with (ro_file_size c).
  rewrite (sv_size _ _ _ _ _ _ Hsv). assert (forall m' b, serving (with_block c f1 m' b) w1 content f1 m' (q + r)) as Hsv1
    by (intros; split; [done..|apply Hsv]).
  destruct (negb (r =? rs') && (pos + r <? blen content)).
  { eexists _, _, _; split; [done|]. rewrite put_read_block. by eapply answers_failed. }
  destruct Hcase as [Hm2 Hnext]. set (m2 := if negb (r =? rs') then mfill m1 r (rs' - r) 0 else m1) in *.
  destruct (log_block c f1 m1 (pos + r) (negb (r =? rs')) m2) as (b & ->). rewrite Hm2.
  change (s (with_block c f1 m2 b)) with (s c).
  destruct (sys_send (s c) (padded content pos rs') w1) as [sr w2] eqn:Hsend.
  pose proof (law_send _ _ _ _ _ Hsend) as (Hsr & _). rewrite blen_padded in Hsr by lia. rewrite s32_small by lia.
  pose proof (padded_split content pos rs' (rem - rs') ltac:(lia) ltac:(lia)) as Hsplit.
  rewrite Zplus_minus in Hsplit. rewrite Hsplit.
  destruct ((sr <? 0) || negb (u32 sr =? rs')) eqn:Hbad.
  { eexists _, _, _; split; [done|]. eapply answers_cut; [done..|]. rewrite blen_padded by lia.
    intros ->. rewrite u32_small in Hbad by lia. case_bool_in Hbad; done || lia. }
  assert (sr = rs') as ->.
  { destruct (Z.ltb_spec sr 0); [done|]. rewrite u32_small in Hbad by lia. by destruct (Z.eqb_spec sr rs'). }
  rewrite u32_small by lia.
  destruct (IH rs' (rem - rs') (pos + rs') f1 m2 (with_block c f1 m2 b) w2 content (q + r))
    as (r' & c' & w' & -> & HA); try lia; [by eapply serving_sent|].
  eexists _, _, _; split; [done|]. eapply answers_more; [done..|by rewrite blen_padded by lia|done].
Qed.

Lemma answers_start c w w1 content f f1 m reply r c' w' :
  keeps_net w w1 -> supportsBulkRead f1 = supportsBulkRead f -> buf c = Some m ->
  answers (set_ro (Some f1) c) w1 content f1 m reply r c' w' ->
  answers c w content f m reply r c' w'.
Proof.
  intros Hnet Hb Hm [A1 A2 A3 A4 A5 A6]. cbn [s set_ro] in *.
  rewrite (kn_sent _ _ Hnet) in A2, A3. split; [done..| | |].
  - intros Hbf Hw. apply A4; [congruence|]. by apply (kn_writable _ _ Hnet).
  - destruct A5 as (f' & m' & b & -> & ?). exists f', m', b. destruct c; cbn in *. by subst.
  - destruct A6 as (f' & m' & q' & ? & ?). exists f', m', q'. split; [done|congruence].
Qed.

(** The whole command. *)
Lemma read_file_critical_spec cmd c w content f m q :
  Forall is_byte cmd -> blen cmd = netiso_cmd_size ->
  serving c w content f m q -> cmd_offset cmd < 2 ^ 63 ->
  (supportsBulkRead f = true \/ cmd_offset cmd < blen content) ->
  exists r c' w', process_read_file_critical cmd c w = Some (r, c', w') /\
    answers c w content f m (padded content (cmd_offset cmd) (cmd_num_bytes cmd)) r c' w'.
Proof.
  intros Hb Hl [Hf Hm Hv Hsz] Ho Hin. unfold process_read_file_critical. rewrite Hf, Hm.
  pose proof (cmd_offset_range _ Hb Hl). pose proof (cmd_num_bytes_range _ Hb Hl).
  set (o := cmd_offset cmd) in *. set (n := cmd_num_bytes cmd) in *.
  rewrite s64_small by lia.
  destruct (afl_seek f w content q o Hv) as (r & f1 & w1 & -> & Hnet & Hbulk & Hr); [lia|].
  destruct Hr as [[Hr Hv1]|(_ & _ & Hnb & Hge)]; [|destruct Hin; [congruence|lia]].
  destruct (Z.ltb_spec r 0); [lia|].
  assert (serving (set_ro (Some f1) c) w1 content f1 m o) as Hsv by by split.
  pose proof (Z.div_mod n BUFFER_SIZE). pose proof (Z.mod_pos_bound n BUFFER_SIZE).
  pose proof (Z.div_pos n BUFFER_SIZE). unfold BUFFER_SIZE in *.
  edestruct (critical_loop_spec (Z.to_nat (n / (4 * 1048576)) + 2)
      (if 4 * 1048576 <=? n then 4 * 1048576 else n) n o f1 m _ w1 content o Hsv)
    as (r' & c' & w' & E & HA); [by left|lia|lia|lia|unfold BUFFER_SIZE; zdecide..|].
  exists r', c', w'. split; [done|]. by eapply answers_start.
Qed.

(** ** CD sectors *)

(** The payloads of [k] sectors of [ss] bytes, the first at [pos]. *)
Fixpoint cd_payload content ss (k : nat) pos : bytes :=
  match k with
  | O => []
  | S k => padded content pos 2048 ++ cd_payload content ss k (pos + ss)
  end.

Lemma blen_cd_payload content ss k pos : blen (cd_payload content ss k pos) = 2048 * Z.of_nat k.
Proof.
  revert pos; induction k as [|k IH]; intros pos; cbn [cd_payload]; [done|].
  rewrite blen_app, IH, blen_padded by lia. lia.
Qed.

Lemma gather_spec content k : forall i ss scratch m pos,
  (forall j, i <= j < i + Z.of_nat k -> mload scratch (j * ss) 2048 = padded content (pos + (j - i) * ss) 2048) ->
  mload (gather k i ss scratch m) (2048 * i) (2048 * Z.of_nat k) = cd_payload content ss k pos /\
  same_outside (2048 * i) (2048 * Z.of_nat k) m (gather k i ss scratch m).
Proof.
  induction k as [|k IH]; intros i ss scratch m pos Hs; cbn [gather cd_payload].
  { split; [by apply mload_0|done]. }
  set (m1 := mstore m _ _).
  destruct (IH (i + 1) ss scratch m1 (pos + ss)) as [Hl Ho].
  { intros j Hj. rewrite Hs by lia. f_equal. lia. }
  assert (same_outside (2048 * i) 2048 m m1) as Hm1.
  { pose proof (same_outside_mstore (2048 * i) (mload scratch (i * ss) 2048) m) as E.
    by rewrite blen_mload in E by lia. }
  split.
  - replace (2048 * Z.of_nat (S k)) with (2048 + 2048 * Z.of_nat k) by lia.
    rewrite mload_split by lia. replace (2048 * i + 2048) with (2048 * (i + 1)) by lia.
    rewrite Hl. f_equal. rewrite (mload_same_outside _ _ _ _ _ _ Ho) by lia.
    rewrite <- (blen_mload scratch (i * ss) 2048) at 1 by lia. unfold m1. rewrite mload_mstore.
    rewrite Hs by lia. f_equal. lia.
  - eapply same_outside_trans; (eapply same_outside_weaken; [eassumption|lia|lia]).
Qed.

(** The connection after a read of [reply] into the buffer from offset [o]
    ([ok] = true) or a failed one. *)
Record gathered c w content f m (o : Z) reply (ok : bool) c' w' : Prop := {
  ga_net : keeps_net w w';
  ga_after : exists f' m' b q', c' = set_size (ro_file_size c) b (put_read f' m' c) /\
    serving c' w' content f' m' q' /\ supportsBulkRead f' = supportsBulkRead f /\
    same_outside o (blen reply) m m' /\
    (ok = true -> mload m' o (blen reply) = reply);
  ga_live : supportsBulkRead f = true -> ok = true;
}.

Lemma serving_seek c w content f m q off :
  serving c w content f m q -> 0 <= off < 2 ^ 63 ->
  supportsBulkRead f = true \/ off < blen content ->
  exists r f1 w1, af_seek (s64 off) SEEK_SET f w = (r, f1, w1) /\ keeps_net w w1 /\
    supportsBulkRead f1 = supportsBulkRead f /\ 0 <= r /\ af_view f1 w1 = Some (content, off).
Proof.
  intros [Hf Hm Hv Hsz] Ho Hin. rewrite s64_small by lia.
  destruct (afl_seek f w content q off Hv Ho) as (r & f1 & w1 & -> & Hnet & Hbulk & Hr).
  exists r, f1, w1. destruct Hr as [[Hr Hv1]|(_ & _ & Hnb & Hge)]; [done|].
  destruct Hin; [congruence|lia].
Qed.

Lemma cd_bulk_spec offset sc scratch f m c w content q :
  serving c w content f m q -> supportsBulkRead f = true ->
  0 <= offset < 2 ^ 48 -> 0 < sc <= 2048 -> 0 <= CD_SECTOR_SIZE c < 2 ^ 16 ->
  exists c' w', cd_bulk offset sc scratch f m c w = (true, c', w') /\
    gathered c w content f m 0
      (cd_payload content (CD_SECTOR_SIZE c) (Z.to_nat sc) (offset + 24)) true c' w'.
Proof.
  intros Hsv Hbulk Ho Hsc Hss. unfold cd_bulk. set (ss := CD_SECTOR_SIZE c) in *.
  set (span := (sc - 1) * ss + 24 + 2048).
  assert (0 <= (sc - 1) * ss <= 2048 * 2 ^ 16) by nia.
  assert (0 <= span < 2 ^ 32) as Hspan by lia. rewrite u64_small by lia.
  destruct (serving_seek c w content f m q (offset + 24) Hsv) as (r0 & f1 & w1 & -> & Hn1 & Hb1 & _ & Hv1);
    [lia|by left|].
  pose proof (afl_view _ _ _ _ Hv1) as [Hlen _].
  destruct (afl_read f1 w1 content (offset + 24) scratch 0 span Hv1 ltac:(lia))
    as (r & m1 & f2 & w2 & -> & Hn2 & Hb2 & Hr & Hm1 & Hout & Hv2 & Hall).
  pose proof (blen_slice (offset + 24) span content ltac:(lia) ltac:(lia)) as Hs.
  rewrite Hall in * by congruence. set (n := blen (slice (offset + 24) span content)) in *.
  rewrite !u64_small, s64_small by lia. rewrite (sv_size _ _ _ _ _ _ Hsv).
  set (pad := _ && _ && _).
  assert (pad = negb (n =? span)) as Hpad by (subst pad; zdecide).
  set (c1 := if pad then log_eof_padding _ _ else _).
  assert (exists b, c1 = set_size (ro_file_size c) b (set_ro (Some f2) c)) as (b & ->).
  { subst c1. destruct pad; [|exists (eof_pad_logged c); by destruct c].
    destruct (log_eof_set (set_ro (Some f2) c) (offset + 24 + n)) as (b & ->). by exists b. }
  rewrite Hpad. set (scr := if negb _ then mfill _ _ _ _ else _).
  assert (mload scr 0 span = padded content (offset + 24) span) as Hscr.
  { apply (fill_padded content m1 0 span n (offset + 24) (offset + 24)); try done; lia. }
  clearbody scr. replace (if negb (n =? span) then span else n) with span by zdecide.
  rewrite Z.eqb_refl. cbn [negb].
  destruct (gather_spec content (Z.to_nat sc) 0 ss scr m (offset + 24)) as [Hg Hgo].
  { intros j Hj. apply mload_ext. intros k Hk.
    assert (0 <= j * ss <= (sc - 1) * ss) by nia.
    pose proof (mload_inj _ _ _ _ _ Hscr (j * ss + k) ltac:(lia)) as E.
    rewrite Z.add_0_l in E. rewrite E. f_equal. lia. }
  eexists _, _. split; [done|]. split; [by eapply keeps_net_trans| |done].
  rewrite blen_cd_payload.
  exists f2, (gather (Z.to_nat sc) 0 ss scr m), b, (offset + 24 + n). split; [done|].
  split; [split; try done; apply Hsv|]. split; [congruence|]. done.
Qed.

(** One sector, then the others. *)
Lemma gathered_cons c w content f m o pos ss k f2 m2 b w2 ok c' w' :
  keeps_net w w2 -> supportsBulkRead f2 = supportsBulkRead f -> same_outside o 2048 m m2 ->
  mload m2 o 2048 = padded content pos 2048 ->
  gathered (set_size (ro_file_size c) b (put_read f2 m2 c)) w2 content f2 m2 (o + 2048)
    (cd_payload content ss k (pos + ss)) ok c' w' ->
  gathered c w content f m o (cd_payload content ss (S k) pos) ok c' w'.
Proof.
  intros Hn Hb Hout Hm [G1 (f' & m' & b' & q' & -> & G2 & G3 & G4 & G5) G6].
  rewrite blen_cd_payload in G4, G5. split; [by eapply keeps_net_trans| |intros ?; apply G6; congruence].
  exists f', m', b', q'. split; [done|]. split; [done|]. split; [congruence|]. rewrite blen_cd_payload. split.
  - eapply same_outside_trans; (eapply same_outside_weaken; [eassumption|lia|lia]).
  - intros Hok. cbn [cd_payload]. replace (2048 * Z.of_nat (S k)) with (2048 + 2048 * Z.of_nat k) by lia.
    rewrite mload_split by lia. f_equal; [|by apply G5].
    by rewrite (mload_same_outside _ _ _ _ _ _ G4) by lia.
Qed.

Lemma cd_sectors_spec content k : forall i offset f m c w q,
  serving c w content f m q -> 0 <= i -> 0 <= offset -> 0 <= CD_SECTOR_SIZE c < 2 ^ 16 ->
  offset + CD_SECTOR_SIZE c * Z.of_nat k < 2 ^ 62 ->
  (supportsBulkRead f = true \/
   forall j, 0 <= j < Z.of_nat k -> offset + 24 + j * CD_SECTOR_SIZE c < blen content) ->
  exists ok c' w', cd_sectors k i offset f m c w = (ok, c', w') /\
    gathered c w content f m (2048 * i)
      (cd_payload content (CD_SECTOR_SIZE c) k (offset + 24)) ok c' w'.
Proof.
  induction k as [|k IH]; intros i offset f m c w q Hsv Hi Ho Hss Hmax Hin; cbn [cd_sectors].
  { eexists _, _, _. split; [done|]. split; [done| |done].
    exists f, m, (eof_pad_logged c), q. destruct Hsv, c; cbn in *. subst.
    split; [done|]. split; [by split|]. split; [done|]. split; [done|]. intros _. by apply mload_0. }
  destruct (serving_seek c w content f m q (offset + 24) Hsv) as (r0 & f1 & w1 & -> & Hn1 & Hb1 & _ & Hv1);
    [lia|destruct Hin as [?|Hin]; [by left|right; specialize (Hin 0); lia]|].
  pose proof (afl_view _ _ _ _ Hv1) as [Hlen _].
  destruct (afl_read f1 w1 content (offset + 24) m (2048 * i) 2048 Hv1 ltac:(lia))
    as (r & m1 & f2 & w2 & -> & Hn2 & Hb2 & Hr & Hm1 & Hout & Hv2 & Hall).
  pose proof (blen_slice (offset + 24) 2048 content ltac:(lia) ltac:(lia)) as Hs.
  rewrite !u64_small by lia. rewrite (sv_size _ _ _ _ _ _ Hsv).
  set (pad := _ && _ && _). 
  set (m2 := if pad then mfill _ _ _ _ else _). set (c1 := if pad then log_eof_padding _ _ else _).
  assert (exists b, put_read f2 m2 c1 = set_size (ro_file_size c) b (put_read f2 m2 c)) as (b & ->).
  { subst c1. destruct pad; [|exists (eof_pad_logged c); by destruct c].
    destruct (log_eof_set c (offset + 24 + r)) as (b & ->). by exists b. }
  clear c1. set (c1 := set_size _ _ _).
  assert (same_outside (2048 * i) 2048 m m2) as Hout2.
  { eapply same_outside_trans; [done|]. subst m2. destruct pad; [|done].
    eapply same_outside_weaken; [apply same_outside_mfill|lia..]. }
  assert (keeps_net w w2) as Hn by by eapply keeps_net_trans.
  assert (serving c1 w2 content f2 m2 (offset + 24 + r)) as Hsv1 by (split; try done; apply Hsv).
  destruct (Z.eqb_spec (if pad then 2048 else r) 2048) as [Hfull|Hshort]; cbn [negb].
  2: { eexists _, _, _. split; [done|]. split; [done| |].
    - exists f2, m2, b, (offset + 24 + r). split; [done|]. split; [done|]. split; [congruence|].
      split; [|done]. rewrite blen_cd_payload. eapply same_outside_weaken; [done|lia..].
    - intros Hb. specialize (Hall ltac:(congruence)). subst pad. exfalso. revert Hshort. zdecide. }
  assert (mload m2 (2048 * i) 2048 = padded content (offset + 24) 2048) as Hm2.
  { replace m2 with (if negb (r =? 2048) then mfill m1 (2048 * i + r) (2048 - r) 0 else m1).
    - apply (fill_padded content m1 (2048 * i) 2048 r (offset + 24) (offset + 24)); try done; try lia.
      intros. subst pad. revert Hfull. zdecide.
    - subst m2. replace pad with (negb (r =? 2048)); [done|].
      subst pad. revert Hfull. zdecide. }
  change (CD_SECTOR_SIZE c1) with (CD_SECTOR_SIZE c).
  assert (0 <= CD_SECTOR_SIZE c * Z.of_nat k) by nia.
  assert (CD_SECTOR_SIZE c * Z.of_nat (S k) = CD_SECTOR_SIZE c + CD_SECTOR_SIZE c * Z.of_nat k) as HSk by lia.
  rewrite u64_small by lia.
  destruct (IH (i + 1) (offset + CD_SECTOR_SIZE c) f2 m2 c1 w2 (offset + 24 + r) Hsv1)
    as (ok & c' & w' & -> & G); [lia|lia|done|cbn; lia|..].
  { destruct Hin as [Hin|Hin]; [left; congruence|right]. intros j Hj.
    change (CD_SECTOR_SIZE c1) with (CD_SECTOR_SIZE c). specialize (Hin (j + 1)). lia. }
  change (CD_SECTOR_SIZE c1) with (CD_SECTOR_SIZE c) in *. eexists _, _, _. split; [done|].
  apply (gathered_cons _ _ _ _ _ _ _ _ _ f2 m2 b w2); [done|congruence|done|done|].
  replace (2048 * i + 2048) with (2048 * (i + 1)) by lia.
  replace (offset + 24 + CD_SECTOR_SIZE c) with (offset + CD_SECTOR_SIZE c + 24) by lia. exact G.
Qed.

(** The whole command. *)
Lemma read_cd_2048_spec heap cmd c w content f m q :
  let offset := cmd_start_sector cmd * CD_SECTOR_SIZE c in
  Forall is_byte cmd -> blen cmd = netiso_cmd_size ->
  serving c w content f m q -> 0 <= CD_SECTOR_SIZE c < 2 ^ 16 ->
  cmd_sector_count cmd * 2048 <= BUFFER_SIZE ->
  (supportsBulkRead f = true \/
   forall j, 0 <= j < cmd_sector_count cmd -> offset + 24 + j * CD_SECTOR_SIZE c < blen content) ->
  exists r c' w', process_read_cd_2048_critical_cmd heap cmd c w = (r, c', w') /\
    answers c w content f m
      (cd_payload content (CD_SECTOR_SIZE c) (Z.to_nat (cmd_sector_count cmd)) (offset + 24))
      r c' w'.
Proof.
  intros offset Hb Hl Hsv Hss Hcnt Hin. unfold process_read_cd_2048_critical_cmd.
  rewrite (sv_file _ _ _ _ _ _ Hsv), (sv_buf _ _ _ _ _ _ Hsv).
  pose proof (cmd_start_sector_range _ Hb Hl). pose proof (cmd_sector_count_range _ Hb Hl).
  set (sc := cmd_sector_count cmd) in *. fold offset. unfold BUFFER_SIZE in *.
  assert (0 <= offset < 2 ^ 48) by (subst offset; nia).
  rewrite (u64_small offset) by lia. destruct (Z.ltb_spec (4 * 1048576) (sc * 2048)); [lia|].
  set (payload := cd_payload _ _ _ _).
  assert (blen payload = 2048 * sc) as Hpl by (unfold payload; rewrite blen_cd_payload; lia).
  destruct (if (0 <? sc) && _ then _ else (false, w)) as [scratch w1] eqn:Hmalloc.
  assert (serving c w1 content f m q /\ keeps_net w w1 /\
          (scratch = true -> 0 < sc /\ supportsBulkRead f = true)) as (Hsv1 & Hn1 & Hscr).
  { destruct ((0 <? sc) && supportsBulkRead f) eqn:E; [|by injection Hmalloc as <- <-].
    apply law_malloc in Hmalloc as [Hfs Hnet]. split; [|split; [done|]].
    - destruct Hsv. split; try done. by rewrite (afl_frame _ _ _ Hfs).
    - intros _. apply andb_true_iff in E as [?%Z.ltb_lt ?]. done. }
  assert (exists ok c' w', (if scratch then cd_bulk offset sc heap f m c w1
      else cd_sectors (Z.to_nat sc) 0 offset f m c w1) = (ok, c', w') /\
      gathered c w1 content f m 0 payload ok c' w') as (ok & c1 & w2 & -> & [G1 G2 G3]).
  { destruct scratch.
    - destruct Hscr as [??]; [done|].
      destruct (cd_bulk_spec offset sc heap f m c w1 content q Hsv1) as (c' & w' & -> & G);
        [done..|lia|done|]. by exists true, c', w'.
    - change 0 with (2048 * 0) at 2. apply (cd_sectors_spec content (Z.to_nat sc) 0 offset f m c w1 q);
        try done; try lia; [nia|]. destruct Hin as [?|Hin]; [by left|right]. intros. apply Hin. lia. }
  destruct G2 as (f' & m' & b & q' & -> & G4 & G5 & G6 & G7). rewrite Hpl in G6, G7.
  assert (same_outside 0 BUFFER_SIZE m m') as Hout
    by (eapply same_outside_weaken; [done|lia|unfold BUFFER_SIZE; lia]).
  fold (with_block c f' m' b) in G4 |- *. pose proof (keeps_net_trans _ _ _ Hn1 G1) as Hn.
  destruct ok; cbn [negb].
  2: { eexists _, _, _. split; [done|]. eapply answers_failed; [done..|]. intros Hbk. by specialize (G3 Hbk). }
  change (s (with_block c f' m' b)) with (s c). change (buf (with_block c f' m' b)) with (Some m').
  cbn [default from_option id].
  rewrite (u32_small (sc * 2048)), (Z.mul_comm sc 2048), G7 by (done || lia).
  destruct (sys_send (s c) payload w2) as [sr w3] eqn:Hsend.
  pose proof (law_send _ _ _ _ _ Hsend) as (Hsr & _). rewrite Hpl in Hsr. rewrite s32_small by lia.
  rewrite <- (app_nil_r payload).
  destruct ((sr <? 0) || negb (u32 sr =? 2048 * sc)) eqn:Hbad; (eexists _, _, _; split; [done|]).
  - eapply answers_cut; [done..|]. rewrite Hpl. intros ->. rewrite u32_small in Hbad by lia. case_bool_in Hbad; done || lia.
  - assert (sr = 2048 * sc) as ->.
    { destruct (Z.ltb_spec sr 0); [done|]. rewrite u32_small in Hbad by lia. by destruct (Z.eqb_spec sr (2048 * sc)). }
    eapply answers_more; [done..|]. eapply answers_nothing, serving_sent; done.
Qed.

(** ** The read with a result *)

(** The result word for [n] bytes, followed by data. *)
Definition result_reply (n : Z) (d : bytes) : bytes := be_bytes 4 (u32 n) ++ d.

Lemma blen_result_reply n d : blen (result_reply n d) = 4 + blen d.
Proof. unfold result_reply. by rewrite blen_app, blen_be_bytes. Qed.

Lemma send_read_result_spec c w m n d :
  buf c = Some m -> (if 0 <? n then mload m 0 n else []) = d ->
  exists r w', send_read_result n c w = (r, c, w') /\ keeps_fs any_fd w w' /\
    (r = SUCCEEDED \/ r = FAILED) /\
    (exists k, sent w' (s c) = sent w (s c) ++ take k (result_reply n d)) /\
    (r = SUCCEEDED -> sent w' (s c) = sent w (s c) ++ result_reply n d) /\
    (writable w (s c) -> r = SUCCEEDED /\ writable w' (s c)).
Proof.
  intros Hm Hd. unfold send_read_result, netiso_int32_result, result_reply. rewrite BE32_store, Hm.
  cbn [default from_option id].
  destruct (sys_send (s c) (be_bytes 4 (u32 n)) w) as [r1 w1] eqn:E1.
  apply law_send in E1 as (_ & Hfs1 & (k1 & Hk1) & Hfull1 & Hlive1). rewrite blen_be_bytes in *.
  cbn [Z.of_nat Pos.of_succ_nat Pos.succ] in *.
  destruct (Z.eqb_spec r1 4) as [->|Hne]; cbn [negb].
  2: { eexists _, _. split; [done|]. split; [done|]. split; [by right|].
    split; [|split; [done|intros Hw; by destruct (Hlive1 Hw)]].
    rewrite Hk1. destruct (take_prefix k1 (be_bytes 4 (u32 n)) d) as (k & ->). by exists k. }
  specialize (Hfull1 eq_refl). destruct (Z.ltb_spec 0 n).
  2: { subst d. rewrite app_nil_r. eexists _, _. split; [done|]. split; [done|]. split; [by left|].
    split; [|split; [done|intros Hw; by destruct (Hlive1 Hw)]].
    exists 4%nat. by rewrite Hfull1. }
  rewrite Hd. assert (blen d = n) as Hdl by (subst d; apply blen_mload; lia).
  destruct (sys_send (s c) d w1) as [r2 w2] eqn:E2.
  apply law_send in E2 as (_ & Hfs2 & (k2 & Hk2) & Hfull2 & Hlive2). rewrite Hdl, Hfull1 in *.
  assert (keeps_fs any_fd w w2) as Hfs by by eapply keeps_fs_trans.
  destruct (Z.eqb_spec r2 n) as [->|Hne]; cbn [negb]; eexists _, _; (split; [done|]); (split; [done|]).
  - specialize (Hfull2 eq_refl). rewrite app_assoc. split; [by left|].
    split; [exists (length (be_bytes 4 (u32 n) ++ d)); by rewrite Hfull2, firstn_all, <- !app_assoc|].
    split; [done|]. intros Hw. split; [done|]. by apply Hlive2, Hlive1.
  - split; [by right|]. split.
    + exists (length (be_bytes 4 (u32 n)) + k2)%nat. by rewrite take_app_add, app_assoc.
    + split; [done|]. intros Hw. by apply Hlive1 in Hw as [_ [? _]%Hlive2].
Qed.

(** The whole command: the result, then that many bytes of the file. *)
Lemma read_file_spec cmd c w content f m q :
  let o := cmd_offset cmd in let n := cmd_num_bytes cmd in
  Forall is_byte cmd -> blen cmd = netiso_cmd_size ->
  serving c w content f m q -> o < 2 ^ 63 -> n <= BUFFER_SIZE ->
  (supportsBulkRead f = true \/ o < blen content) ->
  exists k r c' w', process_read_file_cmd cmd c w = (r, c', w') /\
    0 <= k <= blen (slice o n content) /\
    (supportsBulkRead f = true -> k = blen (slice o n content)) /\
    (writable w (s c) -> r = SUCCEEDED) /\
    answers c w content f m (result_reply k (slice o k content)) r c' w'.
Proof.
  intros o n Hb Hl Hsv Ho Hn Hin. unfold process_read_file_cmd. fold o n.
  rewrite (sv_file _ _ _ _ _ _ Hsv), (sv_buf _ _ _ _ _ _ Hsv).
  pose proof (cmd_offset_range _ Hb Hl) as Ho'. pose proof (cmd_num_bytes_range _ Hb Hl) as Hn'.
  fold o n in Ho', Hn'. destruct (Z.ltb_spec BUFFER_SIZE n); [lia|]. unfold BUFFER_SIZE in *.
  destruct (serving_seek c w content f m q o Hsv) as (r0 & f1 & w1 & -> & Hn1 & Hb1 & Hr0 & Hv1);
    [lia|done|].
  destruct (Z.ltb_spec r0 0); [lia|].
  destruct (afl_read f1 w1 content o m 0 n Hv1 ltac:(lia))
    as (k & m1 & f2 & w2 & -> & Hn2 & Hb2 & Hk & Hm1 & Hout & Hv2 & Hall).
  pose proof (blen_slice o n content ltac:(lia) ltac:(lia)) as Hs. rewrite s32_small by lia.
  destruct (Z.ltb_spec k 0); [lia|]. rewrite Hb1 in *.
  assert ((if 0 <? k then mload m1 0 k else []) = slice o k content) as Hd.
  { destruct (Z.ltb_spec 0 k); [done|]. by replace k with 0 by lia. }
  destruct (send_read_result_spec (put_read f2 m1 (set_ro (Some f1) c)) w2 m1 k _ eq_refl Hd)
    as (r & w3 & -> & Hfs & Hres & Hpre & Hex & Hlive).
  cbn [s put_read set_buf set_ro] in *.
  rewrite (kn_sent _ _ Hn2), (kn_sent _ _ Hn1) in Hpre, Hex.
  exists k, r, (put_read f2 m1 c), w3. split; [done|]. split; [done|]. split; [done|].
  split; [intros Hw; by apply Hlive, (kn_writable _ _ Hn2), (kn_writable _ _ Hn1)|]. split; try done.
  - intros _ Hw. by apply Hlive, (kn_writable _ _ Hn2), (kn_writable _ _ Hn1).
  - apply after_read_put. eapply same_outside_weaken; [done|lia|unfold BUFFER_SIZE; lia].
  - exists f2, m1, (o + k). split; [|done]. split; try done; [|apply Hsv].
    by rewrite (afl_frame _ _ _ Hfs).
Qed.

(** Without a file, or with too large a size, the answer is -1 and nothing else. *)
Lemma read_file_refused cmd c w :
  ro_file c = None \/ buf c = None \/ BUFFER_SIZE < cmd_num_bytes cmd ->
  exists r w', process_read_file_cmd cmd c w = (r, c, w') /\
    (r = SUCCEEDED -> sent w' (s c) = sent w (s c) ++ [255; 255; 255; 255]) /\
    (writable w (s c) -> r = SUCCEEDED).
Proof.
  intros Hc.
  assert (process_read_file_cmd cmd c w = send_read_result NONE c w) as ->.
  { unfold process_read_file_cmd. destruct (ro_file c), (buf c); try done.
    destruct Hc as [?|[?|?]]; try done. by destruct (Z.ltb_spec BUFFER_SIZE (cmd_num_bytes cmd)); [|lia]. }
  unfold send_read_result, netiso_int32_result. rewrite BE32_store.
  change (be_bytes 4 (u32 NONE)) with [255; 255; 255; 255].
  destruct (sys_send (s c) [255; 255; 255; 255] w) as [r1 w1] eqn:E1.
  apply law_send in E1 as (_ & _ & _ & Hfull & Hlive).
  destruct (Z.eqb_spec r1 4) as [->|Hne]; cbn [negb Z.ltb NONE Z.compare]; eexists _, _; (split; [done|]).
  - split; [by intros _; apply Hfull|done].
  - split; [done|]. intros Hw. by destruct (Hlive Hw).
Qed.
End critical.

(** ** Reads that may fail *)

Section faulty.
Context {W R : Type} `{PosixLaws W, Aes, !AbstractFile R W, !FaultyFile R W}.
Implicit Types (c : client_t R) (w : W) (f : R) (m : mem) (cmd content reply : bytes).

(** What is promised when anything may fail: a prefix of the reply, all of it when
    there was no error, and no store outside of the buffer. *)
Record careful c w m reply (r : Z) c' w' : Prop := {
  ca_result : r = SUCCEEDED \/ r = FAILED;
  ca_prefix : exists k, sent w' (s c) = sent w (s c) ++ take k reply;
  ca_exact : r = SUCCEEDED -> sent w' (s c) = sent w (s c) ++ reply;
  ca_buf : exists m', buf c' = Some m' /\ same_outside 0 BUFFER_SIZE m m';
}.

(** An error before anything is sent. *)
Lemma careful_failed c w w1 m m1 reply c1 : keeps_net w w1 -> buf c1 = Some m1 -> same_outside 0 BUFFER_SIZE m m1 ->
  careful c w m reply FAILED c1 w1.
Proof.
  intros Hn Hb Ho. split; [by right| |done|by exists m1]. exists 0%nat. by rewrite app_nil_r, (kn_sent _ _ Hn).
Qed.

(** Calls before the first send. *)
Lemma careful_start c w w1 m reply r c1 c' w' : keeps_net w w1 -> s c1 = s c ->
  careful c1 w1 m reply r c' w' -> careful c w m reply r c' w'.
Proof.
  intros Hn Hs [A B C D]. rewrite Hs, (kn_sent _ _ Hn) in B. rewrite Hs, (kn_sent _ _ Hn) in C. by split.
Qed.

(** A block is sent, in part, or whole and then the rest. *)
Lemma careful_sent c w w1 m d rest sr r c' w' : sys_send (s c) d w = (sr, w1) ->
  (if decide (sr = blen d) then careful c w1 m rest r c' w'
   else r = FAILED /\ w' = w1 /\ exists m', buf c' = Some m' /\ same_outside 0 BUFFER_SIZE m m') ->
  careful c w m (d ++ rest) r c' w'.
Proof.
  intros (_ & _ & (k & Hk) & Hfull & _)%law_send. destruct (decide _) as [Hd|_].
  - specialize (Hfull Hd). intros [A (k' & B) C D]. rewrite Hfull in B, C. split; [done| | |done].
    + exists (length d + k')%nat. by rewrite B, <- app_assoc, take_app_add.
    + intros Hr. by rewrite C, app_assoc.
  - intros (-> & -> & Hm). split; [by right| |done|done]. destruct (take_prefix k d rest) as (k' & E).
    exists k'. by rewrite Hk, E.
Qed.

Lemma careful_buf c w m m1 reply r c' w' : same_outside 0 BUFFER_SIZE m m1 ->
  careful c w m1 reply r c' w' -> careful c w m reply r c' w'.
Proof.
  intros Ho [A B C (m' & D & E)]. split; [done..|]. exists m'. split; [done|]. by eapply same_outside_trans.
Qed.

(** A block of which [r] bytes could be read: those, and zeros when the file has ended. *)
Lemma faulty_block m m1 q pos rs r content :
  same_outside 0 rs m m1 -> 0 <= r <= blen (slice q rs content) -> mload m1 0 r = slice q r content ->
  0 <= q -> 0 <= pos -> 0 < rs <= BUFFER_SIZE -> q = pos \/ blen content <= q /\ blen content <= pos ->
  let m2 := if negb (r =? rs) then mfill m1 r (rs - r) 0 else m1 in
  same_outside 0 BUFFER_SIZE m m1 /\ same_outside 0 BUFFER_SIZE m m2 /\
  (negb (r =? rs) && (pos + r <? blen content) = false -> mload m2 0 rs = padded content pos rs /\
    (q + r = pos + rs \/ blen content <= q + r /\ blen content <= pos + rs)).
Proof.
  intros Ho Hr Hm Hq Hp Hrs Hqp m2. pose proof (blen_slice q rs content Hq ltac:(lia)) as Hs. unfold BUFFER_SIZE in *.
  assert (same_outside 0 (4 * 1048576) m m1) as Ho1 by (eapply same_outside_weaken; [done|lia|lia]).
  split; [done|]. split.
  { unfold m2. eapply same_outside_trans; [done|]. destruct (negb _); [|done].
    eapply same_outside_weaken; [apply same_outside_mfill|lia..]. }
  intros Hb. assert (r < rs -> blen content <= pos + r) by (case_bool_in Hb; done || lia).
  split; [|lia]. by apply (fill_padded content m1 0 rs r q pos); try done; lia.
Qed.

Lemma faulty_loop fuel : forall read_size remaining pos f m c w content q,
  buf c = Some m -> ro_file_size c = blen content -> ff_view f w = Some (content, q) ->
  q = pos \/ blen content <= q /\ blen content <= pos ->
  0 <= pos -> 0 <= remaining < 2 ^ 32 -> pos + remaining < 2 ^ 64 ->
  0 <= read_size <= BUFFER_SIZE -> read_size = BUFFER_SIZE \/ remaining <= read_size ->
  remaining <= BUFFER_SIZE * (Z.of_nat fuel - 1) ->
  exists r c' w', critical_loop fuel read_size remaining pos f m c w = Some (r, c', w') /\
    careful c w m (padded content pos remaining) r c' w'.
Proof.
  unfold BUFFER_SIZE. induction fuel as [|fuel IH]; intros rs rem pos f m c w content q Hbuf Hsz Hv Hq Hpos
    Hrem Hov Hrs Hrs' Hfuel; [lia|]. cbn [critical_loop]. destruct (Z.leb_spec rem 0).
  { assert (rem = 0) as -> by lia. exists SUCCEEDED, c, w. split; [done|]. unfold padded. rewrite mload_0 by lia.
    split; [by left|by exists 0%nat; rewrite app_nil_r|by rewrite app_nil_r|by exists m]. }
  set (rs' := if rem <? rs then rem else rs).
  assert (0 < rs' <= 4 * 1048576 /\ rs' <= rem /\ (rs' = rem \/ rs' = 4 * 1048576)) as (Hr1 & Hr2 & Hr3)
    by (subst rs'; zdecide).
  clearbody rs'. pose proof (ff_bounds _ _ _ _ Hv) as [Hlen Hq2].
  destruct (ff_read f w content q m 0 rs' Hv ltac:(lia)) as (r & m1 & f1 & w1 & -> & Hnet & Hout & Hr).
  destruct (Z.ltb_spec r 0).
  { do 3 eexists. split; [done|]. eapply careful_failed; [done|reflexivity|].
    eapply same_outside_weaken; [done|lia|unfold BUFFER_SIZE; lia]. }
  destruct Hr as [|(Hr & Hm1 & Hv1)]; [lia|]. pose proof (blen_slice q rs' content ltac:(lia) ltac:(lia)).
  destruct (faulty_block m m1 q pos rs' r content) as (Ho1 & Ho2 & Hpad); [done..|lia|lia|done|done|].
  rewrite !u64_small by lia. change (ro_file_size (put_read f1 m1 c)) with (ro_file_size c). rewrite Hsz.
  destruct (negb (r =? rs') && (pos + r <? blen content)) eqn:Herr.
  { do 3 eexists. split; [done|]. by eapply careful_failed. }
  destruct (Hpad eq_refl) as [Hm2 Hnext]. set (m2 := if negb (r =? rs') then mfill m1 r (rs' - r) 0 else m1) in *.
  destruct (log_block c f1 m1 (pos + r) (negb (r =? rs')) m2) as (b & ->). rewrite Hm2.
  change (s (with_block c f1 m2 b)) with (s c).
  destruct (sys_send (s c) (padded content pos rs') w1) as [sr w2] eqn:Hsend.
  pose proof (law_send _ _ _ _ _ Hsend) as (Hsr & _). rewrite blen_padded in Hsr by lia. rewrite s32_small by lia.
  pose proof (padded_split content pos rs' (rem - rs') ltac:(lia) ltac:(lia)) as Hsplit.
  rewrite Zplus_minus in Hsplit. rewrite Hsplit.
  destruct ((sr <? 0) || negb (u32 sr =? rs')) eqn:Hbad.
  { do 3 eexists. split; [done|]. apply (careful_buf _ _ _ _ _ _ _ _ Ho2), (careful_start _ _ _ _ _ _ c _ _ Hnet eq_refl).
    eapply careful_sent; [exact Hsend|]. rewrite decide_False; [do 2 (split; [done|]); by exists m2|]. rewrite blen_padded by lia.
    intros ->. rewrite u32_small in Hbad by lia. case_bool_in Hbad; done || lia. }
  assert (sr = rs') as ->.
  { destruct (Z.ltb_spec sr 0); [done|]. rewrite u32_small in Hbad by lia. by destruct (Z.eqb_spec sr rs'). }
  rewrite u32_small by lia.
  destruct (IH rs' (rem - rs') (pos + rs') f1 m2 (with_block c f1 m2 b) w2 content (q + r))
    as (r' & c' & w' & -> & HA); try lia; [done|done|by rewrite (ff_send _ _ _ _ _ _ Hsend)|].
  do 3 eexists. split; [done|]. apply (careful_buf _ _ _ _ _ _ _ _ Ho2), (careful_start _ _ _ _ _ _ c _ _ Hnet eq_refl).
  eapply careful_sent; [exact Hsend|]. rewrite decide_True by by rewrite blen_padded by lia.
  apply (careful_start _ w2 w2 m2 _ _ (with_block c f1 m2 b)); [apply keeps_net_refl|done|done].
Qed.
End faulty.

(** ** Properties *)

Section properties.
Context {W R : Type} `{PosixLaws W, Aes, !AbstractFile R W, !AbstractFileView R W,
                       !AbstractFileLaws R W}.
Implicit Types (c : client_t R) (w : W) (f : R) (m : mem) (cmd content : bytes).

(** C1. READ_FILE_CRITICAL on a healthy file that supports bulk reads, with the
    client still there and an offset below 2^63, succeeds and sends exactly the requested bytes: those of
    the file from the offset on, and zeros past its end.  The loop terminates,
    however large the request, and the connection keeps serving the file. *)
Theorem read_file_critical_exact cmd c w content f m q :
  Forall is_byte cmd -> blen cmd = netiso_cmd_size -> serving c w content f m q ->
  supportsBulkRead f = true -> cmd_offset cmd < 2 ^ 63 -> writable w (s c) ->
  exists c' w' f' m' q', process_read_file_critical cmd c w = Some (SUCCEEDED, c', w') /\
    sent w' (s c) = sent w (s c) ++ padded content (cmd_offset cmd) (cmd_num_bytes cmd) /\
    serving c' w' content f' m' q'.
Proof.
  intros Hb Hl Hsv Hbulk Ho Hw.
  destruct (read_file_critical_spec cmd c w content f m q) as (r & c' & w' & E & HA); [done..|by left|].
  destruct (an_live _ _ _ _ _ _ _ _ _ HA Hbulk Hw) as [-> _].
  destruct (an_serving _ _ _ _ _ _ _ _ _ HA) as (f' & m' & q' & Hsv' & _).
  exists c', w', f', m', q'. split; [done|]. split; [by apply HA|done].
Qed.


(** C25. The fast path of READ_CD_2048_CRITICAL (one read of the whole span into a
    scratch buffer) and its fallback (a seek and a read per sector) put the same
    bytes into the buffer that is sent. *)
Theorem cd_paths_agree offset sc scratch f m c w content q :
  serving c w content f m q -> supportsBulkRead f = true ->
  0 <= offset < 2 ^ 48 -> 0 < sc <= 2048 -> 0 <= CD_SECTOR_SIZE c < 2 ^ 16 ->
  exists c1 w1 m1 c2 w2 m2,
    cd_bulk offset sc scratch f m c w = (true, c1, w1) /\ buf c1 = Some m1 /\
    cd_sectors (Z.to_nat sc) 0 offset f m c w = (true, c2, w2) /\ buf c2 = Some m2 /\
    mload m1 0 (2048 * sc) = mload m2 0 (2048 * sc).
Proof.
  intros Hsv Hb Ho Hsc Hss.
  destruct (cd_bulk_spec offset sc scratch f m c w content q) as (c1 & w1 & E1 & G1); [done..|].
  destruct (cd_sectors_spec content (Z.to_nat sc) 0 offset f m c w q) as (ok & c2 & w2 & E2 & G2);
    [done|lia|lia|done|nia|by left|].
  pose proof (ga_live _ _ _ _ _ _ _ _ _ _ G2 Hb) as ->.
  destruct (ga_after _ _ _ _ _ _ _ _ _ _ G1) as (f1 & m1 & b1 & q1 & -> & _ & _ & _ & P1).
  destruct (ga_after _ _ _ _ _ _ _ _ _ _ G2) as (f2 & m2 & b2 & q2 & -> & _ & _ & _ & P2).
  rewrite blen_cd_payload, Z2Nat.id in P1, P2 by lia. change (2048 * 0) with 0 in P2.
  eexists _, w1, m1, _, w2, m2. split; [done|]. split; [done|]. split; [done|]. split; [done|].
  by rewrite P1, P2.
Qed.


(** READ_FILE without an open file, or for more than the buffer holds, answers
    -1, sends nothing else and leaves the connection and its file as they were. *)
Theorem read_file_error cmd c w :
  ro_file c = None \/ buf c = None \/ BUFFER_SIZE < cmd_num_bytes cmd -> writable w (s c) ->
  exists w', process_read_file_cmd cmd c w = (SUCCEEDED, c, w') /\
    sent w' (s c) = sent w (s c) ++ [255; 255; 255; 255].
Proof.
  intros Hc Hw. destruct (read_file_refused cmd c w Hc) as (r & w' & E & Hs & Hl).
  rewrite (Hl Hw) in *. exists w'. by split; [|apply Hs].
Qed.
End properties.

(** C24. Whatever happens to the seek, to the reads and to the socket, READ_FILE_CRITICAL sends
    a prefix of the right bytes, all of them when it reports success, and writes
    nothing outside the 4 MB buffer: a read that fails or comes short in the middle
    of the file ends the command before its block is sent.  The file is one that keeps the promise
    of [FaultyFile]: of one part without a key, on a medium that may fail at any call,
    or of another kind on one that does not; the offset is below 2^63. *)
Theorem read_file_critical_safe {W R} `{PosixLaws W, Aes, !AbstractFile R W, !FaultyFile R W}
    cmd (c : client_t R) (w : W) content f m q :
  Forall is_byte cmd -> blen cmd = netiso_cmd_size -> ro_file c = Some f -> buf c = Some m ->
  ff_view f w = Some (content, q) -> ro_file_size c = blen content -> cmd_offset cmd < 2 ^ 63 ->
  let reply := padded content (cmd_offset cmd) (cmd_num_bytes cmd) in
  exists r c' w' m' k, process_read_file_critical cmd c w = Some (r, c', w') /\
    (r = SUCCEEDED \/ r = FAILED) /\ sent w' (s c) = sent w (s c) ++ take k reply /\
    (r = SUCCEEDED -> sent w' (s c) = sent w (s c) ++ reply) /\
    buf c' = Some m' /\ same_outside 0 BUFFER_SIZE m m'.
Proof.
  intros Hb Hl Hf Hm Hv Hsz Ho reply. unfold process_read_file_critical. rewrite Hf, Hm.
  pose proof (cmd_offset_range _ Hb Hl). pose proof (cmd_num_bytes_range _ Hb Hl).
  unfold reply. set (o := cmd_offset cmd) in *. set (n := cmd_num_bytes cmd) in *. rewrite s64_small by lia.
  enough (exists r c' w', (let '(r, f, w) := af_seek o SEEK_SET f w in
      let c := set_ro (Some f) c in
      if r <? 0 then Some (FAILED, c, w)
      else critical_loop (Z.to_nat (n / BUFFER_SIZE) + 2) (if BUFFER_SIZE <=? n then BUFFER_SIZE else n) n o f m c w)
      = Some (r, c', w') /\ careful c w m (padded content o n) r c' w')
    as (r & c' & w' & E & [A (k & B) C (m' & D & F)]) by by exists r, c', w', m', k.
  destruct (ff_seek f w content q o Hv ltac:(lia)) as (r & f1 & w1 & -> & Hnet & Hr).
  destruct (Z.ltb_spec r 0); [do 3 eexists; split; [done|]; by eapply careful_failed|].
  destruct Hr as [|Hv1]; [lia|].
  pose proof (Z.div_mod n BUFFER_SIZE). pose proof (Z.mod_pos_bound n BUFFER_SIZE).
  pose proof (Z.div_pos n BUFFER_SIZE). unfold BUFFER_SIZE in *.
  destruct (faulty_loop (Z.to_nat (n / (4 * 1048576)) + 2) (if 4 * 1048576 <=? n then 4 * 1048576 else n) n o f1 m
    (set_ro (Some f1) c) w1 content o) as (r' & c' & w' & E & HA); [done|done|done|by left|lia|lia|lia|unfold BUFFER_SIZE; zdecide..|].
  exists r', c', w'. split; [exact E|]. exact (careful_start c _ _ _ _ _ (set_ro (Some f1) c) _ _ Hnet eq_refl HA).
Qed.

(** The file of five bytes, read from offset 3 for six bytes. *)
Lemma serving_a : serving (client0 ro_a 5) sim0 data_a ro_a (zext []) 0.
Proof. by split. Qed.

Lemma read_file_critical_exact_witness :
  let c := client0 ro_a 5 in
  exists c' w' f' m' q',
    process_read_file_critical (cmd_read NETISO_CMD_READ_FILE_CRITICAL 6 3) c sim0 = Some (SUCCEEDED, c', w') /\
    sent w' 7 = [13; 14; 0; 0; 0; 0] /\ serving c' w' data_a f' m' q'.
Proof.
  destruct (read_file_critical_exact (cmd_read NETISO_CMD_READ_FILE_CRITICAL 6 3) (client0 ro_a 5) sim0
    data_a ro_a (zext []) 0) as (c' & w' & f' & m' & q' & E & Es & Hs); [concrete..| ].
  exists c', w', f', m', q'. split; [exact E|]. split; [|exact Hs]. etransitivity; [exact Es|]. by vm_compute.
Defined.

(** The same file on a disk whose reads fail: nothing is sent, and the buffer is intact. *)
Definition sim_failing : Sim.sim :=
  Sim.mk_sim (Sim.files sim0) (Sim.dirs sim0) (Sim.fds sim0) [] ∅ ∅ [path_a] [] false.

Lemma read_file_critical_safe_witness :
  let cmd := cmd_read NETISO_CMD_READ_FILE_CRITICAL 4 2 in
  (exists c' w' m', process_read_file_critical cmd (client0 ro_a 5) sim_failing = Some (FAILED, c', w') /\
    sent w' 7 = [] /\ buf c' = Some m' /\ same_outside 0 BUFFER_SIZE (zext []) m') /\
  exists c' w', process_read_file_critical cmd (client0 ro_a 5) sim0 = Some (SUCCEEDED, c', w') /\
    sent w' 7 = [12; 13; 14; 0].
Proof.
  intros cmd. assert (Forall is_byte cmd) as H1 by concrete. assert (blen cmd = netiso_cmd_size) as H2 by reflexivity.
  split.
  - destruct (read_file_critical_safe cmd (client0 ro_a 5) sim_failing data_a ro_a (zext []) 0) as
      (r & c' & w' & m' & k & E & _ & _ & _ & Hm); [exact H1|exact H2|done|done|by vm_compute|done|concrete|].
    exists c', w', m'. assert (r = FAILED /\ sent w' 7 = []) as [-> Hs].
    { pose proof (f_equal (fun x => (fun y => (y.1.1, sent y.2 7)) <$> x) E) as E'. vm_compute in E'.
      injection E' as <- E'. split; [done|exact (eq_sym E')]. }
    split; [exact E|]. split; [exact Hs|exact Hm].
  - destruct (read_file_critical_safe cmd (client0 ro_a 5) sim0 data_a ro_a (zext []) 0) as
      (r & c' & w' & m' & k & E & _ & _ & Hs & _); [exact H1|exact H2|done|done|by vm_compute|done|concrete|].
    exists c', w'. assert (r = SUCCEEDED) as ->.
    { pose proof (f_equal (fun x => (fun y => y.1.1) <$> x) E) as E'. vm_compute in E'. by injection E' as <-. }
    split; [exact E|]. etransitivity; [exact (Hs eq_refl)|]. by vm_compute.
Defined.

(** An image of two sectors, the second cut short. *)
Definition data_cd : bytes := replicate 24 9 ++ [1; 2] ++ replicate 2326 9 ++ replicate 24 9 ++ [3; 4].
Definition sim_cd : Sim.sim := Sim.with_files {[ path_a := data_cd ]} sim0.

Lemma serving_cd : serving (client0 ro_a 2378) sim_cd data_cd ro_a (zext []) 0.
Proof. by split. Qed.


Lemma cd_paths_agree_witness :
  exists c1 w1 m1 c2 w2 m2,
    cd_bulk 0 2 (zext [9; 9]) ro_a (zext []) (client0 ro_a 5) sim0 = (true, c1, w1) /\ buf c1 = Some m1 /\
    cd_sectors 2 0 0 ro_a (zext []) (client0 ro_a 5) sim0 = (true, c2, w2) /\ buf c2 = Some m2 /\
    mload m1 0 (2048 * 2) = mload m2 0 (2048 * 2).
Proof.
  apply (cd_paths_agree 0 2 (zext [9; 9]) ro_a (zext []) (client0 ro_a 5) sim0 data_a 0); concrete.
Defined.


Lemma read_file_error_witness :
  let c := set_ro None (client0 ro_a 5) in
  exists w',
    process_read_file_cmd (cmd_read NETISO_CMD_READ_FILE 6 3) c sim0 = (SUCCEEDED, c, w') /\
    sent w' 7 = sent sim0 7 ++ [255; 255; 255; 255].
Proof.
  apply (read_file_error (cmd_read NETISO_CMD_READ_FILE 6 3) (set_ro None (client0 ro_a 5)) sim0); concrete.
Defined.
