(* ===== verification/Paths.v ===== *)
(** * Paths: normalize_path and translate_path of main.cpp

    A client's path is normalised, checked, put below the shared directory and,
    when nothing is there, looked up through the [.INI] files that merge other
    directories into it.  Strings are the bytes before their NUL; [None] is a
    run that leaves the bounds of a buffer. *)

From S2P Require Import Prelude CMem Os CString Client.

Definition slash : Z := 47.
Definition backslash : Z := 92.
Definition CR : Z := 13.
Definition LF : Z := 10.

(** Drop the trailing elements [f] holds of. *)
Fixpoint strip_right (f : Z -> bool) (l : bytes) : bytes :=
  match l with
  | [] => []
  | x :: l => match strip_right f l with
              | [] => if f x then [] else [x]
              | l => x :: l
              end
  end.

(** The string after the call; the result of the call is its length. *)
Definition normalize_path (path : bytes) (del_last_slash : bool) : bytes :=
  let path := (fun c => if c =? backslash then slash else c) <$> path in
  let path := strip_right (Z.eqb CR) path in
  if del_last_slash then strip_right (Z.eqb slash) path else path.

(** [/..] at the end or before a slash, looked for at its first occurrence. *)
Definition unsecure_path (path : bytes) : bool :=
  match strstr path (str "/..") with
  | Some o =>
      match drop (Z.to_nat (o + 3)) path with
      | [] => true
      | c :: _ => c =? slash
      end
  | None => false
  end.

Section translate.
Context {W : Type} `{Posix W}.
(** The shared directory; [main] sets [root_len] to its length. *)
Variable root_directory : bytes.
Variable st_uninit : file_stat_t.
Abbreviation root_len := (blen root_directory).
Implicit Types (w : W) (path p : bytes).

(** [for (i = p_len; i >= root_len; i--)]: the INI file and the offset of the
    rest of the path, or nothing.  [i] is unsigned: past 0 it wraps around. *)
Fixpoint find_ini (k : nat) (i p_len : Z) p w : option (option (bytes * Z) * W) :=
  match k with
  | O => None
  | S k =>
      if i <? 0 then None
      else if i <? root_len then Some (None, w)
      else if (nth (Z.to_nat i) p 0 =? slash) || (i =? p_len) then
        let lnk_file := take (Z.to_nat i) p ++ str ".INI" in
        if MAX_LINK_LEN <=? blen lnk_file then None
        else
          let '(r, _, w) := stat_file (Some lnk_file) st_uninit w in
          if 0 <=? r then Some (Some (lnk_file, i), w)
          else find_ini k (i - 1) p_len p w
      else find_ini k (i - 1) p_len p w
  end.

Definition is_blank (c : Z) : bool := (c =? CR) || (c =? LF) || (c =? 9) || (c =? 32).

(** The loop that skips blanks; [None] past the end of the buffer. *)
Fixpoint skip_blanks (l : bytes) : option bytes :=
  match l with
  | [] => None
  | c :: l' => if is_blank c then skip_blanks l' else Some l
  end.

(** The line at the start of the buffer and what follows its newline. *)
Fixpoint split_line (l : bytes) : option (bytes * option bytes) :=
  match l with
  | [] => None
  | c :: l =>
      if c =? 0 then Some ([], None)
      else if c =? LF then Some ([], Some l)
      else '(line, rest) ← split_line l; Some (c :: line, rest)
  end.

(** [filename] below the directory [dir_path] of a line; [None] when the
    stripped line is so much shorter that [filepath + dlen] is past the string. *)
Definition ini_filepath (line filename : bytes) : option bytes :=
  let dlen := Z.to_nat (blen line) in
  let filepath := normalize_path line true ++ filename in
  if blen filepath <? blen line then None
  else Some (take dlen filepath ++ normalize_path (drop dlen filepath) true).

(** The loop over the lines, on the rest [l] of [lnk_file]. *)
Fixpoint scan_ini (k : nat) (l filename : bytes) w : option (option bytes * W) :=
  match k, l with
  | O, _ | _, [] => None
  | S k, c :: _ =>
      if c =? 0 then Some (None, w)
      else
        let? l := skip_blanks l in
        let? (line, rest) := split_line l in
        let '(ok, w) := sys_malloc (MAX_PATH_LEN + blen line + blen filename + 1) w in
        let next w := match rest with
                      | Some l => scan_ini k l filename w
                      | None => Some (None, w)
                      end in
        if negb ok then next w
        else
          let? filepath := ini_filepath line filename in
          let '(r, _, w) := stat_file (Some filepath) st_uninit w in
          if 0 <=? r then Some (Some filepath, w) else next w
  end.

(** The [MERGE_DIRS] lookup of [p], which names nothing. *)
Definition merge_dirs (p_len : Z) p w : option (option bytes * W) :=
  let? (found, w) := find_ini (Z.to_nat (p_len - root_len) + 2) p_len p_len p w in
  match found with
  | None => Some (None, w)
  | Some (lnk_file, i) =>
      let filename := drop (Z.to_nat i) p in
      let '(fd, w) := open_file (Some lnk_file) O_RDONLY w in
      if FD_OK fd then
        let lnk := _memset (zext lnk_file) 0 MAX_LINK_LEN in
        let '(_, lnk, w) := read_file fd lnk 0 MAX_LINK_LEN w in
        let '(_, w) := close_file fd w in
        scan_ini (Z.to_nat MAX_LINK_LEN + 1) (mload lnk 0 MAX_LINK_LEN) filename w
      else Some (None, w)
  end.

(** What the prefixes of a virtual image ask for, and the path without them. *)
Definition viso_prefix path : viso_t * bytes :=
  if strncmp_eq path (str "/***PS3***/") 11 then (VISO_PS3, drop 10 path)
  else if strncmp_eq path (str "/***DVD***/") 11 then (VISO_ISO, drop 10 path)
  else (VISO_NONE, path).

(** [want_viso]: the caller passes a [viso] pointer.  The result is the
    translated path ([None]: NULL) and what [*viso] is set to. *)
Definition translate_path path (want_viso : bool) w : option (option bytes * viso_t * W) :=
  let path := normalize_path path false in
  if negb (starts_with [slash] path) then Some (None, VISO_NONE, w)
  else if unsecure_path path then Some (None, VISO_NONE, w)
  else
    let '(ok, w) := sys_malloc (MAX_PATH_LEN + root_len + blen path + 1) w in
    if negb ok then Some (None, VISO_NONE, w)
    else
      let '(viso, path) := if want_viso then viso_prefix path else (VISO_NONE, path) in
      let p := normalize_path (root_directory ++ path) true in
      let '(r, _, w) := stat_file (Some p) st_uninit w in
      if r <? 0 then
        let? (found, w) := merge_dirs (root_len + blen path) p w in
        match found with
        | Some filepath => Some (Some filepath, viso, w)
        | None => Some (Some (normalize_path p false), viso, w)
        end
      else Some (Some (normalize_path p false), viso, w)
  .
End translate.
