(* ===== verification/PathsSpec.v ===== *)
(** * What translate_path promises

    Where a translated path can lie, which paths are refused, and what the
    [.INI] lookup finds. *)

From S2P Require Import Prelude CMem Os CString FileIso Client RoFile Scenario Paths.

(** ** Normalisation *)

Lemma strip_right_split f l :
  exists t, l = strip_right f l ++ t /\ Forall (fun c => f c = true) t.
Proof.
  induction l as [|x l (t & E & Ht)]; cbn; [by exists []|].
  destruct (strip_right f l) as [|y l'] eqn:El.
  - destruct (f x) eqn:Ex.
    + exists (x :: t). split; [by rewrite E|by constructor].
    + exists t. by rewrite E.
  - exists t. split; [by rewrite E at 1|done].
Qed.

Lemma strip_right_last f l c : last (strip_right f l) = Some c -> f c = false.
Proof.
  induction l as [|x l IH]; cbn; [done|].
  destruct (strip_right f l) as [|y l'] eqn:El; [|exact IH].
  destruct (f x) eqn:Ex; [done|]. by intros [= <-].
Qed.

Lemma strip_right_id f l : (forall c, last l = Some c -> f c = false) -> strip_right f l = l.
Proof.
  induction l as [|x l IH]; intros Hl; cbn; [done|]. destruct l as [|y l].
  - cbn. by rewrite (Hl x).
  - by rewrite IH.
Qed.

(** Stripping does not reach into a first part that ends in a kept element. *)
Lemma strip_right_app f a b :
  (forall c, last a = Some c -> f c = false) -> strip_right f (a ++ b) = a ++ strip_right f b.
Proof.
  intros Ha. destruct (strip_right f b) as [|y b'] eqn:Eb.
  - rewrite app_nil_r. induction a as [|x a IH]; cbn; [done|].
    destruct a as [|z a]; [cbn; rewrite Eb; by rewrite (Ha x)|].
    rewrite IH by done. done.
  - clear Ha. induction a as [|x a IH]; cbn; [done|]. rewrite IH. by destruct a.
Qed.

Lemma strip_right_prefix f l : exists k, strip_right f l = take k l.
Proof.
  destruct (strip_right_split f l) as (t & E & _). exists (length (strip_right f l)).
  rewrite E at 3. by rewrite take_app_length.
Qed.

(** A root directory as [main] leaves it. *)
Record good_root (root : bytes) : Prop := {
  gr_backslash : backslash ∉ root;
  gr_last c : last root = Some c -> c <> slash /\ c <> CR;
}.

Lemma fmap_slash_id (l : bytes) :
  backslash ∉ l -> (fun c => if c =? backslash then slash else c) <$> l = l.
Proof.
  induction l as [|x l IH]; intros Hl; [done|]. rewrite fmap_cons.
  apply not_elem_of_cons in Hl as [Hx Hl]. rewrite IH by done.
  destruct (Z.eqb_spec x backslash); [by subst|done].
Qed.

Lemma normalize_path_no_backslash l b : backslash ∉ normalize_path l b.
Proof.
  assert (backslash ∉ (fun c => if c =? backslash then slash else c) <$> l) as Hn.
  { intros (x & Hx & _)%list_elem_of_fmap. destruct (Z.eqb_spec x backslash); done. }
  unfold normalize_path. set (l1 := _ <$> l) in *. clearbody l1.
  assert (forall f l, backslash ∉ l -> backslash ∉ strip_right f l) as Hs.
  { clear. intros f l Hl Hc. destruct (strip_right_split f l) as (t & E & _). apply Hl.
    rewrite E. by apply elem_of_app; left. }
  destruct b; auto.
Qed.

Lemma normalize_path_root root path :
  good_root root ->
  normalize_path (root ++ path) true = root ++ normalize_path path true.
Proof.
  intros [Hb Hl]. unfold normalize_path. rewrite fmap_app, (fmap_slash_id root) by done.
  rewrite !strip_right_app; [done|intros c Hc; apply Z.eqb_neq; by destruct (Hl c Hc)..].
Qed.

Lemma normalize_path_last path c : last (normalize_path path true) = Some c -> c <> slash.
Proof.
  unfold normalize_path. intros Hc%strip_right_last. intros ->. by rewrite Z.eqb_refl in Hc.
Qed.

(** On a string without the two characters, only trailing slashes go. *)
Lemma normalize_path_id l b :
  backslash ∉ l -> CR ∉ l -> normalize_path l b = if b then strip_right (Z.eqb slash) l else l.
Proof.
  intros Hb Hc. unfold normalize_path. rewrite fmap_slash_id by done.
  rewrite (strip_right_id (Z.eqb CR)); [done|]. intros c Hl. apply Z.eqb_neq. intros <-.
  apply Hc. by apply last_Some_elem_of.
Qed.

Lemma strip_right_subset f l c : c ∈ strip_right f l -> c ∈ l.
Proof.
  destruct (strip_right_split f l) as (t & E & _). rewrite E at 2. intros. by apply elem_of_app; left.
Qed.

Lemma normalize_path_no_CR l : CR ∉ l -> CR ∉ normalize_path l false.
Proof.
  intros Hc. unfold normalize_path. intros Hin%strip_right_subset. apply list_elem_of_fmap in Hin as (x & Hx & Hin).
  destruct (Z.eqb_spec x backslash); [by unfold CR, slash in *|by subst].
Qed.

(** ** The parent-directory check *)

Definition dotdot : bytes := str "/..".

(** [path] has a component [..] after [pre]. *)
Definition parent_at (pre path : bytes) : Prop :=
  exists post, path = pre ++ dotdot ++ post /\ (post = [] \/ exists r, post = slash :: r).

Lemma unsecure_first path pre :
  parent_at pre path -> strstr path dotdot = Some (blen pre) -> unsecure_path path = true.
Proof.
  intros (post & -> & Hpost) E. unfold unsecure_path. fold dotdot. rewrite E.
  replace (drop (Z.to_nat (blen pre + 3)) (pre ++ dotdot ++ post)) with post.
  - destruct Hpost as [->|(r & ->)]; [done|apply Z.eqb_refl].
  - rewrite app_assoc, drop_app_ge by (unfold blen; rewrite length_app; cbn; lia).
    rewrite length_app. unfold blen. cbn [dotdot str length].
    replace (_ - _)%nat with 0%nat; [done|cbn; lia].
Qed.

(** A [..] component that is let through comes after another [/..]. *)
Lemma accepted_earlier path pre :
  unsecure_path path = false -> parent_at pre path ->
  exists o, strstr path dotdot = Some o /\ o < blen pre.
Proof.
  intros Hu Hp. pose proof Hp as (post & E & _).
  destruct (strstr path dotdot) as [o|] eqn:Eo.
  - exists o. split; [done|]. pose proof (strstr_first _ _ _ _ _ Eo E).
    destruct (decide (o = blen pre)) as [->|]; [|lia].
    by rewrite (unsecure_first path pre) in Hu.
  - exfalso. by eapply strstr_None.
Qed.

(** Trailing slashes do not make a path pass. *)
Lemma unsecure_slashes a t :
  Forall (fun c => (slash =? c) = true) t -> unsecure_path a = true -> unsecure_path (a ++ t) = true.
Proof.
  unfold unsecure_path. intros Ht Hu.
  destruct (strstr a (str "/..")) as [o|] eqn:Eo; [|done]. rewrite (strstr_app _ _ _ _ Eo).
  destruct (strstr_Some _ _ _ Eo) as (Ho & pre & post & -> & Hpre).
  assert (forall l : bytes, drop (Z.to_nat (o + 3)) ((pre ++ str "/.." ++ l)) = l) as Hd.
  { intros l. rewrite app_assoc, drop_app_ge by (unfold blen in *; rewrite length_app; cbn; lia).
    rewrite length_app. unfold blen in *. cbn. by replace (_ - _)%nat with 0%nat by lia. }
  rewrite <- !app_assoc. rewrite Hd in *. destruct post as [|x post]; [|done].
  destruct Ht as [|x t Hx%Z.eqb_eq _]; [done|]. cbn. apply Z.eqb_eq. done.
Qed.

Lemma strstr_skip c s needle :
  starts_with needle (c :: s) = false -> strstr (c :: s) needle = (fun o => 1 + o) <$> strstr s needle.
Proof. intros E. cbn [strstr]. by rewrite E. Qed.

Lemma unsecure_skip c s :
  starts_with dotdot (c :: s) = false -> unsecure_path (c :: s) = unsecure_path s.
Proof.
  intros E. unfold unsecure_path. fold dotdot. rewrite strstr_skip by done.
  destruct (strstr s dotdot) as [o|] eqn:Eo; [|done]. cbn [fmap option_fmap option_map].
  apply strstr_Some in Eo as [Ho _].
  replace (Z.to_nat (1 + o + 3)) with (S (Z.to_nat (o + 3))) by lia. done.
Qed.

(** The prefix of a virtual image hides no parent directory. *)
Lemma strncmp_eq_prefix pre s : 0 ∉ pre -> strncmp_eq s pre (length pre) = true -> exists t, s = pre ++ t.
Proof.
  revert s; induction pre as [|c pre IH]; intros s Hn Hs; [by exists s|].
  apply not_elem_of_cons in Hn as [_ Hn]. destruct s as [|d s]; [done|].
  cbn in Hs. apply andb_true_iff in Hs as [->%Z.eqb_eq Hs]. destruct (IH _ Hn Hs) as (t & ->).
  by exists t.
Qed.

Lemma unsecure_viso_prefix path :
  unsecure_path (viso_prefix path).2 = unsecure_path path.
Proof.
  unfold viso_prefix.
  destruct (strncmp_eq path (str "/***PS3***/") 11) eqn:E1;
    [|destruct (strncmp_eq path (str "/***DVD***/") 11) eqn:E2; [|done]].
  1: destruct (strncmp_eq_prefix (str "/***PS3***/") path) as (t & ->); [by apply (bool_decide_unpack _); vm_compute|done|].
  2: destruct (strncmp_eq_prefix (str "/***DVD***/") path) as (t & ->); [by apply (bool_decide_unpack _); vm_compute|done|].
  all: symmetry; cbn [str app drop]; do 10 (rewrite unsecure_skip by done); done.
Qed.

(** ** Where a translated path lies *)

(** Below the shared directory, without a hidden parent directory. *)
Definition confined (root r : bytes) : Prop :=
  exists suffix, r = root ++ suffix /\ (suffix = [] \/ exists s, suffix = slash :: s) /\
    unsecure_path suffix = false.

(** What this means: a [..] component is not the first to begin with two dots. *)
Definition confined_below (root r : bytes) : Prop :=
  exists suffix, r = root ++ suffix /\ (suffix = [] \/ exists t, suffix = slash :: t) /\
    forall pre, parent_at pre suffix -> exists o, strstr suffix dotdot = Some o /\ o < blen pre.

Lemma confined_no_parent root r : confined root r -> confined_below root r.
Proof.
  intros (suffix & -> & Hs & Hu). exists suffix. split; [done|]. split; [done|].
  intros pre Hpre. by apply accepted_earlier.
Qed.

(** A line of an [.INI] file as the loop over the lines finds it: between the start,
    a newline or blanks, and a newline or the NUL after the text. *)
Definition ini_line (text line : bytes) : Prop :=
  0 ∉ line /\ LF ∉ line /\ (forall b, head line = Some b -> is_blank b = false) /\
  exists pre post, text = pre ++ line ++ post /\ 0 ∉ pre /\
    (pre = [] \/ exists b, last pre = Some b /\ is_blank b = true) /\
    (head post = Some 0 \/ head post = Some LF).

Lemma skip_blanks_spec l l1 : skip_blanks l = Some l1 ->
  exists pre, l = pre ++ l1 /\ Forall (fun b => is_blank b = true) pre /\
    exists b l2, l1 = b :: l2 /\ is_blank b = false.
Proof.
  induction l as [|b l IH]; cbn; [done|]. destruct (is_blank b) eqn:Eb.
  - intros (pre & -> & Hpre & Hb)%IH. exists (b :: pre). split; [done|]. split; [by constructor|done].
  - intros [= <-]. exists []. split; [done|]. split; [constructor|by eauto].
Qed.

Lemma split_line_spec l line rest : split_line l = Some (line, rest) ->
  0 ∉ line /\ LF ∉ line /\
  match rest with Some l' => l = line ++ LF :: l' | None => exists l', l = line ++ 0 :: l' end.
Proof.
  revert line. induction l as [|b l IH]; intros line; cbn [split_line]; [done|].
  destruct (Z.eqb_spec b 0) as [->|H0]; [intros [= <- <-]; split; [|split]; [set_solver..|by exists l]|].
  destruct (Z.eqb_spec b LF) as [->|H1]; [intros [= <- <-]; split; [|split]; [set_solver..|done]|].
  destruct (split_line l) as [[line' rest']|]; [|done]. intros [= <- <-].
  destruct (IH line' eq_refl) as (A & B & C). split; [by apply not_elem_of_cons|]. split; [by apply not_elem_of_cons|].
  destruct rest'; [by rewrite C|]. destruct C as (l' & ->). by exists l'.
Qed.

Lemma blank_not_0 l : Forall (fun b => is_blank b = true) l -> 0 ∉ l.
Proof. intros Hl Hin. by pose proof (proj1 (Forall_forall _ _) Hl 0 Hin). Qed.

(** The first line, and the lines of what follows it. *)
Lemma ini_line_first l l1 line rest : skip_blanks l = Some l1 -> split_line l1 = Some (line, rest) -> ini_line l line.
Proof.
  intros (pre & -> & Hpre & b & l2 & -> & Hb)%skip_blanks_spec E. apply split_line_spec in E as (H0 & H1 & E).
  assert (exists t post, b :: l2 = line ++ t :: post /\ (t = 0 \/ t = LF)) as (t & post & Et & Ht).
  { destruct rest as [l'|]; [exists LF, l'; by split; [|right]|]. destruct E as (l' & E). exists 0, l'. by split; [|left]. }
  split; [done|]. split; [done|]. split.
  - intros x Hx. destruct line as [|y line]; [done|]. injection Et as -> _. by injection Hx as <-.
  - exists pre, (t :: post). rewrite Et. split; [done|]. split; [by apply blank_not_0|]. split.
    + destruct (last pre) as [x|] eqn:El; [right|left; by apply last_None]. exists x. split; [done|].
      by apply (proj1 (Forall_forall _ _) Hpre), last_Some_elem_of.
    + destruct Ht as [->| ->]; [by left|by right].
Qed.

Lemma ini_line_next l l1 line0 rest line :
  skip_blanks l = Some l1 -> split_line l1 = Some (line0, Some rest) -> ini_line rest line -> ini_line l line.
Proof.
  intros (pre0 & -> & Hpre & _)%skip_blanks_spec (H0 & _ & ->)%split_line_spec (A & B & C & pre & post & -> & D & E & F).
  split; [done|]. split; [done|]. split; [done|]. exists ((pre0 ++ line0 ++ [LF]) ++ pre), post.
  split; [by rewrite <- !app_assoc|]. split; [|split; [|done]].
  - apply blank_not_0 in Hpre. rewrite !not_elem_of_app. split; [|done]. split; [done|]. split; [done|]. by apply not_elem_of_cons; split; [|apply not_elem_of_nil].
  - right. destruct E as [->|(b & Hb & ?)].
    + exists LF. split; [|done]. by rewrite app_nil_r, !app_assoc, last_snoc.
    + exists b. split; [|done]. by rewrite last_app, Hb.
Qed.

Section spec.
Context {W : Type} `{PosixLaws W}.
Variables (root_directory : bytes) (st_uninit : file_stat_t).
Abbreviation translate := (translate_path root_directory st_uninit).
Implicit Types (w : W) (path p : bytes).

(** The text of an [.INI] file: what reading 2048 bytes of it delivers, zeros after;
    of a healthy file, the bytes it has. *)
Definition ini_text w (lnk_file text : bytes) : Prop :=
  exists d, text = d ++ replicate (Z.to_nat (MAX_LINK_LEN - blen d)) 0 /\
    (exists w1 fd w2 r w3, keeps_fs any_fd w w1 /\ sys_open lnk_file O_RDONLY w1 = (fd, w2) /\
       sys_read fd MAX_LINK_LEN w2 = (r, d, w3)) /\
    forall c, file_at w lnk_file = Regular c -> d = slice 0 MAX_LINK_LEN c.

(** What the [.INI] lookup finds for [p]: the file is [p] up to a slash, or all of [p],
    with [.INI] after it; the result is one of its lines with the rest of [p], and
    names something. *)
Definition from_ini w p r : Prop :=
  exists i text line, blen root_directory <= i /\ (nth (Z.to_nat i) p 0 = slash \/ blen p <= i) /\
    let lnk_file := take (Z.to_nat i) p ++ str ".INI" in
    file_at w lnk_file <> Missing /\ ini_text w lnk_file text /\ ini_line text line /\
    ini_filepath line (drop (Z.to_nat i) p) = Some r /\ file_at w r <> Missing.

(** A path that stat answers names something. *)
Lemma stat_there w w0 p fs r st w' : keeps_fs any_fd w w0 -> stat_file (Some p) fs w0 = (r, st, w') ->
  keeps_fs any_fd w w' /\ (0 <= r -> file_at w p <> Missing).
Proof.
  unfold stat_file. intros K E. destruct (sys_stat p w0) as [[r0 st0] w1] eqn:E0.
  assert (w1 = w' /\ (0 <= r -> 0 <= r0)) as [-> Hr] by (destruct (Z.ltb_spec r0 0); injection E as <- _ <-; by split).
  split; [eapply keeps_fs_trans; [exact K|]; by apply law_stat in E0 as []|]. intros Hpos Hm.
  rewrite <- (kf_path _ _ _ K) in Hm. destruct (law_stat_missing _ _ Hm) as (st1 & w2 & E1). rewrite E0 in E1.
  injection E1 as -> _ _. specialize (Hr Hpos). lia.
Qed.

Lemma scan_ini_sound w0 k l filename w r w' : keeps_fs any_fd w0 w ->
  scan_ini st_uninit k l filename w = Some (Some r, w') ->
  exists line, ini_line l line /\ ini_filepath line filename = Some r /\ file_at w0 r <> Missing.
Proof.
  revert l w; induction k as [|k IH]; intros l w K; cbn [scan_ini]; [done|].
  destruct l as [|c l]; [done|]. set (l0 := c :: l). destruct (c =? 0); [done|].
  destruct (skip_blanks l0) as [l1|] eqn:E1; [|done].
  destruct (split_line l1) as [[line rest]|] eqn:E2; [|done].
  destruct (sys_malloc _ w) as [ok w1] eqn:Em. apply law_malloc in Em as [K1 _].
  pose proof (keeps_fs_trans _ _ _ _ K K1) as K01.
  assert (forall w2, keeps_fs any_fd w0 w2 ->
    match rest with Some l => scan_ini st_uninit k l filename w2 | None => Some (None, w2) end = Some (Some r, w') ->
    exists line, ini_line l0 line /\ ini_filepath line filename = Some r /\ file_at w0 r <> Missing) as Hnext.
  { intros w2 K2. destruct rest as [rest|]; [|done]. intros (line' & Hl & ?)%IH; [|done].
    exists line'. split; [by eapply ini_line_next|done]. }
  destruct ok; cbn [negb]; [|by apply Hnext].
  destruct (ini_filepath line filename) as [fp|] eqn:Efp; [|done].
  destruct (stat_file (Some fp) _ w1) as [[r1 st] w2] eqn:Es. apply (stat_there w0) in Es as [K2 Hthere]; [|done].
  destruct (Z.leb_spec 0 r1); [|by apply Hnext].
  intros [= <- <-]. exists line. split; [by eapply ini_line_first|by auto].
Qed.

Lemma find_ini_sound w0 k i p_len p w lnk j w' : keeps_fs any_fd w0 w -> blen p <= p_len ->
  find_ini root_directory st_uninit k i p_len p w = Some (Some (lnk, j), w') ->
  keeps_fs any_fd w0 w' /\ blen root_directory <= j /\ (nth (Z.to_nat j) p 0 = slash \/ blen p <= j) /\
  lnk = take (Z.to_nat j) p ++ str ".INI" /\ file_at w0 lnk <> Missing.
Proof.
  revert i w. induction k as [|k IH]; intros i w K Hp; cbn [find_ini]; [done|].
  destruct (i <? 0); [done|]. destruct (Z.ltb_spec i (blen root_directory)); [done|].
  destruct (_ || _) eqn:Eb; [|by apply IH]. destruct (MAX_LINK_LEN <=? _); [done|].
  destruct (stat_file _ _ w) as [[r st] w1] eqn:Es. apply (stat_there w0) in Es as [K1 Hthere]; [|done].
  destruct (Z.leb_spec 0 r); [|by apply IH]. intros [= <- <- <-]. split; [done|]. split; [done|].
  split; [|by auto]. apply orb_true_iff in Eb as [Eb%Z.eqb_eq|Eb%Z.eqb_eq]; [by left|right; lia].
Qed.

Lemma ini_buffer m d : blen d <= MAX_LINK_LEN ->
  mload (mstore (_memset m 0 MAX_LINK_LEN) 0 d) 0 MAX_LINK_LEN = d ++ replicate (Z.to_nat (MAX_LINK_LEN - blen d)) 0.
Proof.
  intros Hd. pose proof (blen_nonneg d). unfold MAX_LINK_LEN in *.
  replace 2048 with (blen d + (2048 - blen d)) at 2 by lia. rewrite mload_split, mload_mstore by lia. f_equal.
  rewrite Z.add_0_l. erewrite mload_ext; [apply (mload_mfill m (blen d))|]. intros k Hk. rewrite mstore_out by lia.
  rewrite (_memset_fill m 0 2048) by lia. by rewrite !mfill_in by lia.
Qed.

Lemma merge_dirs_sound w0 p_len p w r w' : keeps_fs any_fd w0 w -> blen p <= p_len ->
  merge_dirs root_directory st_uninit p_len p w = Some (Some r, w') -> from_ini w0 p r.
Proof.
  intros K Hp. unfold merge_dirs. destruct (find_ini _ _ _ _ _ _ _) as [[[[lnk i]|] w1]|] eqn:Ef; [|done..].
  apply (find_ini_sound w0) in Ef as (K1 & Hi & Hs & -> & Hthere); [|done..]. cbn [open_file].
  set (lnk := take (Z.to_nat i) p ++ str ".INI") in *.
  destruct (sys_open lnk O_RDONLY w1) as [fd w2] eqn:Eo. destruct (FD_OK fd); [|done]. unfold read_file.
  destruct (sys_read fd MAX_LINK_LEN w2) as [[n d] w3] eqn:Er. destruct (close_file fd w3) as [x w4] eqn:Ec.
  pose proof (law_open _ _ _ _ Eo) as (_ & Ko & _). pose proof (law_read _ _ _ _ _ _ Er) as (Hd & Kr & _).
  apply law_close in Ec as (Kc & _ & _). assert (blen d <= MAX_LINK_LEN) as Hlen by (destruct Hd as [[_ ->]|[_ ?]]; done).
  rewrite ini_buffer by done. intros E.
  assert (forall q, file_at w4 q = file_at w0 q) as Hq.
  { intros q. by rewrite (kf_path _ _ _ Kc), (kf_path _ _ _ Kr), (kf_path _ _ _ Ko), (kf_path _ _ _ K1). }
  apply (scan_ini_sound w4) in E as (line & Hl & Hr & Hf); [|apply keeps_fs_refl]. rewrite Hq in Hf.
  exists i, (d ++ replicate (Z.to_nat (MAX_LINK_LEN - blen d)) 0), line. fold lnk. do 3 (split; [done|]). split; [|done].
  exists d. split; [done|]. split; [by eauto 10|]. intros c Hc. rewrite <- (kf_path _ _ _ K1) in Hc.
  destruct (law_open_ok _ _ _ Hc) as (fd' & w2' & Eo' & _ & Hv). rewrite Eo in Eo'. injection Eo' as <- <-.
  destruct (law_read_ok _ MAX_LINK_LEN _ _ _ Hv) as (w3' & Er' & _); [done|]. rewrite Er in Er'. by injection Er'.
Qed.

Lemma blen_normalize_path l b : blen (normalize_path l b) <= blen l.
Proof.
  assert (forall f (x : bytes), blen (strip_right f x) <= blen x) as Hs.
  { intros f x. destruct (strip_right_prefix f x) as (k & ->). unfold blen. rewrite length_take. lia. }
  unfold normalize_path. transitivity (blen ((fun c => if c =? backslash then slash else c) <$> l));
    [|unfold blen; by rewrite length_fmap]. destruct b; [etransitivity; [apply Hs|]|]; apply Hs.
Qed.

(** The part of the path that goes below the root. *)
Definition suffix_of path (want_viso : bool) : bytes :=
  let path := normalize_path path false in if want_viso then (viso_prefix path).2 else path.

(** An accepted path passed both checks, and the result is the one of the two. *)
Lemma translate_sound path want w r v w' :
  good_root root_directory -> translate path want w = Some (Some r, v, w') ->
  let path' := normalize_path path false in
  starts_with [slash] path' = true /\ unsecure_path path' = false /\
  (r = normalize_path (root_directory ++ normalize_path (suffix_of path want) true) false \/
   from_ini w (root_directory ++ normalize_path (suffix_of path want) true) r).
Proof.
  intros Hroot. unfold translate_path. cbn zeta. set (path' := normalize_path path false).
  destruct (starts_with [slash] path') eqn:E1; cbn [negb]; [|done].
  destruct (unsecure_path path') eqn:E2; [done|].
  destruct (sys_malloc _ w) as [ok w1] eqn:Em. apply law_malloc in Em as [K1 _]. destruct ok; cbn [negb]; [|done].
  intros E. split; [done|]. split; [done|]. revert E.
  assert (exists v0, (if want then viso_prefix path' else (VISO_NONE, path')) = (v0, suffix_of path want)) as (v0 & ->).
  { unfold suffix_of. fold path'. destruct want; [|by eexists].
    exists (viso_prefix path').1. by destruct (viso_prefix path'). }
  rewrite normalize_path_root by done. set (p := root_directory ++ _).
  destruct (stat_file (Some p) st_uninit w1) as [[r1 st] w2] eqn:Es. apply (stat_there w) in Es as [K2 _]; [|done].
  destruct (r1 <? 0).
  - destruct (merge_dirs _ _ _ _ _) as [[[fp|] w3]|] eqn:Em; [| |done].
    + intros [= <- <- <-]. right. eapply merge_dirs_sound; [done| |exact Em]. unfold p. rewrite blen_app.
      pose proof (blen_normalize_path (suffix_of path want) true). lia.
    + intros [= <- <- <-]. by left.
  - intros [= <- <- <-]. by left.
Qed.

Lemma viso_prefix_drop path : exists k, (viso_prefix path).2 = drop k path.
Proof.
  unfold viso_prefix. destruct (strncmp_eq _ _ _); [by exists 10%nat|].
  destruct (strncmp_eq _ _ _); [by exists 10%nat|by exists 0%nat].
Qed.

Lemma viso_prefix_slash path :
  starts_with [slash] path = true -> exists s, (viso_prefix path).2 = slash :: s.
Proof.
  unfold viso_prefix.
  destruct (strncmp_eq path (str "/***PS3***/") 11) eqn:E1;
    [|destruct (strncmp_eq path (str "/***DVD***/") 11) eqn:E2].
  - destruct (strncmp_eq_prefix (str "/***PS3***/") path) as (t & ->);
      [by apply (bool_decide_unpack _); vm_compute|done|]. by exists t.
  - destruct (strncmp_eq_prefix (str "/***DVD***/") path) as (t & ->);
      [by apply (bool_decide_unpack _); vm_compute|done|]. by exists t.
  - intros (t & ->)%starts_with_spec. by exists t.
Qed.

Lemma suffix_of_props path want :
  CR ∉ path -> starts_with [slash] (normalize_path path false) = true ->
  unsecure_path (normalize_path path false) = false ->
  let x := suffix_of path want in
  backslash ∉ x /\ CR ∉ x /\ (exists s, x = slash :: s) /\ unsecure_path x = false.
Proof.
  intros Hc Hs Hu. unfold suffix_of.
  pose proof (normalize_path_no_CR _ Hc) as Hc'.
  pose proof (normalize_path_no_backslash path false) as Hb'.
  set (p := normalize_path path false) in *. clearbody p. cbn zeta.
  destruct want.
  - split; [|split; [|split; [by apply viso_prefix_slash|by rewrite unsecure_viso_prefix]]];
      destruct (viso_prefix_drop p) as (k & ->); intros Hin; [apply Hb'|apply Hc'];
      rewrite <- (take_drop k p); by apply elem_of_app; right.
  - apply starts_with_spec in Hs as (t & ->). split; [done|]. split; [done|]. split; [by exists t|done].
Qed.

(** Without a carriage return in the path, the part below the root is safe. *)
Lemma translate_confined_lemma path want w r v w' :
  good_root root_directory -> CR ∉ path -> translate path want w = Some (Some r, v, w') ->
  confined root_directory r \/ exists p, confined root_directory p /\ from_ini w p r.
Proof.
  intros Hroot Hc Ht. apply translate_sound in Ht as (Hs & Hu & Hr); [|done].
  destruct (suffix_of_props path want Hc Hs Hu) as (Hb & Hc' & (s & Hslash) & Hu').
  set (x := suffix_of path want) in *. clearbody x.
  rewrite (normalize_path_id x true) in Hr by done. set (y := strip_right (Z.eqb slash) x) in *.
  assert (confined root_directory (root_directory ++ y)) as Hconf.
  { destruct (strip_right_split (Z.eqb slash) x) as (t & Hx & Ht). exists y.
    split; [done|]. split.
    - fold y in Hx. rewrite Hslash in Hx. destruct y as [|c y]; [by left|right].
      injection Hx as -> _. by eexists.
    - destruct (unsecure_path y) eqn:Ey; [|done].
      fold y in Hx. rewrite Hx in Hu'. rewrite unsecure_slashes in Hu'; done. }
  assert (normalize_path (root_directory ++ y) false = root_directory ++ y) as Hid.
  { unfold normalize_path. rewrite fmap_app, fmap_slash_id, fmap_slash_id;
      [|intros Hin; apply Hb; by eapply strip_right_subset|apply Hroot].
    rewrite strip_right_app; [|intros c Hl; apply Z.eqb_neq; by destruct (gr_last _ Hroot c Hl)].
    rewrite (strip_right_id _ y); [done|]. intros c Hl. apply Z.eqb_neq. intros <-.
    apply Hc'. eapply strip_right_subset. by apply last_Some_elem_of. }
  rewrite Hid in Hr. destruct Hr as [->|Hr]; [by left|right]. by exists (root_directory ++ y).
Qed.

Lemma find_ini_none k i p_len p w :
  0 < blen root_directory -> blen root_directory - 1 <= i <= p_len ->
  blen p + 4 < MAX_LINK_LEN -> i - blen root_directory + 1 < Z.of_nat k ->
  (forall j, file_at w (take j p ++ str ".INI") = Missing) ->
  exists w', find_ini root_directory st_uninit k i p_len p w = Some (None, w') /\
    keeps_fs any_fd w w' /\ keeps_net w w'.
Proof.
  intros Hroot Hi Hp Hk Hmiss. revert i w Hi Hk Hmiss. induction k as [|k IH]; intros i w Hi Hk Hmiss; [lia|].
  cbn [find_ini]. destruct (Z.ltb_spec i 0); [lia|].
  destruct (Z.ltb_spec i (blen root_directory)); [by eauto with netsrv|].
  destruct (_ || _); [|apply IH; done || lia].
  assert (blen (take (Z.to_nat i) p ++ str ".INI") <= blen p + 4) as Hl.
  { rewrite blen_app. unfold blen. rewrite length_take. cbn. lia. }
  destruct (Z.leb_spec MAX_LINK_LEN (blen (take (Z.to_nat i) p ++ str ".INI"))); [lia|].
  destruct (law_stat_missing _ _ (Hmiss (Z.to_nat i))) as (st & w1 & E). cbn [stat_file]. rewrite E.
  cbn [Z.ltb Z.leb Z.compare]. destruct (law_stat _ _ _ _ _ E) as [Hfs Hn].
  destruct (IH (i - 1) w1) as (w2 & -> & Hfs2 & Hn2); [lia|lia|intros j; by rewrite (kf_path _ _ _ Hfs)|].
  exists w2. split; [done|]. split; [by eapply keeps_fs_trans|by eapply keeps_net_trans].
Qed.

(** With no [.INI] file around, the call is defined, terminates and answers the
    normalised path below the root when there is memory for it. *)
Lemma translate_no_ini path want w :
  let path' := normalize_path path false in
  let p := root_directory ++ normalize_path (suffix_of path want) true in
  let ok := (sys_malloc (MAX_PATH_LEN + blen root_directory + blen path' + 1) w).1 in
  good_root root_directory -> 0 < blen root_directory ->
  blen p + 4 < MAX_LINK_LEN ->
  (forall j, file_at w (take j p ++ str ".INI") = Missing) ->
  starts_with [slash] path' = true -> unsecure_path path' = false ->
  exists w', translate path want w =
      Some (if ok then Some (normalize_path p false) else None,
            if ok && want then (viso_prefix path').1 else VISO_NONE, w') /\
    keeps_fs any_fd w w' /\ keeps_net w w'.
Proof.
  intros path' p ok Hroot Hr Hlen Hini Hs Hu. unfold ok, translate_path. fold path'. rewrite Hs, Hu. cbn [negb].
  clear ok. destruct (sys_malloc _ w) as [ok w1] eqn:Em. apply law_malloc in Em as [Hfs1 Hn1].
  destruct ok; cbn [negb fst andb]; [|by exists w1].
  assert ((if want then viso_prefix path' else (VISO_NONE, path')) =
    (if want then (viso_prefix path').1 else VISO_NONE, suffix_of path want)) as ->.
  { unfold suffix_of. fold path'. destruct want; [by destruct (viso_prefix path')|done]. }
  rewrite normalize_path_root by done. fold p. cbn [stat_file].
  destruct (sys_stat p w1) as [[r st] w2] eqn:E. apply law_stat in E as [Hfs2 Hn2].
  pose proof (keeps_fs_trans _ _ _ _ Hfs1 Hfs2) as Hfs. pose proof (keeps_net_trans _ _ _ Hn1 Hn2) as Hn.
  assert (exists w3, merge_dirs root_directory st_uninit (blen root_directory + blen (suffix_of path want)) p w2
      = Some (None, w3) /\ keeps_fs any_fd w2 w3 /\ keeps_net w2 w3) as (w3 & Hmerge & Hfs3 & Hn3).
  { unfold merge_dirs. pose proof (blen_normalize_path (suffix_of path want) true).
    pose proof (blen_nonneg (suffix_of path want)).
    edestruct (find_ini_none (Z.to_nat (blen root_directory + blen (suffix_of path want) -
      blen root_directory) + 2)) as (w3 & -> & Hk); [done| |done| | |by eexists]; [lia|lia|].
    intros j. by rewrite (kf_path _ _ _ Hfs). }
  destruct (Z.ltb_spec r 0) as [Hneg|Hpos].
  - destruct (Z.ltb_spec r 0); [|lia]. rewrite Hmerge. exists w3. split; [done|].
    split; [by eapply keeps_fs_trans|by eapply keeps_net_trans].
  - by exists w2.
Qed.
End spec.

(** ** Properties *)

Section properties.
Context {W : Type} `{PosixLaws W}.
Variables (root_directory : bytes) (st_uninit : file_stat_t).
Abbreviation translate := (translate_path root_directory st_uninit).
Implicit Types (w : W) (path p : bytes).


(** A path whose first [/..] is a parent directory is refused, whatever the
    file system holds: no call is made. *)
Theorem translate_refuses_parent path pre want w :
  parent_at pre (normalize_path path false) ->
  strstr (normalize_path path false) dotdot = Some (blen pre) ->
  translate path want w = Some (None, VISO_NONE, w).
Proof.
  intros Hp Hs. unfold translate_path. destruct (starts_with _ _); [|done]. cbn [negb].
  by rewrite (unsecure_first _ pre).
Qed.


(** C40. The path "/..", carriage return, "/" passes the check for parent
    directories, but the carriage return is removed after it: the result is the
    parent of the shared directory. *)
Theorem carriage_return_escapes want w :
  let p := root_directory ++ str "/.." ++ [CR] in
  good_root root_directory -> 0 < blen root_directory -> blen p + 4 < MAX_LINK_LEN ->
  file_at w p = Missing -> (forall j, file_at w (take j p ++ str ".INI") = Missing) ->
  (sys_malloc (MAX_PATH_LEN + blen root_directory + 5 + 1) w).1 = true ->
  exists v w', translate (str "/.." ++ [CR; slash]) want w = Some (Some (root_directory ++ str "/.."), v, w').
Proof.
  intros p Hroot Hlen Hp Hmiss Hini Hm.
  assert (root_directory ++ normalize_path (suffix_of (str "/.." ++ [CR; slash]) want) true = p) as Ep
    by by destruct want.
  destruct (translate_no_ini root_directory st_uninit (str "/.." ++ [CR; slash]) want w) as (w' & E & _);
    rewrite ?Ep; try done. rewrite Ep in E.
  change (blen (normalize_path (str "/.." ++ [CR; slash]) false)) with 5 in E. rewrite Hm in E.
  eexists _, w'. rewrite E. do 3 f_equal.
  unfold p, normalize_path. rewrite fmap_app, fmap_slash_id by apply Hroot.
  rewrite strip_right_app; [done|]. intros c Hc. apply Z.eqb_neq. by destruct (gr_last _ Hroot c Hc).
Qed.
End properties.

Lemma good_root_srv : good_root root.
Proof. split; [concrete|]. intros c [= <-]. done. Qed.

Lemma translate_refuses_parent_witness :
  translate_path root st0 (str "/GAMES\..\..") true sim0 = Some (None, VISO_NONE, sim0).
Proof.
  apply (translate_refuses_parent root st0 (str "/GAMES\..\..") (str "/GAMES")); [|concrete].
  exists (str "/.."). split; [concrete|]. right. exists (str ".."). concrete.
Defined.

(** No path of the concrete system ends in [.INI]. *)
Lemma no_ini_file p : file_at sim0 (p ++ str ".INI") = Missing.
Proof.
  assert (forall q, last q <> Some 73 -> p ++ str ".INI" <> q) as Hne.
  { intros q Hq <-. apply Hq. by rewrite last_app. }
  cbn [file_at Sim.view sim0 Sim.files Sim.dirs].
  rewrite !lookup_insert_ne, lookup_singleton_ne by (apply not_eq_sym, Hne; by vm_compute).
  by rewrite lookup_singleton_ne by (apply not_eq_sym, Hne; by vm_compute).
Qed.


Lemma carriage_return_escapes_witness :
  exists v w', translate_path root st0 (str "/.." ++ [CR; slash]) true sim0 = Some (Some (root ++ str "/.."), v, w').
Proof.
  apply (carriage_return_escapes root st0 true sim0);
    [apply good_root_srv|concrete|concrete|concrete|intros j; apply no_ini_file|concrete].
Defined.

(** Only the first [/..] of a path is looked at: below a directory whose name
    begins with two dots, parent directories are let through. *)
Theorem second_parent_accepted :
  translate_path root st0 (str "/..a/../../etc/passwd") false sim0 =
    Some (Some (str "/srv/..a/../../etc/passwd"), VISO_NONE, sim0).
Proof. by vm_compute. Qed.

(** A system with a merged directory whose [.INI] ends in an empty line. *)
Definition sim_ini : Sim.sim :=
  Sim.mk_sim {[ str "/srv/GAMES.INI" := str "/mnt/games" ++ [LF; LF]; str "/etc/passwd" := [1] ]}
    ∅ [] [] ∅ ∅ [] [] false.

(** An empty line at the end of an [.INI] file names the root of the file
    system: what a client asks for below the merged directory is then looked up
    there, outside of all shared directories. *)
Theorem empty_ini_line_escapes :
  exists w', translate_path root st0 (str "/GAMES/etc/passwd") false sim_ini =
    Some (Some (str "/etc/passwd"), VISO_NONE, w').
Proof. eexists. by vm_compute. Qed.

