(* ===== verification/OpenCmd.v ===== *)
(** * process_open_cmd of main.cpp

    Receives a path, closes the file the connection had open, opens the new one
    (a [File], or a virtual image when the path asks for it), answers its size
    and time, and looks for the sector size of a CD image. *)

From S2P Require Import Prelude Endian Os CString AbsFile FileIso Client ReadCmds Paths.

Section open.
Context {W R : Type} `{Posix W, Aes, AbstractFile R W, RoFactory R}.
Variables (root_directory : bytes) (st_uninit : file_stat_t).
Implicit Types (c : client_t R) (w : W) (f : R) (m : mem) (cmd : bytes).

(** What precedes the body of the commands that carry a path: the buffer for it
    and the path itself.  [None]: the allocation failed; [Some None]: the path
    did not arrive whole. *)
Definition recv_path c (fp_len : Z) w : option (option bytes) * W :=
  let '(ok, w) := sys_malloc (MAX_PATH_LEN + fp_len + 1) w in
  if negb ok then (None, w)
  else
    let '(ret, d, w) := sys_recv (s c) fp_len w in
    (Some (if ret =? fp_len then Some (cstr d) else None), w).

Definition sec_size : list Z := [2352; 2048; 2336; 2448; 2328; 2368; 2340].

(** [memcmp(buffer + o, s, n) == 0] *)
Definition buffer_is m (o : Z) (d : bytes) : bool := bytes_eqb (mload m o (blen d)) d.

(** The loop that detects the sector size of a CD image. *)
Fixpoint detect_cd (sizes : list Z) f m c w : client_t R * W :=
  match sizes with
  | [] => (put_read f m c, w)
  | n :: sizes =>
      let '(_, f, w) := af_seek (Z.shiftl n 4 + 0x18) SEEK_SET f w in
      let '(_, m, f, w) := af_read m 0 0xC f w in
      if buffer_is m 8 (str "PLAYSTATION ") then (set_cd n (put_read f m c), w)
      else
        let '(_, m, f, w) := af_read m 0 5 f w in
        if buffer_is m 1 (str "CD001") && (m 0 =? 1) then (set_cd n (put_read f m c), w)
        else detect_cd sizes f m c w
  end.

(** The label [send_result]. *)
Definition open_result (ret file_size mtime : Z) c w : option (Z * client_t R * W) :=
  let '(r, w) := sys_send (s c)
                   (netiso_open_result (BE64 (u64 file_size)) (BE64 (u64 mtime))) w in
  if negb (r =? 16) then Some (FAILED, c, w) else Some (ret, c, w).

Definition open_failed c w : option (Z * client_t R * W) := open_result FAILED NONE 0 c w.

(** From the translated path on. *)
Definition open_translated (filepath : bytes) (viso : viso_t) m c w
    : option (Z * client_t R * W) :=
  let f := if decide (viso = VISO_NONE) then new_File
           else new_VIsoFile (bool_decide (viso = VISO_PS3)) in
  let c := set_cd 2352 c in
  let? (r, f, w) := af_open (Some filepath) O_RDONLY f w in
  if r <? 0 then open_failed (set_ro None c) (af_delete f w)
  else
    let '(r, st, f, w) := af_fstat st_uninit f w in
    if r <? 0 then open_failed (set_ro None c) (af_delete f w)
    else
      let c := set_size (file_size st) (eof_pad_logged c) (set_ro (Some f) c) in
      let '(c, w) :=
        if IS_RANGE (file_size st) 0x200000 0x35000000 then detect_cd sec_size f m c w
        else (c, w) in
      open_result SUCCEEDED (file_size st) (st_mtime st) c w.

(** [heap]: the indeterminate contents of the path's buffer.  The number of
    bytes received is kept in 16 bits. *)
Definition process_open_cmd (heap : mem) cmd c w : option (Z * client_t R * W) :=
  match buf c with
  | None => open_failed c w
  | Some m =>
      let fp_len := cmd_path_len cmd in
      if fp_len =? 0 then open_failed c w
      else
        let '(ok, w) := sys_malloc (MAX_PATH_LEN + fp_len + 1) w in
        if negb ok then open_failed c w
        else
          let '(ret, d, w) := sys_recv (s c) fp_len w in
          let rlen := u16 ret in
          let filepath := cstr (mload (mstore heap 0 d) 0 fp_len) in
          if negb (rlen =? fp_len) then open_failed c w
          else
            let w := delete_ro c w in
            let c := set_size 0 false (set_ro None c) in
            if (fp_len =? 10) && bytes_eqb filepath (str "/CLOSEFILE") then
              open_result SUCCEEDED NONE 0 c w
            else
              let? (filepath, viso, w) := translate_path root_directory st_uninit filepath true w in
              match filepath with
              | None => open_failed c w
              | Some filepath => open_translated filepath viso m c w
              end
  end.
End open.
