(* ===== verification/OpenSpec.v ===== *)
(** * What opening a file gives a client

    The answer of process_open_cmd for a plain file, and the connection it leaves
    behind: one that serves the file's contents to the read commands. *)

From S2P Require Import Prelude Endian Os Stream CString AbsFile FileIso Client RoFile FileOpen.
From S2P Require Import Scenario ReadCmds ReadSpec Paths OpenCmd.

Section open.
Context {W R : Type} `{PosixLaws W, Aes, !AbstractFile R W, !AbstractFileView R W,
                       !AbstractFileLaws R W, !RoFactory R, !RoLaws R W}.
Variables (root_directory : bytes) (st_uninit : file_stat_t).
Implicit Types (c : client_t R) (w : W) (f : R) (m : mem) (cmd content : bytes).

Lemma seek_bulk f w content q off :
  af_view f w = Some (content, q) -> supportsBulkRead f = true -> 0 <= off < 2 ^ 63 ->
  exists r f1 w1, af_seek off SEEK_SET f w = (r, f1, w1) /\ keeps_net w w1 /\
    supportsBulkRead f1 = true /\ af_view f1 w1 = Some (content, off).
Proof.
  intros Hv Hb Ho. destruct (afl_seek f w content q off Hv Ho) as (r & f1 & w1 & -> & Hnet & Hb1 & Hr).
  exists r, f1, w1. rewrite Hb1. destruct Hr as [[Hr Hv1]|(_ & _ & Hnb & _)]; [done|congruence].
Qed.

Lemma detect_cd_spec content sizes : forall f m c w q,
  Forall (fun n => 0 <= n < 2 ^ 16) sizes ->
  af_view f w = Some (content, q) -> supportsBulkRead f = true -> ro_file_size c = blen content ->
  exists f' m' q' cd w', detect_cd sizes f m c w = (set_cd cd (put_read f' m' c), w') /\
    keeps_net w w' /\ af_view f' w' = Some (content, q') /\ supportsBulkRead f' = true /\
    (cd = CD_SECTOR_SIZE c \/ cd ∈ sizes) /\ same_outside 0 BUFFER_SIZE m m'.
Proof.
  induction sizes as [|n sizes IH]; intros f m c w q Hs Hv Hb Hsz; cbn [detect_cd].
  { exists f, m, q, (CD_SECTOR_SIZE c), w. split; [by destruct c|]. repeat split; auto with netsrv. }
  inversion_clear Hs as [|? ? Hn Hs'].
  assert (0 <= Z.shiftl n 4 + 24 < 2 ^ 63) as Hoff by (rewrite Z.shiftl_mul_pow2; lia).
  destruct (seek_bulk f w content q (Z.shiftl n 4 + 24) Hv Hb Hoff) as (r0 & f1 & w1 & -> & Hn1 & Hb1 & Hv1).
  destruct (afl_read f1 w1 content _ m 0 12 Hv1 ltac:(lia))
    as (r1 & m1 & f2 & w2 & -> & Hn2 & Hb2 & Hr1 & _ & Hm1 & Hv2 & _).
  rewrite Hb1 in Hb2. assert (same_outside 0 BUFFER_SIZE m m1) as Hout1
    by (eapply same_outside_weaken; [done|lia|unfold BUFFER_SIZE; lia]).
  assert (keeps_net w w2) as Hn12 by by eapply keeps_net_trans.
  destruct (buffer_is m1 8 _).
  { exists f2, m1, (Z.shiftl n 4 + 24 + r1), n, w2. split; [done|]. split; [done|]. split; [done|].
    split; [done|]. split; [right; by left|done]. }
  destruct (afl_read f2 w2 content _ m1 0 5 Hv2 ltac:(lia))
    as (r2 & m2 & f3 & w3 & -> & Hn3 & Hb3 & Hr2 & _ & Hm2 & Hv3 & _).
  rewrite Hb2 in Hb3. assert (same_outside 0 BUFFER_SIZE m m2) as Hout2.
  { eapply same_outside_trans; [done|].
    eapply same_outside_weaken; [done|lia|unfold BUFFER_SIZE; lia]. }
  assert (keeps_net w w3) as Hn13 by by eapply keeps_net_trans.
  destruct (_ && _).
  { eexists f3, m2, _, n, w3. split; [done|]. split; [done|]. split; [done|].
    split; [done|]. split; [right; by left|done]. }
  destruct (IH f3 m2 c w3 _ Hs' Hv3 Hb3 Hsz) as (f' & m' & q' & cd & w' & -> & Hn' & Hv' & Hb' & Hcd & Hm').
  exists f', m', q', cd, w'. split; [done|]. split; [by eapply keeps_net_trans|]. split; [done|].
  split; [done|]. split; [destruct Hcd; [by left|right; by right]|by eapply same_outside_trans].
Qed.

(** The object that the path asks for. *)
Definition new_ro (viso : viso_t) : R :=
  if decide (viso = VISO_NONE) then new_File else new_VIsoFile (bool_decide (viso = VISO_PS3)).

(** The time that fstat answers of an object. *)
Definition time_of f w (t : Z) : Prop :=
  exists st f' w', af_fstat st_uninit f w = (0, st, f', w') /\ t = u64 (st_mtime st).

(** An object that opens with some contents: their size and its time are answered,
    and they are served. *)
Lemma open_serves p viso content m c w f w1 :
  af_open (Some p) O_RDONLY (new_ro viso) w = Some (SUCCEEDED, f, w1) ->
  af_view f w1 = Some (content, 0) -> supportsBulkRead f = true -> keeps_net w w1 -> buf c = Some m ->
  exists r c' w' mtime, open_translated st_uninit p viso m c w = Some (r, c', w') /\
    s c' = s c /\ time_of f w1 mtime /\
    (r = SUCCEEDED ->
     sent w' (s c) = sent w (s c) ++ be_bytes 8 (u64 (blen content)) ++ be_bytes 8 mtime) /\
    (writable w (s c) -> r = SUCCEEDED /\ writable w' (s c)) /\
    (CD_SECTOR_SIZE c' = 2352 \/ CD_SECTOR_SIZE c' ∈ sec_size) /\
    exists f' m' q', serving c' w' content f' m' q' /\ supportsBulkRead f' = true /\
      same_outside 0 BUFFER_SIZE m m'.
Proof.
  intros Eopen Hv Hb Hn1 Hm. unfold open_translated. fold (new_ro viso). cbv zeta. rewrite Eopen.
  cbn [SUCCEEDED Z.ltb Z.compare].
  destruct (afl_fstat f w1 content 0 st_uninit Hv) as (st & f1 & w2 & Est & Hn2 & Hb1 & Hst & Hv1). rewrite Est.
  cbn [Z.ltb Z.compare]. rewrite Hb in Hb1.
  set (c1 := set_size _ _ _).
  assert (keeps_net w w2) as Hn12 by by eapply keeps_net_trans.
  assert (exists f' m' q' cd w', (if IS_RANGE (file_size st) 2097152 889192448
      then detect_cd sec_size f1 m c1 w2 else (c1, w2)) = (set_cd cd (put_read f' m' c1), w') /\
    keeps_net w w' /\ af_view f' w' = Some (content, q') /\ supportsBulkRead f' = true /\
    (cd = 2352 \/ cd ∈ sec_size) /\ same_outside 0 BUFFER_SIZE m m')
    as (f' & m' & q' & cd & w3 & -> & Hn3 & Hv3 & Hb3 & Hcd & Hout).
  { destruct (IS_RANGE _ _ _).
    - destruct (detect_cd_spec content sec_size f1 m c1 w2 0) as
        (f' & m' & q' & cd & w3 & E & Hn' & Hv' & Hb' & Hcd & Hm'); try done.
      { by repeat constructor. }
      exists f', m', q', cd, w3. split; [done|]. split; [by eapply keeps_net_trans|done].
    - exists f1, m, 0, 2352, w2.
      assert (c1 = set_cd 2352 (put_read f1 m c1)) as <- by (subst c1; clear - Hm; destruct c; cbn in *; by subst).
      split; [done|]. split; [done|]. split; [done|]. split; [done|]. split; [by left|done]. }
  unfold open_result. cbn [s set_cd put_read set_buf set_ro set_size c1].
  unfold netiso_open_result. rewrite !BE64_store.
  destruct (sys_send (s c) _ w3) as [sr w4] eqn:Hsend.
  pose proof (send_view _ _ _ _ _ f' Hsend) as Hv4. rewrite Hv3 in Hv4.
  apply law_send in Hsend as (_ & _ & _ & Hfull & Hlive).
  rewrite blen_app, !blen_be_bytes in Hfull, Hlive. cbn [Z.of_nat Pos.of_succ_nat Pos.succ Z.add Pos.add] in *.
  rewrite (kn_sent _ _ Hn3), Hst in Hfull.
  exists (if negb (sr =? 16) then FAILED else SUCCEEDED), (set_cd cd (put_read f' m' c1)), w4,
    (u64 (st_mtime st)).
  split; [by destruct (sr =? 16)|]. split; [done|]. split; [by exists st, f1, w2|].
  split; [|split; [|split; [done|]]].
  - destruct (Z.eqb_spec sr 16); [|done]. intros _. by apply Hfull.
  - intros Hw. destruct (Hlive (kn_writable _ _ Hn3 _ Hw)) as [-> Hw']. done.
  - exists f', m', q'. split; [|done]. by split.
Qed.

(** Opening a plain file: its size and time are answered, and it is served. *)
Lemma open_translated_spec `{!StreamView W, !RoTimes R W} p content m c w :
  ro_plain p = true -> file_at w p = Regular content -> buf c = Some m ->
  exists r c' w', open_translated st_uninit p VISO_NONE m c w = Some (r, c', w') /\
    s c' = s c /\
    (r = SUCCEEDED ->
     sent w' (s c) = sent w (s c) ++ be_bytes 8 (u64 (blen content)) ++ be_bytes 8 (u64 (mtime_at w p))) /\
    (writable w (s c) -> r = SUCCEEDED /\ writable w' (s c)) /\
    (CD_SECTOR_SIZE c' = 2352 \/ CD_SECTOR_SIZE c' ∈ sec_size) /\
    exists f' m' q', serving c' w' content f' m' q' /\ supportsBulkRead f' = true /\
      same_outside 0 BUFFER_SIZE m m'.
Proof.
  intros Hp Hc Hm. destruct (rol_open p content w Hp Hc) as (f & w1 & E & Hv & Hb & Hn1).
  destruct (open_serves p VISO_NONE content m c w f w1 E Hv Hb Hn1 Hm)
    as (r & c' & w' & mtime & Eo & Hs & (st & f2 & w2 & Est & ->) & Hrest).
  exists r, c', w'. split; [exact Eo|]. split; [exact Hs|].
  by rewrite <- (rot_mtime p content w f w1 st_uninit st f2 w2 Hp Hc E Est).
Qed.
End open.

Section session.
Context {W R : Type} `{PosixLaws W, Aes, !AbstractFile R W, !AbstractFileView R W,
                       !AbstractFileLaws R W, !RoFactory R, !RoLaws R W}.
Variable st_uninit : file_stat_t.

(** A READ_FILE_CRITICAL after an object has been opened. *)
Lemma open_read p viso content m (c : client_t R) (w : W) f w0 cmd :
  af_open (Some p) O_RDONLY (new_ro viso) w = Some (SUCCEEDED, f, w0) ->
  af_view f w0 = Some (content, 0) -> supportsBulkRead f = true -> keeps_net w w0 ->
  buf c = Some m -> writable w (s c) ->
  Forall is_byte cmd -> blen cmd = netiso_cmd_size -> cmd_offset cmd < 2 ^ 63 ->
  exists c1 w1 c2 w2 mtime,
    open_translated st_uninit p viso m c w = Some (SUCCEEDED, c1, w1) /\ time_of st_uninit f w0 mtime /\
    process_read_file_critical cmd c1 w1 = Some (SUCCEEDED, c2, w2) /\
    sent w2 (s c) = sent w (s c) ++ be_bytes 8 (u64 (blen content)) ++ be_bytes 8 mtime ++
      padded content (cmd_offset cmd) (cmd_num_bytes cmd).
Proof.
  intros Eo Hv Hb0 Hn Hm Hw Hb Hl Ho.
  destruct (open_serves st_uninit p viso content m c w f w0 Eo Hv Hb0 Hn Hm)
    as (r & c1 & w1 & mtime & E & Hs & Ht & Hsent & Hlive & _ & f' & m' & q' & Hsv & Hbulk & _).
  destruct (Hlive Hw) as [-> Hw1]. rewrite <- Hs in Hw1.
  destruct (read_file_critical_spec cmd c1 w1 content f' m' q') as (r & c2 & w2 & E2 & HA);
    [done..|by left|].
  destruct (an_live _ _ _ _ _ _ _ _ _ HA Hbulk Hw1) as [-> _].
  exists c1, w1, c2, w2, mtime. split; [done|]. split; [done|]. split; [done|].
  rewrite <- Hs, (an_exact _ _ _ _ _ _ _ _ _ HA eq_refl), Hs, Hsent by done. by rewrite <- !app_assoc.
Qed.

(** C5. A session: a client that opens a plain file (one part, no key, readable) by its
    translated path is sent its size and the time of its last modification, and a
    READ_FILE_CRITICAL that follows is sent exactly the bytes of the file it asks
    for, zeros past the end; the client reads what it is sent, and the offset is
    below 2^63. *)
Theorem open_then_read `{!StreamView W, !RoTimes R W} p content m (c : client_t R) (w : W) cmd :
  ro_plain p = true -> file_at w p = Regular content -> buf c = Some m -> writable w (s c) ->
  Forall is_byte cmd -> blen cmd = netiso_cmd_size -> cmd_offset cmd < 2 ^ 63 ->
  exists c1 w1 c2 w2,
    open_translated st_uninit p VISO_NONE m c w = Some (SUCCEEDED, c1, w1) /\
    process_read_file_critical cmd c1 w1 = Some (SUCCEEDED, c2, w2) /\
    sent w2 (s c) = sent w (s c) ++ be_bytes 8 (u64 (blen content)) ++ be_bytes 8 (u64 (mtime_at w p)) ++
      padded content (cmd_offset cmd) (cmd_num_bytes cmd).
Proof.
  intros Hp Hc Hm Hw Hb Hl Ho. destruct (rol_open p content w Hp Hc) as (f & w0 & E & Hv & Hbulk & Hn).
  destruct (open_read p VISO_NONE content m c w f w0 cmd E Hv Hbulk Hn Hm Hw Hb Hl Ho)
    as (c1 & w1 & c2 & w2 & mtime & E1 & (st & f2 & w3 & Est & ->) & E2 & Hsent).
  exists c1, w1, c2, w2. split; [exact E1|]. split; [exact E2|].
  by rewrite Hsent, (rot_mtime p content w f w0 st_uninit st f2 w3 Hp Hc E Est).
Qed.
End session.

Definition client_new : client_t ro := set_ro None (client0 ro_a 0).

Lemma open_then_read_witness :
  let cmd := cmd_read NETISO_CMD_READ_FILE_CRITICAL 6 3 in
  exists c1 w1 c2 w2,
    open_translated st0 path_a VISO_NONE (zext []) client_new sim0 = Some (SUCCEEDED, c1, w1) /\
    process_read_file_critical cmd c1 w1 = Some (SUCCEEDED, c2, w2) /\
    sent w2 (s client_new) = be_bytes 8 5 ++ be_bytes 8 1 ++ [13; 14; 0; 0; 0; 0].
Proof.
  intros cmd. destruct (open_then_read st0 path_a data_a (zext []) client_new sim0
    (cmd_read NETISO_CMD_READ_FILE_CRITICAL 6 3)) as (c1 & w1 & c2 & w2 & E1 & E2 & Hs); [concrete..|]. exists c1, w1, c2, w2. split; [exact E1|]. split; [exact E2|]. rewrite Hs. by vm_compute.
Defined.
