(* ===== verification/FileCmds.v ===== *)
(** * The commands on files of main.cpp

    process_create_cmd, process_write_file_cmd, process_delete_file_cmd,
    process_mkdir_cmd, process_rmdir_cmd, process_stat_cmd and
    process_get_dir_size_cmd with calculate_directory_size. *)

From S2P Require Import Prelude Endian Os CString AbsFile FileIso Client Paths OpenCmd.

Section commands.
Context {W R : Type} `{Posix W, Aes, AbstractFile R W}.
Variables (root_directory : bytes) (root_len make_iso : Z) (st_uninit : file_stat_t).
(** The indeterminate storage of a new [File]. *)
Variable this : File.
Implicit Types (c : client_t R) (w : W) (cmd : bytes).
Abbreviation result c w := (option (Z * client_t R * W)).

(** Send [d]; a send that is not whole is an error. *)
Definition send_result (ret : Z) (d : bytes) c w : Z * client_t R * W :=
  let '(r, w) := sys_send (s c) d w in
  if negb (r =? blen d) then (FAILED, c, w) else (ret, c, w).

(** The commands that are one call on the path: [call] is the call and the
    result it answers. *)
Definition process_path_cmd (call : bytes -> W -> bytes * W) cmd c w
    : option (Z * client_t R * W) :=
  let '(path, w) := recv_path c (cmd_path_len cmd) w in
  match path with
  | None | Some None => Some (FAILED, c, w)
  | Some (Some path) =>
      let? (path, _, w) := translate_path root_directory st_uninit path false w in
      match path with
      | None => Some (FAILED, c, w)
      | Some path =>
          let '(d, w) := call path w in
          Some (send_result SUCCEEDED d c w)
      end
  end.

Definition int32_call (call : bytes -> W -> Z * W) (path : bytes) w : bytes * W :=
  let '(r, w) := call path w in (netiso_int32_result (BE32 (u32 r)), w).

Definition process_delete_file_cmd := process_path_cmd (int32_call sys_unlink).
Definition process_mkdir_cmd := process_path_cmd (int32_call sys_mkdir).
Definition process_rmdir_cmd := process_path_cmd (int32_call sys_rmdir).

(** *** stat *)

(** [st_uninit] and [res]: the indeterminate contents of the locals [st] and
    [result], sent as they are where the code does not set them. *)
Definition stat_call (res : file_stat_t * Z) (path : bytes) w : bytes * W :=
  let '(uninit, is_directory) := res in
  let '(r, st, w) := stat_file (Some path) st_uninit w in
  if (r <? 0) && negb (isSome (strstr path (str "/is_ps3_compat1/"))) then
    (netiso_stat_result (BE64 (u64 NONE)) (st_mtime uninit) (st_ctime uninit) (st_atime uninit)
       is_directory, w)
  else
    let '(file_size, is_directory) :=
      if is_dir st then (BE64 0, 1) else (BE64 (u64 (file_size st)), 0) in
    (netiso_stat_result file_size (BE64 (u64 (st_mtime st))) (BE64 (u64 (st_ctime st)))
       (BE64 (u64 (st_atime st))) is_directory, w).

Definition process_stat_cmd (res : file_stat_t * Z) := process_path_cmd (stat_call res).

(** *** get_dir_size *)

(** The loop over the open directory [d], whose path with a slash is [newpath];
    [nested] is the recursive call.  Every entry costs one unit of fuel. *)
Fixpoint dir_size_loop (nested : bytes -> W -> option (Z * W)) (k : nat) (d : Z) (newpath : bytes)
    (result : Z) w : option (Z * W) :=
  match k with
  | O => None
  | S k =>
      let '(entry, w) := sys_readdir d w in
      match entry with
      | None => Some (result, w)
      | Some d_name =>
          if IS_PARENT_DIR d_name then dir_size_loop nested k d newpath result w
          else if negb (IS_RANGE (blen d_name) 1 MAX_FILE_LEN) then
            dir_size_loop nested k d newpath result w
          else
            let '(r, st, w) := stat_file (Some (newpath ++ d_name)) st_uninit w in
            if r <? 0 then Some (FAILED, w)
            else if is_dir st then
              let? (temp, w) := nested (newpath ++ d_name) w in
              if temp <? 0 then Some (temp, w)
              else dir_size_loop nested k d newpath (s64 (result + temp)) w
            else if is_reg st then
              dir_size_loop nested k d newpath (s64 (result + file_size st)) w
            else dir_size_loop nested k d newpath result w
      end
  end.

(** Every level of recursion below [path] costs one unit of [fuel]; [None] when
    a fuel runs out. *)
Fixpoint calculate_directory_size (fuel entries : nat) (path : bytes) w : option (Z * W) :=
  match fuel with
  | O => None
  | S fuel =>
      let '(r, _, w) := stat_file (Some path) st_uninit w in
      if r <? 0 then Some (FAILED, w)
      else
        let '(d, w) := sys_opendir path w in
        match d with
        | None => Some (FAILED, w)
        | Some d =>
            let? (result, w) :=
              dir_size_loop (calculate_directory_size fuel entries) entries d (path ++ [slash]) 0 w in
            Some (result, sys_closedir d w)
        end
  end.

Definition process_get_dir_size_cmd (fuel entries : nat) cmd c w : option (Z * client_t R * W) :=
  let '(path, w) := recv_path c (cmd_path_len cmd) w in
  match path with
  | None | Some None => Some (FAILED, c, w)
  | Some (Some path) =>
      let? (path, _, w) := translate_path root_directory st_uninit path false w in
      match path with
      | None => Some (FAILED, c, w)
      | Some path =>
          let? (size, w) := calculate_directory_size fuel entries path w in
          Some (send_result SUCCEEDED (netiso_int64_result (BE64 (u64 size))) c w)
      end
  end.

(** *** create and write *)

Definition create_result (ret code : Z) c w : option (Z * client_t R * W) :=
  Some (send_result ret (netiso_int32_result (BE32 (u32 code))) c w).

Definition process_create_cmd cmd c w : option (Z * client_t R * W) :=
  let '(path, w) := recv_path c (cmd_path_len cmd) w in
  match path with
  | None => Some (FAILED, c, w)
  | Some None => create_result FAILED NONE c w
  | Some (Some path) =>
      let? (path, _, w) := translate_path root_directory st_uninit path false w in
      match path with
      | None => create_result FAILED NONE c w
      | Some path =>
          let w := delete_wo c w in
          let '(r, st, w) := stat_file (Some path) st_uninit w in
          if (0 <=? r) && is_dir st then create_result FAILED NONE (set_wo None c) w
          else
            let? (r, f, w) := File_open root_len make_iso st_uninit (Some path)
                                (Z.lor O_WRONLY (Z.lor O_CREAT O_TRUNC)) (File_ctor this) w in
            if r <? 0 then create_result FAILED NONE (set_wo None c) (File_delete f w)
            else create_result SUCCEEDED SUCCEEDED (set_wo (Some f) c) w
      end
  end.

Definition process_write_file_cmd cmd c w : Z * client_t R * W :=
  let write_size := cmd_num_bytes cmd in
  let answer ret code := send_result ret (netiso_int32_result (BE32 (u32 code))) in
  match wo_file c, buf c with
  | Some f, Some m =>
      if BUFFER_SIZE <? write_size then answer FAILED NONE c w
      else
        let '(ok, m, w) :=
          if 0 <? write_size then
            let '(ret, d, w) := sys_recv (s c) write_size w in
            (negb ((ret <? 0) || negb (u32 ret =? write_size)), mstore m 0 d, w)
          else (true, m, w) in
        let c := set_buf (Some m) c in
        if negb ok then answer FAILED NONE c w
        else
          let '(r, f, w) := File_write (mload m 0 write_size) f w in
          let bytes_written := s32 r in
          let c := set_wo (Some f) c in
          if 0 <=? bytes_written then answer SUCCEEDED bytes_written c w
          else answer FAILED NONE c w
  | _, _ => answer FAILED NONE c w
  end.
End commands.
