(* ===== verification/DirCmds.v ===== *)
(** * The commands on directories of main.cpp

    process_open_dir_cmd, process_read_dir_entry_cmd (both versions) and
    process_read_dir_cmd with process_read_dir.  The array of entries a
    READ_DIR fills is the list of those filled so far; filling one past the
    array is [None]. *)

From S2P Require Import Prelude Endian CMem Os CString AbsFile FileIso Client Paths OpenCmd.
From S2P Require Import FileCmds.

Section commands.
Context {W R : Type} `{Posix W, Aes, AbstractFile R W}.
Variables (root_directory : bytes) (st_uninit : file_stat_t).
Abbreviation root_len := (blen root_directory).
Implicit Types (c : client_t R) (w : W) (cmd : bytes).

Definition close_dir c w : client_t R * W :=
  (set_dir None None c, match dir c with Some d => sys_closedir d w | None => w end).

Definition process_open_dir_cmd cmd c w : option (Z * client_t R * W) :=
  let '(path, w) := recv_path c (cmd_path_len cmd) w in
  match path with
  | None | Some None => Some (FAILED, c, w)
  | Some (Some path) =>
      let c := set_subdirs (if isSome (strstr path (str "//")) then 1 else 0) c in
      let? (path, _, w) := translate_path root_directory st_uninit path false w in
      match path with
      | None => Some (FAILED, c, w)
      | Some path =>
          let '(c, w) := close_dir c w in
          let path := normalize_path path true in
          let '(r, _, w) := stat_file (Some path) st_uninit w in
          let '(d, w) := if 0 <=? r then sys_opendir path w else (None, w) in
          let '(c, code) := match d with
                            | None => (c, NONE)
                            | Some d => (set_dir (Some d) (Some (path ++ [slash])) c, SUCCEEDED)
                            end in
          Some (send_result SUCCEEDED (netiso_int32_result (BE32 (u32 code))) c w)
      end
  end.

(** *** One entry at a time *)

(** The next entry that is neither a parent directory nor too long. *)
Fixpoint next_entry (fuel : nat) (d : Z) w : option (option bytes * W) :=
  match fuel with
  | O => None
  | S fuel =>
      let '(entry, w) := sys_readdir d w in
      match entry with
      | None => Some (None, w)
      | Some d_name =>
          if IS_PARENT_DIR d_name then next_entry fuel d w
          else if IS_RANGE (blen d_name) 1 MAX_FILE_LEN then Some (Some d_name, w)
          else next_entry fuel d w
      end
  end.

(** The fields of [result_v1] / [result_v2] in host order (the swaps are
    applied on sending). *)
Record entry_result := mk_entry_result {
  er_size : Z; er_mtime : Z; er_ctime : Z; er_atime : Z; er_fn_len : Z; er_is_directory : Z;
}.

Definition no_entry : entry_result := mk_entry_result NONE 0 0 0 0 0.

Definition entry_bytes (version : Z) (e : entry_result) : bytes :=
  let be64 x := BE64 (u64 x) in
  if version =? 1 then
    netiso_read_dir_entry_result (be64 (er_size e)) (BE16 (u16 (er_fn_len e))) (er_is_directory e)
  else
    netiso_read_dir_entry_result_v2 (be64 (er_size e)) (be64 (er_mtime e)) (be64 (er_ctime e))
      (be64 (er_atime e)) (BE16 (u16 (er_fn_len e))) (er_is_directory e).

(** The label [send_result_read_dir]: the result, then the name unless the
    size sent is the error value. *)
Definition send_entry (version : Z) (e : entry_result) (d_name : bytes) c w : Z * client_t R * W :=
  let d := entry_bytes version e in
  let '(r, w) := sys_send (s c) d w in
  if negb (r =? blen d) then (FAILED, c, w)
  else if negb (u64 (er_size e) =? u64 NONE) then
    let '(r, w) := sys_send (s c) d_name w in
    let send_ret := s32 r in
    if (send_ret <? 0) || negb (u32 send_ret =? blen d_name) then (FAILED, c, w)
    else (SUCCEEDED, c, w)
  else (SUCCEEDED, c, w).

Definition process_read_dir_entry_cmd (fuel : nat) (version : Z) (cmd : bytes) c w
    : option (Z * client_t R * W) :=
  match dir c, dirpath c with
  | Some d, Some dp =>
      let? (entry, w) := next_entry fuel d w in
      match entry with
      | None =>
          let '(c, w) := close_dir c w in Some (send_entry version no_entry [] c w)
      | Some d_name =>
          let '(ok, w) := sys_malloc (MAX_PATH_LEN + blen dp + blen d_name + 2) w in
          if negb ok then
            (* the result is still all zeros *)
            Some (send_entry version (mk_entry_result 0 0 0 0 0 0) d_name c w)
          else
            let '(r, st, w) := stat_file (Some (dp ++ [slash] ++ d_name)) st_uninit w in
            if r <? 0 then
              let '(c, w) := close_dir c w in Some (send_entry version no_entry d_name c w)
            else
              let e := mk_entry_result (if is_dir st then 0 else file_size st)
                         (st_mtime st) (st_ctime st) (st_atime st) (blen d_name)
                         (if is_dir st then 1 else 0) in
              Some (send_entry version e d_name c w)
      end
  | _, _ => Some (send_entry version no_entry [] c w)
  end.

(** *** A whole directory *)

(** netiso_read_dir_result_data, as stored; [name] is NUL-terminated in 512 bytes. *)
Record dir_entry := mk_dir_entry {
  de_file_size : Z; de_mtime : Z; de_is_directory : Z; de_name : bytes;
}.

Definition dir_entry_bytes (e : dir_entry) : bytes :=
  le_bytes 8 (de_file_size e) ++ le_bytes 8 (de_mtime e) ++ le_bytes 1 (de_is_directory e) ++
  de_name e ++ replicate (Z.to_nat (512 - blen (de_name e))) 0.

Definition dir_entry_size : Z := 529.

(** [snprintf(name, 512, "%s", ...)] *)
Definition entry_name (d : bytes) : bytes := take 511 d.

Section process_read_dir.
(** The recursive call, on a path and the entries so far. *)
Variable nested : bytes -> list dir_entry -> W -> option (list dir_entry * W).
Variables (dirpath_len path_len max_items subdirs : Z).

(** The loop over the directory [d2], whose path with its slash is [path]. *)
Fixpoint read_dir_loop (k : nat) (d2 : Z) (path : bytes) (items : list dir_entry) w
    : option (list dir_entry * W) :=
  match k with
  | O => None
  | S k =>
      let '(entry, w) := sys_readdir d2 w in
      match entry with
      | None => Some (items, w)
      | Some d_name =>
          if IS_PARENT_DIR d_name then read_dir_loop k d2 path items w
          else if path_len <=? blen path + blen d_name then read_dir_loop k d2 path items w
          else
            let full := path ++ d_name in
            let '(r, st, w) := stat_file (Some full) st_uninit w in
            let st := if r <? 0 then mk_stat 0 0 0 0 S_IFDIR else st in
            if is_dir st && negb (subdirs =? 0) then
              if subdirs <? 2 then
                let? (items, w) := nested full items w in read_dir_loop k d2 path items w
              else read_dir_loop k d2 path items w
            else
              let mtime := if st_mtime st =? 0 then
                             if st_ctime st =? 0 then st_atime st else st_ctime st
                           else st_mtime st in
              let? name := if subdirs =? 0 then Some (entry_name d_name)
                           else if blen full <? dirpath_len then None
                           else Some (entry_name (drop (Z.to_nat dirpath_len) full)) in
              let e := mk_dir_entry (if is_dir st then 0 else BE64 (u64 (file_size st)))
                         (BE64 (u64 mtime)) (if is_dir st then 1 else 0) name in
              if max_items <=? blen items then None (* dir_entries[items] is past the array *)
              else
                let items := items ++ [e] in
                if max_items <=? blen items then Some (items, w)
                else read_dir_loop k d2 path items w
      end
  end.

Definition read_dir_level (entries : nat) (dir_path : bytes) (items : list dir_entry) w
    : option (list dir_entry * W) :=
  let '(ok, w) := sys_malloc path_len w in
  if negb ok then Some (items, w)
  else if path_len <=? blen dir_path then Some (items, w)
  else
    let path := normalize_path dir_path true in
    let '(dir2, w) := sys_opendir path w in
    let path := if blen path + 1 <? path_len then path ++ [slash] else path in
    match dir2 with
    | None => Some (items, w)
    | Some d2 =>
        let? (items, w) := read_dir_loop entries d2 path items w in
        Some (items, sys_closedir d2 w)
    end.
End process_read_dir.

(** With [subdirs] = 1 the calls for the directories found have [subdirs] = 2,
    which makes no further ones. *)
Definition process_read_dir (entries : nat) (dir_path : bytes)
    (dirpath_len path_len max_items subdirs : Z) (items : list dir_entry) w
    : option (list dir_entry * W) :=
  read_dir_level
    (read_dir_level (fun _ items w => Some (items, w)) dirpath_len path_len max_items 2 entries)
    dirpath_len path_len max_items subdirs entries dir_path items w.

(** [for (; max_items >= 0x10; max_items -= 0x10)]: the array's capacity, 0
    when there is no memory for 16 entries. *)
Fixpoint alloc_entries (k : nat) (max_items : Z) w : Z * W :=
  match k with
  | O => (0, w)
  | S k =>
      if max_items <? 0x10 then (0, w)
      else
        let '(ok, w) := sys_malloc (dir_entry_size * max_items) w in
        if ok then (max_items, w) else alloc_entries k (max_items - 0x10) w
  end.

(** [for (i = slen; i >= root_len; i--)]: the name left in [ini_file]. *)
Fixpoint dir_ini (k : nat) (i slen : Z) (p ini_file : bytes) w : option (bytes * W) :=
  match k with
  | O => None
  | S k =>
      if i <? 0 then None
      else if i <? root_len then Some (ini_file, w)
      else if (nth (Z.to_nat i) p 0 =? slash) || (i =? slen) then
        let ini_file := take (Z.to_nat i) p ++ str ".INI" in
        let '(r, _, w) := stat_file (Some ini_file) st_uninit w in
        if 0 <=? r then Some (ini_file, w) else dir_ini k (i - 1) slen p ini_file w
      else dir_ini k (i - 1) slen p ini_file w
  end.

(** The directories an INI file lists, one per line. *)
Fixpoint merge_ini_dirs (k entries : nat) (path_len max_items subdirs : Z) (l : bytes)
    (items : list dir_entry) w : option (list dir_entry * W) :=
  match k, l with
  | O, _ | _, [] => None
  | S k, b :: _ =>
      if b =? 0 then Some (items, w)
      else
        let? l := skip_blanks l in
        let? (line, rest) := split_line l in
        let dir_path := normalize_path line true in
        let '(r, _, w) := stat_file (Some dir_path) st_uninit w in
        let? (items, w) :=
          if 0 <=? r then
            let dirpath_len :=
              if strncmp_eq dir_path root_directory (length root_directory) then root_len else 0 in
            process_read_dir entries dir_path dirpath_len path_len max_items subdirs items w
          else Some (items, w) in
        match rest with
        | Some l => merge_ini_dirs k entries path_len max_items subdirs l items w
        | None => Some (items, w)
        end
  end.

(** The label [send_result_read_dir_cmd]. *)
Definition send_entries (items : list dir_entry) c w : Z * client_t R * W :=
  let '(r, w) := sys_send (s c) (netiso_int64_result (BE64 (u64 (blen items)))) w in
  if negb (r =? 8) then (FAILED, c, w)
  else if 0 <? blen items then
    let d := mjoin (dir_entry_bytes <$> items) in
    let '(r, w) := sys_send (s c) d w in
    if negb (r =? s32 (u64 (dir_entry_size * blen items))) then (FAILED, c, w)
    else (SUCCEEDED, c, w)
  else (SUCCEEDED, c, w).

Definition process_read_dir_cmd (entries : nat) (cmd : bytes) c w : option (Z * client_t R * W) :=
  match dir c, dirpath c with
  | Some d, Some dp =>
      let '(max_items, w) := alloc_entries 257 MAX_ENTRIES w in
      if max_items =? 0 then Some (send_entries [] c w)
      else if blen dp <? root_len then None
      else
        let path_len := MAX_PATH_LEN + root_len + (blen dp - root_len) + MAX_FILE_LEN + 2 in
        let '(ok, w) := sys_malloc path_len w in
        if negb ok then Some (send_entries [] c w)
        else
          let? (items, w) :=
            process_read_dir entries dp (blen dp) path_len max_items (subdirs c) [] w in
          let w := sys_closedir d w in
          let slen := blen dp - 1 in
          let? (ini_file, w) :=
            dir_ini (Z.to_nat (slen - root_len) + 2) slen slen dp dp w in
          (* p[slen] = 0 is not undone *)
          let dp := if root_len <=? slen then take (Z.to_nat slen) dp else dp in
          let c := set_dir None (Some dp) c in
          let '(fd, w) := open_file (Some ini_file) O_RDONLY w in
          let? (items, w) :=
            if FD_OK fd then
              let lnk := _memset (zext []) 0 MAX_LINK_LEN in
              let '(_, lnk, w) := read_file fd lnk 0 MAX_LINK_LEN w in
              let '(_, w) := close_file fd w in
              merge_ini_dirs (Z.to_nat MAX_LINK_LEN + 1) entries path_len max_items (subdirs c)
                (mload lnk 0 MAX_LINK_LEN) items w
            else Some (items, w) in
          Some (send_entries items c w)
  | _, _ => Some (send_entries [] c w)
  end.
End commands.
