(* ===== verification/Frame.v ===== *)
(** * What the handlers leave alone

    Most system calls have no effect on some part of the system: reading files
    changes no file, and nothing but a [send] changes what the peer has been
    sent.  [Inert Q] says of a relation [Q] between states that the calls for
    reading respect it.  Every function of the server that makes only such calls
    is proved to respect [Q], once and for all; the relation [same_files] gives
    the read-only theorem of DispatchSpec.v, the relation [same_sent] says that
    each answer is sent in one place. *)

From S2P Require Import Prelude Endian CMem Os CString AbsFile FileIso Client.
From S2P Require Import RoFile ReadCmds Paths OpenCmd FileCmds DirCmds.

(** ** The calls that only read *)

(** [Q w w'], as a goal that hints can recognise. *)
Definition quiet {W} (Q : relation W) (w w' : W) : Prop := Q w w'.

Class Chain {W} (Q : relation W) : Prop := {
  inert_refl w : quiet Q w w;
  inert_trans w1 w2 w3 : quiet Q w1 w2 -> quiet Q w2 w3 -> quiet Q w1 w3;
}.

(** The calls that take no descriptor of a file. *)
Class Plain {W} `{Posix W} (Q : relation W) : Prop := {
  plain_chained :: Chain Q;
  inert_malloc n w r w' : sys_malloc n w = (r, w') -> quiet Q w w';
  inert_fstat d w r st w' : sys_fstat d w = (r, st, w') -> quiet Q w w';
  inert_stat p w r st w' : sys_stat p w = (r, st, w') -> quiet Q w w';
  inert_opendir p w d w' : sys_opendir p w = (d, w') -> quiet Q w w';
  inert_readdir d w e w' : sys_readdir d w = (e, w') -> quiet Q w w';
  inert_closedir d w : quiet Q w (sys_closedir d w);
}.

(** A file that is opened, read and closed again. *)
Class Peek {W} `{Posix W} (Q : relation W) : Prop := {
  peek_open p w d w' : open_file p O_RDONLY w = (d, w') -> quiet Q w w';
  peek_read p d m o n r m' x w w1 w2 w3 : open_file p O_RDONLY w = (d, w1) ->
    read_file d m o n w1 = (r, m', w2) -> close_file d w2 = (x, w3) -> quiet Q w w3;
}.

(** All the calls that only read. *)
Class Inert {W} `{Posix W} (Q : relation W) : Prop := {
  inert_plain :: Plain Q;
  inert_open p w r w' : sys_open p O_RDONLY w = (r, w') -> quiet Q w w';
  inert_close d w r w' : sys_close d w = (r, w') -> quiet Q w w';
  inert_read d n w r x w' : sys_read d n w = (r, x, w') -> quiet Q w w';
  inert_lseek d o wh w r w' : sys_lseek d o wh w = (r, w') -> quiet Q w w';
}.

(** ... from files, that is; and from a connection. *)
Class InertRecv {W} `{Posix W} (Q : relation W) : Prop := {
  inert_recv s n w r d w' : sys_recv s n w = (r, d, w') -> quiet Q w w';
}.

(** ... and the operations of a class of files that is opened for reading. *)
Class InertFile {R W} `{AbstractFile R W} (Q : relation W) : Prop := {
  inert_af_open p f w r f' w' : af_open p O_RDONLY f w = Some (r, f', w') -> quiet Q w w';
  inert_af_read m o n f w r m' f' w' : af_read m o n f w = (r, m', f', w') -> quiet Q w w';
  inert_af_seek o wh f w r f' w' : af_seek o wh f w = (r, f', w') -> quiet Q w w';
  inert_af_fstat st f w r st' f' w' : af_fstat st f w = (r, st', f', w') -> quiet Q w w';
  inert_af_delete f w : quiet Q w (af_delete f w);
}.

Section relations.
Context {W : Type} `{PosixLaws W}.

Definition same_files (w w' : W) : Prop := forall p, file_at w' p = file_at w p.
Definition same_sent (w w' : W) : Prop := forall s, sent w' s = sent w s.

Ltac by_law := intros;
  match goal with
  | E : _ = _ |- _ =>
      first [ apply law_malloc in E | apply law_open in E | apply law_close in E | apply law_read in E
            | apply law_lseek in E | apply law_fstat in E | apply law_stat in E
            | apply law_opendir in E | apply law_readdir in E | apply law_recv in E ];
      destruct_and?; intros ?; eauto using kf_path, kd_path, kn_sent
  end.

#[export] Instance same_files_inert : Inert same_files.
Proof.
  split; [split|..]; try (by_law; fail).
  - split; [by intros w p|]. intros w1 w2 w3 A B p. by rewrite B, A.
  - intros d w p. apply law_closedir.
Qed.

#[export] Instance same_sent_inert : Inert same_sent.
Proof.
  split; [split|..]; try (by_law; fail).
  - split; [by intros w s|]. intros w1 w2 w3 A B s. by rewrite B, A.
  - intros d w s. apply law_closedir.
Qed.

#[export] Instance same_files_recv : InertRecv same_files.
Proof. split. by_law. Qed.
#[export] Instance same_sent_recv : InertRecv same_sent.
Proof. split. by_law. Qed.
End relations.

(** ** Proving a function inert

    [inert_cases E]: all ways the call in [E] can have returned.  [inert]: chain
    the calls that were made, from the last back to the first. *)

Create HintDb inert.
Create HintDb inert_af.
#[export] Hint Constants Opaque : inert inert_af.
#[export] Hint Extern 0 (Inert _) => typeclasses eauto : inert inert_af.
#[export] Hint Extern 0 (Plain _) => typeclasses eauto : inert inert_af.
#[export] Hint Extern 0 (Peek _) => typeclasses eauto : inert inert_af.
#[export] Hint Extern 0 (Chain _) => typeclasses eauto : inert inert_af.
#[export] Hint Extern 0 (InertRecv _) => typeclasses eauto : inert inert_af.
#[export] Hint Extern 0 (InertFile _) => typeclasses eauto : inert_af.

Ltac inert_cases E :=
  repeat (cbn beta iota zeta in E;
    match type of E with
    | context [snd ?e] => destruct e eqn:?; cbn [snd] in E
    | context [match ?e with _ => _ end] =>
        lazymatch e with
        | context [match _ with _ => _ end] => fail
        | _ => first [is_var e; destruct e
                     | lazymatch type of e with bool => destruct e | _ => destruct e eqn:? end]
        end
    end);
  first [discriminate E | injection E; clear E; intros; subst | idtac].

(** The file that was opened, and closed last or not opened at all. *)
Ltac peeked :=
  match goal with
  | E1 : open_file _ _ _ = (?d, _), E2 : read_file ?d _ _ _ _ = (_, _, ?w2), E3 : close_file ?d ?w2 = (_, ?w3)
      |- quiet _ _ ?w3 => exact (peek_read _ _ _ _ _ _ _ _ _ _ _ _ E1 E2 E3)
  | E1 : open_file _ O_RDONLY _ = (_, ?w1) |- quiet _ _ ?w1 => exact (peek_open _ _ _ _ E1)
  end.

Ltac inert_chain :=
  lazymatch goal with
  | |- quiet _ ?w ?w => apply inert_refl
  | |- _ => eapply inert_trans; [|solve [peeked|eauto 2 with inert nocore|eauto 2 with inert_af nocore]]; inert_chain
  end.

Ltac inert E := inert_cases E; inert_chain.

#[export] Hint Resolve inert_malloc inert_close inert_read inert_lseek inert_fstat inert_stat
  inert_opendir inert_readdir inert_closedir inert_recv inert_open : inert.
#[export] Hint Resolve inert_af_open inert_af_read inert_af_seek inert_af_fstat inert_af_delete : inert_af.

Section compat.
Context {W : Type} `{Posix W} (Q : relation W).
Implicit Types w : W.

Lemma open_file_inert `{!Inert Q} p w r w' : open_file p O_RDONLY w = (r, w') -> quiet Q w w'.
Proof. unfold open_file. intros E. inert E. Qed.
Lemma close_file_inert `{!Inert Q} d w r w' : close_file d w = (r, w') -> quiet Q w w'.
Proof. apply inert_close. Qed.
Lemma read_file_inert `{!Inert Q} d m o n w r m' w' : read_file d m o n w = (r, m', w') -> quiet Q w w'.
Proof. unfold read_file. intros E. inert E. Qed.
Lemma seek_file_inert `{!Inert Q} d o wh w r w' : seek_file d o wh w = (r, w') -> quiet Q w w'.
Proof. apply inert_lseek. Qed.
Lemma fstat_file_inert `{!Plain Q} d fs w r fs' w' : fstat_file d fs w = (r, fs', w') -> quiet Q w w'.
Proof. unfold fstat_file. intros E. inert E. Qed.
Lemma stat_file_inert `{!Plain Q} p fs w r fs' w' : stat_file p fs w = (r, fs', w') -> quiet Q w w'.
Proof. unfold stat_file. intros E. inert E. Qed.
End compat.

#[export] Hint Resolve open_file_inert close_file_inert read_file_inert seek_file_inert
  fstat_file_inert stat_file_inert : inert.

#[export] Instance inert_peek {W} `{Posix W} (Q : relation W) `{!Inert Q} : Peek Q.
Proof.
  split; [intros p w d w' E; by eapply open_file_inert|].
  intros p d m o n r m' x w w1 w2 w3 E1 E2 E3. inert_chain.
Qed.

(** ** File.cpp, opened for reading *)

Section file.
Context {W : Type} `{Posix W, Aes} (Q : relation W) `{!Inert Q}.
Variables (root_len make_iso : Z) (st_uninit : file_stat_t).
Implicit Types (f : File) (w : W).

Lemma close_parts_inert k i fps w fps' w' :
  close_parts k i fps w = (fps', w') -> quiet Q w w'.
Proof.
  revert i fps w. induction k as [|k IH]; intros i fps w E; cbn [close_parts] in E; inert_cases E;
    try apply IH in E; inert_chain.
Qed.
#[local] Hint Resolve close_parts_inert : inert.

Lemma File_close_inert f w r f' w' : File_close f w = (r, f', w') -> quiet Q w w'.
Proof. unfold File_close. intros E. inert E. Qed.
#[local] Hint Resolve File_close_inert : inert.

Lemma File_delete_inert f w : quiet Q w (File_delete f w).
Proof.
  unfold File_delete. destruct (FD_OK _); [|apply inert_refl].
  destruct (File_close _ w) as [[r f'] w'] eqn:E. cbn. inert_chain.
Qed.

Lemma File_seek_inert o wh f w r f' w' : File_seek o wh f w = (r, f', w') -> quiet Q w w'.
Proof. unfold File_seek. intros E. inert E. Qed.
#[local] Hint Resolve File_seek_inert : inert.

Lemma sum_parts_inert k i f st size w r w' :
  sum_parts k i f st size w = (r, w') -> quiet Q w w'.
Proof.
  revert i st size w. induction k as [|k IH]; intros i st size w E; cbn [sum_parts] in E;
    inert_cases E; try apply IH in E; inert_chain.
Qed.
#[local] Hint Resolve sum_parts_inert : inert.

Lemma File_fstat_inert st f w r st' f' w' :
  File_fstat st_uninit st f w = (r, st', f', w') -> quiet Q w w'.
Proof. unfold File_fstat. intros E. inert E. Qed.
#[local] Hint Resolve File_fstat_inert : inert.

Lemma File_read_inert m o n f w r m' f' w' :
  File_read m o n f w = (r, m', f', w') -> quiet Q w w'.
Proof. unfold File_read. intros E. inert E. Qed.

Lemma open_parts_inert k i base fps count w fps' count' w' :
  open_parts k i base O_RDONLY fps count w = (fps', count', w') -> quiet Q w w'.
Proof.
  revert i fps count w. induction k as [|k IH]; intros i fps count w E; cbn [open_parts] in E;
    inert_cases E; try apply IH in E; inert_chain.
Qed.
#[local] Hint Resolve open_parts_inert : inert.

Lemma open_multipart_inert path flen f w r f' w' :
  open_multipart st_uninit path flen O_RDONLY f w = (r, f', w') -> quiet Q w w'.
Proof. unfold open_multipart. intros E. inert E. Qed.

Lemma open_keyfile_inert path ps3 ext w r w' :
  open_keyfile path ps3 ext w = (r, w') -> quiet Q w w'.
Proof. unfold open_keyfile. intros E. inert E. Qed.

Lemma load_key_inert d f w f' w' : load_key d f w = (f', w') -> quiet Q w w'.
Proof. unfold load_key. intros E. inert E. Qed.

Lemma load_regions_inert f w b m f' w' :
  load_regions st_uninit f w = (b, m, f', w') -> quiet Q w w'.
Proof. unfold load_regions. intros E. inert E. Qed.
#[local] Hint Resolve open_multipart_inert open_keyfile_inert load_key_inert load_regions_inert : inert.

Lemma open_encrypted_inert path ps3 ext f w r f' w' :
  open_encrypted st_uninit path ps3 ext f w = (r, f', w') -> quiet Q w w'.
Proof. unfold open_encrypted. intros E. inert E. Qed.
#[local] Hint Resolve open_encrypted_inert : inert.

Lemma File_open_inert path f w r f' w' :
  File_open root_len make_iso st_uninit path O_RDONLY f w = Some (r, f', w') -> quiet Q w w'.
Proof. unfold File_open. intros E. inert E. Qed.
End file.

#[export] Instance File_InertFile {W} `{Posix W, Aes} (Q : relation W) `{!Inert Q}
    root_len make_iso st_uninit :
  @InertFile File W (File_AbstractFile root_len make_iso st_uninit) Q.
Proof.
  split.
  - intros p f w r f' w' E. exact (File_open_inert Q root_len make_iso st_uninit _ f w r f' w' E).
  - intros m o n f w r m' f' w' E. exact (File_read_inert Q m o n f w r m' f' w' E).
  - intros o wh f w r f' w' E. exact (File_seek_inert Q o wh f w r f' w' E).
  - intros st f w r st' f' w' E. exact (File_fstat_inert Q st_uninit st f w r st' f' w' E).
  - intros f w. exact (File_delete_inert Q f w).
Qed.

#[export] Instance ro_InertFile {W V} `{Posix W, Aes, AbstractFile V W} (Q : relation W)
    `{!Inert Q} `{!InertFile (R := V) Q} root_len make_iso st_uninit :
  @InertFile (File + V) W (ro_AbstractFile root_len make_iso st_uninit) Q.
Proof.
  pose proof (File_InertFile Q root_len make_iso st_uninit) as HF.
  split.
  - intros p [f|v] w r f' w'; cbn; intros E.
    + destruct (File_open _ _ _ _ _ _ _) as [[[r0 f0] w0]|] eqn:E0; [|done]. injection E as <- <- <-.
      exact (inert_af_open (InertFile := HF) _ _ _ _ _ _ E0).
    + destruct (af_open _ _ _ _) as [[[r0 f0] w0]|] eqn:E0; [|done]. injection E as <- <- <-.
      by eapply inert_af_open.
  - intros m o n [f|v] w r m' f' w'; cbn; unfold on_file, on_viso; intros E.
    + destruct (File_read _ _ _ _ _) as [[[r0 m0] f0] w0] eqn:E0. injection E as <- <- <- <-.
      exact (inert_af_read (InertFile := HF) _ _ _ _ _ _ _ _ _ E0).
    + destruct (af_read _ _ _ _ _) as [[[r0 m0] f0] w0] eqn:E0. injection E as <- <- <- <-.
      by eapply inert_af_read.
  - intros o wh [f|v] w r f' w'; cbn; unfold on_file, on_viso; intros E.
    + destruct (File_seek _ _ _ _) as [[r0 f0] w0] eqn:E0. injection E as <- <- <-.
      exact (inert_af_seek (InertFile := HF) _ _ _ _ _ _ _ E0).
    + destruct (af_seek _ _ _ _) as [[r0 f0] w0] eqn:E0. injection E as <- <- <-.
      by eapply inert_af_seek.
  - intros st [f|v] w r st' f' w'; cbn; unfold on_file, on_viso; intros E.
    + destruct (File_fstat _ _ _ _) as [[[r0 s0] f0] w0] eqn:E0. injection E as <- <- <- <-.
      exact (inert_af_fstat (InertFile := HF) _ _ _ _ _ _ _ E0).
    + destruct (af_fstat _ _ _) as [[[r0 s0] f0] w0] eqn:E0. injection E as <- <- <- <-.
      by eapply inert_af_fstat.
  - intros [f|v] w; cbn; [apply File_delete_inert; exact _|apply inert_af_delete].
Qed.

(** ** Paths *)

Section paths.
Context {W : Type} `{Posix W} (Q : relation W) `{!Plain Q, !Peek Q}.
Variables (root_directory : bytes) (st_uninit : file_stat_t).
Implicit Types w : W.

Lemma find_ini_inert k i p_len p w r w' :
  find_ini root_directory st_uninit k i p_len p w = Some (r, w') -> quiet Q w w'.
Proof.
  revert i w. induction k as [|k IH]; intros i w E; cbn [find_ini] in E; [done|].
  inert_cases E; try apply IH in E; inert_chain.
Qed.

Lemma scan_ini_inert k l filename w r w' :
  scan_ini st_uninit k l filename w = Some (r, w') -> quiet Q w w'.
Proof.
  revert l w. induction k as [|k IH]; intros l w E; cbn [scan_ini] in E; [done|].
  inert_cases E; try apply IH in E; inert_chain.
Qed.
#[local] Hint Resolve find_ini_inert scan_ini_inert : inert.

Lemma merge_dirs_inert p_len p w r w' :
  merge_dirs root_directory st_uninit p_len p w = Some (r, w') -> quiet Q w w'.
Proof. unfold merge_dirs. intros E. inert E. Qed.
#[local] Hint Resolve merge_dirs_inert : inert.

Lemma translate_path_inert path want w r v w' :
  translate_path root_directory st_uninit path want w = Some (r, v, w') -> quiet Q w w'.
Proof. unfold translate_path. intros E. inert E. Qed.
End paths.

#[export] Hint Resolve translate_path_inert : inert.

(** ** Directories *)

Section dirs.
Context {W R : Type} `{Posix W, Aes, AbstractFile R W} (Q : relation W) `{!Plain Q, !Peek Q}.
Variables (root_directory : bytes) (st_uninit : file_stat_t).
Implicit Types (c : client_t R) (w : W).

Lemma recv_path_inert `{!InertRecv Q} c n w r w' : recv_path c n w = (r, w') -> quiet Q w w'.
Proof. unfold recv_path. intros E. inert E. Qed.

Lemma close_dir_inert c w c' w' : close_dir c w = (c', w') -> quiet Q w w'.
Proof. unfold close_dir. intros E. inert E. Qed.

Lemma next_entry_inert k d w r w' : next_entry k d w = Some (r, w') -> quiet Q w w'.
Proof.
  revert w. induction k as [|k IH]; intros w E; cbn [next_entry] in E; [done|].
  inert_cases E; try apply IH in E; inert_chain.
Qed.

Lemma read_dir_loop_inert nested dl pl mi sd k d2 path items w r w' :
  (forall p l w r w', nested p l w = Some (r, w') -> quiet Q w w') ->
  read_dir_loop st_uninit nested dl pl mi sd k d2 path items w = Some (r, w') -> quiet Q w w'.
Proof.
  intros Hn. revert items w. induction k as [|k IH]; intros items w E; cbn [read_dir_loop] in E; [done|].
  inert_cases E; try apply IH in E; try match goal with E : nested _ _ _ = _ |- _ => apply Hn in E end;
  inert_chain.
Qed.

Lemma read_dir_level_inert nested dl pl mi sd k p items w r w' :
  (forall p l w r w', nested p l w = Some (r, w') -> quiet Q w w') ->
  read_dir_level st_uninit nested dl pl mi sd k p items w = Some (r, w') -> quiet Q w w'.
Proof.
  intros Hn. unfold read_dir_level. intros E. inert_cases E;
    try match goal with E : read_dir_loop _ _ _ _ _ _ _ _ _ _ _ = _ |- _ =>
      apply read_dir_loop_inert in E; [|exact Hn] end; inert_chain.
Qed.

Lemma process_read_dir_inert entries p dl pl mi sd items w r w' :
  process_read_dir st_uninit entries p dl pl mi sd items w = Some (r, w') -> quiet Q w w'.
Proof.
  apply read_dir_level_inert. intros p' l w1 r1 w1'. apply read_dir_level_inert.
  intros p2 l2 w2 r2 w2' [= <- <-]. apply inert_refl.
Qed.
#[local] Hint Resolve process_read_dir_inert : inert.

Lemma alloc_entries_inert k mi w r w' : alloc_entries k mi w = (r, w') -> quiet Q w w'.
Proof.
  revert mi w. induction k as [|k IH]; intros mi w E; cbn [alloc_entries] in E;
    inert_cases E; try apply IH in E; inert_chain.
Qed.

Lemma dir_ini_inert k i slen p ini w r w' :
  dir_ini root_directory st_uninit k i slen p ini w = Some (r, w') -> quiet Q w w'.
Proof.
  revert i ini w. induction k as [|k IH]; intros i ini w E; cbn [dir_ini] in E; [done|].
  inert_cases E; try apply IH in E; inert_chain.
Qed.

Lemma merge_ini_dirs_inert k entries pl mi sd l items w r w' :
  merge_ini_dirs root_directory st_uninit k entries pl mi sd l items w = Some (r, w') -> quiet Q w w'.
Proof.
  revert l items w. induction k as [|k IH]; intros l items w E; cbn [merge_ini_dirs] in E; [done|].
  inert_cases E; try apply IH in E; inert_chain.
Qed.

Lemma dir_size_loop_inert nested k d p n w r w' :
  (forall p w r w', nested p w = Some (r, w') -> quiet Q w w') ->
  dir_size_loop st_uninit nested k d p n w = Some (r, w') -> quiet Q w w'.
Proof.
  intros Hn. revert n w. induction k as [|k IH]; intros n w E; cbn [dir_size_loop] in E; [done|].
  inert_cases E; try apply IH in E; try match goal with E : nested _ _ = _ |- _ => apply Hn in E end;
  inert_chain.
Qed.

Lemma calculate_directory_size_inert fuel entries p w r w' :
  calculate_directory_size st_uninit fuel entries p w = Some (r, w') -> quiet Q w w'.
Proof.
  revert p w r w'. induction fuel as [|fuel IH]; intros p w r w' E;
    cbn [calculate_directory_size] in E; [done|].
  inert_cases E; try match goal with E : dir_size_loop _ _ _ _ _ _ _ = _ |- _ =>
      apply dir_size_loop_inert in E; [|exact IH] end; inert_chain.
Qed.
End dirs.

#[export] Hint Resolve recv_path_inert close_dir_inert next_entry_inert process_read_dir_inert
  alloc_entries_inert dir_ini_inert merge_ini_dirs_inert calculate_directory_size_inert : inert.

Lemma stat_call_inert {W} `{Posix W} (Q : relation W) `{!Plain Q} st_uninit res p w d w' :
  stat_call st_uninit res p w = (d, w') -> quiet Q w w'.
Proof. unfold stat_call. intros E. inert E. Qed.
