(* ===== verification/Ownership.v ===== *)
(** * Descriptors and their owners

    The threads of the server share one table of descriptors, and nothing but
    their own bookkeeping keeps them from reading, moving or closing one another's.
    [spares S w S' w'] is what a piece of code that owns the descriptors [S], and
    in the end owns [S'], promises to the other threads: whatever descriptor of
    the table it did not own is as it was, and is still none of its own.  Such a
    promise is kept when more is owned ([spares_frame]), so each function is
    proved for the descriptors it uses alone. *)

From S2P Require Import Prelude Os Stream AbsFile FileIso Frame.

(** ** The table of descriptors *)

Class SharedView (W : Type) := {
  (** open files, and connections *)
  live : W -> Z -> Prop;
}.

Section table.
Context {W : Type} `{PosixView W, !StreamView W, !SharedView W}.

Definition keeps_live (w w' : W) : Prop := forall d, live w d -> live w' d.

(** What the owner of [d] can tell of the system through it. *)
Record same_desc (d : Z) (w w' : W) : Prop := {
  sd_live : live w' d;
  sd_view : fd_view w' d = fd_view w d;
  sd_sent : sent w' d = sent w d;
  sd_inflow : inflow w' d = inflow w d;
  sd_writable : writable w d -> writable w' d;
}.

Lemma same_desc_trans d w1 w2 w3 : same_desc d w1 w2 -> same_desc d w2 w3 -> same_desc d w1 w3.
Proof. intros [] []. split; [done|congruence..|auto]. Qed.

(** Files, their times, memory and the descriptors in [P] are untouched. *)
Record untouched (P : Z -> Prop) (w w' : W) : Prop := {
  ut_lasting : lasting w w';
  ut_file p : file_at w' p = file_at w p;
  ut_desc d : live w d -> P d -> same_desc d w w';
}.

(** ... and all of them. *)
Definition still : W -> W -> Prop := untouched any_fd.
End table.

(** What POSIX says of the table: [open] gives a descriptor that was free, only
    [close] frees one, and a call on one connection is not noticed on another. *)
Class SharedLaws (W : Type) `{Posix W, PosixView W, StreamView W, SharedView W} := {
  hl_nonneg w d : live w d -> 0 <= d;
  hl_open p w d w' : sys_open p O_RDONLY w = (d, w') ->
    ~ live w d /\ (0 <= d -> live w' d) /\ keeps_live w w';
  hl_close d w r w' : sys_close d w = (r, w') -> forall d', d' <> d -> live w d' -> live w' d';
  hl_malloc n w r w' : sys_malloc n w = (r, w') -> keeps_live w w';
  hl_read d n w r x w' : sys_read d n w = (r, x, w') -> keeps_live w w';
  hl_lseek d o wh w r w' : sys_lseek d o wh w = (r, w') -> keeps_live w w';
  hl_fstat d w r st w' : sys_fstat d w = (r, st, w') -> keeps_live w w';
  hl_stat p w r st w' : sys_stat p w = (r, st, w') -> keeps_live w w';
  hl_opendir p w d w' : sys_opendir p w = (d, w') -> keeps_live w w';
  hl_readdir d w e w' : sys_readdir d w = (e, w') -> keeps_live w w';
  hl_closedir d w : keeps_live w (sys_closedir d w);
  hl_send s d w r w' : sys_send s d w = (r, w') -> keeps_live w w' /\
    forall s', s' <> s -> sent w' s' = sent w s' /\ (writable w s' -> writable w' s');
  hl_recv s n w r d w' : sys_recv s n w = (r, d, w') -> keeps_live w w' /\ lasting w w' /\
    forall s', s' <> s -> inflow w' s' = inflow w s';
  hl_shutdown s w : keeps_live w (sys_shutdown s w) /\ lasting w (sys_shutdown s w) /\
    forall s', s' <> s -> inflow (sys_shutdown s w) s' = inflow w s' /\
      (writable w s' -> writable (sys_shutdown s w) s');
}.

Section calls.
Context {W : Type} `{PosixLaws W, !StreamView W, !StreamLaws W, !SharedView W, !SharedLaws W}.
Implicit Types (w : W) (P : Z -> Prop) (d : Z).

Lemma untouched_refl P w : untouched P w w.
Proof. split; [done..|by split]. Qed.

Lemma keeps_untouched P w w' :
  keeps_fs P w w' -> keeps_net w w' -> steady w w' /\ keeps_names w w' -> keeps_live w w' -> untouched P w w'.
Proof.
  intros K N C L. pose proof (lasting_calm _ _ C) as M. destruct C as [[Fl _] _]. split; [done|apply K|]. intros d Hl Hp.
  split; [by apply L|by apply (kf_fd _ _ _ K)|apply N|apply Fl|apply N].
Qed.

Lemma dirs_untouched D w w' :
  keeps_dirs D w w' -> keeps_net w w' -> steady w w' /\ keeps_names w w' -> keeps_live w w' -> still w w'.
Proof.
  intros K N C L. pose proof (lasting_calm _ _ C) as M. destruct C as [[Fl _] _]. split; [done|apply K|]. intros d Hl _.
  split; [by apply L|apply K|apply N|apply Fl|apply N].
Qed.

#[export] Instance still_plain : Plain still.
Proof.
  split; [split; [intros w; split; [done..|by split]|]|..].
  - intros w1 w2 w3 [M1 F1 D1] [M2 F2 D2]. split; [by eapply lasting_trans|congruence|].
    intros d Hl Hp. pose proof (D1 d Hl Hp) as S1. eapply same_desc_trans; [exact S1|].
    apply D2; [apply S1|done].
  - intros n w r w' E. pose proof (law_malloc _ _ _ _ E) as []. apply keeps_untouched; [done..|by eapply sl_malloc|by eapply hl_malloc].
  - intros d w r st w' E. pose proof (law_fstat _ _ _ _ _ E) as []. apply keeps_untouched; [done..|by eapply sl_fstat|by eapply hl_fstat].
  - intros p w r st w' E. pose proof (law_stat _ _ _ _ _ E) as []. apply keeps_untouched; [done..|by eapply sl_stat|by eapply hl_stat].
  - intros p w d w' E. pose proof (law_opendir _ _ _ _ E) as (K & N & _). eapply dirs_untouched; [exact K|done|by eapply sl_opendir|by eapply hl_opendir].
  - intros d w e w' E. pose proof (law_readdir _ _ _ _ E) as [K N]. eapply dirs_untouched; [exact K|done|by eapply sl_readdir|by eapply hl_readdir].
  - intros d w. pose proof (law_closedir d w) as (K & N & _). eapply dirs_untouched; [exact K|done|apply sl_closedir|apply hl_closedir].
Qed.

Lemma untouched_read d n w r x w' :
  sys_read d n w = (r, x, w') -> untouched (fun d' => d' <> d) w w' /\ keeps_live w w'.
Proof.
  intros E. pose proof (law_read _ _ _ _ _ _ E) as (_ & K & N). pose proof (hl_read _ _ _ _ _ _ E) as L.
  split; [|exact L]. apply keeps_untouched; [done..|by eapply sl_read|done].
Qed.

Lemma untouched_lseek d o wh w r w' :
  sys_lseek d o wh w = (r, w') -> untouched (fun d' => d' <> d) w w' /\ keeps_live w w'.
Proof.
  intros E. pose proof (law_lseek _ _ _ _ _ _ E) as [K N]. pose proof (hl_lseek _ _ _ _ _ _ E) as L.
  split; [|exact L]. apply keeps_untouched; [done..|by eapply sl_lseek|done].
Qed.

Lemma untouched_close d w r w' : sys_close d w = (r, w') -> untouched (fun d' => d' <> d) w w'.
Proof.
  intros E. pose proof (law_close _ _ _ _ E) as (K & N & Hw).
  pose proof (sl_close _ _ _ _ E) as C. pose proof (lasting_calm _ _ C) as M. destruct C as [[Fl _] _]. split; [done|apply K|]. intros d' Hl Hne.
  split; [by eapply hl_close|by apply (kf_fd _ _ _ K)|apply N|apply Fl|apply Hw; by left].
Qed.

Lemma untouched_open p d w w' : sys_open p O_RDONLY w = (d, w') ->
  untouched any_fd w w' /\ ~ live w d /\ (0 <= d -> live w' d).
Proof.
  intros E. pose proof (law_open _ _ _ _ E) as (_ & K & N). pose proof (hl_open _ _ _ _ E) as (Hd & Hl & L).
  pose proof (sl_open _ _ _ _ E) as C. pose proof (lasting_calm _ _ C) as M. destruct C as [[Fl _] _]. split; [|done]. split; [done|apply K|]. intros d' Hd' _.
  assert (d' <> d) by (intros ->; done).
  split; [by apply L|by apply (kf_fd _ _ _ K)|apply N|apply Fl|apply N].
Qed.

(** A connection: what is sent on it and received. *)
Lemma untouched_send s x w r w' :
  sys_send s x w = (r, w') -> untouched (fun d' => d' <> s) w w' /\ keeps_live w w'.
Proof.
  intros E. pose proof (law_send _ _ _ _ _ E) as (_ & K & _). pose proof (hl_send _ _ _ _ _ E) as (L & Ho).
  pose proof (sl_send _ _ _ _ _ E) as C. pose proof (lasting_calm _ _ C) as M. destruct C as [[Fl _] _]. split; [|exact L]. split; [done|apply K|]. intros d' Hd Hne.
  destruct (Ho d' Hne). split; [by apply L|by apply (kf_fd _ _ _ K)|done|apply Fl|done].
Qed.

Lemma untouched_recv s n w r x w' :
  sys_recv s n w = (r, x, w') -> untouched (fun d' => d' <> s) w w' /\ keeps_live w w'.
Proof.
  intros E. pose proof (law_recv _ _ _ _ _ _ E) as (_ & K & N). pose proof (hl_recv _ _ _ _ _ _ E) as (L & M & Ho).
  split; [|exact L]. split; [done|apply K|]. intros d' Hd Hne.
  split; [by apply L|by apply (kf_fd _ _ _ K)|apply N|by apply Ho|apply N].
Qed.

Lemma untouched_shutdown s w :
  untouched (fun d' => d' <> s) w (sys_shutdown s w) /\ keeps_live w (sys_shutdown s w).
Proof.
  pose proof (law_shutdown s w) as [K N]. pose proof (hl_shutdown s w) as (L & M & Ho).
  split; [|exact L]. split; [done|apply K|]. intros d Hd Hne. destruct (Ho d Hne).
  split; [by apply L|by apply (kf_fd _ _ _ K)|apply N|done..].
Qed.
End calls.

(** ** Owning descriptors

    A negative number stands for no descriptor. *)

Section owning.
Context {W : Type} `{PosixLaws W, !StreamView W, !StreamLaws W, !SharedView W, !SharedLaws W}.
Implicit Types (w : W) (d : Z) (S T F : list Z).

Record tidy S w : Prop := {
  td_live d : d ∈ S -> 0 <= d -> live w d;
  td_nodup : NoDup (filter (fun d => 0 <= d) S);
}.

Record spares S w S' w' : Prop := {
  sp_lasting : lasting w w';
  sp_file p : file_at w' p = file_at w p;
  sp_tidy : tidy S w -> tidy S' w';
  sp_rest d : tidy S w -> live w d -> d ∉ S -> same_desc d w w' /\ d ∉ S';
}.

Lemma spares_refl S w : spares S w S w.
Proof. split; [done..|]. intros d _ Hl Hd. split; [by split|done]. Qed.

Lemma spares_trans S1 w1 S2 w2 S3 w3 : spares S1 w1 S2 w2 -> spares S2 w2 S3 w3 -> spares S1 w1 S3 w3.
Proof.
  intros [M1 F1 T1 R1] [M2 F2 T2 R2]. split; [by eapply lasting_trans|congruence|auto|]. intros d Ht Hl Hd.
  destruct (R1 d Ht Hl Hd) as [D1 Hd1]. destruct (R2 d (T1 Ht)) as [D2 Hd2]; [apply D1|done|].
  split; [by eapply same_desc_trans|done].
Qed.

(** More may be owned ... *)
Lemma tidy_app S F w : tidy (S ++ F) w <-> tidy S w /\ tidy F w /\ forall d, d ∈ S -> d ∈ F -> d < 0.
Proof.
  split.
  - intros [L N]. rewrite filter_app in N. apply NoDup_app in N as (N1 & N2 & N3).
    split; [|split]; [split; [|done]..|]; [intros d Hd; apply L, elem_of_app; by left|
      intros d Hd; apply L, elem_of_app; by right|].
    intros d H1' H2'. destruct (Z.lt_ge_cases d 0) as [|Hge]; [done|]. exfalso.
    eapply N2; apply list_elem_of_filter; split; eassumption.
  - intros ([L1 N1] & [L2 N2] & Hd). split.
    + intros d [?|?]%elem_of_app; auto.
    + rewrite filter_app. apply NoDup_app. split; [done|split; [|done]].
      intros d [Hge ?]%list_elem_of_filter [_ ?]%list_elem_of_filter. assert (d < 0) by auto. lia.
Qed.

Lemma tidy_nil w : tidy [] w.
Proof. split; [by intros ? ?%not_elem_of_nil|constructor]. Qed.

Lemma spares_frame S w S' w' F : spares S w S' w' -> spares (S ++ F) w (S' ++ F) w'.
Proof.
  intros [M Fi T R]. split; [done..| |].
  - intros (TS & TF & HD)%tidy_app. apply tidy_app. split; [auto|].
    assert (forall d, d ∈ F -> 0 <= d -> live w' d /\ d ∉ S') as Hk.
    { intros d Hd Hge. destruct (R d TS) as [[] ?]; [by apply TF| |done].
      intros Hs. specialize (HD d Hs Hd). lia. }
    split; [split; [intros d ? ?; by apply Hk|apply TF]|].
    intros d Hs Hd. destruct (Z.lt_ge_cases d 0) as [|Hge]; [done|]. by destruct (Hk d Hd Hge).
  - intros d (TS & _ & _)%tidy_app Hl Hd. apply not_elem_of_app in Hd as [Hs Hf].
    destruct (R d TS Hl Hs) as [D Hs']. split; [exact D|]. by apply not_elem_of_app.
Qed.

(** ... in any order ... *)
#[export] Instance tidy_proper : Proper ((≡ₚ) ==> eq ==> iff) tidy.
Proof.
  enough (forall S T w, S ≡ₚ T -> tidy S w -> tidy T w) as P.
  { intros S T E w ? <-. split; by apply P. }
  intros S T w E [L N]. split; [intros d; rewrite <- E; apply L|by rewrite <- E].
Qed.

#[export] Instance spares_proper : Proper ((≡ₚ) ==> eq ==> (≡ₚ) ==> eq ==> iff) spares.
Proof.
  enough (forall S T S' T' w w', S ≡ₚ T -> S' ≡ₚ T' -> spares S w S' w' -> spares T w T' w') as P.
  { intros S T E w ? <- S' T' E' w' ? <-. split; apply P; done. }
  intros S T S' T' w w' E E' [M Fi Ti R]. split; [done..| |].
  - rewrite <- E, <- E'. exact Ti.
  - intros d. rewrite <- E, <- E'. apply R.
Qed.

(** ... and what is owned may be forgotten, for good. *)
Lemma spares_forget S w S' X w' : spares S w (S' ++ X) w' -> spares S w S' w'.
Proof.
  intros [M F T R]. split; [done..| |].
  - intros Ht. by apply T, tidy_app in Ht as [].
  - intros d Ht Hl Hd. destruct (R d Ht Hl Hd) as [D Hd']. split; [exact D|].
    by apply not_elem_of_app in Hd' as [].
Qed.

(** *** The calls *)

Lemma still_spares S w w' : still w w' -> spares S w S w'.
Proof.
  intros [M F D]. split; [done..| |].
  - intros [L N]. split; [|done]. intros d Hd Hge. apply D; [by apply L|done].
  - intros d _ Hl Hd. split; [by apply D|done].
Qed.

Lemma spares_still w w' : spares [] w [] w' <-> still w w'.
Proof.
  split; [|apply still_spares]. intros [M F _ R]. split; [done..|]. intros d Hl _.
  apply R; [apply tidy_nil|done|apply not_elem_of_nil].
Qed.

(** Of what may be passed to a call: a descriptor that is owned, or none at all. *)
Definition in_hand S d : Prop := d < 0 \/ d ∈ S.

Lemma spares_on S d w w' : in_hand S d -> untouched (fun d' => d' <> d) w w' -> keeps_live w w' ->
  spares S w S w'.
Proof.
  intros Hin [M F D] L. split; [done..| |].
  - intros [Lv N]. split; [|done]. intros d' Hd Hge. by apply L, Lv.
  - intros d' _ Hl Hd. split; [|done]. apply D; [done|]. intros ->. destruct Hin as [Hneg|]; [|done].
    pose proof (hl_nonneg _ _ Hl). lia.
Qed.

Lemma tidy_single d w : (0 <= d -> live w d) -> tidy [d] w.
Proof.
  intros Hl. split; [by intros ? ->%list_elem_of_singleton|].
  cbn. case_decide; [apply NoDup_singleton|constructor].
Qed.

Lemma spares_open p d w w' : open_file p O_RDONLY w = (d, w') -> spares [] w [d] w'.
Proof.
  unfold open_file. destruct p as [p|]; intros E.
  - apply untouched_open in E as ([M F D] & Hn & Hl). split; [done..|intros _; by apply tidy_single|].
    intros d' _ Hd _. split; [by apply D|]. by intros ->%list_elem_of_singleton.
  - injection E as <- <-. split; [done..|intros _; apply tidy_single; by unfold INVALID_FD; lia|].
    intros d _ Hd _. split; [by split|]. intros ->%list_elem_of_singleton. apply hl_nonneg in Hd.
    by unfold INVALID_FD in Hd; lia.
Qed.

Lemma spares_close d w r w' : close_file d w = (r, w') -> spares [d] w [] w'.
Proof.
  intros [M F D]%untouched_close. split; [done..| |].
  - intros _. apply tidy_nil.
  - intros d' _ Hl Hd. split; [|apply not_elem_of_nil]. apply D; [done|]. intros ->. apply Hd. by left.
Qed.
End owning.

(** *** Files that are opened to be read *)

(** Nothing is owned but [S], before and after. *)
Definition within {W} `{PosixView W, !StreamView W, !SharedView W} (S : list Z) (w w' : W) : Prop :=
  spares S w S w'.

Section calls_on.
Context {W : Type} `{PosixLaws W, !StreamView W, !StreamLaws W, !SharedView W, !SharedLaws W}.
Implicit Types (w : W) (d : Z) (S : list Z).

#[export] Instance within_chain S : Chain (within S).
Proof. split; [intros w; apply spares_refl|intros w1 w2 w3; apply spares_trans]. Qed.

Lemma within_still S w w' : quiet still w w' -> quiet (within S) w w'.
Proof. apply still_spares. Qed.

Lemma within_read S d m o n w r m' w' :
  in_hand S d -> read_file d m o n w = (r, m', w') -> quiet (within S) w w'.
Proof.
  unfold read_file. intros Hd. destruct (sys_read d n w) as [[r1 x] w1] eqn:E. intros [= _ _ <-].
  apply untouched_read in E as []. by eapply spares_on.
Qed.

Lemma within_seek S d o wh w r w' :
  in_hand S d -> seek_file d o wh w = (r, w') -> quiet (within S) w w'.
Proof. intros Hd [U L]%untouched_lseek. by eapply spares_on. Qed.

Lemma within_fstat S d st w r st' w' : fstat_file d st w = (r, st', w') -> quiet (within S) w w'.
Proof. intros E. apply within_still. by apply (fstat_file_inert still) in E. Qed.

Lemma within_malloc S n w r w' : sys_malloc n w = (r, w') -> quiet (within S) w w'.
Proof. intros E. apply within_still. by apply (inert_malloc (Q := still)) in E. Qed.

#[export] Instance still_peek : Peek still.
Proof.
  split.
  - intros p w d w' E%spares_open. by apply spares_still, (spares_forget _ _ [] [d]).
  - intros p d m o n r m' x w w1 w2 w3 E1%spares_open E2 E3%spares_close. apply spares_still.
    eapply spares_trans; [exact E1|]. eapply spares_trans; [|exact E3].
    eapply within_read; [|exact E2]. right. by left.
Qed.

Lemma spares_none S X w : Forall (fun d => d < 0) X -> spares S w (S ++ X) w.
Proof.
  intros HX. split; [done..| |].
  - intros Ht. apply tidy_app. split; [exact Ht|]. split.
    + split; [intros d Hd; rewrite Forall_forall in HX; specialize (HX d Hd); lia|].
      enough (filter (fun d => 0 <= d) X = []) as -> by constructor.
      induction HX; cbn; [done|]. rewrite decide_False by lia. done.
    + intros d _ Hd. rewrite Forall_forall in HX. by apply HX.
  - intros d _ Hl Hd. split; [by split|]. apply not_elem_of_app. split; [done|]. intros Hx.
    rewrite Forall_forall in HX. specialize (HX d Hx). pose proof (hl_nonneg _ _ Hl). lia.
Qed.
End calls_on.

#[export] Hint Resolve within_read within_seek within_fstat within_malloc : inert.

(** ** Files that own descriptors

    What a class of files promises of them: an object that was just constructed
    owns none. *)
Class Owner (R W : Type) `{AbstractFile R W, AbstractFileView R W, Posix W, PosixView W,
    !StreamView W, !SharedView W} := {
  newborn : R -> Prop;
  owned : R -> list Z;
  docile : R -> Prop;
  own_open p f w r f' w' : newborn f -> af_open (Some p) O_RDONLY f w = Some (r, f', w') ->
    spares [] w (owned f') w' /\ docile f';
  own_read m o n f w r m' f' w' : docile f -> af_read m o n f w = (r, m', f', w') ->
    spares (owned f) w (owned f') w' /\ docile f';
  own_seek o wh f w r f' w' : docile f -> af_seek o wh f w = (r, f', w') ->
    spares (owned f) w (owned f') w' /\ docile f';
  own_fstat st f w r st' f' w' : docile f -> af_fstat st f w = (r, st', f', w') ->
    spares (owned f) w (owned f') w' /\ docile f';
  own_delete f w : docile f -> spares (owned f) w [] (af_delete f w);
  (** the contents depend on the descriptors and on the files *)
  own_view f w w' : docile f -> same_files w w' -> (forall d, d ∈ owned f -> fd_view w' d = fd_view w d) ->
    af_view f w' = af_view f w;
}.
