(* ===== verification/OwnFile.v ===== *)
(** * The descriptors of a File

    [File] as an [Ownership.Owner]: opened, read and destroyed, it uses only the
    descriptors it opened itself, closes each of them once, and the key file and
    the parts it looks for are not left behind. *)

From S2P Require Import Prelude CString Os Stream AbsFile FileIso FileView Frame Ownership.

Section file.
Context {W : Type} `{PosixLaws W, !StreamView W, !StreamLaws W, !SharedView W, !SharedLaws W, Aes}.
Variables (root_len make_iso : Z) (st_uninit : file_stat_t).
Implicit Types (f : File) (w : W) (S : list Z).

(** The descriptors of an object, and what it relies on: [fp[0]] is [fd]. *)
Definition handles f : Z * list Z * Z := (fd f, fp f, is_multipart f).
Definition held_by (h : Z * list Z * Z) : list Z :=
  let '(d, fps, n) := h in d :: (if n =? 0 then [] else tail fps).
Definition tame_with (h : Z * list Z * Z) : Prop :=
  let '(d, fps, n) := h in
  length fps = 64%nat /\ (n <> 0 -> nth 0 fps INVALID_FD = d \/ nth 0 fps INVALID_FD < 0).
Definition held f : list Z := held_by (handles f).
Definition tame f : Prop := tame_with (handles f).

Lemma fd_in_hand f : in_hand (held f) (fd f).
Proof. right. by left. Qed.

Lemma fp_in_hand f i : tame f -> is_multipart f <> 0 -> in_hand (held f) (fp_at f i).
Proof.
  intros [Hl Hz] Hm. specialize (Hz Hm). unfold fp_at, held, handles, held_by.
  rewrite (proj2 (Z.eqb_neq _ _) Hm). destruct (fp f) as [|p fps]; [done|].
  destruct (Z.to_nat i) as [|n]; cbn in *; [destruct Hz as [->|]; [right; by left|by left]|].
  destruct (nth_in_or_default n fps INVALID_FD) as [Hin| ->]; [|by left].
  right. right. by apply list_elem_of_In.
Qed.

(** Calls on [fd] and, in an image of several parts, on any part. *)
Lemma File_seek_within o wh f w r f' w' : tame f ->
  File_seek o wh f w = (r, f', w') -> quiet (within (held f)) w w' /\ handles f' = handles f.
Proof.
  intros Ht. unfold File_seek. pose proof (fd_in_hand f) as Hfd.
  destruct (Z.eqb_spec (is_multipart f) 0) as [|Hm]; cbn [orb]; [|pose proof (fun i => fp_in_hand f i Ht Hm)];
    intros E; inert_cases E; (split; [inert_chain|done]).
Qed.

Lemma sum_parts_within k i f st size w r w' :
  sum_parts k i f st size w = (r, w') -> quiet (within (held f)) w w'.
Proof.
  revert i st size w. induction k as [|k IH]; intros i st size w E; cbn [sum_parts] in E;
    inert_cases E; try apply IH in E; inert_chain.
Qed.
#[local] Hint Resolve sum_parts_within : inert.

Lemma File_fstat_within st f w r st' f' w' :
  File_fstat st_uninit st f w = (r, st', f', w') -> quiet (within (held f)) w w' /\ handles f' = handles f.
Proof. unfold File_fstat. intros E. inert_cases E; (split; [inert_chain|done]). Qed.

Lemma File_read_within m o n f w r m' f' w' : tame f ->
  File_read m o n f w = (r, m', f', w') -> quiet (within (held f)) w w' /\ handles f' = handles f.
Proof.
  intros Ht. unfold File_read. pose proof (fd_in_hand f) as Hfd.
  destruct (Z.eqb_spec (is_multipart f) 0) as [|Hm].
  - destruct (plain_file f); [intros E; inert_cases E; split; [inert_chain|done]|].
    destruct (File_seek 0 SEEK_CUR f w) as [[p f1] w1] eqn:E1.
    apply (File_seek_within _ _ _ _ _ _ _ Ht) in E1 as [Q1 Hh].
    destruct (p <? 0); [intros [= _ _ <- <-]; by split|].
    assert (in_hand (held f) (fd f1)) as Hfd1 by (injection Hh as -> _ _; done).
    destruct (read_file (fd f1) m o n w1) as [[r2 m2] w2] eqn:E2.
    assert (quiet (within (held f)) w w2) as Q2 by inert_chain.
    cbv zeta. destruct (bool_decide (_ = kDiscType3k3yDec)); [intros [= _ _ <- <-]; by split|].
    destruct (List.find _ _) as [rg|]; [|intros [= _ _ <- <-]; by split].
    destruct (negb _); [intros [= _ _ <- <-]; by split|].
    destruct (decrypt_data _ _ _ _ _ _) as [m3 iv]. intros [= _ _ <- <-]. by split.
  - pose proof (fun i => fp_in_hand f i Ht Hm) as Hfp. intros E.
    assert (forall i j, in_hand (held f) (fp_at (with_index j f) i)) by (intros i j; apply Hfp).
    inert_cases E; (split; [inert_chain|done]).
Qed.

(** ** close *)

Lemma close_parts_spares k i fps w fps' w' :
  (i + k = length fps)%nat -> close_parts k i fps w = (fps', w') ->
  spares (drop i fps) w [] w' /\ length fps' = length fps.
Proof.
  revert i fps w. induction k as [|k IH]; intros i fps w Hl; cbn [close_parts].
  - intros [= <- <-]. rewrite drop_ge by lia. split; [apply spares_refl|done].
  - destruct (fps !! i) as [p|] eqn:Hp; [|apply lookup_ge_None in Hp; lia].
    rewrite nth_lookup, Hp, (drop_S _ _ _ Hp). cbn [default from_option id]. intros E.
    apply IH in E as [Sp Hlen]; [|rewrite length_insert; lia]. rewrite length_insert in Hlen.
    split; [|done]. rewrite drop_insert_lt in Sp by lia. eapply spares_trans; [|exact Sp].
    apply (spares_frame [p] _ []).
    destruct (FD_OK p); [|apply (spares_forget _ _ [] [p]), spares_refl].
    destruct (close_file p w) as [r w1] eqn:E. by eapply spares_close.
Qed.

Lemma File_close_spares f w r f' w' : tame f -> FD_OK (fd f) = true ->
  File_close f w = (r, f', w') -> spares (held f) w [] w'.
Proof.
  intros [Hl _] Hok. unfold File_close. cbn [init_region_info fd is_multipart with_enc with_regions].
  rewrite Hok. unfold held, handles, held_by. destruct (close_file (fd f) w) as [r1 w1] eqn:E1.
  apply spares_close in E1. cbn [with_fd is_multipart fp init_region_info with_enc with_regions].
  destruct (is_multipart f =? 0); [by intros [= _ _ <-]|].
  destruct (close_parts 63 1 (fp f) w1) as [fps w2] eqn:E2.
  apply close_parts_spares in E2 as [E2 _]; [|lia]. intros [= _ _ <-].
  eapply spares_trans; [exact (spares_frame _ _ _ _ (tail (fp f)) E1)|].
  destruct (fp f); [done|exact E2].
Qed.

Lemma File_delete_spares f w : tame f -> spares (held f) w [] (File_delete f w).
Proof.
  intros Ht. unfold File_delete. cbn [init_region_info fd with_enc with_regions].
  destruct (FD_OK (fd f)) eqn:Hok; [|apply (spares_forget _ _ [] (held f)), spares_refl].
  destruct (File_close _ w) as [[r f'] w'] eqn:E. by eapply (File_close_spares (init_region_info f)).
Qed.

(** ** open *)

Lemma take_take_S {A} n (l : list A) : take n (take (S n) l) = take n l.
Proof. rewrite take_take. f_equal. lia. Qed.

Lemma open_parts_spares k i base fps count w fps' count' w' :
  0 <= i -> (Z.to_nat i + k = length fps)%nat -> Forall (fun d => d < 0) (drop (Z.to_nat i) fps) ->
  open_parts k i base O_RDONLY fps count w = (fps', count', w') ->
  spares [] w (drop (Z.to_nat i) fps') w' /\ take (Z.to_nat i) fps' = take (Z.to_nat i) fps /\
  length fps' = length fps.
Proof.
  revert i fps count w. induction k as [|k IH]; intros i fps count w Hi Hl Hneg; cbn [open_parts].
  - intros [= <- _ <-]. rewrite drop_ge by lia. split; [apply spares_refl|done].
  - destruct (open_file _ O_RDONLY w) as [p w1] eqn:E1. apply spares_open in E1.
    set (n := Z.to_nat i) in *. set (fps1 := <[n := p]> fps).
    assert (fps1 !! n = Some p) as Hp by (apply list_lookup_insert_eq; lia).
    assert (drop (S n) fps1 = drop (S n) fps) as Hd by (apply drop_insert_lt; lia).
    assert (take n fps1 = take n fps) as Ht by (apply take_insert_ge; lia).
    assert (Forall (fun d => d < 0) (drop (S n) fps)) as Hneg'.
    { replace (S n) with (n + 1)%nat by lia. rewrite <- drop_drop. by apply Forall_drop. }
    assert (spares [] w ([p] ++ drop (S n) fps) w1) as S1.
    { eapply spares_trans; [exact E1|]. by apply spares_none. }
    destruct (negb (FD_OK p)).
    + intros [= <- _ <-]. rewrite (drop_S _ _ _ Hp), Hd, Ht. split; [exact S1|]. split; [done|].
      apply length_insert.
    + intros E2. apply IH in E2 as (S2 & T2 & L2); [|lia|unfold fps1; rewrite length_insert; lia|].
      2: { rewrite Z2Nat.inj_add by lia. rewrite Nat.add_1_r. by fold n; rewrite Hd. }
      rewrite Z2Nat.inj_add, Nat.add_1_r in S2, T2 by lia. fold n in S2, T2.
      assert (fps' !! n = Some p) as Hp'.
      { rewrite <- Hp, <- (lookup_take_lt fps' (S n)), T2 by lia. apply lookup_take_lt. lia. }
      rewrite (drop_S _ _ _ Hp'). split; [|split].
      * eapply spares_trans; [exact E1|]. change (p :: drop (S n) fps') with ([p] ++ drop (S n) fps').
        rewrite (Permutation_app_comm [p]). by apply (spares_frame []).
      * rewrite <- Ht, <- (take_take_S n fps'), T2. apply take_take_S.
      * by rewrite L2; apply length_insert.
Qed.

(** A new object, once its descriptor is open. *)
Definition new_parts f : Prop := fp f = replicate 64 INVALID_FD.

Lemma new_parts_held f : new_parts f -> tame f /\ forall d w, spares [d] w (held (with_fd d f)) w.
Proof.
  unfold new_parts, tame, held, handles, held_by, tame_with. intros Hf. rewrite Hf. split.
  - split; [done|]. intros _. right. done.
  - intros d w. cbn [with_fd fd fp is_multipart]. rewrite Hf. apply (spares_none [d]).
    destruct (_ =? 0); [constructor|]. rewrite tail_replicate. by apply Forall_replicate.
Qed.

Lemma open_multipart_spares path flen f w r f' w' : new_parts f ->
  open_multipart st_uninit path flen O_RDONLY f w = (r, f', w') -> spares [fd f] w (held f') w' /\ tame f'.
Proof.
  intros Hn. unfold open_multipart.
  assert (forall w1 g, quiet (within [fd f]) w w1 -> g = f -> spares [fd f] w (held g) w1 /\ tame g) as Hsame.
  { intros w1 g Q ->. destruct (new_parts_held f Hn) as [Ht Hh]. split; [|exact Ht].
    eapply spares_trans; [exact Q|]. specialize (Hh (fd f) w1). by destruct f. }
  destruct (sys_malloc _ w) as [ok w1] eqn:E1. apply (within_malloc [fd f]) in E1.
  destruct (negb ok); [intros [= _ <- <-]; by apply Hsame|].
  destruct (fstat_file _ _ w1) as [[x st] w2] eqn:E2. apply (within_fstat [fd f]) in E2.
  assert (spares [fd f] w [fd f] w2) as S2 by (eapply spares_trans; [exact E1|exact E2]).
  destruct (x <? 0).
  - destruct (close_file (fd f) w2) as [y w3] eqn:E3. apply spares_close in E3. intros [= _ <- <-].
    destruct (new_parts_held f Hn) as [Ht Hh]. split; [|destruct Ht as [? Hz]; split; [done|]].
    + eapply spares_trans; [exact S2|]. eapply spares_trans; [exact E3|].
      eapply spares_trans; [apply (spares_none [] [INVALID_FD]); by repeat constructor|apply Hh].
    + intros Hm. right. cbn. unfold new_parts in Hn. by rewrite Hn.
  - destruct (open_parts _ _ _ _ _ _ w2) as [[fps n] w3] eqn:E3.
    assert (length (fp f) = 64%nat) as Hl by (unfold new_parts in Hn; by rewrite Hn).
    apply open_parts_spares in E3 as (S3 & _ & L3); [|lia|cbn [with_part_size fp]; by rewrite Hl|].
    2: { cbn [with_part_size fp]. unfold new_parts in Hn. rewrite Hn. by apply Forall_drop, Forall_replicate. }
    cbn [with_part_size fp] in L3. intros [= _ <- <-]. unfold held, tame, handles, held_by, tame_with.
    cbn [with_parts with_part_size fd fp is_multipart]. rewrite length_insert. split; [|split; [lia|]].
    + eapply spares_trans; [exact S2|]. change (Z.to_nat 1) with 1%nat in S3.
      assert (spares [fd f] w2 (fd f :: tail (<[0%nat := fd f]> fps)) w3) as S4.
      { destruct fps as [|p fps]; [by rewrite Hl in L3|]. apply (spares_frame _ _ _ _ [fd f]) in S3.
        cbn in S3. rewrite (Permutation_app_comm fps) in S3. exact S3. }
      destruct (n =? 0); [by apply (spares_forget _ _ [fd f]) in S4|exact S4].
    + intros _. left. destruct fps; [by rewrite Hl in L3|done].
Qed.

Lemma open_keyfile_spares path ps3 ext w d w' :
  open_keyfile path ps3 ext w = (d, w') -> spares [] w [d] w'.
Proof.
  unfold open_keyfile. cbv zeta. intros E. inert_cases E;
    match goal with E : open_file _ _ ?w1 = (d, w') |- _ => assert (quiet still w w1) by inert_chain;
      apply spares_open in E; eapply spares_trans; [by apply still_spares|exact E] end.
Qed.

Lemma load_key_spares d f w f' w' :
  load_key d f w = (f', w') -> spares [d] w [] w' /\ handles f' = handles f.
Proof.
  unfold load_key. destruct (FD_OK d); [|intros [= <- <-]; split; [apply (spares_forget _ _ [] [d]), spares_refl|done]].
  destruct (read_file d _ _ _ w) as [[r m] w1] eqn:E1. apply (within_read [d]) in E1; [|by right; left].
  set (f1 := if _ || _ then _ else f). assert (handles f1 = handles f) as Hh.
  { unfold f1. destruct (_ || _); [|done]. destruct (aes_setkey_dec _ _) as [x ctx]. by destruct (x =? SUCCEEDED). }
  destruct (close_file d w1) as [x w2] eqn:E2. apply spares_close in E2. intros [= <- <-].
  split; [|exact Hh]. by eapply spares_trans.
Qed.

Lemma held_handles f f' : handles f' = handles f -> held f' = held f /\ (tame f -> tame f').
Proof. unfold held, tame. by intros ->. Qed.

Lemma load_regions_within f w b m f' w' : tame f ->
  load_regions st_uninit f w = (b, m, f', w') -> quiet (within (held f)) w w' /\ handles f' = handles f.
Proof.
  intros Ht. unfold load_regions. pose proof (fd_in_hand f) as Hfd.
  assert (forall o wh g w r g' w', handles g = handles f -> File_seek o wh g w = (r, g', w') ->
    quiet (within (held f)) w w' /\ handles g' = handles f) as Hseek.
  { intros o wh g w1 r g' w1' Hg E. destruct (held_handles _ _ Hg) as [<- T].
    apply File_seek_within in E as [? ?]; [|auto]. split; [done|congruence]. }
  destruct (File_fstat _ _ f w) as [[[r st] f1] w1] eqn:E1. apply File_fstat_within in E1 as [Q1 H1'].
  destruct (_ && _); [|intros [= _ _ <- <-]; by split].
  destruct (File_seek 0 SEEK_CUR f1 w1) as [[p f2] w2] eqn:E2. apply Hseek in E2 as [Q2 H2']; [|done].
  destruct (if negb (p =? 0) then _ else _) as [f3 w3] eqn:E3.
  assert (quiet (within (held f)) w2 w3 /\ handles f3 = handles f) as [Q3 H3'].
  { revert E3. destruct (negb _); [|intros [= <- <-]; split; [apply inert_refl|done]].
    destruct (File_seek 0 SEEK_SET f2 w2) as [[x g] w4] eqn:E. intros [= <- <-]. by eapply Hseek. }
  assert (in_hand (held f) (fd f3)) as Hfd3 by (injection H3' as -> _ _; done).
  destruct (read_file (fd f3) _ _ _ w3) as [[n sec] w4] eqn:E4.
  assert (quiet (within (held f)) w w4) as Q4 by inert_chain.
  assert (forall g x, handles g = handles f -> (let '(_, g, w) := File_seek p SEEK_SET g w4 in (true, sec, g, w)) = x ->
    quiet (within (held f)) w x.2 /\ handles x.1.2 = handles f) as Hlast.
  { intros g x Hg. destruct (File_seek p SEEK_SET g w4) as [[y g'] w5] eqn:E. apply Hseek in E as [Q5 H5]; [|done].
    intros <-. split; [|exact H5]. eapply inert_trans; [exact Q4|exact Q5]. }
  destruct (n =? kSectorSize * 2); [destruct (_ && _)|].
  - intros E. by apply Hlast in E.
  - intros [= _ _ <- <-]. by split.
  - intros E. by apply Hlast in E.
Qed.

Lemma check_watermark_handles sec f : handles (check_watermark sec f) = handles f.
Proof.
  unfold check_watermark. destruct (bool_decide _); [|done].
  destruct (bytes_eqb k3k3yEnWatermark _); [|by destruct (bytes_eqb _ _)].
  destruct (aes_setkey_enc _ _) as [r1 a1]. destruct (r1 =? SUCCEEDED); [|done].
  destruct (aes_crypt_cbc _ _ _ _ _) as [[r2 iv] key]. destruct (r2 =? SUCCEEDED); [|done].
  destruct (aes_setkey_dec _ _) as [r3 ctx]. by destruct (r3 =? SUCCEEDED).
Qed.

Lemma open_encrypted_spares path ps3 ext f w r f' w' : tame f ->
  open_encrypted st_uninit path ps3 ext f w = (r, f', w') ->
  spares (held f) w (held f') w' /\ tame f'.
Proof.
  intros Ht. unfold open_encrypted.
  destruct (open_keyfile _ _ _ w) as [d w1] eqn:E1. apply open_keyfile_spares in E1.
  destruct (load_key d f w1) as [f1 w2] eqn:E2. apply load_key_spares in E2 as [S2 H2'].
  pose proof (spares_trans _ _ _ _ _ _ E1 S2) as S12. apply (spares_frame _ _ _ _ (held f)) in S12.
  destruct (held_handles _ _ H2') as [Hh T]. specialize (T Ht).
  destruct (load_regions st_uninit f1 w2) as [[[b sec] f2] w3] eqn:E3.
  apply load_regions_within in E3 as [Q3 H3']; [|done]. rewrite Hh in Q3.
  assert (forall g, handles g = handles f2 -> spares (held f) w (held g) w3 /\ tame g) as Hok.
  { intros g Hg. destruct (held_handles f g) as [-> Tg]; [congruence|]. split; [|auto].
    eapply spares_trans; [exact S12|exact Q3]. }
  destruct (negb b); intros [= _ <- <-]; apply Hok; [done|].
  by rewrite <- (check_watermark_handles sec f2).
Qed.

(** A newly constructed object opens its own descriptors and no others. *)
Lemma File_open_spares path f w r f' w' : new_parts f -> fd f = INVALID_FD -> is_multipart f = 0 ->
  File_open root_len make_iso st_uninit (Some path) O_RDONLY f w = Some (r, f', w') ->
  spares [] w (held f') w' /\ tame f'.
Proof.
  intros Hn Hfd Hm. unfold File_open. cbn [O_RDONLY Z.eqb]. cbn [init_region_info fd with_enc with_regions].
  rewrite Hfd. cbn [FD_OK INVALID_FD Z.leb Z.compare]. 
  destruct (open_file (Some path) O_RDONLY w) as [d w1] eqn:E1. apply spares_open in E1.
  set (f1 := with_fd d _). cbv zeta.
  assert (forall n g, handles g = (d, fp f, n) -> spares [] w (held g) w1 /\ tame g /\ new_parts g) as Hok.
  { intros n g Hg. pose proof Hg as [= Eg1 Eg2 Eg3]. assert (new_parts g) as Hng by (unfold new_parts; congruence).
    destruct (new_parts_held g Hng) as [Tg Hh]. split; [|done]. eapply spares_trans; [exact E1|].
    specialize (Hh d w1). destruct g. cbn in Eg1. by subst. }
  assert (forall n g, handles g = (d, fp f, n) -> spares [] w (held g) w1 /\ tame g) as Hok'
    by (intros n g Hg; by destruct (Hok n g Hg) as (? & ? & ?)).
  destruct (negb (FD_OK d)); [intros [= _ <- <-]; apply (Hok' (is_multipart f)); reflexivity|].
  set (f2 := with_multipart _ f1). set (n := is_multipart f2).
  assert (handles f2 = (d, fp f, n)) as Hf2 by done. clearbody f2 n.
  destruct (Hok n f2 Hf2) as (S2 & T2 & N2).
  assert (forall ps3 e x, open_encrypted st_uninit path ps3 e f2 w1 = x ->
    spares [] w (held x.1.2) x.2 /\ tame x.1.2) as Henc.
  { intros ps3 e [[x g] w2] E%open_encrypted_spares; [|done]. destruct E as [S3 T3].
    split; [by eapply spares_trans|done]. }
  assert (forall ext ps3 g x, (let? e := ext in Some (open_encrypted st_uninit path ps3 e f2 w1)) = Some (x, f', w') ->
    g = f' -> spares [] w (held g) w' /\ tame g) as Henc'.
  { intros [e|] ps3 g x; [|done]. intros [= E] ->. by apply Henc in E. }
  match goal with |- (if ?b then _ else _) = _ -> _ => destruct b end; [intros E; by eapply Henc'|].
  match goal with |- (if ?b then _ else _) = _ -> _ => destruct b end; [|intros E; by eapply Henc'].
  set (f3 := with_regions _ None f2). assert (handles f3 = (d, fp f, n)) as Hf3 by done. clearbody f3.
  destruct (negb _); [|intros [= _ <- <-]; by apply (Hok' n)].
  destruct (Hok n f3 Hf3) as (_ & _ & N3). intros [= E]. apply open_multipart_spares in E as [S4 T4]; [|done].
  split; [|done]. injection Hf3 as Hd _ _. rewrite Hd in S4. exact (spares_trans _ _ _ _ _ _ E1 S4).
Qed.

(** ** The object *)

Lemma File_view_owned f w w' : tame f -> (forall d, d ∈ held f -> fd_view w' d = fd_view w d) ->
  File_view f w' = File_view f w.
Proof.
  intros Ht Hv. assert (forall d, in_hand (held f) d -> fd_view w' d = fd_view w d) as Hin.
  { intros d [Hneg|]; [|by apply Hv].
    destruct (fd_view w' d) as [[c o]|] eqn:E'; [apply law_view in E'; lia|].
    destruct (fd_view w d) as [[c o]|] eqn:E; [apply law_view in E; lia|done]. }
  unfold File_view. rewrite (Hin _ (fd_in_hand f)). destruct (Z.eqb_spec (is_multipart f) 0) as [|Hm]; [done|].
  rewrite (Hin _ (fp_in_hand f _ Ht Hm)).
  replace (mapM (contents w') (part_fds f)) with (mapM (contents w) (part_fds f)); [done|].
  assert (Forall (in_hand (held f)) (part_fds f)) as HF.
  { apply Forall_forall. intros d (i & Hi & _)%elem_of_take. pose proof (fp_in_hand f (Z.of_nat i) Ht Hm) as Hp.
    unfold fp_at in Hp. by rewrite Nat2Z.id, nth_lookup, Hi in Hp. }
  apply Forall_mapM_ext. eapply Forall_impl; [exact HF|]. intros d Hd. unfold contents. by rewrite (Hin d Hd).
Qed.
End file.

#[export] Instance File_Owner {W} `{PosixLaws W, !StreamView W, !StreamLaws W, !SharedView W, !SharedLaws W, Aes}
    root_len make_iso st_uninit :
  @Owner File W (File_AbstractFile root_len make_iso st_uninit) _ _ _ _ _.
Proof.
  refine {| newborn f := new_parts f /\ fd f = INVALID_FD /\ is_multipart f = 0; owned := held; docile := tame |}.
  - intros p f w r f' w' (Hn & Hd & Hm) E. eapply File_open_spares; [exact Hn|exact Hd|exact Hm|exact E].
  - intros m o n f w r m' f' w' Ht E. apply File_read_within in E as [Q Hh]; [|done].
    destruct (held_handles _ _ Hh) as [-> T]. split; [exact Q|auto].
  - intros o wh f w r f' w' Ht E. apply File_seek_within in E as [Q Hh]; [|done].
    destruct (held_handles _ _ Hh) as [-> T]. split; [exact Q|auto].
  - intros st f w r st' f' w' Ht E. apply File_fstat_within in E as [Q Hh].
    destruct (held_handles _ _ Hh) as [-> T]. split; [exact Q|auto].
  - intros f w Ht. by apply File_delete_spares.
  - intros f w w' Ht _ Hv. by apply File_view_owned.
Defined.
