(* ===== verification/VIsoFrame.v ===== *)
(** * What making and reading a virtual image leaves alone

    [VIsoFile] has the frame of [Frame.InertFile]: opened and read, it changes
    nothing that the calls for reading, scandir, time and /dev/urandom leave
    unchanged. *)

From S2P Require Import Prelude Endian CMem CString Os AbsFile FileIso VIso VIsoView.
From S2P Require Import VIsoNames VIsoTree VIsoDirs VIsoImage VIsoBuild VIsoContents VIsoTells VIsoSpec.
From S2P Require Import RoFile Frame.

Section relations.
Context {W : Type} `{PosixLaws W, !VisoSys W, !VisoView W, !VisoSysLaws W}.

(** What lasts as long as nothing is disturbed. *)
Lemma idle_lasting (Q : relation W) :
  (forall w, Q w w) -> (forall w1 w2 w3, Q w1 w2 -> Q w2 w3 -> Q w1 w3) ->
  (forall w w', undisturbed w w' -> Q w w') -> Idle Q.
Proof.
  intros R T U. split; [exact R|exact T|..]; intros.
  - apply U. by eapply (idle_stat (Q := undisturbed)).
  - apply U. by eapply (idle_scandir (Q := undisturbed)).
  - apply U. by eapply (idle_time (Q := undisturbed)).
  - apply U. by eapply (idle_urandom (Q := undisturbed)).
Qed.

#[export] Instance same_files_idle : Idle (W := W) same_files.
Proof.
  apply idle_lasting; [apply inert_refl|apply inert_trans|]. intros w w' [E _ _ _] p. apply E.
Qed.

#[export] Instance same_sent_idle : Idle (W := W) same_sent.
Proof.
  apply idle_lasting; [apply inert_refl|apply inert_trans|].
  intros w w' [_ _ _ N] s. apply (kn_sent _ _ N).
Qed.
End relations.

(** ** read

    Reading an image does nothing beside reading parts of its files. *)

Section walk.
Context {St : Type} (Q : relation St) `{!Chain Q}.
Variable rd : nat -> FileList -> Z -> cursor -> St -> bool * cursor * St.
Hypothesis rd_keeps : forall i f fs c s r c' s', rd i f fs c s = (r, c', s') -> quiet Q s s'.
#[local] Hint Resolve rd_keeps : inert.

Lemma read_list_file_keeps i n f c s r c' s' : read_list_file rd i n f c s = (r, c', s') -> quiet Q s s'.
Proof. unfold read_list_file. intros E. inert E. Qed.
#[local] Hint Resolve read_list_file_keeps : inert.

Lemma read_files_keeps i n fl c s r c' s' : read_files rd i n fl c s = (r, c', s') -> quiet Q s s'.
Proof.
  revert i c s. induction fl as [|f fl IH]; intros i c s E; cbn [read_files] in E; inert_cases E;
    try apply IH in E; inert_chain.
Qed.
#[local] Hint Resolve read_files_keeps : inert.

Lemma read_dirs_keeps i n dl c s r c' s' : read_dirs rd i n dl c s = (r, c', s') -> quiet Q s s'.
Proof.
  revert i c s. induction dl as [|d dl IH]; intros i c s E; cbn [read_dirs] in E; inert_cases E;
    try apply IH in E; inert_chain.
Qed.
#[local] Hint Resolve read_dirs_keeps : inert.

Lemma read_image_keeps fs m o n v s r m' v' s' :
  read_image rd fs m o n v s = (r, m', v', s') -> quiet Q s s'.
Proof. unfold read_image. cbv zeta. intros E. inert E. Qed.

(** Whatever happens, only the position of the image changes. *)
Lemma read_image_tree fs m o n v s r m' v' s' :
  read_image rd fs m o n v s = (r, m', v', s') -> exists p, v' = with_ptr p v.
Proof. unfold read_image. cbv zeta. intros E. inert_cases E; by eexists. Qed.
End walk.

Lemma VIso_read_keeps {W} `{Posix W} (Q : relation W) `{!Chain Q}
    (read_data_keeps : forall f s c (w : W) r c' w', read_data f s c w = (r, c', w') -> quiet Q w w')
    m o n v w r m' v' w' :
  VIso_read m o n v w = (r, m', v', w') -> quiet Q w w'.
Proof.
  unfold VIso_read. destruct (fsBuf v) as [fs|]; [|intros [= _ _ _ <-]; apply inert_refl].
  destruct (_ || _); [intros [= _ _ _ <-]; apply inert_refl|].
  destruct (vFilePtr v <? 0); [intros [= _ _ _ <-]; apply inert_refl|].
  apply read_image_keeps; [done|]. intros i. apply read_data_keeps.
Qed.

(** What [open] does beside looking for the title. *)
Lemma VIso_open_keeps {W} `{Posix W, VisoSys W} (Q : relation W) `{!Plain Q, !Idle Q}
    (get_title_id_keeps : forall dir (w : W) r w', get_title_id dir w = Some (r, w') -> quiet Q w w')
    dirs_max st_uninit path flags v w r v' w' :
  VIso_open dirs_max st_uninit path flags v w = Some (r, v', w') -> quiet Q w w'.
Proof.
  unfold VIso_open. destruct path as [path|]; [|intros [= _ _ <-]; apply inert_refl].
  destruct (negb (flags =? O_RDONLY)); [intros [= _ _ <-]; apply inert_refl|]. cbv zeta.
  destruct (stat_file _ _ w) as [[r1 st] w1] eqn:E1. apply (stat_file_inert Q) in E1.
  destruct (negb (r1 =? SUCCEEDED)); [by intros [= _ _ <-]|].
  destruct (negb (is_dir st)); [by intros [= _ _ <-]|].
  destruct (if v_ps3Mode _ then _ else _) as [[names w2]|] eqn:E2; [|done].
  assert (quiet Q w w2) as U.
  { eapply inert_trans; [exact E1|]. destruct (v_ps3Mode _); [|injection E2 as _ <-; apply inert_refl].
    destruct (get_title_id path w1) as [[id w3]|] eqn:E3; [|done]. injection E2 as _ <-.
    by eapply get_title_id_keeps. }
  destruct names as [[name code]|]; [|by intros [= _ _ <-]].
  destruct (generate _ _ _ _ _ _ w2) as [[[ok v2] w3]|] eqn:E3; [|done]. apply (generate_idle Q) in E3.
  intros [= _ _ <-]. eapply inert_trans; [exact U|exact E3].
Qed.

Section frame.
Context {W : Type} `{Posix W, VisoSys W} (Q : relation W) `{!Inert Q, !Idle Q}.
Variables (dirs_max : nat) (st_uninit : file_stat_t).
Implicit Types (v : VIsoFile) (w : W).

(** ** open *)

Lemma read_data_inert f s c w r c' w' : read_data f s c w = (r, c', w') -> quiet Q w w'.
Proof. unfold read_data. intros E. inert E. Qed.

Lemma parse_param_sfo_inert d field n w r w' : parse_param_sfo d field n w = Some (r, w') -> quiet Q w w'.
Proof. unfold parse_param_sfo. cbv zeta. intros E. inert E. Qed.
#[local] Hint Resolve parse_param_sfo_inert : inert.

Lemma get_title_id_inert dir w r w' : get_title_id dir w = Some (r, w') -> quiet Q w w'.
Proof. unfold get_title_id. cbv zeta. intros E. inert E. Qed.

Lemma VIso_open_inert path flags v w r v' w' :
  VIso_open dirs_max st_uninit path flags v w = Some (r, v', w') -> quiet Q w w'.
Proof. apply VIso_open_keeps; [exact _..|exact get_title_id_inert]. Qed.

#[export] Instance VIso_InertFile :
  @InertFile VIsoFile W (VIso_AbstractFile dirs_max st_uninit) Q.
Proof.
  split; cbn.
  - intros p v w r v' w'. apply VIso_open_inert.
  - intros m o n v w r m' v' w'. apply VIso_read_keeps; [exact _|exact read_data_inert].
  - intros o wh v w r v' w'. unfold VIso_seek. destruct (fsBuf v); intros [= _ _ <-]; apply inert_refl.
  - intros st v w r st' v' w'. unfold VIso_fstat. destruct (fsBuf v); intros [= _ _ _ <-]; apply inert_refl.
  - intros v w. apply inert_refl.
Qed.
End frame.

Section undisturbed.
Context {W : Type} `{PosixLaws W, !VisoSys W, !VisoView W, !VisoSysLaws W}.
Variables (dirs_max : nat) (st_uninit : file_stat_t).
Implicit Types (v : VIsoFile) (w : W).

(** An image that is not of a PlayStation 3 disc reads no PARAM.SFO. *)
Lemma VIso_open_undisturbed path v w r v' w' :
  v_ps3Mode v = false -> fsBuf v = None ->
  VIso_open dirs_max st_uninit path O_RDONLY v w = Some (r, v', w') -> undisturbed w w'.
Proof.
  intros Hps Hfs. unfold VIso_open. destruct path as [path|]; [|intros [= _ _ <-]; apply undisturbed_refl].
  cbn [O_RDONLY Z.eqb negb]. rewrite Hfs. cbv zeta.
  destruct (stat_file _ _ w) as [[r1 st] w1] eqn:E1. apply (stat_idle undisturbed) in E1.
  destruct (negb (r1 =? SUCCEEDED)); [by intros [= _ _ <-]|].
  destruct (negb (is_dir st)); [by intros [= _ _ <-]|]. cbn [with_st v_ps3Mode]. rewrite Hps.
  destruct (generate _ _ _ _ _ _ w1) as [[[ok v2] w3]|] eqn:E3; [|done]. apply (generate_idle undisturbed) in E3.
  intros [= _ _ <-]. by eapply undisturbed_trans.
Qed.
End undisturbed.
