(* ===== verification/VIsoSession.v ===== *)
(** * A session with a virtual image

    The server's open and read commands at a directory that is served as an
    image. *)

From S2P Require Import Prelude Endian Os CString AbsFile FileIso FileView FileOpen VIso VIsoView VIsoTree VIsoImage.
From S2P Require Import VIsoTells VIsoSpec VIsoServe Client RoFile Scenario VIsoProps ReadCmds ReadSpec Paths.
From S2P Require Import OpenCmd OpenSpec Frame VIsoFrame.

Section session.
Context {W : Type} `{PosixLaws W, Aes, !VisoSys W, !VisoView W, !VisoSysLaws W}.
Variables (root_len : Z) (dirs_max : nat) (st_uninit : file_stat_t) (this : File) (this_v : VIsoFile).
#[local] Instance viso : AbstractFile VIsoFile W := VIso_AbstractFile dirs_max st_uninit.
#[local] Instance viso_keeps : AbstractFileLaws VIsoFile W := VIso_AbstractFileLaws dirs_max st_uninit.
#[local] Instance ro_class : AbstractFile (File + VIsoFile) W := ro_AbstractFile root_len 0 st_uninit.
#[local] Instance ro_keeps : AbstractFileLaws (File + VIsoFile) W := ro_AbstractFileLaws root_len st_uninit 0.
#[local] Instance new : RoFactory (File + VIsoFile) := ro_factory this (VIsoFile_ctor this_v).

(** C7. A client that opens a directory as an image (not as a PlayStation 3 disc, and
    intact, as in C12) is sent the image's size and the time that fstat gives for it,
    and a READ_FILE_CRITICAL that follows is sent exactly the bytes of the image it asks
    for, zeros past its end.  The client reads what it is sent, and the offset is below 2^63. *)
Theorem open_viso_then_read path X m (c : client_t (File + VIsoFile)) (w : W) v w0 cmd :
  VIso_open dirs_max st_uninit (Some path) O_RDONLY (VIsoFile_ctor this_v false) w = Some (SUCCEEDED, v, w0) ->
  VIso_view v w0 = Some (X, 0) -> buf c = Some m -> writable w (s c) ->
  Forall is_byte cmd -> blen cmd = netiso_cmd_size -> cmd_offset cmd < 2 ^ 63 ->
  exists c1 w1 c2 w2 mtime,
    open_translated st_uninit path VISO_ISO m c w = Some (SUCCEEDED, c1, w1) /\
    time_of st_uninit (inr v) w0 mtime /\
    process_read_file_critical cmd c1 w1 = Some (SUCCEEDED, c2, w2) /\
    sent w2 (s c) = sent w (s c) ++ be_bytes 8 (u64 (blen X)) ++ be_bytes 8 mtime ++
      padded X (cmd_offset cmd) (cmd_num_bytes cmd).
Proof.
  intros E Hv Hm Hw Hb Hl Ho.
  apply (open_read st_uninit path VISO_ISO X m c w (inr v) w0); try done.
  - change (on_viso (A := Z) <$> VIso_open dirs_max st_uninit (Some path) O_RDONLY (VIsoFile_ctor this_v false) w
      = Some (SUCCEEDED, inr v, w0)). by rewrite E.
  - apply VIso_open_undisturbed in E; [apply E|done..].
Qed.
End session.

Lemma open_viso_then_read_witness :
  let cmd := cmd_read NETISO_CMD_READ_FILE_CRITICAL 2048 32769 in
  let c := Scenario.client0 (inr viso0) 0 in
  exists v X, viso_run = Some (SUCCEEDED, v, viso_sim) /\ VIso_view v viso_sim = Some (X, 0) /\
  exists c1 w1 c2 w2 mtime,
    open_translated st0 (str "/g") VISO_ISO (zext []) c viso_sim = Some (SUCCEEDED, c1, w1) /\
    time_of st0 (inr v) viso_sim mtime /\
    process_read_file_critical cmd c1 w1 = Some (SUCCEEDED, c2, w2) /\
    sent w2 (s c) = sent viso_sim (s c) ++ be_bytes 8 (u64 (blen X)) ++ be_bytes 8 mtime ++
      padded X (cmd_offset cmd) (cmd_num_bytes cmd).
Proof.
  intros cmd c.
  assert (buf c = Some (zext [])) as Hm by reflexivity.
  assert (writable viso_sim (s c)) as Hw by concrete.
  assert (Forall is_byte cmd) as H1 by concrete.
  assert (blen cmd = netiso_cmd_size) as H2 by reflexivity.
  assert (cmd_offset cmd < 2 ^ 63) as H3 by concrete.
  destruct viso_run_ok as (v & E & Hfit & Hb).
  destruct (open_served (str "/g") v viso_sim (viso_open_spec _ _ _ _ _ _ _ _ E) Hfit (viso_good v Hb)
    (viso_servable v Hb)) as [X HX].
  exists v, X. split; [exact E|]. split; [exact (sd_view _ _ _ HX)|].
  exact (open_viso_then_read (blen root) dirs_max0 st0 this0 viso0 (str "/g") X (zext []) c viso_sim v viso_sim cmd E
    (sd_view _ _ _ HX) Hm Hw H1 H2 H3).
Defined.
