(* ===== verification/VIso2Spec.v ===== *)
(** * The second virtual image: it serves what the first one does

    [VIso2_view] is the view of the image inside, as long as the descriptor that
    is kept open stands for the file it was opened for.  The class keeps the laws
    of [AbstractFile], so that every theorem about the server holds with it in
    place of VIsoFile; whatever is read and sought, the two deliver the same. *)

From S2P Require Import Prelude Endian CMem CString Os AbsFile FileIso VIso VIsoView VIsoTree VIsoImage.
From S2P Require Import VIso2 VIsoBuild VIsoSpec VIsoServe Client RoFile Scenario VIsoProps Frame VIsoFrame.

(** ** The descriptor that is kept *)

Section cache.
Context {W : Type} `{PosixView W}.

Definition cache_ok (fl : list FileList) (k : cache) (w : W) : Prop :=
  match lastPath k with
  | None => v_fd k = 0
  | Some i => is_Some (fst <$> fd_view w (v_fd k)) /\
      fst <$> fd_view w (v_fd k) = (fl !! i) ≫= file_contents w
  end.

#[export] Instance cache_ok_dec fl k w : Decision (cache_ok fl k w).
Proof. unfold cache_ok. destruct (lastPath k); apply _. Defined.

Definition VIso2_view (v : VIsoFile2) (w : W) : option (bytes * Z) :=
  if decide (cache_ok (all_files (image v)) (cached v) w) then VIso_view (image v) w else None.

#[export] Instance VIso2_AbstractFileView : AbstractFileView VIsoFile2 W := { af_view := VIso2_view }.

Lemma VIso2_view_Some v w x :
  VIso2_view v w = Some x <-> cache_ok (all_files (image v)) (cached v) w /\ VIso_view (image v) w = Some x.
Proof. unfold VIso2_view. case_decide; naive_solver. Qed.

Lemma no_cache_ok fl w : cache_ok fl no_cache w.
Proof. done. Qed.
End cache.

Section reader.
Context {W : Type} `{PosixLaws W}.
Implicit Types (k : cache) (w : W) (c : cursor) (v : VIsoFile2) (X : bytes).

Lemma fd_reset_ok fl k w : cache_ok fl k w -> exists w', fd_reset k w = (no_cache, w') /\ undisturbed w w'.
Proof.
  unfold cache_ok, fd_reset. destruct (lastPath k).
  - intros [[y Hy] _]. destruct (fd_view w (v_fd k)) as [z|] eqn:Ev; [|done]. clear y Hy.
    destruct (_ && _); [|by exists w; split; [|apply undisturbed_refl]].
    eexists. split; [done|]. by eapply close_undisturbed.
  - intros ->. exists w. split; [done|apply undisturbed_refl].
Qed.

(** Once it is there, the descriptor of the file reads the file's bytes. *)
Lemma open_cached_ok fl i f x k w :
  cache_ok fl k w -> fl !! i = Some f -> file_contents w f = Some x ->
  exists d p w', open_cached i f k w = (true, mkCache d (Some i), w') /\ undisturbed w w' /\
    fd_view w' d = Some (x, p).
Proof.
  intros Hk Hi Hf. unfold open_cached. case_decide as Hl.
  - unfold cache_ok in Hk. rewrite Hl, Hi in Hk. cbn in Hk. rewrite Hf in Hk. destruct Hk as [_ Hk].
    destruct (fd_view w (v_fd k)) as [[y p]|] eqn:Ev; [|done]. injection Hk as ->.
    exists (v_fd k), p, w. split; [by destruct k; cbn in *; rewrite Hl|]. split; [apply undisturbed_refl|done].
  - destruct (fd_reset_ok fl k w Hk) as (w1 & -> & U1).
    pose proof (file_contents_Some _ _ _ Hf) as (_ & Ef & _). rewrite <- (un_file _ _ U1) in Ef.
    unfold open_file. destruct (law_open_ok _ _ _ Ef) as (d & w2 & E & Hd & Hv). rewrite E.
    apply law_open in E as (_ & K2 & N2). unfold FD_OK. destruct (Z.leb_spec 0 d); [cbn [negb]|lia].
    exists d, 0, w2. split; [done|]. split; [|done]. eapply undisturbed_trans; [done|by eapply keeps_undisturbed].
Qed.

#[export] Instance read_data2_reader fl :
  Reader read_data2 fl (fun s : cache * W => snd s) (fun s => cache_ok fl (fst s) (snd s)).
Proof.
  split. intros X i f x fStart c [k w] Hk Hi Hc Hr Hf Hs Hp HX. cbn [fst snd] in *. pose proof Hc as [].
  pose proof (file_contents_Some _ _ _ Hf) as (_ & _ & Es).
  unfold read_data2. destruct (open_cached_ok fl i f x k w Hk Hi Hf) as (d & p & w1 & -> & U1 & Hv1).
  cbn [negb v_fd]. pose proof (law_view _ _ _ _ Hv1) as (_ & Hx & _). rewrite u64_small by lia.
  set (n := Z.min _ _).
  destruct (seek_set_ok d (c_pos c - fStart) w1 _ _ Hv1) as (w2 & -> & Hv2 & K2 & N2); [lia|].
  destruct (read_file_ok d (c_buf c) (c_p c) n w2 _ _ Hv2) as (w3 & -> & Hv3 & K3 & N3); [lia|].
  assert (blen (slice (c_pos c - fStart) n x) = n) as En by (rewrite blen_slice; lia).
  rewrite En. destruct (Z.ltb_spec n 0); [lia|]. rewrite Z.eqb_refl. cbn [negb].
  do 3 eexists. split; [done|].
  assert (progress X c (advance n (with_buf (mstore (c_buf c) (c_p c) (slice (c_pos c - fStart) n x)) c)) n) as P.
  { eapply progress_store; [done|by rewrite En| |lia|done].
    rewrite <- HX, slice_slice by lia. f_equal; lia. }
  assert (undisturbed w w3) as U.
  { eapply undisturbed_trans; [exact U1|]. eapply undisturbed_trans; by eapply keeps_undisturbed. }
  split; [exact U|]. split; [|split; [exact P|rewrite (pg_remaining _ _ _ _ P), (pg_pos _ _ _ _ P); lia]].
  unfold cache_ok. cbn [fst snd lastPath v_fd]. rewrite Hv3, Hi. cbn.
  rewrite (file_contents_frame _ _ _ (un_file _ _ U)), Hf. by split.
Qed.

(** ** The operations on the contents *)

Lemma VIso2_read_ok v w X p m o n :
  VIso2_view v w = Some (X, p) -> 0 <= n < 2 ^ 63 ->
  exists m' v' w', VIso2_read m o n v w = (blen (slice p n X), m', v', w') /\ keeps_net w w' /\
    mload m' o (blen (slice p n X)) = slice p n X /\ same_outside o n m m' /\
    VIso2_view v' w' = Some (X, p + blen (slice p n X)).
Proof.
  intros Hv2 Hn. pose proof Hv2 as [Hk Hv]%VIso2_view_Some.
  pose proof (VIso_view_bounds _ w X p Hv) as [HXb Hp].
  pose proof Hv as (fs & cs & Hfs & Hcs & Hok & EX & Ep)%VIso_view_Some.
  assert (totalSize (image v) = blen X) as HX by (by rewrite EX, (proj1 (image_areas _ w fs cs Hcs Hok))).
  unfold VIso2_read. rewrite Hfs, <- Ep, HX.
  destruct ((blen X <=? p) || (n =? 0)) eqn:Hnone.
  { rewrite (slice_none p n X), Z.add_0_r by (done || lia). exists m, v, w. split; [done|].
    split; [auto with netsrv|done]. }
  apply orb_false_iff in Hnone as [?%Z.leb_gt ?%Z.eqb_neq]. destruct (Z.ltb_spec p 0); [lia|].
  destruct (read_image_ok read_data2 snd _ (image v) (cached v, w) fs X p m o n)
    as (m' & v' & [k' w'] & -> & U & I & ? & ? & -> & ?); [done..|lia|].
  do 3 eexists. split; [done|]. split; [apply U|]. split; [done|]. split; [done|].
  by apply VIso2_view_Some.
Qed.

Lemma seek2_view v w X p off :
  VIso2_view v w = Some (X, p) -> - 2 ^ 63 <= off < 2 ^ 63 ->
  exists v', VIso2_seek off SEEK_SET v w = (off, v', w) /\ (0 <= off -> VIso2_view v' w = Some (X, off)).
Proof.
  intros [Hk Hv]%VIso2_view_Some Hoff. pose proof Hv as (fs & cs & Hfs & _)%VIso_view_Some.
  unfold VIso2_seek, VIso_seek. rewrite Hfs. cbn [SEEK_SET Z.eqb]. eexists. split; [done|].
  intros. apply VIso2_view_Some. split; [done|]. eapply VIso_view_ptr; [done|lia].
Qed.
End reader.

(** It keeps the promises of the interface. *)
#[export] Instance VIso2_AbstractFileLaws {W} `{PosixLaws W, !VisoSys W} dirs_max st_uninit :
  AbstractFileLaws (H := VIso2_AbstractFile dirs_max st_uninit) VIsoFile2 W.
Proof.
  split; cbn.
  - intros v w c p [_ Hv]%VIso2_view_Some. by eapply VIso_view_bounds.
  - intros v w w' K. unfold VIso2_view. rewrite (VIso_view_frame _ w w') by apply K.
    assert (cache_ok (all_files (image v)) (cached v) w' <-> cache_ok (all_files (image v)) (cached v) w) as E.
    { unfold cache_ok. destruct (lastPath _) as [i|]; [|done]. rewrite (kf_fd _ _ _ K) by done.
      destruct (all_files (image v) !! i) as [f|]; [|done]. cbn. by rewrite (file_contents_frame w w' f (kf_path _ _ _ K)). }
    repeat case_decide; tauto.
  - intros v w c p off Hv Hoff. destruct (seek2_view v w c p off Hv) as (v' & -> & Hs); [lia|].
    do 3 eexists. split; [done|]. split; [auto with netsrv|]. split; [done|]. left.
    split; [lia|apply Hs; lia].
  - intros v w c p off Hv Hoff. destruct (seek2_view v w c p off Hv) as (v' & -> & _); [lia|].
    do 3 eexists. split; [done|]. split; [auto with netsrv|lia].
  - intros v w c p m o n Hv Hn. destruct (VIso2_read_ok v w c p m o n Hv Hn) as (m' & v' & w' & -> & ? & ? & ? & ?).
    do 4 eexists. split; [done|]. split; [done|]. split; [done|]. split; [split; [apply blen_nonneg|done]|].
    assert (blen c < 2 ^ 63 /\ 0 <= p < 2 ^ 63) as [_ ?].
    { apply VIso2_view_Some in Hv as [_ Hv]. by eapply VIso_view_bounds. }
    rewrite slice_blen by lia. done.
  - intros v w c p st Hv. pose proof Hv as [_ Hv1]%VIso2_view_Some.
    unfold VIso2_fstat. destruct (viso_fstat_view _ w c p st Hv1) as (st' & -> & ?).
    do 3 eexists. split; [done|]. split; [auto with netsrv|]. split; [done|]. split; [done|]. by destruct v.
Qed.

(** ** Any use of an image *)

Inductive file_op := Seek (off whence : Z) | Read (n : Z) | Stat.
Inductive answer := Sought (r : Z) | Got (r : Z) (d : bytes) | Stated (r : Z) (st : file_stat_t).

Definition op_ok (op : file_op) : Prop :=
  match op with Seek off _ => - 2 ^ 63 <= off < 2 ^ 63 | Read n => 0 <= n < 2 ^ 63 | Stat => True end.

(** What the operations answer, one after the other, in the same buffer [m]. *)
Fixpoint answers {F W} `{AbstractFile F W} (st : file_stat_t) (ops : list file_op) (m : mem) (f : F) (w : W)
    : list answer :=
  match ops with
  | [] => []
  | Seek off wh :: ops => let '(r, f, w) := af_seek off wh f w in Sought r :: answers st ops m f w
  | Read n :: ops =>
      let '(r, m, f, w) := af_read m 0 n f w in Got r (mload m 0 r) :: answers st ops m f w
  | Stat :: ops => let '(r, x, f, w) := af_fstat st f w in Stated r x :: answers st ops m f w
  end.

Section agree.
Context {W : Type} `{PosixLaws W, !VisoSys W}.
Variables (dirs_max : nat) (st_uninit : file_stat_t).
#[local] Instance first_class : AbstractFile VIsoFile W := VIso_AbstractFile dirs_max st_uninit.
#[local] Instance second_class : AbstractFile VIsoFile2 W := VIso2_AbstractFile dirs_max st_uninit.
Implicit Types (v : VIsoFile) (u : VIsoFile2) (w : W) (X : bytes).

(** The same image, wherever it is read, and the descriptor in order. *)
Record agree v w u w2 : Prop := {
  ag_image : image u = v;
  ag_ptr : - 2 ^ 63 <= vFilePtr v < 2 ^ 63;
  ag_view : exists X, VIso_view (with_ptr 0 v) w = Some (X, 0);
  ag_files p : file_at w2 p = file_at w p;
  ag_cache : cache_ok (all_files v) (cached u) w2;
}.

Lemma agree_seek v w u w2 off wh : agree v w u w2 -> - 2 ^ 63 <= off < 2 ^ 63 ->
  exists r v' u', af_seek off wh v w = (r, v', w) /\ af_seek off wh u w2 = (r, u', w2) /\ agree v' w u' w2.
Proof.
  intros [Ei Hp [X Hv] Hf Hk] Hoff. cbn. unfold VIso2_seek. rewrite Ei.
  pose proof Hv as (fs & cs & Hfs & _)%VIso_view_Some. unfold VIso_seek. cbn in Hfs. rewrite Hfs.
  do 3 eexists. split; [done|]. split; [done|].
  split; [done| |by exists X|done|done]. cbn.
  assert (forall x, - 2 ^ 63 <= s64 x < 2 ^ 63) as Hs by (intros x; apply s64_range).
  repeat case_match; auto.
Qed.

(** Where the position is in the image, both read the same bytes. *)
Lemma agree_read_inside v w u w2 m m2 n fs : agree v w u w2 -> fsBuf v = Some fs ->
  0 <= vFilePtr v < totalSize v -> 0 < n < 2 ^ 63 ->
  exists r m' m2' v' u' w' w2', VIso_read m 0 n v w = (r, m', v', w') /\
    VIso2_read m2 0 n u w2 = (r, m2', u', w2') /\ mload m' 0 r = mload m2' 0 r /\ agree v' w' u' w2'.
Proof.
  intros [Ei Hp [X Hv0] Hf Hk] Hfs Hin Hn.
  assert (VIso_view v w = Some (X, vFilePtr v)) as Hv.
  { pose proof (VIso_view_ptr _ _ _ _ (vFilePtr v) Hv0 ltac:(lia)) as E. by destruct v. }
  pose proof (VIso_view_bounds v w X _ Hv) as [HXb _].
  pose proof Hv as (fs' & cs & _ & Hcs & Hok & EX & _)%VIso_view_Some.
  assert (totalSize v = blen X) as HX by (by rewrite EX, (proj1 (image_areas v w fs' cs Hcs Hok))).
  unfold VIso_read, VIso2_read. rewrite Ei, Hfs.
  destruct (Z.leb_spec (totalSize v) (vFilePtr v)), (Z.eqb_spec n 0), (Z.ltb_spec (vFilePtr v) 0);
    cbn [orb]; try lia.
  destruct (read_image_ok (fun _ => read_data) (fun w => w) (fun _ => True) v w fs X (vFilePtr v) m 0 n)
    as (m' & v' & w' & -> & U & _ & Hm & _ & Ev & Hv'); [done..|lia|lia|].
  assert (VIso_view v w2 = Some (X, vFilePtr v)) as Hv2 by by rewrite (VIso_view_frame v w w2).
  destruct (read_image_ok read_data2 snd _ v (cached u, w2) fs X (vFilePtr v) m2 0 n)
    as (m2' & u' & [k' w2'] & -> & U2 & I2 & Hm2 & _ & Ev2 & Hv2'); [done..|lia|lia|].
  do 7 eexists. split; [done|]. split; [done|]. split; [by rewrite Hm, Hm2|].
  pose proof (VIso_view_bounds _ _ _ _ Hv') as [_ Hb].
  split; [by rewrite Ev, Ev2|rewrite Ev; cbn; lia| |intros p; by rewrite (un_file _ _ U2), Hf, (un_file _ _ U)|].
  - exists X. rewrite Ev. eapply (VIso_view_ptr (with_ptr _ v)); [rewrite <- Ev; exact Hv'|lia].
  - rewrite Ev. exact I2.
Qed.

Lemma agree_read v w u w2 m m2 n : agree v w u w2 -> 0 <= n < 2 ^ 63 ->
  exists r m' m2' v' u' w' w2', VIso_read m 0 n v w = (r, m', v', w') /\
    VIso2_read m2 0 n u w2 = (r, m2', u', w2') /\ mload m' 0 r = mload m2' 0 r /\ agree v' w' u' w2'.
Proof.
  intros A Hn. pose proof A as [Ei Hp [X Hv0] Hf Hk].
  pose proof Hv0 as (fs & cs & Hfs & _)%VIso_view_Some. cbn in Hfs.
  destruct ((totalSize v <=? vFilePtr v) || (n =? 0)) eqn:Hnone.
  { exists 0, m, m2, v, u, w, w2. unfold VIso_read, VIso2_read. rewrite Ei, Hfs, Hnone.
    split; [done|]. split; [done|]. by rewrite !mload_0. }
  pose proof Hnone as [?%Z.leb_gt ?%Z.eqb_neq]%orb_false_iff.
  destruct (Z.ltb_spec (vFilePtr v) 0) as [Hneg|]; [|apply agree_read_inside with fs; [done|done|lia|lia]].
  unfold VIso_read, VIso2_read. rewrite Ei, Hfs, Hnone. rewrite (proj2 (Z.ltb_lt _ _) Hneg).
  destruct (fd_reset_ok (all_files v) (cached u) w2 Hk) as (w2' & -> & U).
  do 7 eexists. split; [done|]. split; [done|]. split; [done|].
  split; [done|done|by exists X|intros p; by rewrite (un_file _ _ U)|done].
Qed.

Lemma answers_agree st ops : forall v w u w2 m m2, agree v w u w2 -> Forall op_ok ops ->
  answers st ops m v w = answers st ops m2 u w2.
Proof.
  induction ops as [|[off wh|n|] ops IH]; intros v w u w2 m m2 A Hops; [done|..];
    apply Forall_cons in Hops as [Hop Hops]; cbn [answers].
  - destruct (agree_seek v w u w2 off wh A Hop) as (r & v' & u' & -> & -> & A'). f_equal. by apply IH.
  - cbn [af_read first_class second_class VIso_AbstractFile VIso2_AbstractFile].
    destruct (agree_read v w u w2 m m2 n A Hop) as (r & m' & m2' & v' & u' & w' & w2' & -> & -> & -> & A').
    f_equal. by apply IH.
  - cbn. unfold VIso2_fstat. rewrite (ag_image _ _ _ _ A). pose proof A as [Ei _ [X Hv] _ _].
    pose proof Hv as (fs & cs & Hfs & _)%VIso_view_Some. cbn in Hfs. unfold VIso_fstat. rewrite Hfs.
    f_equal. apply IH; [|done]. destruct A as [A1 A2 A3 A4 A5]. by split.
Qed.

(** C18. The two classes of virtual images serve the same: whatever is sought, read and
    asked about an image (intact, as in C12) after [open], VIsoFile2.cpp with its descriptor kept open
    answers what VIsoFile.cpp answers, which opens a file for each read. *)
Theorem variants_agree this ps3 path w v w0 X m ops :
  VIso_open dirs_max st_uninit (Some path) O_RDONLY (VIsoFile_ctor this ps3) w = Some (SUCCEEDED, v, w0) ->
  VIso_view v w0 = Some (X, 0) -> Forall op_ok ops ->
  exists u, VIso2_open dirs_max st_uninit (Some path) O_RDONLY (VIsoFile2_ctor this ps3) w
      = Some (SUCCEEDED, u, w0) /\
    answers st_uninit ops m v w0 = answers st_uninit ops m u w0.
Proof.
  intros E Hv Hops. rewrite VIso2_open_eq. cbn [VIsoFile2_ctor image VIsoFile_ctor cleared fsBuf cached].
  change (cleared ps3 this) with (VIsoFile_ctor this ps3). rewrite E. eexists. split; [done|].
  apply answers_agree; [|done]. pose proof (VIso_view_bounds _ _ _ _ Hv) as [_ Hb].
  assert (vFilePtr v = 0) as Hp by (pose proof Hv as (?&?&?&?&?&?&?)%VIso_view_Some; congruence).
  split; [done|lia| |done|done]. exists X. by apply VIso_view_ptr with 0.
Qed.
End agree.

(** ** The descriptors of others *)

Section isolation.
Context {W : Type} `{PosixLaws W}.
Implicit Types (k : cache) (u : VIsoFile2) (w : W).

(** The descriptor that the image keeps; 0 when it keeps none. *)
Definition owns k (d : Z) : Prop := lastPath k <> None /\ d = v_fd k.
Definition cache_wf k : Prop := lastPath k = None -> v_fd k = 0.

(** Every descriptor of others is as it was, and still one of others. *)
Definition isolates k w k' w' : Prop := cache_wf k ->
  cache_wf k' /\ forall d y, fd_view w d = Some y -> ~ owns k d -> fd_view w' d = Some y /\ ~ owns k' d.

#[local] Instance isolates_chain : Chain (fun s s' : cache * W => isolates (fst s) (snd s) (fst s') (snd s')).
Proof.
  split; [intros [k w] Hk; split; [done|auto]|]. intros [k1 w1] [k2 w2] [k3 w3] A B Hk.
  destruct (A Hk) as [Hk2 A2]. destruct (B Hk2) as [Hk3 B2]. split; [done|]. cbn in *. intros d y Hd Ho.
  destruct (A2 d y Hd Ho) as [Hd2 Ho2]. by apply B2.
Qed.

Lemma isolates_refl k w : isolates k w k w.
Proof. intros Hk. split; [done|auto]. Qed.

Lemma isolates_trans k1 w1 k2 w2 k3 w3 : isolates k1 w1 k2 w2 -> isolates k2 w2 k3 w3 -> isolates k1 w1 k3 w3.
Proof.
  exact (inert_trans (Q := fun s s' : cache * W => isolates (fst s) (snd s) (fst s') (snd s')) (k1, w1) (k2, w2) (k3, w3)).
Qed.

(** A call on the descriptor that is kept. *)
Lemma isolates_own k w w' : lastPath k <> None -> keeps_fs (fun d => d <> v_fd k) w w' -> isolates k w k w'.
Proof.
  intros Hl K Hk. split; [done|]. intros d y Hd Ho. split; [|done]. rewrite (kf_fd _ _ _ K); [done|].
  intros ->. by apply Ho.
Qed.

Lemma fd_reset_isolates k w k' w' : fd_reset k w = (k', w') -> isolates k w k' w'.
Proof.
  unfold fd_reset, close_file. intros [= <- <-] Hk. split; [done|]. intros d y Hd Ho.
  split; [|by intros []]. destruct (Z.eqb_spec (v_fd k) 0) as [|Hne]; [done|].
  destruct (FD_OK (v_fd k)); [cbn [negb andb]|done].
  destruct (sys_close (v_fd k) w) as [r w1] eqn:E. apply law_close in E as (K & _). cbn.
  rewrite (kf_fd _ _ _ K); [done|]. intros ->. apply Ho. split; [|done]. intros El. by apply Hne, Hk.
Qed.

Lemma open_cached_isolates i f k w ok k' w' :
  open_cached i f k w = (ok, k', w') -> isolates k w k' w' /\ (ok = true -> lastPath k' <> None).
Proof.
  unfold open_cached. case_decide as Hl.
  - intros [= <- <- <-]. split; [apply isolates_refl|by rewrite Hl].
  - destruct (fd_reset k w) as [k1 w1] eqn:E1. unfold open_file.
    destruct (sys_open (fl_path f) O_RDONLY w1) as [d w2] eqn:E2. apply law_open in E2 as (Hnew & K2 & _).
    assert (isolates k w (mkCache d (Some i)) w2) as S2.
    { apply fd_reset_isolates in E1. intros Hk. split; [done|]. intros d' y Hd Ho.
      destruct (E1 Hk) as [_ A]. destruct (A d' y Hd Ho) as [Hd1 _].
      assert (d' <> d) by congruence. rewrite (kf_fd _ _ _ K2) by done. split; [done|]. by intros [_ ?]. }
    destruct (negb (FD_OK d)); [|intros [= <- <- <-]; by split].
    destruct (fd_reset (mkCache d (Some i)) w2) as [k3 w3] eqn:E3. intros [= <- <- <-].
    split; [|done]. eapply isolates_trans; [exact S2|by apply fd_reset_isolates].
Qed.

Lemma read_data2_isolates i f fs c (s : cache * W) r c' s' :
  read_data2 i f fs c s = (r, c', s') -> isolates (fst s) (snd s) (fst s') (snd s').
Proof.
  destruct s as [k w]. unfold read_data2. destruct (open_cached i f k w) as [[ok k1] w1] eqn:E1.
  apply open_cached_isolates in E1 as [S1 Hl]. destruct ok; cbn [negb]; [|by intros [= _ _ <-]].
  specialize (Hl eq_refl). unfold seek_file, read_file.
  destruct (sys_lseek (v_fd k1) _ _ w1) as [r2 w2] eqn:E2. apply law_lseek in E2 as [K2 _].
  destruct (sys_read (v_fd k1) _ w2) as [[r3 d] w3] eqn:E3. apply law_read in E3 as (_ & K3 & _).
  assert (isolates k w k1 w3) as S3.
  { eapply isolates_trans; [exact S1|]. eapply isolates_trans; by apply isolates_own. }
  assert (forall s'', fd_reset k1 w3 = s'' -> isolates k w (fst s'') (snd s'')) as S4.
  { intros [k4 w4] E4. eapply isolates_trans; [exact S3|by apply fd_reset_isolates]. }
  destruct (r3 <? 0); [intros [= _ _ <-]; by apply S4|].
  destruct (negb _); intros [= _ _ <-]; [by apply S4|exact S3].
Qed.

Lemma reset2_isolates u w u' w' : reset2 u w = (u', w') -> isolates (cached u) w (cached u') w'.
Proof.
  unfold reset2. destruct (fd_reset (cached u) w) as [k w1] eqn:E. intros [= <- <-]. by apply fd_reset_isolates.
Qed.

Lemma delete_isolates u w : cache_wf (cached u) -> exists k, cache_wf k /\
  forall d y, fd_view w d = Some y -> ~ owns (cached u) d -> fd_view (VIso2_delete u w) d = Some y /\ ~ owns k d.
Proof.
  intros Hk. unfold VIso2_delete. destruct (VIso2_close u w) as [[r u1] w1] eqn:E1.
  assert (isolates (cached u) w (cached u1) w1) as S1.
  { revert E1. unfold VIso2_close. destruct (fsBuf (image u)); [|intros [= _ <- <-]; apply isolates_refl].
    destruct (reset2 u w) as [u2 w2] eqn:E. intros [= _ <- <-]. by apply reset2_isolates. }
  destruct (reset2 u1 w1) as [u2 w2] eqn:E2. apply reset2_isolates in E2.
  exists (cached u2). exact (isolates_trans _ _ _ _ _ _ S1 E2 Hk).
Qed.

(** C21. Keeping a descriptor open disturbs nobody: whatever fails, a read of an image
    and its destruction leave every other open descriptor with its contents and
    its position, and the image never takes one of them for its own. *)
Theorem cached_read_isolated u w m o n r m' u' w' :
  cache_wf (cached u) -> VIso2_read m o n u w = (r, m', u', w') ->
  cache_wf (cached u') /\
  forall d y, fd_view w d = Some y -> ~ owns (cached u) d ->
    fd_view w' d = Some y /\ ~ owns (cached u') d /\ fd_view (VIso2_delete u' w') d = Some y.
Proof.
  intros Hk E. assert (isolates (cached u) w (cached u') w') as S.
  { revert E. unfold VIso2_read. destruct (fd_reset (cached u) w) as [k1 w1] eqn:E1. apply fd_reset_isolates in E1.
    destruct (fsBuf (image u)) as [fs|]; [|by intros [= _ _ <- <-]].
    destruct (_ || _); [intros [= _ _ <- <-]; apply isolates_refl|].
    destruct (_ <? 0); [by intros [= _ _ <- <-]|].
    destruct (read_image read_data2 fs m o n (image u) (cached u, w)) as [[[r2 m2] x] [k2 w2]] eqn:E2.
    intros [= _ _ <- <-]. by apply (read_image_keeps (fun s s' : cache * W => isolates (fst s) (snd s) (fst s') (snd s')) _ read_data2_isolates) in E2. }
  destruct (S Hk) as [Hk' A]. split; [done|]. intros d y Hd Ho. destruct (A d y Hd Ho) as [Hd' Ho'].
  split; [done|]. split; [done|].
  destruct (delete_isolates u' w' Hk') as (k' & _ & Sd). by apply (Sd d y).
Qed.
End isolation.

(** ** Witnesses *)

Lemma variants_agree_witness :
  let ops := [Read 34000; Seek 32768 SEEK_SET; Read 7; Read 4000; Seek (- 5) SEEK_END; Stat; Seek (-1) SEEK_SET; Read 1] in
  exists v u, viso_run = Some (SUCCEEDED, v, viso_sim) /\
    VIso2_open dirs_max0 st0 (Some (str "/g")) O_RDONLY (VIsoFile2_ctor viso0 false) viso_sim
      = Some (SUCCEEDED, u, viso_sim) /\
    answers (H := VIso_AbstractFile dirs_max0 st0) st0 ops (zext []) v viso_sim =
    answers (H := VIso2_AbstractFile dirs_max0 st0) st0 ops (zext []) u viso_sim.
Proof.
  intros ops. destruct viso_run_ok as (v & E & Hfit & Hb).
  destruct (open_served (str "/g") v viso_sim (viso_open_spec _ _ _ _ _ _ _ _ E) Hfit (viso_good v Hb)
    (viso_servable v Hb)) as [X HX].
  assert (Forall op_ok ops) as Hops by (repeat constructor; lia).
  destruct (variants_agree dirs_max0 st0 viso0 false (str "/g") viso_sim v viso_sim X (zext []) ops E
    (sd_view _ _ _ HX) Hops) as (u & Eu & Ha).
  exists v, u. split; [exact E|]. split; [exact Eu|exact Ha].
Defined.

(** Descriptor 0 is open on a file of the directory that is read as an image. *)
Lemma cached_read_isolated_witness :
  let w := Sim.with_fds [Some (str "/g/a.bin", 2)] viso_sim in
  exists v r m' u' w', viso_run = Some (SUCCEEDED, v, viso_sim) /\
    VIso2_read (zext []) 0 100000 (mkVIso2 v no_cache) w = (r, m', u', w') /\
    fd_view w' 0 = fd_view w 0 /\ is_Some (fd_view w 0).
Proof.
  intros w. destruct viso_run_ok as (v & Ev & _ & _).
  destruct (VIso2_read (zext []) 0 100000 (mkVIso2 v no_cache) w) as [[[r m'] u'] w'] eqn:E.
  exists v, r, m', u', w'. split; [exact Ev|]. split; [exact E|].
  assert (exists y, fd_view w 0 = Some y) as [y Hy] by (eexists; vm_compute; reflexivity).
  destruct (cached_read_isolated (mkVIso2 v no_cache) w (zext []) 0 100000 r m' u' w' (fun _ => eq_refl) E)
    as [_ A]. clear E. destruct (A 0 y Hy) as [Hd _]; [intros [Hx _]; exact (Hx eq_refl)|].
  split; [exact (eq_trans Hd (eq_sym Hy))|exists y; exact Hy].
Defined.
