(* ===== verification/OwnViso.v ===== *)
(** * The descriptors of virtual images, and of what a connection reads

    [VIsoFile] opens a file for each read and closes it again: between its calls
    it owns no descriptor.  VIsoFile2 keeps the one it read last.  What a
    connection has open is a [File] or an image. *)

From S2P Require Import Prelude CString Os Stream AbsFile FileIso FileView Client RoFile.
From S2P Require Import VIso VIsoView VIsoTree VIsoDirs VIsoImage VIso2 VIsoBuild VIsoContents VIsoSpec.
From S2P Require Import Frame VIsoFrame VIso2Spec Ownership OwnFile.

(** The calls of a directory scan are not noticed by the owner of a descriptor. *)
Class SharedVisoLaws (W : Type) `{VisoSys W, PosixView W, !StreamView W, !SharedView W} : Prop := {
  hl_scandir p f w r w' : sys_scandir p f w = (r, w') -> still w w';
  hl_time w r w' : sys_time w = (r, w') -> still w w';
  hl_urandom n w r w' : sys_urandom n w = (r, w') -> still w w';
}.

Section image.
Context {W : Type} `{PosixLaws W, !StreamView W, !StreamLaws W, !SharedView W, !SharedLaws W}.
Context `{!VisoSys W, !SharedVisoLaws W}.
Variables (dirs_max : nat) (st_uninit : file_stat_t).
Implicit Types (v : VIsoFile) (w : W).

#[export] Instance still_idle : Idle (W := W) still.
Proof.
  split; [intros w; apply (inert_refl (Q := still))|intros w1 w2 w3; apply (inert_trans (Q := still))|..].
  - intros p w r st w'. apply (inert_stat (Q := still)).
  - apply hl_scandir.
  - apply hl_time.
  - apply hl_urandom.
Qed.

Lemma read_data_still f o c w r c' w' : read_data f o c w = (r, c', w') -> quiet still w w'.
Proof.
  unfold read_data. cbv zeta. destruct (open_file _ O_RDONLY w) as [d w1] eqn:E1.
  pose proof (peek_open (Q := still) _ _ _ _ E1) as Q1. apply spares_open in E1.
  destruct (negb (FD_OK d)); [by intros [= _ _ <-]|].
  destruct (seek_file d _ _ w1) as [x w2] eqn:E2. apply (within_seek [d]) in E2; [|right; by left].
  destruct (read_file d _ _ _ w2) as [[n m] w3] eqn:E3. apply (within_read [d]) in E3; [|right; by left].
  destruct (close_file d w3) as [y w4] eqn:E4. apply spares_close in E4. intros E.
  assert (quiet still w w4) as Q4.
  { apply spares_still. eapply spares_trans; [exact E1|]. eapply spares_trans; [exact E2|].
    eapply spares_trans; [exact E3|exact E4]. }
  revert E. by repeat case_match; intros [= _ _ <-].
Qed.

Lemma parse_param_sfo_spares d field n w r w' :
  parse_param_sfo d field n w = Some (r, w') -> spares [d] w [] w'.
Proof.
  unfold parse_param_sfo. cbv zeta.
  destruct (seek_file d _ _ w) as [x w1] eqn:E1. apply (within_seek [d]) in E1; [|right; by left].
  destruct (sys_malloc _ w1) as [ok w2] eqn:E2. apply (within_malloc [d]) in E2.
  destruct (negb ok).
  - destruct (close_file d w2) as [y w3] eqn:E3. apply spares_close in E3. intros [= _ <-].
    eapply spares_trans; [exact E1|]. eapply spares_trans; [exact E2|exact E3].
  - destruct (seek_file d 0 SEEK_SET w2) as [y w3] eqn:E3. apply (within_seek [d]) in E3; [|right; by left].
    destruct (read_file d _ _ _ w3) as [[k m] w4] eqn:E4. apply (within_read [d]) in E4; [|right; by left].
    destruct (close_file d w4) as [z w5] eqn:E5. apply spares_close in E5. 
    destruct (find_field _ _ _ _ _ _ _) as [p|]; [|done]. intros [= _ <-].
    do 4 (eapply spares_trans; [eassumption|]). exact E5.
Qed.

Lemma get_title_id_still dir w r w' : get_title_id dir w = Some (r, w') -> quiet still w w'.
Proof.
  unfold get_title_id. cbv zeta. destruct (open_file _ O_RDONLY w) as [d w1] eqn:E1.
  pose proof (peek_open (Q := still) _ _ _ _ E1) as Q1. apply spares_open in E1.
  destruct (negb (FD_OK d)); [by intros [= _ <-]|]. intros E2%parse_param_sfo_spares.
  apply spares_still. by eapply spares_trans.
Qed.

#[export] Instance VIso_Owner : @Owner VIsoFile W (VIso_AbstractFile dirs_max st_uninit) _ _ _ _ _.
Proof.
  refine {| newborn _ := True; owned _ := []; docile _ := True |}.
  - intros p v w r v' w' _ E. split; [|done]. apply spares_still. revert E.
    apply (VIso_open_keeps still). exact get_title_id_still.
  - intros m o n v w r m' v' w' _ E. split; [|done]. apply spares_still. revert E.
    apply (VIso_read_keeps still). exact read_data_still.
  - intros o wh v w r v' w' _ E. split; [|done]. cbn in E. unfold VIso_seek in E.
    destruct (fsBuf v); injection E as _ _ <-; apply spares_refl.
  - intros st v w r st' v' w' _ E. split; [|done]. cbn in E. unfold VIso_fstat in E.
    destruct (fsBuf v); injection E as _ _ _ <-; apply spares_refl.
  - intros v w _. apply spares_refl.
  - intros v w w' _ Hf _. by apply VIso_view_frame.
Defined.
End image.

(** ** The descriptor that VIsoFile2 keeps *)

Section image2.
Context {W : Type} `{PosixLaws W, !StreamView W, !StreamLaws W, !SharedView W, !SharedLaws W}.
Context `{!VisoSys W, !SharedVisoLaws W}.
Variables (dirs_max : nat) (st_uninit : file_stat_t).
Implicit Types (k : cache) (u : VIsoFile2) (w : W).

Definition kept k : list Z := if lastPath k then [v_fd k] else [].

(** [cache_wf]: without a file there is no descriptor to be closed. *)
Definition keeps_cache (x x' : cache * W) : Prop :=
  cache_wf x.1 -> cache_wf x'.1 /\ spares (kept x.1) x.2 (kept x'.1) x'.2.

#[export] Instance keeps_cache_chain : Chain keeps_cache.
Proof.
  split; [intros x Hk; split; [done|apply spares_refl]|]. intros x1 x2 x3 A B Hk.
  destruct (A Hk) as [Hk2 SA]. destruct (B Hk2) as [Hk3 SB]. split; [done|by eapply spares_trans].
Qed.

Lemma fd_reset_keeps k w k' w' : fd_reset k w = (k', w') ->
  cache_wf k -> k' = no_cache /\ spares (kept k) w [] w'.
Proof.
  unfold fd_reset. intros [= <- <-] Hk. split; [done|]. unfold kept. destruct (lastPath k) as [i|] eqn:El.
  - destruct (_ && _); [|apply (spares_forget _ _ [] [v_fd k]), spares_refl].
    destruct (close_file (v_fd k) w) as [r w1] eqn:E. by eapply spares_close.
  - rewrite (Hk El). apply spares_refl.
Qed.

Lemma open_cached_keeps i f k w ok k' w' : open_cached i f k w = (ok, k', w') ->
  keeps_cache (k, w) (k', w') /\ (ok = true -> cache_wf k -> in_hand (kept k') (v_fd k')).
Proof.
  unfold open_cached. case_decide as Hl.
  - intros [= <- <- <-]. split; [apply (inert_refl (Q := keeps_cache))|]. intros _ _. right. unfold kept. rewrite Hl. by left.
  - destruct (fd_reset k w) as [k1 w1] eqn:E1. destruct (open_file _ O_RDONLY w1) as [d w2] eqn:E2.
    apply spares_open in E2.
    assert (cache_wf k -> spares (kept k) w [d] w2) as S2.
    { intros Hk. destruct (fd_reset_keeps _ _ _ _ E1 Hk) as [_ S1]. by eapply spares_trans. }
    destruct (negb (FD_OK d)).
    + destruct (fd_reset (mkCache d (Some i)) w2) as [k3 w3] eqn:E3. intros [= <- <- <-]. split; [|done].
      intros Hk. destruct (fd_reset_keeps _ _ _ _ E3) as [-> S3]; [done|]. split; [done|].
      eapply spares_trans; [by apply S2|exact S3].
    + intros [= <- <- <-]. split; [|intros _ _; right; by left]. intros Hk. split; [done|by apply S2].
Qed.

Lemma read_data2_keeps i f fs c (x : cache * W) r c' x' :
  read_data2 i f fs c x = (r, c', x') -> quiet keeps_cache x x'.
Proof.
  destruct x as [k w]. unfold read_data2. destruct (open_cached i f k w) as [[ok k1] w1] eqn:E1.
  apply open_cached_keeps in E1 as [Q1 Hin]. destruct ok; cbn [negb]; [|by intros [= _ _ <-]]. specialize (Hin eq_refl).
  destruct (seek_file (v_fd k1) _ _ w1) as [r2 w2] eqn:E2.
  destruct (read_file (v_fd k1) _ _ _ w2) as [[r3 m] w3] eqn:E3.
  assert (keeps_cache (k, w) (k1, w3)) as Q3.
  { intros Hk. destruct (Q1 Hk) as [Hk1 S1]. specialize (Hin Hk). split; [done|].
    eapply spares_trans; [exact S1|]. eapply spares_trans; [by eapply within_seek|by eapply within_read]. }
  assert (forall x', fd_reset k1 w3 = x' -> keeps_cache (k, w) x') as Q4.
  { intros [k4 w4] E4 Hk. destruct (Q3 Hk) as [Hk3 S3]. destruct (fd_reset_keeps _ _ _ _ E4 Hk3) as [-> S4].
    split; [done|by eapply spares_trans]. }
  cbv zeta. destruct (r3 <? 0); [intros [= _ _ <-]; by apply Q4|].
  destruct (negb _); intros [= _ _ <-]; [by apply Q4|exact Q3].
Qed.

Lemma reset2_keeps u w u' w' : reset2 u w = (u', w') -> cache_wf (cached u) ->
  cached u' = no_cache /\ spares (kept (cached u)) w [] w'.
Proof.
  unfold reset2. destruct (fd_reset (cached u) w) as [k w1] eqn:E. intros [= <- <-] Hk.
  by apply (fd_reset_keeps _ _ _ _ E).
Qed.

Lemma VIso2_delete_spares u w : cache_wf (cached u) -> spares (kept (cached u)) w [] (VIso2_delete u w).
Proof.
  intros Hk. unfold VIso2_delete, VIso2_close. destruct (fsBuf (image u)).
  - destruct (reset2 u w) as [u1 w1] eqn:E1. destruct (reset2_keeps _ _ _ _ E1 Hk) as [Hn S1].
    destruct (reset2 u1 w1) as [u2 w2] eqn:E2. apply reset2_keeps in E2; [|by rewrite Hn].
    rewrite Hn in E2. eapply spares_trans; [exact S1|apply E2].
  - destruct (reset2 u w) as [u2 w2] eqn:E2. by apply reset2_keeps in E2 as [_ ?].
Qed.

#[export] Instance VIso2_Owner : @Owner VIsoFile2 W (VIso2_AbstractFile dirs_max st_uninit) _ _ _ _ _.
Proof.
  refine {| newborn u := cached u = no_cache; owned u := kept (cached u); docile u := cache_wf (cached u) |}.
  - intros p u w r u' w' Hn E. change (VIso2_open dirs_max st_uninit (Some p) O_RDONLY u w = Some (r, u', w')) in E. rewrite VIso2_open_eq, Hn in E. cbn [O_RDONLY Z.eqb] in E.
    destruct (match fsBuf (image u) with Some _ => _ | None => _ end) as [k w1] eqn:E1.
    assert (k = no_cache /\ w1 = w) as [-> ->] by (by destruct (fsBuf (image u)); injection E1 as <- <-).
    destruct (VIso_open _ _ _ _ _ _) as [[[r1 x] w2]|] eqn:E2; [|done]. injection E as _ <- <-. split; [|done].
    apply spares_still. apply (VIso_open_keeps still) in E2; [exact E2|exact get_title_id_still].
  - intros m o n u w r m' u' w' Hk E. cbn in E. unfold VIso2_read in E.
    destruct (fd_reset (cached u) w) as [k1 w1] eqn:E1. pose proof (fd_reset_keeps _ _ _ _ E1 Hk) as [Hk1 S1].
    assert (forall x y z, (FAILED, m, mkVIso2 (image u) k1, w1) = (x, y, u', z) -> z = w' ->
      spares (kept (cached u)) w (kept (cached u')) w' /\ cache_wf (cached u')) as Hfail.
    { intros x y z [= _ _ <- <-] <-. cbn. by rewrite Hk1. }
    destruct (fsBuf (image u)) as [fs|]; [|by eapply Hfail].
    destruct (_ || _); [injection E as _ _ <- <-; split; [apply spares_refl|done]|].
    destruct (_ <? 0); [by eapply Hfail|].
    destruct (read_image read_data2 fs m o n (image u) (cached u, w)) as [[[r2 m2] x] [k2 w2]] eqn:E2.
    injection E as _ _ <- <-. apply (read_image_keeps keeps_cache _ read_data2_keeps) in E2.
    destruct (E2 Hk). by split.
  - intros o wh u w r u' w' Hk E. cbn in E. unfold VIso2_seek, VIso_seek in E.
    destruct (fsBuf (image u)); injection E as _ <- <-; (split; [apply spares_refl|done]).
  - intros st u w r st' u' w' Hk E. cbn in E. unfold VIso2_fstat, VIso_fstat in E.
    destruct (fsBuf (image u)); injection E as _ _ <- <-; (split; [apply spares_refl|done]).
  - intros u w Hk. by apply VIso2_delete_spares.
  - intros u w w' Hk Hf Hv. cbn. unfold VIso2_view. rewrite (VIso_view_frame _ w w') by done.
    assert (cache_ok (all_files (image u)) (cached u) w' <-> cache_ok (all_files (image u)) (cached u) w) as E.
    { unfold cache_ok. unfold kept in Hv. destruct (lastPath (cached u)) as [i|]; [|done].
      rewrite Hv by (by left). destruct (all_files (image u) !! i) as [f|]; [|done]. cbn.
      by rewrite (file_contents_frame w w' f Hf). }
    repeat case_decide; tauto.
Defined.
End image2.

(** ** What a connection reads *)

(** The objects that process_open_cmd makes are new ones. *)
Class OwnerFactory (R W : Type) `{Owner R W, RoFactory R} : Prop := {
  newborn_File : newborn new_File;
  newborn_VIsoFile ps3 : newborn (new_VIsoFile ps3);
}.

Section sum.
Context {W V : Type} `{PosixLaws W, !StreamView W, !StreamLaws W, !SharedView W, !SharedLaws W, Aes}.
Context `{!AbstractFile V W, !AbstractFileView V W, !Owner V W}.
Variables (root_len make_iso : Z) (st_uninit : file_stat_t) (this : File) (new_V : bool -> V).
Abbreviation ro := (File + V)%type.

#[export] Instance ro_Owner : @Owner ro W (ro_AbstractFile root_len make_iso st_uninit) _ _ _ _ _.
Proof.
  pose proof (File_Owner (W := W) root_len make_iso st_uninit) as O.
  refine {| newborn f := match f with inl f => newborn (Owner := O) f | inr v => newborn v end;
            owned f := match f with inl f => owned (Owner := O) f | inr v => owned v end;
            docile f := match f with inl f => docile (Owner := O) f | inr v => docile v end |}.
  - intros p [f|v] w r f' w' Hn; remember (Some p) as q eqn:Hq; cbn; intros E; subst q.
    + destruct (File_open _ _ _ _ _ _ _) as [[[x g] w1]|] eqn:E1; [|done]. injection E as _ <- <-.
      exact (own_open (Owner := O) _ _ _ _ _ _ Hn E1).
    + destruct (af_open _ _ _ _) as [[[x g] w1]|] eqn:E1; [|done]. injection E as _ <- <-. by eapply own_open.
  - intros m o n [f|v] w r m' f' w' Hn E; cbn in E; unfold on_file, on_viso in E.
    + destruct (File_read _ _ _ _ _) as [[[x y] g] w1] eqn:E1. injection E as _ _ <- <-.
      exact (own_read (Owner := O) _ _ _ _ _ _ _ _ _ Hn E1).
    + destruct (af_read _ _ _ _ _) as [[[x y] g] w1] eqn:E1. injection E as _ _ <- <-. by eapply own_read.
  - intros o wh [f|v] w r f' w' Hn E; cbn in E; unfold on_file, on_viso in E.
    + destruct (File_seek _ _ _ _) as [[x g] w1] eqn:E1. injection E as _ <- <-.
      exact (own_seek (Owner := O) _ _ _ _ _ _ _ Hn E1).
    + destruct (af_seek _ _ _ _) as [[x g] w1] eqn:E1. injection E as _ <- <-. by eapply own_seek.
  - intros st [f|v] w r st' f' w' Hn E; cbn in E; unfold on_file, on_viso in E.
    + destruct (File_fstat _ _ _ _) as [[[x y] g] w1] eqn:E1. injection E as _ _ <- <-.
      exact (own_fstat (Owner := O) _ _ _ _ _ _ _ Hn E1).
    + destruct (af_fstat _ _ _) as [[[x y] g] w1] eqn:E1. injection E as _ _ <- <-. by eapply own_fstat.
  - intros [f|v] w Hn; [exact (own_delete (Owner := O) f w Hn)|exact (own_delete v w Hn)].
  - intros [f|v] w w' Hn Hf Hv; [exact (own_view (Owner := O) f w w' Hn Hf Hv)|exact (own_view v w w' Hn Hf Hv)].
Defined.

Lemma ro_OwnerFactory : (forall ps3, newborn (new_V ps3)) ->
  @OwnerFactory ro W _ _ _ _ _ _ ro_Owner (ro_factory this new_V).
Proof. intros Hv. by split. Qed.
End sum.
