(* ===== verification/DirSpec.v ===== *)
(** * Listing and measuring directories

    The size of a directory is the sum of the sizes of the files in the tree
    below it; a listing has the names of the directory, in order, and its reply
    is as long as the count in it says. *)

From S2P Require Import Prelude Endian CMem Os Stream CString AbsFile FileIso Client.
From S2P Require Import Paths OpenCmd FileCmds DirCmds Frame Scenario.

(** ** The tree below a path, in terms of what the system shows *)

(** Entries that count: not the directory itself or its parent, and of a length
    that the protocol can carry. *)
Definition listed (name : bytes) : bool :=
  negb (IS_PARENT_DIR name) && IS_RANGE (blen name) 1 MAX_FILE_LEN.

Definition mode_is (flag md : Z) : bool := Z.land md flag =? flag.

(** The sum of [f] over the listed names, where it is defined for all of them. *)
Fixpoint sum_sizes (f : bytes -> option Z) (names : list bytes) : option Z :=
  match names with
  | [] => Some 0
  | n :: names =>
      if listed n then a ← f n; b ← sum_sizes f names; Some (a + b) else sum_sizes f names
  end.

Section tree.
Context {W : Type} `{PosixView W, StreamView W}.
Implicit Types w : W.

Definition entry_size (below : bytes -> option Z) w (path name : bytes) : option Z :=
  let p := path ++ [slash] ++ name in
  '(sz, md) ← meta_at w p;
  if mode_is S_IFDIR md then below p else if mode_is S_IFREG md then Some sz else Some 0.

(** The bytes in the files of a tree of at most [depth] levels, with fewer than
    [entries] names in each directory. *)
Fixpoint tree_size (depth entries : nat) w (path : bytes) : option Z :=
  match depth with
  | O => None
  | S depth =>
      match meta_at w path, dir_at w path with
      | Some _, Some names =>
          if (length names <? entries)%nat then
            sum_sizes (entry_size (tree_size depth entries w) w path) names
          else None
      | _, _ => None
      end
  end.

(** The same files and directories, and of the directory streams in [D] the same are
    open and have the same names left. *)
Record same_tree (D : Z -> Prop) w w' : Prop := {
  st_meta p : meta_at w' p = meta_at w p;
  st_dir p : dir_at w' p = dir_at w p;
  st_left d : D d -> dir_left w' d = dir_left w d;
  st_mem : memory w -> memory w';
}.

(** The number that is asked for, or the error when memory or streams run out. *)
Definition answered w (r n : Z) : Prop := r = n \/ r = FAILED /\ ~ memory w.

Lemma answered_from w w' r n : (memory w -> memory w') -> answered w' r n -> answered w r n.
Proof. intros Hm [->|[-> Hn]]; [by left|right; auto]. Qed.

Lemma same_tree_trans (D : Z -> Prop) w1 w2 w3 :
  same_tree D w1 w2 -> same_tree D w2 w3 -> same_tree D w1 w3.
Proof.
  intros [A1 A2 A3 A4] [B1 B2 B3 B4]. split; [intros; by rewrite B1|intros; by rewrite B2| |auto].
  intros d Hd. by rewrite B3, A3.
Qed.

Lemma same_tree_mono (D D' : Z -> Prop) w w' :
  (forall d, D' d -> D d) -> same_tree D w w' -> same_tree D' w w'.
Proof. intros Hd []. split; auto. Qed.

Lemma keeps_fs_tree P w w' : keeps_fs P w w' -> steady w w' -> same_tree any_fd w w'.
Proof. intros [] []. by split. Qed.

Lemma keeps_dirs_tree (D : Z -> Prop) w w' : keeps_dirs D w w' -> steady w w' -> same_tree D w w'.
Proof. intros [] []. by split. Qed.

(** A stream that was opened and closed again is as it was. *)
Lemma same_tree_closed w w' d : same_tree (fun d' => d' <> d) w w' -> dir_left w' d = dir_left w d ->
  same_tree any_fd w w'.
Proof.
  intros [A B C D] Hd. split; [done|done| |done]. intros d' _.
  destruct (decide (d' = d)) as [->|Hne]; [done|by apply C].
Qed.

Lemma sum_sizes_ext f g names : (forall n, f n = g n) -> sum_sizes f names = sum_sizes g names.
Proof. intros E. induction names as [|n names IH]; cbn; [done|]. by rewrite E, IH. Qed.

Lemma entry_size_ext f g w w' path n :
  (forall p, meta_at w' p = meta_at w p) -> (forall p, f p = g p) ->
  entry_size f w' path n = entry_size g w path n.
Proof.
  intros Hm E. unfold entry_size. rewrite Hm. destruct (meta_at w _) as [[sz md]|]; cbn; [|done].
  by rewrite E.
Qed.

Lemma tree_size_ext D w w' depth entries path :
  same_tree D w w' -> tree_size depth entries w' path = tree_size depth entries w path.
Proof.
  intros T. revert path. induction depth as [|depth IH]; intros path; cbn [tree_size]; [done|].
  rewrite (st_meta D w w' T), (st_dir D w w' T).
  destruct (meta_at w path), (dir_at w path); try done. destruct (_ <? _)%nat; [|done].
  apply sum_sizes_ext. intros n. apply (entry_size_ext _ _ w w' path n (st_meta D w w' T) IH).
Qed.

Lemma sum_sizes_nonneg f names a :
  (forall n b, f n = Some b -> 0 <= b) -> sum_sizes f names = Some a -> 0 <= a.
Proof.
  intros Hf. revert a. induction names as [|n names IH]; intros a; cbn; [intros [= <-]; lia|].
  destruct (listed n); [|apply IH]. destruct (f n) as [x|] eqn:Ex; [|done]; cbn.
  destruct (sum_sizes f names) as [y|]; [|done]. intros [= <-].
  apply Hf in Ex. specialize (IH _ eq_refl). lia.
Qed.
End tree.

Section size.
Context {W : Type} `{PosixLaws W, !StreamView W, !StreamLaws W}.
Variables (st_uninit : file_stat_t).
Implicit Types w : W.

Lemma entry_size_nonneg f w path n b :
  (forall p a, f p = Some a -> 0 <= a) -> entry_size f w path n = Some b -> 0 <= b.
Proof.
  intros Hf. unfold entry_size. destruct (meta_at w _) as [[sz md]|] eqn:E; [cbn|done].
  destruct (mode_is S_IFDIR md); [apply Hf|].
  destruct (mode_is S_IFREG md); intros [= <-]; [by eapply law_meta_size|lia].
Qed.

Lemma tree_size_nonneg depth entries w path a : tree_size depth entries w path = Some a -> 0 <= a.
Proof.
  revert path a. induction depth as [|depth IH]; intros path a; cbn [tree_size]; [done|].
  destruct (meta_at w path), (dir_at w path); try done. destruct (_ <? _)%nat; [|done].
  apply sum_sizes_nonneg. intros n b. by apply entry_size_nonneg.
Qed.

Lemma stat_file_meta p fs w :
  exists r st w', stat_file (Some p) fs w = (r, st, w') /\ same_tree any_fd w w' /\
    match meta_at w p with
    | Some (sz, md) => r = 0 /\ file_size st = sz /\ mode st = md
    | None => r < 0
    end.
Proof.
  unfold stat_file. destruct (sys_stat p w) as [[r st] w'] eqn:E.
  pose proof (law_stat_meta _ _ _ _ _ E) as Hm. pose proof (sl_stat _ _ _ _ _ E) as [Hst _].
  apply law_stat in E as [Hk _].
  destruct (meta_at w p) as [[sz md]|]; [destruct Hm as (-> & ? & ?)|subst r]; cbn;
    do 3 eexists; (split; [done|]); (split; [by eapply keeps_fs_tree|done]).
Qed.

(** The calls on directories keep the tree. *)
Lemma readdir_tree d w e w' : sys_readdir d w = (e, w') -> same_tree (fun d' => d' <> d) w w'.
Proof. intros E. pose proof (sl_readdir _ _ _ _ E) as [? _]. apply law_readdir in E as [? _]. by apply keeps_dirs_tree. Qed.

Lemma closedir_tree d w : same_tree (fun d' => d' <> d) w (sys_closedir d w) /\ dir_left (sys_closedir d w) d = None.
Proof. destruct (law_closedir d w) as (? & _ & ?), (sl_closedir d w) as [? _]. split; [by apply keeps_dirs_tree|done]. Qed.

(** A directory that is opened, or not for want of memory or streams. *)
Lemma opendir_tree p w names d w' : sys_opendir p w = (d, w') -> dir_at w p = Some names ->
  match d with
  | Some d => same_tree (fun d' => d' <> d) w w' /\ dir_left w d = None /\ dir_left w' d = Some names
  | None => ~ memory w /\ same_tree any_fd w w'
  end.
Proof.
  intros E Hp. pose proof (sl_opendir _ _ _ _ E) as [S _]. destruct (law_opendir _ _ _ _ E) as (T & _ & Hl).
  apply keeps_dirs_tree in T; [|done]. destruct d as [d|].
  - destruct (Hl d eq_refl) as [Hn Hd]. split; [|by rewrite Hd, Hp]. eapply same_tree_mono, T. congruence.
  - split; [|by eapply same_tree_mono, T]. intros M. destruct (sl_opendir_ok p w names M Hp) as [d Hd].
    by rewrite E in Hd.
Qed.

Lemma opened_closed w1 w2 w3 d : same_tree (fun d' => d' <> d) w1 w2 -> dir_left w1 d = None ->
  same_tree (fun d' => d' <> d) w2 w3 -> same_tree any_fd w1 (sys_closedir d w3).
Proof.
  intros A Hn B. destruct (closedir_tree d w3) as [C Hc]. apply same_tree_closed with d; [|by rewrite Hc].
  eapply same_tree_trans, C. by eapply same_tree_trans.
Qed.

Section loop.
Variables (depth entries : nat) (nested : bytes -> W -> option (Z * W)).
Hypothesis nested_spec : forall w p m,
  tree_size depth entries w p = Some m -> m < 2 ^ 63 ->
  exists r w', nested p w = Some (r, w') /\ answered w r m /\ same_tree any_fd w w'.

Lemma dir_size_loop_spec k d path names acc total w :
  dir_left w d = Some names -> (length names < k)%nat -> 0 <= acc ->
  sum_sizes (entry_size (tree_size depth entries w) w path) names = Some total ->
  acc + total < 2 ^ 63 ->
  exists r w', dir_size_loop st_uninit nested k d (path ++ [slash]) acc w = Some (r, w') /\
    answered w r (acc + total) /\ same_tree (fun d' => d' <> d) w w'.
Proof.
  revert names acc total w. induction k as [|k IH]; intros names acc total w Hl Hk Ha Hs Hb; [lia|].
  cbn [dir_size_loop]. destruct (law_readdir_ok d w names Hl) as (w1 & E1 & Hl1). rewrite E1.
  apply readdir_tree in E1 as T1.
  assert (forall n, entry_size (tree_size depth entries w1) w1 path n =
                    entry_size (tree_size depth entries w) w path n) as Hext.
  { intros n. apply entry_size_ext; [apply T1|]. intros p. by eapply tree_size_ext. }
  destruct names as [|n names]; cbn [head tail] in *.
  { injection Hs as <-. exists acc, w1. split; [done|]. split; [left; lia|done]. }
  cbn [length] in Hk. cbn [sum_sizes] in Hs. unfold listed in Hs.
  assert (forall w2 a b, same_tree any_fd w1 w2 -> 0 <= acc + a -> a + b = total ->
    sum_sizes (entry_size (tree_size depth entries w1) w1 path) names = Some b -> exists r w',
    dir_size_loop st_uninit nested k d (path ++ [slash]) (acc + a) w2 = Some (r, w') /\
    answered w r (acc + total) /\ same_tree (fun d' => d' <> d) w w') as Hgo.
  { intros w2 a b T2 Hpos <- Eb. assert (same_tree (fun d' => d' <> d) w1 w2) as T3 by by eapply same_tree_mono, T2.
    destruct (IH names (acc + a) b w2) as (r & w' & -> & Hr & T4); [by rewrite (st_left _ _ _ T2)|lia|lia| |lia|].
    - rewrite <- Eb. apply sum_sizes_ext. intros m. apply entry_size_ext; [apply T3|].
      intros p. by eapply tree_size_ext.
    - pose proof (same_tree_trans _ _ _ _ T1 T3) as T. exists r, w'. split; [done|]. split.
      + apply answered_from with w2; [apply T|]. by rewrite Z.add_assoc.
      + by eapply same_tree_trans. }
  assert (same_tree any_fd w1 w1) as T0 by by split.
  specialize (Hgo w1 0 total T0 ltac:(lia) eq_refl) as Hskip. rewrite Z.add_0_r, (sum_sizes_ext _ _ _ Hext) in Hskip.
  destruct (IS_PARENT_DIR n); cbn [negb andb] in Hs; [by apply Hskip|].
  destruct (IS_RANGE (blen n) 1 MAX_FILE_LEN); cbn [negb]; [|by apply Hskip]. clear Hskip.
  rewrite <- Hext in Hs. destruct (entry_size _ w1 path n) as [a|] eqn:Ea; [|done]. cbn in Hs.
  rewrite <- (sum_sizes_ext _ _ _ Hext) in Hs.
  destruct (sum_sizes _ names) as [b|] eqn:Eb; [|done]. injection Hs as <-.
  assert (0 <= a) as Ha0 by (eapply entry_size_nonneg, Ea; intros; by eapply tree_size_nonneg).
  assert (0 <= b) as Hb0.
  { eapply sum_sizes_nonneg, Eb. intros m x. apply entry_size_nonneg. intros. by eapply tree_size_nonneg. }
  unfold entry_size in Ea. rewrite <- app_assoc. cbn [app].
  destruct (stat_file_meta (path ++ [slash] ++ n) st_uninit w1) as (r & st & w2 & E2 & T2 & Hst).
  cbn [app] in *. rewrite E2. destruct (meta_at w1 _) as [[sz md]|]; [cbn in Ea|done].
  destruct Hst as (-> & <- & <-). cbn [Z.ltb Z.compare].
  unfold is_dir, is_reg. unfold mode_is in Ea.
  destruct (Z.land (mode st) S_IFDIR =? S_IFDIR).
  - destruct (nested_spec w2 (path ++ slash :: n) a) as (r & w3 & -> & Hr & T3);
      [by rewrite (tree_size_ext _ _ _ _ _ _ T2)|lia|].
    pose proof (same_tree_trans _ _ _ _ T2 T3) as T23. destruct Hr as [->|[-> Hno]].
    + destruct (Z.ltb_spec a 0); [lia|]. rewrite s64_small by lia. by apply (Hgo w3 a b T23); [lia|..].
    + change (FAILED <? 0) with true. exists FAILED, w3. split; [done|].
      split; [right; split; [done|]; intros M; by apply Hno, T2, T1|].
      eapply same_tree_trans; [exact T1|]. by eapply same_tree_mono, T23.
  - destruct (Z.land (mode st) S_IFREG =? S_IFREG); injection Ea as <-.
    + rewrite s64_small by lia. by apply (Hgo w2 (file_size st) b T2); [lia|..].
    + specialize (Hgo w2 0 b T2). rewrite Z.add_0_r in Hgo. apply Hgo; [lia|done|done].
Qed.
End loop.

Lemma calculate_directory_size_spec depth entries w path m :
  tree_size depth entries w path = Some m -> m < 2 ^ 63 ->
  exists r w', calculate_directory_size st_uninit depth entries path w = Some (r, w') /\
    answered w r m /\ same_tree any_fd w w'.
Proof.
  revert w path m. induction depth as [|depth IH]; intros w path m; [done|].
  cbn [tree_size calculate_directory_size].
  destruct (meta_at w path) as [[sz md]|] eqn:Em; [|done].
  destruct (dir_at w path) as [names|] eqn:Ed; [|done].
  destruct (Nat.ltb_spec (length names) entries) as [Hn|]; [|done]. intros Hs Hb.
  destruct (stat_file_meta path st_uninit w) as (r & st & w1 & -> & T1 & Hst).
  rewrite Em in Hst. destruct Hst as (-> & _). cbn [Z.ltb Z.compare].
  destruct (sys_opendir path w1) as [d w2] eqn:E2. apply opendir_tree with (names := names) in E2;
    [|by rewrite (st_dir _ _ _ T1)]. destruct d as [d|].
  2: { destruct E2 as [Hno T2]. exists FAILED, w2. split; [done|].
       split; [right; split; [done|]; intros M; by apply Hno, T1|]. by eapply same_tree_trans. }
  destruct E2 as (T2 & Hfresh & Hleft).
  assert (same_tree (fun d' => d' <> d) w w2) as T3.
  { eapply same_tree_trans, T2. by eapply same_tree_mono, T1. }
  destruct (dir_size_loop_spec depth entries (calculate_directory_size st_uninit depth entries) IH
    entries d path names 0 m w2) as (r & w3 & -> & Hr & T4); [done..| |done|].
  { rewrite <- Hs. apply sum_sizes_ext. intros n. apply entry_size_ext; [apply T3|].
    intros p. by eapply tree_size_ext. }
  exists r, (sys_closedir d w3). split; [done|]. split; [apply answered_from with w2; [apply T3|done]|].
  eapply same_tree_trans; [exact T1|]. by apply opened_closed with w2.
Qed.
End size.

(** ** Listings *)

(** What a listing shows of an entry: size (as stored), kind and name.  Something
    that cannot be stat'ed is shown as a directory. *)
Definition shown {W} `{PosixView W} (w : W) (path name : bytes) : Z * Z * bytes :=
  match meta_at w (path ++ name) with
  | Some (sz, md) => if mode_is S_IFDIR md then (0, 1, entry_name name)
                     else (BE64 (u64 sz), 0, entry_name name)
  | None => (0, 1, entry_name name)
  end.

Definition shows (e : dir_entry) : Z * Z * bytes := (de_file_size e, de_is_directory e, de_name e).

(** Names that are listed: no parent directories, and short enough for the path. *)
Definition fits (path_len : Z) (path name : bytes) : bool :=
  negb (IS_PARENT_DIR name) && (blen path + blen name <? path_len).

Section listing.
Context {W : Type} `{PosixLaws W, !StreamView W, !StreamLaws W}.
Variables (st_uninit : file_stat_t).
Implicit Types w : W.

Lemma shown_ext w w' path name :
  (forall p, meta_at w' p = meta_at w p) -> shown w' path name = shown w path name.
Proof. intros E. unfold shown. by rewrite E. Qed.

Lemma read_dir_loop_lists nested dl pl mi k d2 path names items w :
  dir_left w d2 = Some names -> (length names < k)%nat -> blen items < mi ->
  exists items' w', read_dir_loop st_uninit nested dl pl mi 0 k d2 path items w = Some (items', w') /\
    same_tree (fun d => d <> d2) w w' /\
    shows <$> items' =
      take (Z.to_nat mi) ((shows <$> items) ++ (shown w path <$> List.filter (fits pl path) names)).
Proof.
  revert names items w. induction k as [|k IH]; intros names items w Hl Hk Hi; [lia|].
  cbn [read_dir_loop]. destruct (law_readdir_ok d2 w names Hl) as (w1 & E1 & Hl1). rewrite E1.
  apply readdir_tree in E1 as T1.
  destruct names as [|n names]; cbn [head tail] in *.
  { exists items, w1. split; [done|]. split; [done|]. rewrite app_nil_r, take_ge; [done|].
    rewrite length_fmap. unfold blen in *. lia. }
  cbn [length] in Hk.
  assert (forall w2 l, same_tree any_fd w1 w2 -> blen l < mi -> exists items' w',
    read_dir_loop st_uninit nested dl pl mi 0 k d2 path l w2 = Some (items', w') /\
    same_tree (fun d => d <> d2) w w' /\
    shows <$> items' = take (Z.to_nat mi) ((shows <$> l) ++ (shown w path <$> List.filter (fits pl path) names)))
    as Hgo.
  { intros w2 l T2 Hlen. assert (same_tree (fun d => d <> d2) w w2) as T3.
    { eapply same_tree_trans; [exact T1|]. by eapply same_tree_mono, T2. }
    destruct (IH names l w2) as (items' & w' & -> & T4 & E4); [by rewrite (st_left _ _ _ T2)|lia|done|].
    exists items', w'. split; [done|]. split; [by eapply same_tree_trans|]. rewrite E4.
    f_equal. f_equal. apply list_fmap_ext. intros ? x _. by apply shown_ext, T3. }
  assert (same_tree any_fd w1 w1) as Trefl by by split.
  cbn [List.filter]. unfold fits at 1. destruct (IS_PARENT_DIR n); cbn [negb andb]; [by apply Hgo|].
  destruct (Z.leb_spec pl (blen path + blen n)), (Z.ltb_spec (blen path + blen n) pl); try lia;
    [by apply Hgo|].
  destruct (stat_file_meta (path ++ n) st_uninit w1) as (r & st & w2 & -> & T2 & Hst).
  change (0 =? 0) with true. rewrite andb_false_r. cbn [negb].
  match goal with |- context [items ++ [?x]] => set (e := x) end.
  assert (shows e = shown w path n) as He.
  { unfold shown. rewrite <- (st_meta _ _ _ T1). unfold shows, e, mode_is, is_dir.
    cbn [de_file_size de_is_directory de_name].
    destruct (meta_at w1 (path ++ n)) as [[sz md]|].
    - destruct Hst as (-> & <- & <-). cbn [Z.ltb Z.compare]. by destruct (Z.land _ _ =? _).
    - destruct (Z.ltb_spec r 0); [done|lia]. }
  clearbody e. destruct (Z.leb_spec mi (blen items)) as [|_]; [lia|].
  rewrite blen_app. change (blen [e]) with 1. rewrite fmap_cons, <- He.
  destruct (Z.leb_spec mi (blen items + 1)).
  - exists (items ++ [e]), w2. split; [done|]. split.
    { eapply same_tree_trans; [exact T1|]. by eapply same_tree_mono, T2. }
    rewrite fmap_app. symmetry. rewrite cons_middle, app_assoc, take_app_le.
    + rewrite take_ge; [done|]. rewrite length_app, length_fmap. cbn. unfold blen in *. lia.
    + rewrite length_app, length_fmap. cbn. unfold blen in *. lia.
  - destruct (Hgo w2 (items ++ [e]) T2) as (items' & w' & -> & T & Ei).
    { rewrite blen_app. change (blen [e]) with 1. lia. }
    exists items', w'. split; [done|]. split; [done|].
    by rewrite Ei, fmap_app, <- app_assoc.
Qed.

(** With a full array, the first entry that is listed is out of bounds. *)
Lemma read_dir_loop_full nested dl pl mi k d2 path items names w :
  mi <= blen items -> dir_left w d2 = Some names -> (length names < k)%nat ->
  List.filter (fits pl path) names <> [] ->
  read_dir_loop st_uninit nested dl pl mi 0 k d2 path items w = None.
Proof.
  intros Hi. revert names w. induction k as [|k IH]; intros names w Hl Hk Hf; [lia|].
  cbn [read_dir_loop]. destruct (law_readdir_ok d2 w names Hl) as (w1 & -> & Hl1).
  destruct names as [|n names]; cbn [head tail length List.filter] in *; [done|].
  unfold fits at 1 in Hf. destruct (IS_PARENT_DIR n); cbn [negb andb] in Hf; [by apply (IH names); [..|lia|]|].
  destruct (Z.leb_spec pl (blen path + blen n)), (Z.ltb_spec (blen path + blen n) pl); try lia;
    [by apply (IH names); [..|lia|]|].
  destruct (stat_file _ _ w1) as [[r st] w2]. change (0 =? 0) with true. rewrite andb_false_r.
  by destruct (Z.leb_spec mi (blen items)); [|lia].
Qed.

(** Everything that is listed, or nothing when memory or streams run out. *)
Lemma process_read_dir_lists entries dp dl pl mi items names w :
  let p := normalize_path dp true in
  dir_at w p = Some names -> (length names < entries)%nat -> blen items < mi ->
  blen dp < pl -> blen p + 1 < pl ->
  exists items' w', process_read_dir st_uninit entries dp dl pl mi 0 items w = Some (items', w') /\
    same_tree any_fd w w' /\
    (items' = items /\ ~ memory w \/
     shows <$> items' = take (Z.to_nat mi)
       ((shows <$> items) ++ (shown w (p ++ [slash]) <$> List.filter (fits pl (p ++ [slash])) names))).
Proof.
  intros p Hd Hn Hi Hdp Hp. unfold process_read_dir, read_dir_level at 1. fold p.
  destruct (sys_malloc pl w) as [ok w1] eqn:Em. pose proof (sl_malloc_ok pl w) as Hok. rewrite Em in Hok.
  pose proof (sl_malloc _ _ _ _ Em) as [S1 _]. apply law_malloc in Em as [T1 _]. pose proof (keeps_fs_tree _ _ _ T1 S1) as T.
  destruct ok; cbn [negb].
  2: { exists items, w1. split; [done|]. split; [done|]. left. split; [done|]. by intros ?%Hok. }
  destruct (Z.leb_spec pl (blen dp)); [lia|].
  destruct (sys_opendir p w1) as [d w2] eqn:Eo. apply opendir_tree with (names := names) in Eo;
    [|by rewrite (st_dir _ _ _ T)]. destruct (Z.ltb_spec (blen p + 1) pl); [|lia]. destruct d as [d|].
  2: { destruct Eo as [Hno T2]. exists items, w2. split; [done|]. split; [by eapply same_tree_trans|].
       left. split; [done|]. intros M. by apply Hno, T. }
  destruct Eo as (T2 & Hfresh & Hl).
  edestruct (read_dir_loop_lists (read_dir_level st_uninit (fun _ items w => Some (items, w)) dl pl mi 2 entries)
    dl pl mi entries d (p ++ [slash]) names items w2) as (items' & w3 & -> & T3 & E); [done..|].
  do 2 eexists. split; [done|]. split; [eapply same_tree_trans; [exact T|by apply opened_closed with w2]|].
  right. rewrite E. f_equal. f_equal. apply list_fmap_ext. intros ? n _. apply shown_ext. intros q.
  by rewrite (st_meta _ _ _ T2), (st_meta _ _ _ T).
Qed.

(** *** The size of the answer *)

(** At most [mi] entries, whose names fit their field. *)
Definition entries_ok (mi : Z) (items : list dir_entry) : Prop :=
  blen items <= mi /\ Forall (fun e => blen (de_name e) <= 511) items.

Lemma entry_name_short d : blen (entry_name d) <= 511.
Proof. unfold entry_name, blen. rewrite length_take. lia. Qed.

Lemma read_dir_loop_ok nested dl pl mi sd k d2 path items w items' w' :
  (forall p l w l' w', nested p l w = Some (l', w') -> entries_ok mi l -> entries_ok mi l') ->
  read_dir_loop st_uninit nested dl pl mi sd k d2 path items w = Some (items', w') ->
  entries_ok mi items -> entries_ok mi items'.
Proof.
  intros Hn. revert items w. induction k as [|k IH]; intros items w E Hok; cbn [read_dir_loop] in E; [done|].
  destruct (sys_readdir d2 w) as [[d_name|] w1]; [|by simplify_eq].
  destruct (IS_PARENT_DIR d_name); [by eauto|]. destruct (pl <=? _); [by eauto|].
  destruct (stat_file _ _ w1) as [[r st] w2]. cbn zeta in E. destruct (_ && _).
  { destruct (sd <? 2); [|by eauto]. destruct (nested _ _ _) as [[l w3]|] eqn:En; [|done].
    eapply IH; [exact E|]. by eapply Hn. }
  match type of E with context [match ?x with Some _ => _ | None => None end = _] =>
    destruct x as [name|] eqn:Ename; [|done] end.
  assert (blen name <= 511) as Hname.
  { destruct (sd =? 0); [|destruct (_ <? dl); [done|]]; injection Ename as <-; apply entry_name_short. }
  destruct (Z.leb_spec mi (blen items)); [done|].
  match type of E with context [items ++ [?x]] => assert (entries_ok mi (items ++ [x])) as Hok' end.
  { split; [rewrite blen_app; unfold blen in *; cbn; lia|]. apply Forall_app. split; [apply Hok|by constructor]. }
  destruct (_ <=? _); [by simplify_eq|by eauto].
Qed.

Lemma read_dir_level_ok nested dl pl mi sd k p items w items' w' :
  (forall p l w l' w', nested p l w = Some (l', w') -> entries_ok mi l -> entries_ok mi l') ->
  read_dir_level st_uninit nested dl pl mi sd k p items w = Some (items', w') ->
  entries_ok mi items -> entries_ok mi items'.
Proof.
  intros Hn. unfold read_dir_level. intros E.
  inert_cases E; eauto using read_dir_loop_ok.
Qed.

Lemma process_read_dir_ok entries p dl pl mi sd items w items' w' :
  process_read_dir st_uninit entries p dl pl mi sd items w = Some (items', w') ->
  entries_ok mi items -> entries_ok mi items'.
Proof.
  apply read_dir_level_ok. intros p1 l1 w1 l1' w1'. apply read_dir_level_ok.
  intros p2 l2 w2 l2' w2' E. by injection E as <- <-.
Qed.

Lemma merge_ini_dirs_ok root_directory k entries pl mi sd l items w items' w' :
  merge_ini_dirs root_directory st_uninit k entries pl mi sd l items w = Some (items', w') ->
  entries_ok mi items -> entries_ok mi items'.
Proof.
  revert l items w. induction k as [|k IH]; intros l items w E Hok; cbn [merge_ini_dirs] in E; [done|].
  inert_cases E; eauto using process_read_dir_ok.
Qed.
End listing.

Section reply.
Context {W R : Type} `{PosixLaws W, Aes, !AbstractFile R W}.
Implicit Types (c : client_t R) (w : W).

Lemma blen_dir_entry_bytes e : blen (de_name e) <= 511 -> blen (dir_entry_bytes e) = dir_entry_size.
Proof.
  intros. unfold dir_entry_bytes, blen in *. rewrite !length_app, !length_le_bytes, length_replicate.
  unfold dir_entry_size. lia.
Qed.

Lemma blen_dir_entries items :
  Forall (fun e => blen (de_name e) <= 511) items ->
  blen (mjoin (dir_entry_bytes <$> items)) = dir_entry_size * blen items.
Proof.
  induction 1 as [|e items He _ IH]; [done|]. cbn [fmap list_fmap mjoin list_join].
  rewrite blen_app, blen_dir_entry_bytes, blen_cons by done. change (mjoin _) with (mjoin (dir_entry_bytes <$> items)).
  rewrite IH. lia.
Qed.

Lemma send_entries_framed items c w c' w' :
  entries_ok MAX_ENTRIES items -> send_entries items c w = (SUCCEEDED, c', w') ->
  exists d, sent w' (s c) = sent w (s c) ++ be_bytes 8 (blen items) ++ d /\
    blen d = dir_entry_size * blen items.
Proof.
  intros [Hlen Hnames]. unfold MAX_ENTRIES in Hlen. pose proof (blen_nonneg items). unfold send_entries.
  unfold netiso_int64_result. rewrite BE64_store, u64_small by (rewrite ?u64_small; lia).
  destruct (sys_send (s c) _ w) as [r w1] eqn:E1. apply law_send in E1 as (_ & _ & _ & E1 & _).
  destruct (Z.eqb_spec r 8) as [->|]; [cbn [negb]|done]. specialize (E1 eq_refl).
  destruct (Z.ltb_spec 0 (blen items)).
  - destruct (sys_send (s c) _ w1) as [r w2] eqn:E2. apply law_send in E2 as (_ & _ & _ & E2 & _).
    rewrite blen_dir_entries in E2 by done. unfold dir_entry_size in *.
    rewrite u64_small, s32_small by lia.
    destruct (Z.eqb_spec r (529 * blen items)) as [->|]; [cbn [negb]|done]. intros [= <- <-].
    eexists. split; [|by apply blen_dir_entries]. rewrite E2, E1 by done. by rewrite <- app_assoc.
  - intros [= <- <-]. exists []. rewrite app_nil_r. split; [done|]. unfold dir_entry_size. unfold blen in *. cbn. lia.
Qed.

Lemma alloc_entries_max k mi w r w' : alloc_entries k mi w = (r, w') -> 0 <= r <= Z.max 0 mi.
Proof.
  revert mi w. induction k as [|k IH]; intros mi w; cbn [alloc_entries]; [intros [= <- <-]; lia|].
  destruct (Z.ltb_spec mi 16); [intros [= <- <-]; lia|]. destruct (sys_malloc _ w) as [[] w1].
  - intros [= <- <-]; lia.
  - intros E%IH. lia.
Qed.

Lemma entries_ok_mono mi items : mi <= MAX_ENTRIES -> entries_ok mi items -> entries_ok MAX_ENTRIES items.
Proof. intros ? []. split; [lia|done]. Qed.

Lemma entries_ok_nil mi : 0 <= mi -> entries_ok mi [].
Proof. split; [done|constructor]. Qed.

Variables (root_directory : bytes) (st_uninit : file_stat_t).

(** How READ_DIR ends: the entries it has gathered are sent, and nothing was before. *)
Lemma read_dir_cmd_sends entries cmd c w r c' w' :
  process_read_dir_cmd root_directory st_uninit entries cmd c w = Some (r, c', w') ->
  exists items c1 w1, send_entries items c1 w1 = (r, c', w') /\ s c1 = s c /\
    quiet same_sent w w1 /\ entries_ok MAX_ENTRIES items.
Proof.
  unfold process_read_dir_cmd. intros E.
  destruct (dir c) as [d|]; [destruct (dirpath c) as [dp|]|];
    [|injection E as E; do 3 eexists; split_and!; [exact E|done|apply inert_refl|by apply entries_ok_nil]..].
  destruct (alloc_entries 257 MAX_ENTRIES w) as [mi w1] eqn:Ea. pose proof (alloc_entries_max _ _ _ _ _ Ea) as Hmi.
  unfold MAX_ENTRIES in Hmi. inert_cases E;
    match goal with E : send_entries _ _ _ = _ |- _ =>
      do 3 eexists; split; [exact E|]; split; [done|]; split; [inert_chain|] end;
    try by apply entries_ok_nil.
  all: match goal with E : process_read_dir _ _ _ _ _ _ _ _ _ = _ |- _ =>
    apply process_read_dir_ok in E; [|apply entries_ok_nil; lia] end.
  all: try match goal with E : merge_ini_dirs _ _ _ _ _ _ _ _ _ _ = _ |- _ =>
    apply merge_ini_dirs_ok in E; [|eassumption] end.
  all: eapply entries_ok_mono; [|eassumption]; unfold MAX_ENTRIES; lia.
Qed.
End reply.

(** ** Properties *)

(** C34. GET_DIR_SIZE answers the sum of the sizes of all files below the directory,
    at every depth; an error only when memory or directory streams run out.  It
    terminates, and it leaves everything as it was: files, directories, and the
    directory streams, of which those that were open have the same names left and
    no other is left open.  The tree is one that can be walked: everything listed can
    be stat'ed, and the sum fits 63 bits. *)
Theorem dir_size_is_tree_size {W} `{PosixLaws W, !StreamView W, !StreamLaws W} st_uninit depth entries (w : W) path n :
  tree_size depth entries w path = Some n -> n < 2 ^ 63 ->
  exists r w', calculate_directory_size st_uninit depth entries path w = Some (r, w') /\
    (r = n \/ r = FAILED /\ ~ memory w) /\ same_tree any_fd w w'.
Proof. apply calculate_directory_size_spec. Qed.

(** C36. READ_DIR of one level lists the names of the directory in order (parent
    directories and over-long names left out), each with its size and kind, up to
    the capacity of the array; it lists nothing only when memory or directory
    streams run out.  Files, directories and directory streams are left as they were,
    no stream is left open. *)
Theorem read_dir_lists {W} `{PosixLaws W, !StreamView W, !StreamLaws W} st_uninit entries dp dl pl mi names (w : W) :
  let p := normalize_path dp true in
  dir_at w p = Some names -> (length names < entries)%nat -> 0 < mi ->
  blen dp < pl -> blen p + 1 < pl ->
  exists items w', process_read_dir st_uninit entries dp dl pl mi 0 [] w = Some (items, w') /\
    same_tree any_fd w w' /\
    (items = [] /\ ~ memory w \/
     shows <$> items =
       take (Z.to_nat mi) (shown w (p ++ [slash]) <$> List.filter (fits pl (p ++ [slash])) names)).
Proof.
  intros p Hd Hn Hm Hdp Hp.
  exact (process_read_dir_lists st_uninit entries dp dl pl mi [] names w Hd Hn Hm Hdp Hp).
Qed.

(** The answer to READ_DIR is as long as it says: a count of at most 4096, then
    529 bytes for each of the entries counted. *)
Theorem read_dir_reply_framed {W R} `{PosixLaws W, Aes, !AbstractFile R W}
    root_directory st_uninit entries cmd (c : client_t R) (w : W) c' w' :
  process_read_dir_cmd root_directory st_uninit entries cmd c w = Some (SUCCEEDED, c', w') ->
  exists n d, 0 <= n <= MAX_ENTRIES /\ blen d = 529 * n /\
    sent w' (s c) = sent w (s c) ++ be_bytes 8 n ++ d.
Proof.
  intros E. destruct (read_dir_cmd_sends _ _ _ _ _ _ _ _ _ E) as (items & c1 & w1 & Es & Hs & Hq & Hok).
  destruct (send_entries_framed _ _ _ _ _ Hok Es) as (d & Hd & Hlen).
  exists (blen items), d. split; [split; [apply blen_nonneg|apply Hok]|]. split; [done|].
  rewrite <- Hs, Hd. f_equal. apply Hq.
Qed.

(** A directory that is listed when the array is full already (a directory merged
    by an INI file, or one below it) has its first entry written past the end of the
    array: the count is compared with the capacity only after an entry is stored. *)
Theorem read_dir_overruns_array {W} `{PosixLaws W} st_uninit entries dp dl pl mi items names
    (w w1 w2 : W) d :
  let p := normalize_path dp true in
  mi <= blen items -> sys_malloc pl w = (true, w1) -> sys_opendir p w1 = (Some d, w2) ->
  dir_at w p = Some names -> (length names < entries)%nat -> blen dp < pl -> blen p + 1 < pl ->
  List.filter (fits pl (p ++ [slash])) names <> [] ->
  process_read_dir st_uninit entries dp dl pl mi 0 items w = None.
Proof.
  intros p Hi Em Eo Hd Hn Hdp Hp Hf. unfold process_read_dir, read_dir_level at 1. fold p.
  rewrite Em. cbn [negb]. destruct (Z.leb_spec pl (blen dp)); [lia|]. rewrite Eo.
  destruct (Z.ltb_spec (blen p + 1) pl); [|lia].
  destruct (law_opendir _ _ _ _ Eo) as (_ & _ & Hleft). apply law_malloc in Em as [T1 _].
  destruct (Hleft d eq_refl) as [_ Hl]. rewrite (kf_dir _ _ _ T1), Hd in Hl.
  by erewrite read_dir_loop_full.
Qed.

(** Ten bytes, and the stream that was opened for them is closed. *)
Lemma dir_size_is_tree_size_witness : exists w',
  calculate_directory_size st0 2 10 root sim0 = Some (10, w') /\ same_tree any_fd sim0 w' /\ Sim.dirps w' = [None].
Proof.
  destruct (dir_size_is_tree_size st0 2 10 sim0 root 10) as (r & w' & E & Hr & T); [by vm_compute..|].
  assert (r = 10) as -> by (destruct Hr as [->|[_ Hno]]; [done|by destruct Hno]).
  exists w'. split; [exact E|]. split; [exact T|]. vm_compute in E. by injection E as <-.
Defined.

Lemma read_dir_lists_witness :
  exists items w', process_read_dir st0 10 (str "/srv/") 5 1000 16 0 [] sim0 = Some (items, w') /\
    same_tree any_fd sim0 w' /\
    shows <$> items = [(BE64 5, 0, str "a.bin"); (BE64 3, 0, str "x.iso.0"); (BE64 2, 0, str "x.iso.1")].
Proof.
  destruct (read_dir_lists st0 10 (str "/srv/") 5 1000 16 [str "a.bin"; str "x.iso.0"; str "x.iso.1"] sim0)
    as (items & w' & E & T & [[_ Hno]|Hr]); [by vm_compute|cbn; lia|done|by vm_compute|by vm_compute|by destruct Hno|].
  exists items, w'. split; [exact E|]. split; [exact T|]. etransitivity; [exact Hr|]. by vm_compute.
Defined.

Definition client_dir : client_t ro := set_dir (Some 0) (Some (str "/srv/")) (client0 ro_a 0).
Definition sim_dir : Sim.sim := Sim.with_dirps [Some [str "a.bin"]] sim0.

Lemma read_dir_reply_framed_witness :
  exists n d, 0 <= n <= MAX_ENTRIES /\ blen d = 529 * n /\
    default [] ((fun x => sent x.2 7) <$> process_read_dir_cmd root st0 10 [] client_dir sim_dir) =
      be_bytes 8 n ++ d.
Proof.
  destruct (process_read_dir_cmd root st0 10 [] client_dir sim_dir) as [[[r c'] w']|] eqn:E;
    [|vm_compute in E; discriminate E].
  assert (r = SUCCEEDED) as ->.
  { assert ((fun x => x.1.1) <$> process_read_dir_cmd root st0 10 [] client_dir sim_dir = Some SUCCEEDED) as Hr
      by (by vm_compute). rewrite E in Hr. by injection Hr. }
  destruct (read_dir_reply_framed root st0 10 [] client_dir sim_dir c' w' E) as (n & d & Hn & Hd & Hs).
  exists n, d. split; [exact Hn|]. split; [exact Hd|exact Hs].
Defined.

Lemma read_dir_overruns_array_witness :
  process_read_dir st0 10 root 5 1000 0 0 [] sim0 = None.
Proof.
  apply (read_dir_overruns_array st0 10 root 5 1000 0 [] [str "a.bin"; str "x.iso.0"; str "x.iso.1"]
    sim0 sim0 (Sim.with_dirps [Some [str "a.bin"; str "x.iso.0"; str "x.iso.1"]] sim0) 0);
    first [by vm_compute | cbn; lia | vm_compute; discriminate].
Defined.
