(* ===== verification/Dispatch.v ===== *)
(** * client_thread of main.cpp

    The command loop of a connection: receive sixteen bytes, call the handler
    of the opcode, stop at the first error, then tear the connection down. *)

From S2P Require Import Prelude Endian Os CString AbsFile FileIso Client ReadCmds Paths.
From S2P Require Import OpenCmd FileCmds DirCmds.

Section thread.
Context {W R : Type} `{Posix W, Aes, AbstractFile R W, RoFactory R}.
(** The configuration, and the indeterminate memory the handlers use. *)
Variables (read_only : bool) (root_directory : bytes) (make_iso : Z) (st_uninit : file_stat_t).
Variables (heap : mem) (this : File) (res : file_stat_t * Z) (fuel : nat).
Implicit Types (c : client_t R) (w : W) (cmd : bytes).

(** [switch (BE16(cmd.opcode))].  The commands that write are compiled out of a
    READ_ONLY build, and so is READ_DIR_ENTRY. *)
Definition process_cmd cmd c w : option (Z * client_t R * W) :=
  let opcode := cmd_opcode cmd in
  let root_len := blen root_directory in
  if opcode =? NETISO_CMD_READ_FILE_CRITICAL then process_read_file_critical cmd c w
  else if opcode =? NETISO_CMD_READ_FILE then Some (process_read_file_cmd cmd c w)
  else if opcode =? NETISO_CMD_READ_CD_2048_CRITICAL then
    Some (process_read_cd_2048_critical_cmd heap cmd c w)
  else if negb read_only && (opcode =? NETISO_CMD_WRITE_FILE) then
    Some (process_write_file_cmd cmd c w)
  else if negb read_only && (opcode =? NETISO_CMD_READ_DIR_ENTRY) then
    process_read_dir_entry_cmd st_uninit fuel 1 cmd c w
  else if negb read_only && (opcode =? NETISO_CMD_READ_DIR_ENTRY_V2) then
    process_read_dir_entry_cmd st_uninit fuel 2 cmd c w
  else if opcode =? NETISO_CMD_STAT_FILE then
    process_stat_cmd root_directory st_uninit res cmd c w
  else if opcode =? NETISO_CMD_OPEN_FILE then
    process_open_cmd root_directory st_uninit heap cmd c w
  else if negb read_only && (opcode =? NETISO_CMD_CREATE_FILE) then
    process_create_cmd root_directory root_len make_iso st_uninit this cmd c w
  else if negb read_only && (opcode =? NETISO_CMD_DELETE_FILE) then
    process_delete_file_cmd root_directory st_uninit cmd c w
  else if opcode =? NETISO_CMD_OPEN_DIR then
    process_open_dir_cmd root_directory st_uninit cmd c w
  else if opcode =? NETISO_CMD_READ_DIR then
    process_read_dir_cmd root_directory st_uninit fuel cmd c w
  else if opcode =? NETISO_CMD_GET_DIR_SIZE then
    process_get_dir_size_cmd root_directory st_uninit fuel fuel cmd c w
  else if negb read_only && (opcode =? NETISO_CMD_MKDIR) then
    process_mkdir_cmd root_directory st_uninit cmd c w
  else if negb read_only && (opcode =? NETISO_CMD_RMDIR) then
    process_rmdir_cmd root_directory st_uninit cmd c w
  else Some (FAILED, c, w).

(** [for (;;) { ... }], at most [k] commands. *)
Fixpoint client_loop (k : nat) c w : option (client_t R * W) :=
  match k with
  | O => None
  | S k =>
      let '(ret, cmd, w) := sys_recv (s c) netiso_cmd_size w in
      if negb (ret =? netiso_cmd_size) then Some (c, w)
      else
        let? (ret, c, w) := process_cmd cmd c w in
        if negb (ret =? SUCCEEDED) then Some (c, w) else client_loop k c w
  end.

Definition client_thread (k : nat) c w : option (client_t R * W) :=
  let? (c, w) := client_loop k c w in
  let '(c, w) := finalize_client c w in
  Some (set_connected false c, w).

(** One round of the loop: a command, or what follows the last one. *)
Definition turn c w : option (client_t R * W) :=
  if negb (connected c) then Some (c, w)
  else
    let '(ret, cmd, w) := sys_recv (s c) netiso_cmd_size w in
    let? (go_on, c, w) :=
      if negb (ret =? netiso_cmd_size) then Some (false, c, w)
      else let? (ret, c, w) := process_cmd cmd c w in Some (ret =? SUCCEEDED, c, w) in
    if negb go_on then let '(c, w) := finalize_client c w in Some (set_connected false c, w)
    else Some (c, w).

(** The connection after its first [k] rounds. *)
Fixpoint turns (k : nat) c w : option (client_t R * W) :=
  match k with
  | O => Some (c, w)
  | S k => let? (c, w) := turn c w in turns k c w
  end.
End thread.
