(* ===== verification/DispatchSpec.v ===== *)
(** * What a connection can do

    A server built READ_ONLY never changes a file: whatever the bytes a client
    sends, and whatever fails, every path names after the connection what it
    named before. *)

From S2P Require Import Prelude Endian Os CString AbsFile FileIso FileView Client RoFile.
From S2P Require Import ReadCmds Paths OpenCmd OpenSpec FileCmds DirCmds Frame VIsoFrame Dispatch Scenario.

Section handlers.
Context {W R : Type} `{Posix W, Aes, AbstractFile R W, RoFactory R} (Q : relation W)
  `{!Inert Q, !InertRecv Q, !InertFile Q}.
Hypothesis inert_send : forall s d w r w', sys_send s d w = (r, w') -> quiet Q w w'.
Hypothesis inert_shutdown : forall s w, quiet Q w (sys_shutdown s w).
Variables (root_directory : bytes) (make_iso : Z) (st_uninit : file_stat_t).
Variables (heap : mem) (this : File) (res : file_stat_t * Z) (fuel : nat).
Implicit Types (c : client_t R) (w : W) (cmd : bytes).
#[local] Hint Resolve inert_send inert_shutdown : inert.

Lemma critical_loop_inert k rs rem pos f m c w r c' w' :
  critical_loop k rs rem pos f m c w = Some (r, c', w') -> quiet Q w w'.
Proof.
  revert rs rem pos f m c w. induction k as [|k IH]; intros rs rem pos f m c w E;
    cbn [critical_loop] in E; [done|]. inert_cases E; try apply IH in E; inert_chain.
Qed.
#[local] Hint Resolve critical_loop_inert : inert.

Lemma read_file_critical_inert cmd c w r c' w' :
  process_read_file_critical cmd c w = Some (r, c', w') -> quiet Q w w'.
Proof. unfold process_read_file_critical. intros E. inert E. Qed.

Lemma cd_sectors_inert k i o f m c w b c' w' :
  cd_sectors k i o f m c w = (b, c', w') -> quiet Q w w'.
Proof.
  revert i o f m c w. induction k as [|k IH]; intros i o f m c w E; cbn [cd_sectors] in E;
    inert_cases E; try apply IH in E; inert_chain.
Qed.

Lemma cd_bulk_inert o n scratch f m c w b c' w' :
  cd_bulk o n scratch f m c w = (b, c', w') -> quiet Q w w'.
Proof. unfold cd_bulk. intros E. inert E. Qed.
#[local] Hint Resolve cd_sectors_inert cd_bulk_inert : inert.

Lemma read_cd_2048_inert cmd c w r c' w' :
  process_read_cd_2048_critical_cmd heap cmd c w = (r, c', w') -> quiet Q w w'.
Proof. unfold process_read_cd_2048_critical_cmd. intros E. inert E. Qed.

Lemma send_read_result_inert n c w r c' w' :
  send_read_result n c w = (r, c', w') -> quiet Q w w'.
Proof. unfold send_read_result. intros E. inert E. Qed.
#[local] Hint Resolve send_read_result_inert : inert.

Lemma read_file_cmd_inert cmd c w r c' w' :
  process_read_file_cmd cmd c w = (r, c', w') -> quiet Q w w'.
Proof. unfold process_read_file_cmd. intros E. inert E. Qed.

Lemma detect_cd_inert l f m c w c' w' : detect_cd l f m c w = (c', w') -> quiet Q w w'.
Proof.
  revert f m w. induction l as [|n l IH]; intros f m w E; cbn [detect_cd] in E;
    inert_cases E; try apply IH in E; inert_chain.
Qed.

Lemma open_result_inert r sz mt c w r' c' w' :
  open_result r sz mt c w = Some (r', c', w') -> quiet Q w w'.
Proof. unfold open_result. intros E. inert E. Qed.
#[local] Hint Resolve detect_cd_inert open_result_inert : inert.

Lemma open_failed_inert c w r c' w' :
  open_failed c w = Some (r, c', w') -> quiet Q w w'.
Proof. apply open_result_inert. Qed.
#[local] Hint Resolve open_failed_inert : inert.

Lemma open_translated_inert p v m c w r c' w' :
  open_translated st_uninit p v m c w = Some (r, c', w') -> quiet Q w w'.
Proof. unfold open_translated. intros E. inert E. Qed.

Lemma delete_ro_inert c w : quiet Q w (delete_ro c w).
Proof. unfold delete_ro. destruct (ro_file c); [apply inert_af_delete|apply inert_refl]. Qed.
#[local] Hint Resolve open_translated_inert delete_ro_inert : inert.

Lemma open_cmd_inert cmd c w r c' w' :
  process_open_cmd root_directory st_uninit heap cmd c w = Some (r, c', w') -> quiet Q w w'.
Proof. unfold process_open_cmd. intros E. inert E. Qed.

Lemma send_result_inert n d c w r c' w' : send_result n d c w = (r, c', w') -> quiet Q w w'.
Proof. unfold send_result. intros E. inert E. Qed.
#[local] Hint Resolve send_result_inert : inert.

Lemma path_cmd_inert call cmd c w r c' w' :
  (forall p w d w', call p w = (d, w') -> quiet Q w w') ->
  process_path_cmd root_directory st_uninit call cmd c w = Some (r, c', w') -> quiet Q w w'.
Proof.
  intros Hcall. unfold process_path_cmd. intros E. inert_cases E;
    try match goal with E : call _ _ = _ |- _ => apply Hcall in E end;
    try match goal with E : send_result _ _ _ _ = _ |- _ => apply send_result_inert in E end;
    inert_chain.
Qed.

Lemma dir_size_cmd_inert n cmd c w r c' w' :
  process_get_dir_size_cmd root_directory st_uninit n n cmd c w = Some (r, c', w') -> quiet Q w w'.
Proof.
  unfold process_get_dir_size_cmd. intros E. inert_cases E;
    try match goal with E : send_result _ _ _ _ = _ |- _ => apply send_result_inert in E end;
    inert_chain.
Qed.

Lemma open_dir_cmd_inert cmd c w r c' w' :
  process_open_dir_cmd root_directory st_uninit cmd c w = Some (r, c', w') -> quiet Q w w'.
Proof.
  unfold process_open_dir_cmd. intros E. inert_cases E;
    try match goal with E : send_result _ _ _ _ = _ |- _ => apply send_result_inert in E end;
    inert_chain.
Qed.

Lemma send_entries_inert l c w r c' w' : send_entries l c w = (r, c', w') -> quiet Q w w'.
Proof. unfold send_entries. intros E. inert E. Qed.

Lemma read_dir_cmd_inert n cmd c w r c' w' :
  process_read_dir_cmd root_directory st_uninit n cmd c w = Some (r, c', w') -> quiet Q w w'.
Proof.
  unfold process_read_dir_cmd. intros E. inert_cases E;
    try match goal with E : send_entries _ _ _ = _ |- _ => apply send_entries_inert in E end;
    inert_chain.
Qed.
#[local] Hint Resolve read_file_critical_inert read_file_cmd_inert read_cd_2048_inert
  open_cmd_inert dir_size_cmd_inert open_dir_cmd_inert read_dir_cmd_inert : inert.

Lemma process_cmd_inert cmd c w r c' w' :
  process_cmd true root_directory make_iso st_uninit heap this res fuel cmd c w = Some (r, c', w') ->
  quiet Q w w'.
Proof.
  unfold process_cmd. cbn [negb andb].
  repeat lazymatch goal with
  | |- context [if ?b then _ else _] => destruct b
  end; intros E;
  [.. |injection E as <- <- <-; apply inert_refl];
  first [ apply path_cmd_inert in E; [exact E|intros ? ? ? ?; apply (stat_call_inert Q)]
        | solve [eauto 2 with inert nocore] | injection E; clear E; intros E; solve [eauto 2 with inert nocore] ].
Qed.

Lemma client_loop_inert k c w c' w' :
  client_loop true root_directory make_iso st_uninit heap this res fuel k c w = Some (c', w') ->
  quiet Q w w'.
Proof.
  revert c w. induction k as [|k IH]; intros c w E; cbn [client_loop] in E; [done|].
  inert_cases E; try apply IH in E;
    try match goal with E : process_cmd _ _ _ _ _ _ _ _ _ _ _ = _ |- _ => apply process_cmd_inert in E end;
    inert_chain.
Qed.

Lemma finalize_client_inert c w c' w' : finalize_client c w = (c', w') -> quiet Q w w'.
Proof.
  unfold finalize_client, delete_wo. intros E. inert_cases E;
    repeat match goal with |- context [File_delete ?f ?w] =>
      lazymatch goal with _ : quiet Q w (File_delete f w) |- _ => fail | _ =>
        pose proof (File_delete_inert Q f w) end end;
    inert_chain.
Qed.

Lemma client_thread_inert k c w c' w' :
  client_thread true root_directory make_iso st_uninit heap this res fuel k c w = Some (c', w') ->
  quiet Q w w'.
Proof.
  unfold client_thread. intros E. inert_cases E.
  match goal with E : client_loop _ _ _ _ _ _ _ _ _ _ _ = _ |- _ => apply client_loop_inert in E end.
  match goal with E : finalize_client _ _ = _ |- _ => apply finalize_client_inert in E end.
  inert_chain.
Qed.

Lemma turn_inert c w c' w' :
  turn true root_directory make_iso st_uninit heap this res fuel c w = Some (c', w') -> quiet Q w w'.
Proof.
  unfold turn. intros E. inert_cases E;
    repeat match goal with
    | E : process_cmd _ _ _ _ _ _ _ _ _ _ _ = _ |- _ => apply process_cmd_inert in E
    | E : finalize_client _ _ = _ |- _ => apply finalize_client_inert in E
    end; inert_chain.
Qed.

Lemma turns_inert k c w c' w' :
  turns true root_directory make_iso st_uninit heap this res fuel k c w = Some (c', w') -> quiet Q w w'.
Proof.
  revert c w. induction k as [|k IH]; intros c w; cbn [turns]; [intros [= _ <-]; apply inert_refl|].
  destruct (turn _ _ _ _ _ _ _ _ _ _) as [[c1 w1]|] eqn:E; [|done]. intros E2.
  eapply inert_trans; [by eapply turn_inert|by eapply IH].
Qed.
End handlers.

(** ** Properties *)

Section properties.
Context {W R : Type} `{PosixLaws W, Aes, !AbstractFile R W, !RoFactory R}.
Variables (root_directory : bytes) (make_iso : Z) (st_uninit : file_stat_t).
Variables (heap : mem) (this : File) (res : file_stat_t * Z) (fuel : nat).

(** C33. A server built READ_ONLY never changes a file: after each round of a
    connection's loop, at whatever commands its client sent, every path names what it named before.  That
    is as long as the rounds are defined: a path that overruns [lnk_file], and a
    directory of more entries than the fuel, are not. *)
Theorem read_only_server (Hro : InertFile (R := R) same_files) k (c : client_t R) (w : W) c' w' :
  turns true root_directory make_iso st_uninit heap this res fuel k c w = Some (c', w') ->
  forall p, file_at w' p = file_at w p.
Proof.
  intros E. apply (turns_inert same_files) in E; [exact E|..].
  - intros s d w1 r w1' Es p. apply law_send in Es as (_ & Hk & _). apply Hk.
  - intros s w1 p. apply law_shutdown.
Qed.
End properties.

(** A client that opens a file, reads it, and tries to delete it. *)
Definition session : bytes :=
  be_bytes 2 NETISO_CMD_OPEN_FILE ++ be_bytes 2 6 ++ replicate 12 0 ++ str "/a.bin" ++
  cmd_read NETISO_CMD_READ_FILE 5 0 ++
  be_bytes 2 NETISO_CMD_DELETE_FILE ++ be_bytes 2 6 ++ replicate 12 0 ++ str "/a.bin".

Definition sim_session : Sim.sim := Sim.with_input {[ 7 := session ]} sim0.

Definition served (read_only : bool) : option (client_t ro * Sim.sim) :=
  client_thread read_only root 0 st0 (zext []) this0 (st0, 0) 10 5 client_new sim_session.

(** Its file is there after each of its three commands and at the end. *)
Lemma read_only_server_witness :
  Forall (fun k => exists c' w', turns true root 0 st0 (zext []) this0 (st0, 0) 10 k client_new sim_session = Some (c', w') /\
    file_at w' path_a = Regular data_a) [0; 1; 2; 3; 4]%nat.
Proof.
  apply Forall_forall. intros k Hk.
  destruct (turns true root 0 st0 (zext []) this0 (st0, 0) 10 k client_new sim_session) as [[c' w']|] eqn:E.
  - exists c', w'. split; [done|]. etransitivity; [|exact (eq_refl : file_at sim_session path_a = Regular data_a)].
    refine (read_only_server root 0 st0 (zext []) this0 (st0, 0) 10 _ k client_new sim_session c' w' E path_a).
  - exfalso. revert E. repeat (apply elem_of_cons in Hk as [->|Hk]; [by vm_compute|]). by apply elem_of_nil in Hk.
Defined.

(** In the other build the same client deletes the file. *)
Example session_deletes : (fun cw => file_at cw.2 path_a) <$> served false = Some Missing.
Proof. by vm_compute. Qed.
