(* ===== verification/Isolation.v ===== *)
(** * What a command does to the other connections

    Every command of a READ_ONLY server touches its own connection, the
    descriptors of the file it has open and nothing else that another thread could
    notice.  [apart] says so of a piece of a handler: it runs on the socket [sock]
    with the file [o] open, and ends with the file [o'].  The steps of a handler
    are chained from the last one back to the first, as in Frame.v. *)

From S2P Require Import Prelude Endian CMem Os Stream CString AbsFile FileIso Client RoFile ReadCmds Paths OpenCmd.
From S2P Require Import FileCmds DirCmds Frame Ownership OwnViso Dispatch DispatchSpec.

Section apart.
Context {W R : Type} `{PosixLaws W, !StreamView W, !StreamLaws W, !SharedView W, !SharedLaws W, Aes}.
Context `{!AbstractFile R W, !AbstractFileView R W, !Owner R W, !RoFactory R, !OwnerFactory R W}.
Implicit Types (c : client_t R) (w : W) (f : R) (o : option R).

Definition owned_by o : list Z := from_option owned [] o.
Definition docile_file o : Prop := from_option docile True o.

(** The connection [sock] is owned throughout. *)
Definition apart (sock : Z) o w o' w' : Prop :=
  docile_file o -> docile_file o' /\ spares (sock :: owned_by o) w (sock :: owned_by o') w'.

Lemma apart_refl sock o w : apart sock o w o w.
Proof. intros Hd. split; [done|apply spares_refl]. Qed.

Lemma apart_trans sock o1 w1 o2 w2 o3 w3 :
  apart sock o1 w1 o2 w2 -> apart sock o2 w2 o3 w3 -> apart sock o1 w1 o3 w3.
Proof. intros A B Hd. destruct (A Hd) as [Hd2 SA]. destruct (B Hd2) as [Hd3 SB]. split; [done|by eapply spares_trans]. Qed.

Lemma apart_still sock o w w' : quiet still w w' -> apart sock o w o w'.
Proof. intros Q Hd. split; [done|by apply still_spares]. Qed.

(** On its connection *)
Lemma apart_send sock d w r w' o : sys_send sock d w = (r, w') -> apart sock o w o w'.
Proof. intros [U L]%untouched_send Hd. split; [done|]. apply (spares_on _ sock); [right; by left|done..]. Qed.

Lemma apart_recv sock n w r d w' o : sys_recv sock n w = (r, d, w') -> apart sock o w o w'.
Proof. intros [U L]%untouched_recv Hd. split; [done|]. apply (spares_on _ sock); [right; by left|done..]. Qed.

(** On its file *)
Lemma spares_sock sock S w S' w' : spares S w S' w' -> spares (sock :: S) w (sock :: S') w'.
Proof.
  intros Sp. apply (spares_frame _ _ _ _ [sock]) in Sp.
  by rewrite (Permutation_app_comm S), (Permutation_app_comm S') in Sp.
Qed.

Lemma apart_open sock p f w r f' w' : newborn f -> af_open (Some p) O_RDONLY f w = Some (r, f', w') ->
  apart sock None w (Some f') w'.
Proof. intros Hn E _. destruct (own_open _ _ _ _ _ _ Hn E). split; [done|by apply spares_sock]. Qed.

Lemma apart_read sock m x n f w r m' f' w' : af_read m x n f w = (r, m', f', w') ->
  apart sock (Some f) w (Some f') w'.
Proof. intros E Hd. destruct (own_read _ _ _ _ _ _ _ _ _ Hd E). split; [done|by apply spares_sock]. Qed.

Lemma apart_seek sock x wh f w r f' w' : af_seek x wh f w = (r, f', w') -> apart sock (Some f) w (Some f') w'.
Proof. intros E Hd. destruct (own_seek _ _ _ _ _ _ _ Hd E). split; [done|by apply spares_sock]. Qed.

Lemma apart_fstat sock st f w r st' f' w' : af_fstat st f w = (r, st', f', w') ->
  apart sock (Some f) w (Some f') w'.
Proof. intros E Hd. destruct (own_fstat _ _ _ _ _ _ _ Hd E). split; [done|by apply spares_sock]. Qed.

Lemma apart_delete sock f w : apart sock (Some f) w None (af_delete f w).
Proof. intros Hd. split; [done|]. by apply spares_sock, own_delete. Qed.

(** From the client [c], with the file [o] in hand, to the client [c']. *)
Record leaves o c w c' w' : Prop := {
  lv_apart : apart (s c) o w (ro_file c') w';
  lv_sock : s c' = s c;
  lv_wo : wo_file c' = wo_file c;
}.
End apart.

Create HintDb apart.
#[export] Hint Constants Opaque : apart.
#[export] Hint Resolve apart_send apart_recv apart_read apart_seek apart_fstat apart_delete : apart.

Ltac client_fields := cbn [s ro_file wo_file buf dir dirpath set_ro set_wo set_buf set_cd set_size set_dir set_subdirs
  set_s set_connected put_read] in *.

Ltac apart_chain :=
  lazymatch goal with
  | |- apart _ ?o ?w ?o ?w => apply apart_refl
  | |- _ => eapply apart_trans; [|solve [eassumption | eauto 2 with apart nocore
      | apply apart_still; first [peeked | eauto 2 with inert nocore] ]]; apart_chain
  end.

(** After [inert_cases]; the calls of other handlers are facts [leaves]. *)
Ltac leaves :=
  repeat match goal with L : leaves _ _ _ _ _ |- _ => destruct L end;
  split; client_fields; [|congruence..];
  repeat match goal with E : s ?x = s ?y |- _ => rewrite E in *; clear E end;
  repeat match goal with E : ro_file ?c = _ |- _ => rewrite E in *; clear E end;
  apart_chain.

Section commands.
Context {W R : Type} `{PosixLaws W, !StreamView W, !StreamLaws W, !SharedView W, !SharedLaws W, Aes}.
Context `{!AbstractFile R W, !AbstractFileView R W, !Owner R W, !RoFactory R, !OwnerFactory R W}.
Variables (root_directory : bytes) (make_iso : Z) (st_uninit : file_stat_t).
Variables (heap : mem) (this : File) (res : file_stat_t * Z) (fuel : nat).
Implicit Types (c : client_t R) (w : W) (f : R) (m : mem) (cmd : bytes).

(** ** Reads *)

Lemma log_eof_padding_fields x c :
  ro_file (log_eof_padding x c) = ro_file c /\ s (log_eof_padding x c) = s c /\ wo_file (log_eof_padding x c) = wo_file c.
Proof. unfold log_eof_padding. by destruct (eof_pad_logged c). Qed.

Lemma critical_loop_leaves k rs rem pos f m c w r c' w' : ro_file c = Some f ->
  critical_loop k rs rem pos f m c w = Some (r, c', w') -> leaves (Some f) c w c' w'.
Proof.
  revert rs rem pos f m c w. induction k as [|k IH]; intros rs rem pos f m c w Hf E;
    cbn [critical_loop] in E; [done|]. unfold log_eof_padding in E.
  inert_cases E; try (apply IH in E; [|done]); leaves.
Qed.

Lemma read_file_critical_leaves cmd c w r c' w' :
  process_read_file_critical cmd c w = Some (r, c', w') -> leaves (ro_file c) c w c' w'.
Proof.
  unfold process_read_file_critical. intros E. inert_cases E; try (apply critical_loop_leaves in E; [|done]); leaves.
Qed.

Lemma cd_sectors_leaves k i o f m c w b c' w' : ro_file c = Some f ->
  cd_sectors k i o f m c w = (b, c', w') -> leaves (Some f) c w c' w'.
Proof.
  revert i o f m c w. induction k as [|k IH]; intros i o f m c w Hf E; cbn [cd_sectors] in E;
    unfold log_eof_padding in E; inert_cases E; try (apply IH in E; [|done]); leaves.
Qed.

Lemma cd_bulk_leaves o n scratch f m c w b c' w' :
  cd_bulk o n scratch f m c w = (b, c', w') -> leaves (Some f) c w c' w'.
Proof. unfold cd_bulk, log_eof_padding. intros E. inert_cases E; leaves. Qed.

Lemma read_cd_2048_leaves cmd c w r c' w' :
  process_read_cd_2048_critical_cmd heap cmd c w = (r, c', w') -> leaves (ro_file c) c w c' w'.
Proof.
  unfold process_read_cd_2048_critical_cmd. intros E. inert_cases E;
    try match goal with E : cd_bulk _ _ _ _ _ _ _ = _ |- _ => apply cd_bulk_leaves in E end;
    try match goal with E : cd_sectors _ _ _ _ _ _ _ = _ |- _ => apply cd_sectors_leaves in E; [|done] end; leaves.
Qed.

Lemma send_read_result_leaves n c w r c' w' :
  send_read_result n c w = (r, c', w') -> leaves (ro_file c) c w c' w'.
Proof. unfold send_read_result. intros E. inert_cases E; leaves. Qed.

Lemma read_file_leaves cmd c w r c' w' :
  process_read_file_cmd cmd c w = (r, c', w') -> leaves (ro_file c) c w c' w'.
Proof.
  unfold process_read_file_cmd. intros E. inert_cases E; apply send_read_result_leaves in E; leaves.
Qed.

(** ** Opening *)

Lemma detect_cd_leaves sizes f m c w c' w' :
  detect_cd sizes f m c w = (c', w') -> leaves (Some f) c w c' w'.
Proof.
  revert f m w. induction sizes as [|n sizes IH]; intros f m w E; cbn [detect_cd] in E;
    inert_cases E; try apply IH in E; leaves.
Qed.

Lemma open_result_leaves ret n mtime c w r c' w' :
  open_result ret n mtime c w = Some (r, c', w') -> leaves (ro_file c) c w c' w'.
Proof. unfold open_result. intros E. inert_cases E; leaves. Qed.

Lemma open_translated_leaves p v m c w r c' w' : ro_file c = None ->
  open_translated st_uninit p v m c w = Some (r, c', w') -> leaves None c w c' w'.
Proof.
  intros Hn. unfold open_translated, open_failed. cbv zeta.
  assert (newborn (if decide (v = VISO_NONE) then new_File else new_VIsoFile (bool_decide (v = VISO_PS3)))) as Hb
    by (destruct (decide _); [apply newborn_File|apply newborn_VIsoFile]).
  destruct (af_open _ _ _ w) as [[[r1 f1] w1]|] eqn:E1; [|done]. apply (apart_open (s c)) in E1; [|done].
  destruct (r1 <? 0); [intros E%open_result_leaves; leaves|].
  destruct (af_fstat st_uninit f1 w1) as [[[r2 st] f2] w2] eqn:E2.
  destruct (r2 <? 0); [intros E%open_result_leaves; leaves|].
  destruct (if IS_RANGE _ _ _ then _ else _) as [c3 w3] eqn:E3. intros E%open_result_leaves.
  destruct (IS_RANGE _ _ _); [apply detect_cd_leaves in E3|injection E3 as <- <-]; leaves.
Qed.

Lemma delete_ro_apart sock c w : apart sock (ro_file c) w None (delete_ro c w).
Proof. unfold delete_ro. destruct (ro_file c); [apply apart_delete|apply apart_refl]. Qed.
#[local] Hint Resolve delete_ro_apart : apart.

Lemma open_leaves cmd c w r c' w' :
  process_open_cmd root_directory st_uninit heap cmd c w = Some (r, c', w') -> leaves (ro_file c) c w c' w'.
Proof.
  unfold process_open_cmd, open_failed. cbv zeta.
  destruct (buf c) as [m|]; [|apply open_result_leaves].
  destruct (_ =? 0); [apply open_result_leaves|].
  destruct (sys_malloc _ w) as [ok w1] eqn:E1. destruct (negb ok); [intros E%open_result_leaves; leaves|].
  destruct (sys_recv (s c) _ w1) as [[n d] w2] eqn:E2.
  destruct (negb _); [intros E%open_result_leaves; leaves|].
  pose proof (delete_ro_apart (s c) c w2) as Hd. set (w3 := delete_ro c w2) in *. clearbody w3.
  destruct (_ && _); [intros E%open_result_leaves; leaves|].
  destruct (translate_path _ _ _ _ w3) as [[[[p|] v] w4]|] eqn:E4; [| |done].
  - intros E%open_translated_leaves; [leaves|done].
  - intros E%open_result_leaves. leaves.
Qed.

(** ** The commands that answer at once *)

Lemma send_result_leaves ret d c w r c' w' : send_result ret d c w = (r, c', w') -> leaves (ro_file c) c w c' w'.
Proof. unfold send_result. intros E. inert_cases E; leaves. Qed.

Lemma recv_path_apart o c n w r w' : recv_path c n w = (r, w') -> apart (s c) o w o w'.
Proof. unfold recv_path. intros E. inert_cases E; apart_chain. Qed.
#[local] Hint Resolve recv_path_apart : apart.

Lemma path_cmd_leaves call cmd c w r c' w' :
  (forall p w d w', call p w = (d, w') -> quiet still w w') ->
  process_path_cmd root_directory st_uninit call cmd c w = Some (r, c', w') -> leaves (ro_file c) c w c' w'.
Proof.
  intros Hcall. unfold process_path_cmd. intros E. inert_cases E;
    try match goal with E : call _ _ = _ |- _ => apply Hcall, (apart_still (s c) (ro_file c)) in E end;
    try match goal with E : send_result _ _ _ _ = _ |- _ => apply send_result_leaves in E end; leaves.
Qed.

Lemma dir_size_leaves n cmd c w r c' w' :
  process_get_dir_size_cmd root_directory st_uninit n n cmd c w = Some (r, c', w') -> leaves (ro_file c) c w c' w'.
Proof.
  unfold process_get_dir_size_cmd. intros E. inert_cases E;
    try match goal with E : send_result _ _ _ _ = _ |- _ => apply send_result_leaves in E end; leaves.
Qed.

Lemma close_dir_leaves c w c' w' : close_dir c w = (c', w') -> leaves (ro_file c) c w c' w'.
Proof. unfold close_dir. intros E. inert_cases E; leaves. Qed.

Lemma open_dir_leaves cmd c w r c' w' :
  process_open_dir_cmd root_directory st_uninit cmd c w = Some (r, c', w') -> leaves (ro_file c) c w c' w'.
Proof.
  unfold process_open_dir_cmd. intros E. inert_cases E;
    try match goal with E : close_dir _ _ = _ |- _ => apply close_dir_leaves in E end;
    try match goal with E : send_result _ _ _ _ = _ |- _ => apply send_result_leaves in E end; leaves.
Qed.

Lemma send_entries_leaves l c w r c' w' : send_entries l c w = (r, c', w') -> leaves (ro_file c) c w c' w'.
Proof. unfold send_entries. intros E. inert_cases E; leaves. Qed.

Lemma read_dir_leaves n cmd c w r c' w' :
  process_read_dir_cmd root_directory st_uninit n cmd c w = Some (r, c', w') -> leaves (ro_file c) c w c' w'.
Proof.
  unfold process_read_dir_cmd. intros E. inert_cases E;
    try match goal with E : send_entries _ _ _ = _ |- _ => apply send_entries_leaves in E end; leaves.
Qed.

(** ** The commands of a READ_ONLY server *)

Lemma process_cmd_leaves cmd c w r c' w' :
  process_cmd true root_directory make_iso st_uninit heap this res fuel cmd c w = Some (r, c', w') ->
  leaves (ro_file c) c w c' w'.
Proof.
  unfold process_cmd. cbn [negb andb].
  repeat lazymatch goal with |- context [if ?b then _ else _] => destruct b end;
    [apply read_file_critical_leaves|intros [= E]; by eapply read_file_leaves
    |intros [= E]; by eapply read_cd_2048_leaves
    |apply path_cmd_leaves; intros p w1 d w2; apply (stat_call_inert still)
    |apply open_leaves|apply open_dir_leaves|apply read_dir_leaves|apply dir_size_leaves
    |intros [= <- <- <-]; split; [apply apart_refl|done..]].
Qed.
End commands.
