(* ===== verification/ClientOk.v ===== *)
(** * What holds of a connection between commands

    [client_ok]: the types of the fields of [client_t] say less than the handlers
    rely on.  Every command keeps it, and none touches the fields that the accept
    loop shares with the thread ([slot_of]), as Slots.v takes for granted. *)

From S2P Require Import Prelude Endian CMem Os CString AbsFile FileIso Client RoFile ReadCmds Paths OpenCmd.
From S2P Require Import FileCmds DirCmds Frame Dispatch Scenario.

Create HintDb client.

Section ok.
Context {W R : Type} `{Posix W, Aes, AbstractFile R W, !RoFactory R}.
Variables (read_only : bool) (root_directory : bytes) (make_iso : Z) (st_uninit : file_stat_t).
Variables (heap : mem) (this : File) (res : file_stat_t * Z).
Implicit Types (c : client_t R) (w : W) (f : R) (m : mem) (cmd : bytes).

(** The buffer is there; the sector size is one of the known ones; without a file
    there is no file size; an open directory has a path. *)
Record client_ok c : Prop := {
  ok_buf : is_Some (buf c);
  ok_cd : CD_SECTOR_SIZE c ∈ sec_size;
  ok_size : ro_file c = None -> ro_file_size c = 0;
  ok_dir : dir c <> None -> dirpath c <> None;
}.

(** The fields that the accept loop reads or writes. *)
Definition slot_of c : Z * bool * Z * bool := (s c, connected c, ip_addr c, has_thread c).

Definition keeps c c' : Prop := slot_of c' = slot_of c /\ (client_ok c -> client_ok c').

Lemma keeps_refl c : keeps c c.
Proof. by split. Qed.
Lemma keeps_trans c1 c2 c3 : keeps c1 c2 -> keeps c2 c3 -> keeps c1 c3.
Proof. intros [A B] [C D]. split; [congruence|auto]. Qed.

Lemma keeps_put f m c : keeps c (put_read f m c).
Proof. split; [done|]. intros []. by split. Qed.
Lemma keeps_ro f c : keeps c (set_ro (Some f) c).
Proof. split; [done|]. intros []. by split. Qed.
Lemma keeps_wo x c : keeps c (set_wo x c).
Proof. split; [done|]. intros []. by split. Qed.
Lemma keeps_buf m c : keeps c (set_buf (Some m) c).
Proof. split; [done|]. intros []. by split. Qed.
Lemma keeps_cd n c : n ∈ sec_size -> keeps c (set_cd n c).
Proof. split; [done|]. intros []. by split. Qed.
Lemma keeps_subdirs n c : keeps c (set_subdirs n c).
Proof. split; [done|]. intros []. by split. Qed.
Lemma keeps_dir d p c : keeps c (set_dir d (Some p) c).
Proof. split; [done|]. intros []. by split. Qed.
Lemma keeps_no_dir c : keeps c (set_dir None None c).
Proof. split; [done|]. intros []. by split. Qed.
Lemma keeps_open n f c : keeps c (set_size n (eof_pad_logged c) (set_ro (Some f) c)).
Proof. split; [done|]. intros []. by split. Qed.
Lemma keeps_closed c : keeps c (set_size 0 false (set_ro None c)).
Proof. split; [done|]. intros []. by split. Qed.
Lemma keeps_log pos c : keeps c (log_eof_padding pos c).
Proof. unfold log_eof_padding. destruct (eof_pad_logged c); [apply keeps_refl|]. split; [done|]. intros []. by split. Qed.
End ok.

#[export] Hint Constants Opaque : client.
#[export] Hint Resolve keeps_put keeps_ro keeps_wo keeps_buf keeps_cd keeps_subdirs keeps_dir
  keeps_no_dir keeps_open keeps_closed keeps_log : client.

(** From the last change of the client back to the first. *)
Ltac client_chain :=
  lazymatch goal with
  | |- keeps ?c ?c => apply keeps_refl
  | |- _ => eapply keeps_trans; [|solve [eauto 2 with client nocore]]; client_chain
  end.

Ltac client E := inert_cases E; client_chain.

Section commands.
Context {W R : Type} `{Posix W, Aes, AbstractFile R W, !RoFactory R}.
Variables (read_only : bool) (root_directory : bytes) (make_iso : Z) (st_uninit : file_stat_t).
Variables (heap : mem) (this : File) (res : file_stat_t * Z).
Implicit Types (c : client_t R) (w : W) (f : R) (m : mem) (cmd : bytes).

Lemma send_result_keeps ret d c w r c' w' : send_result ret d c w = (r, c', w') -> keeps c c'.
Proof. unfold send_result. intros E. client E. Qed.
#[local] Hint Resolve send_result_keeps : client.

(** ** Reads *)

Lemma critical_loop_keeps k rs rem pos f m c w r c' w' :
  critical_loop k rs rem pos f m c w = Some (r, c', w') -> keeps c c'.
Proof.
  revert rs rem pos f m c w. induction k as [|k IH]; intros rs rem pos f m c w E;
    cbn [critical_loop] in E; [done|]. inert_cases E; try apply IH in E; client_chain.
Qed.
#[local] Hint Resolve critical_loop_keeps : client.

Lemma read_file_critical_keeps cmd c w r c' w' :
  process_read_file_critical cmd c w = Some (r, c', w') -> keeps c c'.
Proof. unfold process_read_file_critical. intros E. client E. Qed.

Lemma cd_sectors_keeps k i o f m c w b c' w' : cd_sectors k i o f m c w = (b, c', w') -> keeps c c'.
Proof.
  revert i o f m c w. induction k as [|k IH]; intros i o f m c w E; cbn [cd_sectors] in E;
    inert_cases E; try apply IH in E; client_chain.
Qed.

Lemma cd_bulk_keeps o n scratch f m c w b c' w' : cd_bulk o n scratch f m c w = (b, c', w') -> keeps c c'.
Proof. unfold cd_bulk. intros E. client E. Qed.
#[local] Hint Resolve cd_sectors_keeps cd_bulk_keeps : client.

Lemma read_cd_2048_keeps cmd c w r c' w' :
  process_read_cd_2048_critical_cmd heap cmd c w = (r, c', w') -> keeps c c'.
Proof. unfold process_read_cd_2048_critical_cmd. intros E. client E. Qed.

Lemma send_read_result_keeps n c w r c' w' : send_read_result n c w = (r, c', w') -> keeps c c'.
Proof. unfold send_read_result. intros E. client E. Qed.
#[local] Hint Resolve send_read_result_keeps : client.

Lemma read_file_keeps cmd c w r c' w' : process_read_file_cmd cmd c w = (r, c', w') -> keeps c c'.
Proof. unfold process_read_file_cmd. intros E. client E. Qed.

(** ** open *)

Lemma open_result_keeps ret n mtime c w r c' w' : open_result ret n mtime c w = Some (r, c', w') -> keeps c c'.
Proof. unfold open_result. intros E. client E. Qed.
#[local] Hint Resolve open_result_keeps : client.

Lemma detect_cd_keeps sizes f m c w c' w' : (forall n, n ∈ sizes -> n ∈ sec_size) ->
  detect_cd sizes f m c w = (c', w') -> keeps c c'.
Proof.
  revert f m c w. induction sizes as [|n sizes IH]; intros f m c w Hs E; cbn [detect_cd] in E; [client E|].
  assert (n ∈ sec_size) by (apply Hs; left).
  inert_cases E; try (apply IH in E; [|intros x Hx; apply Hs; by right]); client_chain.
Qed.

(** The client whose file was closed. *)
Lemma open_translated_keeps p v m c w r c' w' : ro_file_size c = 0 ->
  open_translated st_uninit p v m c w = Some (r, c', w') -> keeps c c'.
Proof.
  intros Hz. unfold open_translated. assert (keeps c (set_cd 2352 c)) as K by (apply keeps_cd; left).
  set (c1 := set_cd 2352 c) in *. assert (keeps c1 (set_ro None c1)) as K1 by (split; [done|intros []; by split]).
  destruct (af_open _ _ _ w) as [[[r1 f1] w1]|]; [|done].
  destruct (r1 <? 0); [intros E%open_result_keeps; eauto using keeps_trans|].
  destruct (af_fstat st_uninit f1 w1) as [[[r2 st] f2] w2].
  destruct (r2 <? 0); [intros E%open_result_keeps; eauto using keeps_trans|].
  destruct (if IS_RANGE _ _ _ then _ else _) as [c3 w3] eqn:E3.
  assert (keeps c c3) as K3.
  { eapply keeps_trans; [exact K|]. eapply keeps_trans; [apply keeps_open|].
    destruct (IS_RANGE _ _ _); [by eapply detect_cd_keeps|injection E3 as <- _; apply keeps_refl]. }
  intros E%open_result_keeps. by eapply keeps_trans.
Qed.

Lemma open_keeps cmd c w r c' w' :
  process_open_cmd root_directory st_uninit heap cmd c w = Some (r, c', w') -> keeps c c'.
Proof.
  unfold process_open_cmd, open_failed. intros E. inert_cases E; try (client_chain; fail).
  eapply keeps_trans; [apply keeps_closed|]. by eapply open_translated_keeps.
Qed.

(** ** Files *)

Lemma path_cmd_keeps call cmd c w r c' w' :
  process_path_cmd root_directory st_uninit call cmd c w = Some (r, c', w') -> keeps c c'.
Proof. unfold process_path_cmd. intros E. client E. Qed.

Lemma get_dir_size_keeps fuel entries cmd c w r c' w' :
  process_get_dir_size_cmd root_directory st_uninit fuel entries cmd c w = Some (r, c', w') -> keeps c c'.
Proof. unfold process_get_dir_size_cmd. intros E. client E. Qed.

Lemma create_keeps root_len cmd c w r c' w' :
  process_create_cmd root_directory root_len make_iso st_uninit this cmd c w = Some (r, c', w') -> keeps c c'.
Proof. unfold process_create_cmd, create_result. intros E. client E. Qed.

Lemma write_keeps cmd c w r c' w' : process_write_file_cmd cmd c w = (r, c', w') -> keeps c c'.
Proof. unfold process_write_file_cmd. intros E. client E. Qed.

(** ** Directories *)

Lemma close_dir_keeps c w c' w' : close_dir c w = (c', w') -> keeps c c'.
Proof. unfold close_dir. intros [= <- _]. apply keeps_no_dir. Qed.
#[local] Hint Resolve close_dir_keeps : client.

Lemma send_entry_keeps v e n c w r c' w' : send_entry v e n c w = (r, c', w') -> keeps c c'.
Proof. unfold send_entry. intros E. client E. Qed.
#[local] Hint Resolve send_entry_keeps : client.

Lemma open_dir_keeps cmd c w r c' w' :
  process_open_dir_cmd root_directory st_uninit cmd c w = Some (r, c', w') -> keeps c c'.
Proof. unfold process_open_dir_cmd. intros E. client E. Qed.

Lemma read_dir_entry_keeps fuel v cmd c w r c' w' :
  process_read_dir_entry_cmd st_uninit fuel v cmd c w = Some (r, c', w') -> keeps c c'.
Proof. unfold process_read_dir_entry_cmd. intros E. client E. Qed.

Lemma send_entries_keeps items c w r c' w' : send_entries items c w = (r, c', w') -> keeps c c'.
Proof. unfold send_entries. intros E. client E. Qed.
#[local] Hint Resolve send_entries_keeps : client.

Lemma read_dir_keeps entries cmd c w r c' w' :
  process_read_dir_cmd root_directory st_uninit entries cmd c w = Some (r, c', w') -> keeps c c'.
Proof. unfold process_read_dir_cmd. intros E. client E. Qed.

(** ** The loop *)

#[local] Hint Resolve read_file_critical_keeps read_cd_2048_keeps read_file_keeps open_keeps path_cmd_keeps
  get_dir_size_keeps create_keeps write_keeps open_dir_keeps read_dir_entry_keeps read_dir_keeps : client.

Variable fuel : nat.

Lemma process_cmd_keeps cmd c w r c' w' :
  process_cmd read_only root_directory make_iso st_uninit heap this res fuel cmd c w = Some (r, c', w') ->
  keeps c c'.
Proof.
  unfold process_cmd. cbv zeta.
  repeat lazymatch goal with |- context [if ?b then _ else _] => destruct b end; intros E;
    [.. |injection E as <- <- <-; apply keeps_refl];
    first [ solve [eauto 2 with client nocore] | exact (path_cmd_keeps _ _ _ _ _ _ _ E)
          | injection E; clear E; intros E; solve [eauto 2 with client nocore] ].
Qed.

Lemma client_loop_keeps k c w c' w' :
  client_loop read_only root_directory make_iso st_uninit heap this res fuel k c w = Some (c', w') ->
  keeps c c'.
Proof.
  revert c w. induction k as [|k IH]; intros c w E; cbn [client_loop] in E; [done|].
  inert_cases E; try apply IH in E;
    try match goal with E : process_cmd _ _ _ _ _ _ _ _ _ _ _ = _ |- _ => apply process_cmd_keeps in E end;
    client_chain.
Qed.

(** A round leaves the connection as a command does, or ends it. *)
Lemma turn_keeps c w c' w' : connected c = true ->
  turn read_only root_directory make_iso st_uninit heap this res fuel c w = Some (c', w') ->
  keeps c c' \/ connected c' = false.
Proof.
  unfold turn. intros Hc E. rewrite Hc in E. cbn [negb] in E.
  destruct (sys_recv _ _ w) as [[ret cmd] w1]. destruct (negb (ret =? _)); cbn [negb] in E.
  { right. destruct (finalize_client c w1). by injection E as <- _. }
  destruct (process_cmd _ _ _ _ _ _ _ _ cmd c w1) as [[[r c2] w2]|] eqn:E2; [|done].
  destruct (r =? SUCCEEDED); cbn [negb] in E.
  - left. injection E as <- _. by eapply process_cmd_keeps.
  - right. destruct (finalize_client c2 w2). by injection E as <- _.
Qed.

Lemma turns_keeps k : forall c w c' w',
  turns read_only root_directory make_iso st_uninit heap this res fuel k c w = Some (c', w') ->
  connected c' = true -> connected c = true /\ keeps c c'.
Proof.
  induction k as [|k IH]; intros c w c' w'; cbn [turns]; [intros [= <- _] Hc; split; [done|apply keeps_refl]|].
  destruct (turn _ _ _ _ _ _ _ _ _ _) as [[c1 w1]|] eqn:E; [|done]. intros E2 Hc.
  destruct (IH _ _ _ _ E2 Hc) as [Hc1 K]. destruct (connected c) eqn:Hc0.
  - split; [done|]. apply turn_keeps in E as [K1|?]; [by eapply keeps_trans|congruence|done].
  - unfold turn in E. rewrite Hc0 in E. cbn [negb] in E. injection E as <- _. congruence.
Qed.

Lemma initialize_client_ok w c w' : initialize_client heap w = (SUCCEEDED, c, w') -> client_ok c.
Proof.
  unfold initialize_client. destruct (sys_malloc _ w) as [[] w1]; cbn [negb]; [|done].
  intros [= <- _]. split; cbn; [done|by left|done|done].
Qed.

(** ** The property *)

(** C19. A slot that initialize_client has set up, and that the accept loop has
    given a socket, is well formed after each round of the command loop until the connection is
    closed, in either build, whatever bytes the client sends and whatever calls fail in them:
    the four-megabyte buffer is there, the sector size is one that process_open_cmd
    knows, the file size is zero when no file is open, and an open directory has its
    path.  And the fields that the accept loop reads from its own thread (the socket,
    [connected], the address and [has_thread]) are the ones that the thread
    started with: until finalize_client no handler writes them.  That is as long as
    the commands are defined: one whose path overruns [lnk_file], and one on a
    directory of more entries than the fuel, are not. *)
Theorem session_keeps_client k sock w0 w1 c0 w c' w' :
  initialize_client heap w0 = (SUCCEEDED, c0, w1) ->
  turns read_only root_directory make_iso st_uninit heap this res fuel k (set_s sock c0) w = Some (c', w') ->
  connected c' = true -> client_ok c' /\ slot_of c' = slot_of (set_s sock c0).
Proof.
  intros Ei%initialize_client_ok E Hc. destruct (turns_keeps _ _ _ _ _ E Hc) as [_ [Es Hok]].
  split; [apply Hok|exact Es]. destruct Ei. by split.
Qed.
End commands.

(** A client asks for a directory, which it gets, and leaves. *)
Definition sim_dirs : Sim.sim :=
  Sim.with_input {[ 7 := be_bytes 2 NETISO_CMD_OPEN_DIR ++ be_bytes 2 1 ++ replicate 12 0 ++ str "/" ]} sim0.

Lemma session_keeps_client_witness : exists c' w',
  turns true root 0 st0 (zext []) this0 (st0, 0) 10 1 (set_s 7 (initialize_client (R := ro) (zext []) sim0).1.2)
    sim_dirs = Some (c', w') /\
  client_ok c' /\ dirpath c' = Some (str "/srv/") /\ slot_of c' = (7, true, 0, false).
Proof.
  destruct (turns true root 0 st0 (zext []) this0 (st0, 0) 10 1
    (set_s 7 (initialize_client (R := ro) (zext []) sim0).1.2) sim_dirs) as [[c' w']|] eqn:E.
  - exists c', w'. split; [done|].
    pose proof (f_equal (fun x => (fun y => (connected y.1, dirpath y.1)) <$> x) E) as Ed. vm_compute in Ed.
    injection Ed as Hc Hd.
    destruct (session_keeps_client true root 0 st0 (zext []) this0 (st0, 0) 10 1 7 sim0
      (initialize_client (R := ro) (zext []) sim0).2 (initialize_client (zext []) sim0).1.2 sim_dirs c' w') as [Hok Hs];
      [by vm_compute|exact E|exact (eq_sym Hc)|].
    split; [exact Hok|]. split; [exact (eq_sym Hd)|by rewrite Hs].
  - exfalso. revert E. by vm_compute.
Defined.
