(* ===== verification/Connect.v ===== *)
(** * Whole connections: what a client is sent

    The command loop over everything a client sends: it asks for a file and then
    reads it, and is sent the size, the time and the bytes asked for, no more and
    no less.  The handlers' frame is that of Frame.v for the relation [steady]:
    none of them takes a byte from the connection beside those it receives. *)

From S2P Require Import Prelude Endian Os Stream CString AbsFile FileIso Client RoFile.
From S2P Require Import VIso VIsoView VIsoTree VIsoBuild Scenario ReadCmds ReadSpec Paths PathsSpec.
From S2P Require Import OpenCmd OpenSpec FileCmds Frame VIsoFrame Dispatch DispatchSpec.

Section relations.
Context {W : Type} `{PosixLaws W, !StreamView W, !StreamLaws W}.

Ltac by_stream := intros;
  match goal with
  | E : _ = _ |- _ =>
      first [ apply sl_malloc in E | apply sl_open in E | apply sl_close in E | apply sl_read in E
            | apply sl_lseek in E | apply sl_fstat in E | apply sl_stat in E
            | apply sl_opendir in E | apply sl_readdir in E ];
      by destruct E
  end.

#[export] Instance steady_inert : Inert steady.
Proof.
  split; [split|..]; try (by_stream; fail); [split; [exact steady_refl|exact steady_trans]|intros; apply sl_closedir].
Qed.

#[export] Instance keeps_names_inert : Inert keeps_names.
Proof.
  split; [split|..]; try (by_stream; fail); [split; [exact keeps_names_refl|exact keeps_names_trans]|intros; apply sl_closedir].
Qed.

Lemma steady_send s d w r w' : sys_send s d w = (r, w') -> quiet steady w w'.
Proof. intros E. by apply sl_send in E as []. Qed.

(** ** Receiving *)

(** The peer of the socket is there and has [l] left to send; there is memory. *)
Record link (w : W) (sock : Z) (l : bytes) : Prop := {
  lk_peer : writable w sock;
  lk_flow : inflow w sock = l;
  lk_memory : memory w;
}.

Lemma link_step w w' sock l : steady w w' -> keeps_net w w' -> link w sock l -> link w' sock l.
Proof. intros [F M] [_ P] [A <- C]. split; [by apply P|apply F|by apply M]. Qed.

Lemma link_recv w sock d l n :
  link w sock (d ++ l) -> blen d = n ->
  exists w', sys_recv sock n w = (n, d, w') /\ link w' sock l /\ keeps_fs any_fd w w' /\
    keeps_net w w' /\ keeps_names w w'.
Proof.
  intros [Hp Hf Hm] <-. destruct (sl_recv sock (blen d) w Hp (blen_nonneg d)) as (w' & E & Hd & Hm' & Hc).
  rewrite Hf, slice_app_l, slice_all in E by blia. exists w'. split; [done|].
  pose proof (law_recv _ _ _ _ _ _ E) as (_ & Hk & Hn). split; [|done].
  split; [by apply (kn_writable _ _ Hn)| |by apply Hm'].
  rewrite Hd, Hf. unfold blen. by rewrite Nat2Z.id, drop_app_length.
Qed.

Lemma link_closed w sock n : link w sock [] -> 0 < n ->
  exists w', sys_recv sock n w = (0, [], w') /\ keeps_fs any_fd w w' /\ keeps_net w w'.
Proof.
  intros [Hp Hf _] Hn. destruct (sl_recv sock n w Hp) as (w' & E & _); [lia|].
  rewrite Hf, slice_nil in E. exists w'. split; [done|]. by apply law_recv in E as (_ & ? & ?).
Qed.
End relations.

(** ** Reading *)

(** A READ_FILE_CRITICAL command and what it asks for. *)
Record read_request (cmd : bytes) : Prop := {
  rr_bytes : Forall is_byte cmd;
  rr_length : blen cmd = netiso_cmd_size;
  rr_opcode : cmd_opcode cmd = NETISO_CMD_READ_FILE_CRITICAL;
  rr_offset : cmd_offset cmd < 2 ^ 63;
}.

Definition read_reply (content cmd : bytes) : bytes :=
  padded content (cmd_offset cmd) (cmd_num_bytes cmd).

Section reads.
Context {W R : Type} `{PosixLaws W, !StreamView W, !StreamLaws W, Aes, !AbstractFile R W,
  !AbstractFileView R W, !AbstractFileLaws R W, !RoFactory R, !RoLaws R W, !InertFile (R := R) steady}.
Variables (read_only : bool) (root_directory : bytes) (make_iso : Z) (st_uninit : file_stat_t).
Variables (heap : mem) (this : File) (res : file_stat_t * Z) (fuel : nat).
Implicit Types (c : client_t R) (w : W) (f : R) (m : mem) (cmd content path p : bytes).
Abbreviation loop := (client_loop read_only root_directory make_iso st_uninit heap this res fuel).

Lemma process_read cmd c w : cmd_opcode cmd = NETISO_CMD_READ_FILE_CRITICAL ->
  process_cmd read_only root_directory make_iso st_uninit heap this res fuel cmd c w =
  process_read_file_critical cmd c w.
Proof. intros E. unfold process_cmd. by rewrite E. Qed.

Lemma process_open cmd c w : cmd_opcode cmd = NETISO_CMD_OPEN_FILE ->
  process_cmd read_only root_directory make_iso st_uninit heap this res fuel cmd c w =
  process_open_cmd root_directory st_uninit heap cmd c w.
Proof. intros E. unfold process_cmd. rewrite E. by destruct read_only. Qed.

(** The loop ends when the client stops sending. *)
Lemma loop_closed k c w : link w (s c) [] ->
  exists w', loop (S k) c w = Some (c, w') /\ keeps_fs any_fd w w' /\ keeps_net w w'.
Proof.
  intros L. destruct (link_closed w (s c) netiso_cmd_size L) as (w' & E & ? & ?); [done|].
  exists w'. cbn [client_loop]. rewrite E. done.
Qed.

(** One command that succeeds. *)
Lemma loop_step k cmd l c w : link w (s c) (cmd ++ l) -> blen cmd = netiso_cmd_size ->
  exists w1, link w1 (s c) l /\ keeps_fs any_fd w w1 /\ keeps_net w w1 /\ keeps_names w w1 /\
    loop (S k) c w =
      let? (ret, c, w) := process_cmd read_only root_directory make_iso st_uninit heap this res fuel cmd c w1 in
      if negb (ret =? SUCCEEDED) then Some (c, w) else loop k c w.
Proof.
  intros L Hl. destruct (link_recv w (s c) cmd l netiso_cmd_size L Hl) as (w1 & E & L1 & Hf & Hn & Hc).
  exists w1. do 4 (split; [done|]). cbn [client_loop]. rewrite E. by rewrite Z.eqb_refl.
Qed.

(** A read of an open file, on a connection that has [l] still to come. *)
Lemma read_step cmd l c w content f m q :
  read_request cmd -> serving c w content f m q -> supportsBulkRead f = true -> link w (s c) l ->
  exists c' w' f' m' q',
    process_cmd read_only root_directory make_iso st_uninit heap this res fuel cmd c w = Some (SUCCEEDED, c', w') /\
    s c' = s c /\ serving c' w' content f' m' q' /\ supportsBulkRead f' = true /\ link w' (s c) l /\
    sent w' (s c) = sent w (s c) ++ read_reply content cmd.
Proof.
  intros [Hby Hl Hop Ho] Hs Hb L.
  destruct (read_file_critical_spec cmd c w content f m q Hby Hl Hs Ho (or_introl Hb)) as (r & c2 & w2 & E & HA).
  destruct (an_live _ _ _ _ _ _ _ _ _ HA Hb (lk_peer _ _ _ L)) as [-> Hp].
  destruct (an_serving _ _ _ _ _ _ _ _ _ HA) as (f2 & m2 & q2 & Hs2 & Hb2).
  exists c2, w2, f2, m2, q2. rewrite (process_read _ _ _ Hop). split; [exact E|].
  split; [by destruct (an_after _ _ _ _ _ _ _ _ _ HA) as (? & ? & ? & -> & _)|]. split; [exact Hs2|].
  split; [congruence|]. split; [|exact (an_exact _ _ _ _ _ _ _ _ _ HA eq_refl)].
  pose proof (read_file_critical_inert (R := R) steady steady_send _ _ _ _ _ _ E) as [F M].
  destruct L as [_ Hf Hm]. split; [done|by rewrite F|by apply M].
Qed.

Lemma serving_frame c w w' content f m q :
  keeps_fs any_fd w w' -> serving c w content f m q -> serving c w' content f m q.
Proof. intros K []. split; [done|done|by rewrite (afl_frame f w w' K)|done]. Qed.

Lemma reads_loop content reads : forall k c w f m q,
  (length reads < k)%nat -> Forall read_request reads -> serving c w content f m q ->
  supportsBulkRead f = true -> link w (s c) (concat reads) ->
  exists c' w', loop k c w = Some (c', w') /\
    sent w' (s c) = sent w (s c) ++ concat (read_reply content <$> reads).
Proof.
  induction reads as [|cmd reads IH]; intros k c w f m q Hk Hr Hs Hb L;
    (destruct k as [|k]; [cbn in Hk; lia|]).
  { destruct (loop_closed k c w L) as (w' & E & _ & Hn). exists c, w'. split; [exact E|].
    by rewrite (kn_sent _ _ Hn), app_nil_r. }
  apply Forall_cons in Hr as [Hr Hr'].
  destruct (loop_step k cmd (concat reads) c w L (rr_length _ Hr)) as (w1 & L1 & Hf1 & Hn1 & _ & ->).
  destruct (read_step cmd _ c w1 content f m q Hr (serving_frame _ _ _ _ _ _ _ Hf1 Hs) Hb L1)
    as (c2 & w2 & f2 & m2 & q2 & -> & Es & Hs2 & Hb2 & L2 & Hsent2). cbn [SUCCEEDED Z.eqb negb].
  destruct (IH k c2 w2 f2 m2 q2) as (c3 & w3 & E3 & Hsent); [cbn in Hk; lia|done|done|done|by rewrite Es|].
  exists c3, w3. split; [exact E3|]. rewrite Es in Hsent.
  by rewrite Hsent, Hsent2, (kn_sent _ _ Hn1), <- app_assoc.
Qed.
End reads.

(** ** Paths *)

(** [path], as a client sends it, names [p] below the root, as the kind of object
    [viso]; there is no [.INI] file on the way. *)
Record client_path {W} `{PosixView W} (root : bytes) (w : W) (path : bytes) (want : bool)
    (viso : viso_t) (p : bytes) : Prop := {
  cp_root : good_root root;
  cp_root_length : 0 < blen root;
  cp_length : 0 < blen path < 2 ^ 16;
  cp_string : Forall (fun b => b <> 0) path;
  cp_slash : starts_with [slash] (normalize_path path false) = true;
  cp_safe : unsecure_path (normalize_path path false) = false;
  cp_viso : viso = if want then (viso_prefix (normalize_path path false)).1 else VISO_NONE;
  cp_name : p = root ++ normalize_path (suffix_of path want) true;
  cp_normal : normalize_path p false = p;
  cp_short : blen p + 4 < MAX_LINK_LEN;
  cp_ini j : file_at w (take j p ++ str ".INI") = Missing;
}.

Section paths.
Context {W : Type} `{PosixLaws W, !StreamView W, !StreamLaws W}.
Variables (root : bytes) (st_uninit : file_stat_t).
Implicit Types (w : W) (path p : bytes).

Lemma client_path_frame w w' path want viso p :
  (forall q, file_at w' q = file_at w q) -> client_path root w path want viso p ->
  client_path root w' path want viso p.
Proof. intros E []. split; try done. intros j. by rewrite E. Qed.

Lemma translate_ok w path want viso p :
  client_path root w path want viso p -> memory w ->
  exists w', translate_path root st_uninit path want w = Some (Some p, viso, w') /\
    steady w w' /\ keeps_fs any_fd w w' /\ keeps_net w w' /\ keeps_names w w'.
Proof.
  intros [Hr Hr0 _ _ Hs Hu Hv Hp Hn Hl Hi] Hm.
  destruct (translate_no_ini root st_uninit path want w) as (w' & E & Hk & Hnet); rewrite <- ?Hp; try done.
  rewrite <- Hp, (sl_malloc_ok _ _ Hm), Hn in E. cbn [andb] in E.
  exists w'. rewrite Hv. split; [exact E|].
  split; [exact (translate_path_inert steady root st_uninit path want w _ _ w' E)|]. split; [done|]. split; [done|].
  exact (translate_path_inert keeps_names root st_uninit path want w _ _ w' E).
Qed.
End paths.

(** The command that precedes a path. *)
Definition path_cmd (opcode : Z) (path : bytes) : bytes :=
  be_bytes 2 opcode ++ be_bytes 2 (blen path) ++ replicate 12 0.

Lemma path_cmd_size opcode path : blen (path_cmd opcode path) = netiso_cmd_size.
Proof. unfold path_cmd. by rewrite !blen_app, !blen_be_bytes. Qed.

Lemma path_cmd_opcode opcode path : 0 <= opcode < 2 ^ 16 -> cmd_opcode (path_cmd opcode path) = opcode.
Proof. exact (field_16 [] (be_bytes 2 (blen path) ++ replicate 12 0) opcode 0 eq_refl). Qed.

Lemma path_cmd_length opcode path : blen path < 2 ^ 16 -> cmd_path_len (path_cmd opcode path) = blen path.
Proof.
  intros Hl. apply (field_16 (be_bytes 2 opcode) (replicate 12 0)); [by rewrite blen_be_bytes|].
  split; [apply blen_nonneg|done].
Qed.

(** ** Opening, then reading *)

Section session.
Context {W R : Type} `{PosixLaws W, !StreamView W, !StreamLaws W, Aes, !AbstractFile R W,
  !AbstractFileView R W, !AbstractFileLaws R W, !RoFactory R, !RoLaws R W, !RoTimes R W,
  !InertFile (R := R) steady}.
Variables (read_only : bool) (root_directory : bytes) (make_iso : Z) (st_uninit : file_stat_t).
Variables (heap : mem) (this : File) (res : file_stat_t * Z) (fuel : nat).
Implicit Types (c : client_t R) (w : W) (f : R) (m : mem) (cmd content path p : bytes).

Lemma open_cmd_ok path p content c w m l :
  ro_file c = None -> buf c = Some m ->
  client_path root_directory w path true VISO_NONE p -> path <> str "/CLOSEFILE" ->
  ro_plain p = true -> file_at w p = Regular content -> link w (s c) (path ++ l) ->
  exists c' w' f m' q,
    process_open_cmd root_directory st_uninit heap (path_cmd NETISO_CMD_OPEN_FILE path) c w
      = Some (SUCCEEDED, c', w') /\
    s c' = s c /\ serving c' w' content f m' q /\ supportsBulkRead f = true /\ link w' (s c) l /\
    sent w' (s c) = sent w (s c) ++ be_bytes 8 (u64 (blen content)) ++ be_bytes 8 (u64 (mtime_at w p)).
Proof.
  intros Hro Hm Hcp Hclose Hplain Hf L. pose proof (cp_length _ _ _ _ _ _ Hcp) as Hlen.
  unfold process_open_cmd. rewrite Hm, path_cmd_length by lia. cbv zeta.
  destruct (Z.eqb_spec (blen path) 0); [lia|].
  destruct (sys_malloc _ w) as [ok w1] eqn:Em. pose proof (sl_malloc _ _ _ _ Em) as [St1 Kn1].
  pose proof (law_malloc _ _ _ _ Em) as [Hfs1 Hn1].
  pose proof (sl_malloc_ok (MAX_PATH_LEN + blen path + 1) w (lk_memory _ _ _ L)) as Hok. rewrite Em in Hok.
  cbn in Hok. subst ok. cbn [negb].
  destruct (link_recv w1 (s c) path l (blen path)) as (w2 & E2 & L2 & Hfs2 & Hn2 & Kn2);
    [by eapply link_step|done|].
  rewrite E2, u16_small, Z.eqb_refl, mload_mstore by lia. cbn [negb]. rewrite cstr_id by apply Hcp.
  unfold delete_ro. rewrite Hro. unfold bytes_eqb. rewrite (bool_decide_eq_false_2 _ Hclose), andb_false_r.
  assert (forall q, file_at w2 q = file_at w q) as Hsame
    by (intros q; by rewrite (kf_path _ _ _ Hfs2), (kf_path _ _ _ Hfs1)).
  destruct (translate_ok root_directory st_uninit w2 path true VISO_NONE p) as (w3 & E3 & St3 & Hfs3 & Hn3 & Kn3);
    [by eapply client_path_frame|apply L2|].
  rewrite E3. set (c1 := set_size 0 false (set_ro None c)).
  destruct (open_translated_spec st_uninit p content m c1 w3 Hplain)
    as (r & c' & w' & E & Hs & Hsent & Hlive & _ & f & m' & q & Hsv & Hb & _);
    [by rewrite (kf_path _ _ _ Hfs3), Hsame|done|].
  pose proof (link_step _ _ _ _ St3 Hn3 L2) as L3. destruct (Hlive (lk_peer _ _ _ L3)) as [-> Hp'].
  exists c', w', f, m', q. split; [exact E|]. split; [done|]. split; [done|]. split; [done|].
  pose proof (open_translated_inert steady steady_send st_uninit p VISO_NONE m c1 w3 _ _ _ E) as [F M].
  split; [split; [done|rewrite F; apply L3|apply M, L3]|].
  change (s c1) with (s c) in Hsent. rewrite (Hsent eq_refl).
  rewrite (kn_mtime _ _ Kn3), (kn_mtime _ _ Kn2), (kn_mtime _ _ Kn1).
  by rewrite (kn_sent _ _ Hn3), (kn_sent _ _ Hn2), (kn_sent _ _ Hn1).
Qed.

(** A new connection: a buffer and nothing open. *)
Record fresh c m : Prop := {
  fr_ro : ro_file c = None;
  fr_wo : wo_file c = None;
  fr_buf : buf c = Some m;
}.

Lemma finalize_sent (Hs : InertFile (R := R) same_sent) c w c' w' s' :
  finalize_client c w = (c', w') -> sent w' s' = sent w s'.
Proof.
  intros E. apply (finalize_client_inert same_sent) in E; [apply E|].
  intros s0 w0 s1. apply law_shutdown.
Qed.

(** C8. A whole connection: a client that sends the path of a plain file (one part, no
    key, readable, with no [.INI] file on the way to it) and then any number of
    READ_FILE_CRITICAL commands with offsets below 2^63, and stops, is sent the size and the time of last
    modification of the file and then, command by command, exactly the bytes asked for
    (zeros past the end); and the connection is over.  The path begins with a slash, is
    not refused, has no carriage return at its end and fits the buffer for INI files; the
    client reads what it is sent, and memory does not run out. *)
Theorem connection_reads_file (Hs : InertFile (R := R) same_sent) k path p content reads c w m :
  fresh c m -> client_path root_directory w path true VISO_NONE p -> path <> str "/CLOSEFILE" ->
  ro_plain p = true -> file_at w p = Regular content -> Forall read_request reads ->
  link w (s c) (path_cmd NETISO_CMD_OPEN_FILE path ++ path ++ concat reads) -> (length reads + 2 <= k)%nat ->
  exists c' w',
    client_thread read_only root_directory make_iso st_uninit heap this res fuel k c w = Some (c', w') /\
    sent w' (s c) = sent w (s c) ++ be_bytes 8 (u64 (blen content)) ++ be_bytes 8 (u64 (mtime_at w p)) ++
      concat (read_reply content <$> reads) /\
    connected c' = false.
Proof.
  intros [Hro _ Hm] Hcp Hclose Hplain Hf Hr L Hk. destruct k as [|k]; [lia|].
  destruct (loop_step read_only root_directory make_iso st_uninit heap this res fuel k _ _ c w L)
    as (w1 & L1 & Hfs1 & Hn1 & Kn1 & E1); [apply path_cmd_size|].
  assert (client_path root_directory w1 path true VISO_NONE p) as Hcp1
    by (eapply client_path_frame; [apply (kf_path _ _ _ Hfs1)|done]).
  assert (file_at w1 p = Regular content) as Hf1 by by rewrite (kf_path _ _ _ Hfs1).
  destruct (open_cmd_ok path p content c w1 m _ Hro Hm Hcp1 Hclose Hplain Hf1 L1)
    as (c2 & w2 & f & m2 & q & E2 & Es & Hsv & Hb & L2 & Hsent2). rewrite (kn_mtime _ _ Kn1) in Hsent2.
  rewrite process_open, E2 in E1 by by apply path_cmd_opcode. rewrite <- Es in L2.
  destruct (reads_loop read_only root_directory make_iso st_uninit heap this res fuel content reads
    k c2 w2 f m2 q) as (c3 & w3 & E3 & Hsent3); [lia|done..|].
  cbn [SUCCEEDED Z.eqb negb] in E1. rewrite E3 in E1. unfold client_thread. rewrite E1.
  destruct (finalize_client c3 w3) as [c4 w4] eqn:E4. exists (set_connected false c4), w4.
  split; [done|]. split; [|done].
  rewrite (finalize_sent Hs _ _ _ _ _ E4). rewrite Es in Hsent3.
  rewrite Hsent3, Hsent2, (kn_sent _ _ Hn1), <- !app_assoc. done.
Qed.
End session.

(** ** A concrete connection *)

#[export] Instance sim_steady_idle : Idle (W := Sim.sim) steady.
Proof.
  split.
  - apply steady_refl.
  - apply steady_trans.
  - intros p w r st w' E. by apply sl_stat in E as [].
  - intros p f w r w' [= _ <-]. apply steady_refl.
  - intros w r w' [= _ <-]. apply steady_refl.
  - intros n w r w' [= _ <-]. apply steady_refl.
Qed.

Definition client_fresh : client_t ro := mk_client 7 None None None None (Some (zext [])) true 0 true 2352 0 0 false.
Definition reads0 : list bytes :=
  [cmd_read NETISO_CMD_READ_FILE_CRITICAL 2 1; cmd_read NETISO_CMD_READ_FILE_CRITICAL 4 3].
Definition sim_reads : Sim.sim :=
  Sim.with_input {[ 7 := path_cmd NETISO_CMD_OPEN_FILE (str "/a.bin") ++ str "/a.bin" ++ concat reads0 ]} sim0.

Lemma client_path_a w want : (forall p, file_at w (p ++ str ".INI") = Missing) ->
  client_path root w (str "/a.bin") want VISO_NONE path_a.
Proof.
  intros Hi. split; [apply good_root_srv|concrete|concrete|concrete|concrete|concrete|
    by destruct want|by destruct want; vm_compute|concrete|concrete|intros j; apply Hi].
Qed.

Lemma connection_reads_file_witness :
  exists c' w',
    client_thread true root 0 st0 (zext []) this0 (st0, 0) 10 5 client_fresh sim_reads = Some (c', w') /\
    sent w' 7 = be_bytes 8 5 ++ be_bytes 8 1 ++ [11; 12] ++ [13; 14; 0; 0] /\ connected c' = false.
Proof.
  destruct (connection_reads_file true root 0 st0 (zext []) this0 (st0, 0) 10 _ 5 (str "/a.bin") path_a data_a
    reads0 client_fresh sim_reads (zext [])) as (c' & w' & E & Hsent & Hc).
  - by split.
  - apply client_path_a, no_ini_file.
  - done.
  - by vm_compute.
  - by vm_compute.
  - repeat constructor; concrete.
  - split; [concrete|by vm_compute|done].
  - cbn. lia.
  - exists c', w'. split; [exact E|]. split; [|exact Hc]. change 7 with (s client_fresh). rewrite Hsent. by vm_compute.
Defined.
