(* ===== verification/Sessions.v ===== *)
(** * Several connections at once

    The threads of a READ_ONLY server, interleaved command by command, with new
    connections accepted in between: [serve] is the step relation, [executes] its
    runs.  The invariant [separate] is that no descriptor has two owners; with it
    a client that reads a file is served as if it were alone (Connect.v).

    A turn of a thread is one command, from its [recv] to its last [send]: turns
    of different threads are not interleaved further, since what they share is
    the table of descriptors, whose calls are atomic, and files, which no command
    of this build writes. *)

From S2P Require Import Prelude Endian Os Stream CString AbsFile FileIso Client RoFile.
From S2P Require Import ReadCmds ReadSpec Paths PathsSpec OpenCmd OpenSpec Frame Ownership OwnFile OwnViso.
From S2P Require Import VIso VIsoView VIsoTree VIsoImage VIsoBuild VIsoFrame.
From S2P Require Import Dispatch DispatchSpec ClientOk Isolation Scenario Connect.

Section server.
Context {W R : Type} `{Posix W, Aes, AbstractFile R W, RoFactory R}.
Variables (read_only : bool) (root_directory : bytes) (make_iso : Z) (st_uninit : file_stat_t).
Variables (heap : mem) (this : File) (res : file_stat_t * Z) (fuel : nat).
Implicit Types (c : client_t R) (w : W).
Abbreviation process_cmd := (process_cmd read_only root_directory make_iso st_uninit heap this res fuel).
Abbreviation turn := (turn read_only root_directory make_iso st_uninit heap this res fuel).
Abbreviation turns := (turns read_only root_directory make_iso st_uninit heap this res fuel).
Abbreviation client_thread := (client_thread read_only root_directory make_iso st_uninit heap this res fuel).

Lemma turns_closed k c w : connected c = false -> turns k c w = Some (c, w).
Proof. intros Hc. induction k as [|k IH]; cbn [Dispatch.turns]; [done|]. unfold Dispatch.turn at 1. rewrite Hc. exact IH. Qed.

(** Turn by turn, a thread does what client_thread does. *)
Lemma turns_thread k c w : connected c = true ->
  forall c' w', client_thread k c w = Some (c', w') -> turns k c w = Some (c', w').
Proof.
  unfold client_thread. revert c w. induction k as [|k IH]; intros c w Hc c' w'; cbn [client_loop Dispatch.turns]; [done|].
  unfold Dispatch.turn at 1. rewrite Hc. cbn [negb].
  destruct (sys_recv (s c) netiso_cmd_size w) as [[ret cmd] w1] eqn:E1.
  destruct (negb (ret =? netiso_cmd_size)).
  - cbn [negb]. destruct (finalize_client c w1) as [c2 w2] eqn:E2. intros [= <- <-]. by apply turns_closed.
  - destruct (process_cmd cmd c w1) as [[[r c2] w2]|] eqn:E2; [|done].
    destruct (r =? SUCCEEDED); cbn [negb].
    + intros E. apply IH; [|exact E]. apply process_cmd_keeps in E2 as [Es _]. unfold slot_of in Es. congruence.
    + destruct (finalize_client c2 w2) as [c3 w3] eqn:E3. intros [= <- <-]. by apply turns_closed.
Qed.
End server.

(** ** The connections of a server *)

(** A thread takes its turn, or the accept loop gives a new connection to a client. *)
Inductive label := Turn (i : nat) | Accept (sock : Z).

#[export] Instance label_eq_dec : EqDecision label.
Proof. solve_decision. Defined.

Section system.
Context {W R : Type} `{PosixLaws W, !StreamView W, !StreamLaws W, !SharedView W, !SharedLaws W, Aes}.
Context `{!AbstractFile R W, !AbstractFileView R W, !Owner R W, !RoFactory R, !OwnerFactory R W}.
Variables (root_directory : bytes) (make_iso : Z) (st_uninit : file_stat_t).
Variables (heap : mem) (this : File) (res : file_stat_t * Z) (fuel : nat).
Implicit Types (c : client_t R) (w : W) (cs : list (client_t R)).
Abbreviation turn := (turn true root_directory make_iso st_uninit heap this res fuel).

Inductive serve : label -> list (client_t R) * W -> list (client_t R) * W -> Prop :=
  | serve_turn i cs w c c' w' : cs !! i = Some c -> turn c w = Some (c', w') ->
      serve (Turn i) (cs, w) (<[i := c']> cs, w')
  | serve_accept sock cs w w1 c w2 : ~ live w sock -> live w1 sock -> still w w1 ->
      initialize_client heap w1 = (SUCCEEDED, c, w2) ->
      serve (Accept sock) (cs, w) (cs ++ [set_s sock c], w2).

Inductive executes : list label -> list (client_t R) * W -> list (client_t R) * W -> Prop :=
  | executes_nil st : executes [] st st
  | executes_step l ls st1 st2 st3 : executes ls st1 st2 -> serve l st2 st3 -> executes (ls ++ [l]) st1 st3.

(** A schedule of turns, run. *)
Fixpoint run (schedule : list nat) (st : list (client_t R) * W) : option (list (client_t R) * W) :=
  match schedule with
  | [] => Some st
  | i :: schedule =>
      let '(cs, w) := st in
      match cs !! i with
      | None => None
      | Some c => let? (c, w) := turn c w in run schedule (<[i := c]> cs, w)
      end
  end.

Lemma executes_cons l ls st1 st2 st3 : serve l st1 st2 -> executes ls st2 st3 -> executes (l :: ls) st1 st3.
Proof.
  intros Hs Hex. induction Hex as [st|l' ls st2 st3 st4 _ IH Hs'].
  - apply (executes_step l []) with st1; [constructor|done].
  - apply (executes_step l' (l :: ls)) with st3; [by apply IH|done].
Qed.

Lemma run_executes schedule st st' : run schedule st = Some st' -> executes (Turn <$> schedule) st st'.
Proof.
  revert st. induction schedule as [|i schedule IH]; intros [cs w]; cbn [run fmap list_fmap].
  - intros [= <-]. constructor.
  - destruct (cs !! i) as [c|] eqn:Hi; [|done]. destruct (turn c w) as [[c1 w1]|] eqn:E; [|done].
    intros Hr. eapply executes_cons; [by apply (serve_turn i cs w c c1 w1)|by apply IH].
Qed.

(** ** Separation *)

(** What the thread of a connection owns. *)
Definition desc c : list Z := if connected c then s c :: owned_by (ro_file c) else [].

Record well_behaved c : Prop := {
  wb_docile : docile_file (ro_file c);
  wb_wo : wo_file c = None;
}.

Record separate cs w : Prop := {
  sep_tidy : tidy (concat (desc <$> cs)) w;
  sep_well : Forall well_behaved cs;
}.

Lemma finalize_spares c w c' w' : well_behaved c -> connected c = true -> finalize_client c w = (c', w') ->
  spares (desc c) w [] w'.
Proof.
  intros [Hd Hw] Hc. unfold finalize_client, delete_wo, desc. rewrite Hw, Hc. cbv zeta.
  set (w1 := if SOCKET_OK (s c) then _ else w). intros [= _ <-].
  assert (spares [s c] w [] w1) as S1.
  { unfold w1. destruct (SOCKET_OK (s c)); [|apply (spares_forget _ _ [] [s c]), spares_refl].
    destruct (untouched_shutdown (s c) w) as [U L]. destruct (sys_close (s c) _) as [r w2] eqn:E.
    eapply spares_trans; [|exact (spares_close _ _ _ _ E)]. apply (spares_on _ (s c)); [right; by left|done..]. }
  eapply spares_trans; [exact (spares_frame _ _ _ _ (owned_by (ro_file c)) S1)|]. cbn [app].
  assert (spares (owned_by (ro_file c)) w1 [] (delete_ro c w1)) as S2.
  { unfold delete_ro. destruct (ro_file c) as [f|]; [by apply own_delete|apply spares_refl]. }
  eapply spares_trans; [exact S2|]. apply still_spares.
  destruct (dir c) as [d|]; [apply (inert_closedir (Q := still))|apply (inert_refl (Q := still))].
Qed.

(** A turn spares what its thread does not own, and leaves it well behaved. *)
Lemma turn_spares c w c' w' : well_behaved c -> turn c w = Some (c', w') ->
  spares (desc c) w (desc c') w' /\ well_behaved c'.
Proof.
  intros Hb. unfold turn, Dispatch.turn. destruct (connected c) eqn:Hc; cbn [negb].
  2: { intros [= <- <-]. split; [apply spares_refl|done]. }
  destruct (sys_recv (s c) netiso_cmd_size w) as [[n cmd] w1] eqn:E1.
  apply (apart_recv _ _ _ _ _ _ (ro_file c)) in E1.
  assert (forall c1 w2, apart (s c) (ro_file c) w (ro_file c1) w2 -> s c1 = s c -> wo_file c1 = wo_file c ->
    connected c1 = true -> spares (desc c) w (desc c1) w2 /\ well_behaved c1) as Hgo.
  { intros c1 w2 A Es Ew Hc1. destruct (A (wb_docile _ Hb)) as [Hd Sp]. unfold desc. rewrite Hc, Hc1, Es.
    split; [exact Sp|]. split; [done|]. rewrite Ew. apply Hb. }
  assert (forall c1 w2, spares (desc c) w (desc c1) w2 -> well_behaved c1 -> connected c1 = true ->
    (let '(c, w) := finalize_client c1 w2 in Some (set_connected false c, w)) = Some (c', w') ->
    spares (desc c) w (desc c') w' /\ well_behaved c') as Hend.
  { intros c1 w2 Sp Hb1 Hc1. destruct (finalize_client c1 w2) as [c3 w3] eqn:E3.
    pose proof (finalize_spares _ _ _ _ Hb1 Hc1 E3) as S3. intros [= <- <-].
    split; [eapply spares_trans; [exact Sp|exact S3]|]. injection E3 as <- _. by split. }
  destruct (negb (n =? netiso_cmd_size)); cbn [negb].
  { destruct (Hgo c w1 E1 eq_refl eq_refl Hc) as [Sp Hb1]. by apply Hend. }
  destruct (Dispatch.process_cmd _ _ _ _ _ _ _ _ cmd c w1) as [[[r c2] w2]|] eqn:E2; [|done].
  pose proof (process_cmd_keeps _ _ _ _ _ _ _ _ _ _ _ _ _ _ E2) as [Es _].
  apply process_cmd_leaves in E2 as [A2 Es2 Ew2].
  destruct (Hgo c2 w2) as [Sp Hb2]; [by eapply apart_trans|done..|unfold slot_of in Es; congruence|].
  destruct (r =? SUCCEEDED); cbn [negb]; [intros [= <- <-]; by split|].
  apply Hend; [done..|]. unfold slot_of in Es. congruence.
Qed.

Lemma concat_split cs i c c' : cs !! i = Some c ->
  concat (desc <$> cs) ≡ₚ desc c ++ concat (desc <$> delete i cs) /\
  concat (desc <$> <[i := c']> cs) ≡ₚ desc c' ++ concat (desc <$> delete i cs).
Proof.
  intros Hi. assert (i < length cs)%nat as Hlt by by eapply lookup_lt_Some.
  assert (forall x, concat (desc <$> (take i cs ++ x :: drop (S i) cs)) ≡ₚ desc x ++ concat (desc <$> delete i cs)) as P.
  { intros x. rewrite delete_take_drop, !fmap_app, fmap_cons, !concat_app. cbn [concat].
    apply Permutation_app_swap_app. }
  split; [|rewrite insert_take_drop by done; apply P].
  by rewrite <- P, (take_drop_middle _ _ _ Hi).
Qed.

Lemma desc_owned c cs d : c ∈ cs -> d ∈ desc c -> d ∈ concat (desc <$> cs).
Proof.
  intros Hc Hd. apply list_elem_of_In, in_concat. exists (desc c). split; [|by apply list_elem_of_In].
  apply list_elem_of_In, list_elem_of_fmap. by exists c.
Qed.

(** What a turn of one thread is to the others: their descriptors are as they were. *)
Lemma serve_others l cs w cs' w' : separate cs w -> serve l (cs, w) (cs', w') ->
  separate cs' w' /\ lasting w w' /\ same_files w w' /\
  forall j c, l <> Turn j -> cs !! j = Some c ->
    cs' !! j = Some c /\ forall d, d ∈ desc c -> 0 <= d -> same_desc d w w'.
Proof.
  intros [Ht Hw] Hs. inversion Hs as [i ? ? c c1 ? Hi E|sock ? ? w1 c w2 Hn Hl Q E]; subst; clear Hs.
  - destruct (concat_split cs i c c1 Hi) as [P P'].
    destruct (turn_spares c w c1 w') as [Sp Hb]; [by eapply Forall_lookup_1|done|].
    pose proof (spares_frame _ _ _ _ (concat (desc <$> delete i cs)) Sp) as Sf. rewrite <- P, <- P' in Sf.
    split; [split; [by apply Sf|by apply Forall_insert]|]. split; [apply Sp|]. split; [intros p; apply Sp|].
    intros j x Hj Hx. assert (i <> j) by congruence. split; [by rewrite list_lookup_insert_ne|].
    intros d Hd Hge. rewrite P in Ht. apply tidy_app in Ht as (T1 & T2 & Hdis).
    assert (d ∈ concat (desc <$> delete i cs)) as Hin.
    { apply (desc_owned x); [|done]. rewrite delete_take_drop. apply elem_of_app. destruct (decide (j < i)%nat).
      - left. apply elem_of_take. eauto.
      - right. apply (list_elem_of_lookup_2 _ (j - S i)). rewrite lookup_drop. by replace (S i + (j - S i))%nat with j by lia. }
    apply (sp_rest _ _ _ _ Sp); [done|by apply T2|]. intros Hc. specialize (Hdis d Hc Hin). lia.
  - unfold initialize_client in E. destruct (sys_malloc _ w1) as [[] w2'] eqn:Em; cbn [negb] in E; [|done].
    injection E as <- ->. apply (inert_malloc (Q := still)) in Em.
    pose proof (inert_trans (Q := still) _ _ _ Q Em) as Q2.
    split; [split|].
    + rewrite fmap_app, concat_app. cbn. rewrite Permutation_app_comm. 
      apply (tidy_app [sock]). split; [|split].
      * apply tidy_single. intros _. apply Em; [done|exact I].
      * by eapply still_spares.
      * intros d ->%list_elem_of_singleton Hin. destruct (Z.lt_ge_cases sock 0) as [|Hge]; [done|].
        exfalso. by apply Hn, (td_live _ _ Ht).
    + apply Forall_app. split; [done|]. apply Forall_singleton. by split.
    + split; [apply Q2|]. split; [intros p; apply Q2|]. intros j x _ Hx.
      split; [by apply lookup_app_l_Some|]. intros d Hd Hge. apply Q2; [|exact I].
      apply (td_live _ _ Ht); [|done]. apply (desc_owned x); [|done].
      by eapply list_elem_of_lookup_2.
Qed.
End system.

(** ** A client that reads a file *)

Section reader.
Context {W R : Type} `{PosixLaws W, !StreamView W, !StreamLaws W, !SharedView W, !SharedLaws W, Aes}.
Context `{!AbstractFile R W, !AbstractFileView R W, !AbstractFileLaws R W, !Owner R W, !RoFactory R,
  !OwnerFactory R W, !RoLaws R W, !RoTimes R W, !InertFile (R := R) steady}.
Variables (root_directory : bytes) (make_iso : Z) (st_uninit : file_stat_t).
Variables (heap : mem) (this : File) (res : file_stat_t * Z) (fuel : nat).
Implicit Types (c : client_t R) (w : W) (cs : list (client_t R)).
Abbreviation turn := (turn true root_directory make_iso st_uninit heap this res fuel).
Abbreviation process_cmd := (Dispatch.process_cmd true root_directory make_iso st_uninit heap this res fuel).
Abbreviation serve := (serve root_directory make_iso st_uninit heap this res fuel).
Abbreviation executes := (executes root_directory make_iso st_uninit heap this res fuel).

(** It sends the path of a file that can be served as it is, of which [content] are the
    bytes and [mtime] is the time of last modification, and then reads. *)
Record reads_file (path p content : bytes) (mtime : Z) (reads : list bytes) (w : W) : Prop := {
  rd_path : client_path root_directory w path true VISO_NONE p;
  rd_close : path <> str "/CLOSEFILE";
  rd_plain : ro_plain p = true;
  rd_file : file_at w p = Regular content;
  rd_mtime : mtime_at w p = mtime;
  rd_reads : Forall read_request reads;
}.
Variables (path p content : bytes) (mtime : Z) (reads : list bytes).
Abbreviation reader := (reads_file path p content mtime reads).

(** Its commands, and the answers. *)
Definition requests : list bytes := (path_cmd NETISO_CMD_OPEN_FILE path ++ path) :: reads.
Definition answers : list bytes :=
  (be_bytes 8 (u64 (blen content)) ++ be_bytes 8 (u64 mtime)) :: (read_reply content <$> reads).

(** The connection after [k] of its turns, on which [out] was sent before. *)
Record progress (out : bytes) (k : nat) c w : Prop := {
  pg_open : connected c = true;
  pg_sock : 0 <= s c;
  pg_link : link w (s c) (concat (drop k requests));
  pg_sent : sent w (s c) = out ++ concat (take k answers);
  pg_file : match k with
            | O => exists m, fresh c m
            | S _ => exists f m q, serving c w content f m q /\ supportsBulkRead f = true
            end;
}.

Lemma turn_step cmd l c w : connected c = true -> link w (s c) (cmd ++ l) -> blen cmd = netiso_cmd_size ->
  exists w1, link w1 (s c) l /\ keeps_fs any_fd w w1 /\ keeps_net w w1 /\ keeps_names w w1 /\
    forall c' w', process_cmd cmd c w1 = Some (SUCCEEDED, c', w') -> turn c w = Some (c', w') /\ connected c' = true.
Proof.
  intros Hc L Hl. destruct (link_recv w (s c) cmd l netiso_cmd_size L Hl) as (w1 & E & L1 & Hf & Hn & Hk).
  exists w1. do 4 (split; [done|]). intros c' w' E2. unfold turn, Dispatch.turn. rewrite Hc. cbn [negb].
  rewrite E, Z.eqb_refl. cbn [negb]. rewrite E2. split; [done|].
  apply process_cmd_keeps in E2 as [Es _]. unfold slot_of in Es. congruence.
Qed.

Lemma reader_frame w w' : (forall q, file_at w' q = file_at w q) -> (forall q, mtime_at w' q = mtime_at w q) ->
  reader w -> reader w'.
Proof. intros Hf Ht []. split; [by eapply client_path_frame|done|done|by rewrite Hf|by rewrite Ht|done]. Qed.

(** Its own turn. *)
Lemma progress_turn out k c w : reader w -> (k <= length reads)%nat -> progress out k c w ->
  exists c' w', turn c w = Some (c', w') /\ s c' = s c /\ progress out (S k) c' w'.
Proof.
  intros Hrd Hk [Hc Hs0 L Hsent Hf]. destruct k as [|k].
  - destruct Hf as [m Hfr]. cbn [drop requests concat] in L. rewrite <- app_assoc in L.
    destruct (turn_step _ _ c w Hc L) as (w1 & L1 & K1 & N1 & Kn1 & Hturn); [apply path_cmd_size|].
    pose proof (reader_frame _ _ (kf_path _ _ _ K1) (kn_mtime _ _ Kn1) Hrd) as [R1 R2 R3 R4 R5 R6].
    destruct (open_cmd_ok (R := R) root_directory st_uninit heap path p content c w1 m _ (fr_ro _ _ Hfr) (fr_buf _ _ Hfr)
      R1 R2 R3 R4 L1) as (c2 & w2 & f & m2 & q2 & E2 & Es & Hsv & Hb & L2 & Hsent2).
    destruct (Hturn c2 w2) as [Et Hc2]; [rewrite process_open; [exact E2|by apply path_cmd_opcode]|].
    exists c2, w2. split; [exact Et|]. split; [exact Es|]. split; [done|by rewrite Es|by rewrite Es| |by exists f, m2, q2].
    rewrite Es, Hsent2, (kn_sent _ _ N1), Hsent, R5. cbn. by rewrite !app_nil_r.
  - destruct Hf as (f & m & q & Hsv & Hb).
    destruct (reads !! k) as [cmd|] eqn:Ecmd; [|apply lookup_ge_None in Ecmd; lia].
    cbn [drop requests] in L. rewrite (drop_S _ _ _ Ecmd) in L. cbn [concat] in L.
    pose proof (Forall_lookup_1 _ _ _ _ (rd_reads _ _ _ _ _ _ Hrd) Ecmd) as Hreq.
    destruct (turn_step _ _ c w Hc L) as (w1 & L1 & K1 & N1 & _ & Hturn); [apply Hreq|].
    destruct (read_step true root_directory make_iso st_uninit heap this res fuel cmd _ c w1 content f m q Hreq
      (serving_frame _ _ _ _ _ _ _ K1 Hsv) Hb L1) as (c2 & w2 & f2 & m2 & q2 & E2 & Es & Hsv2 & Hb2 & L2 & Hsent2).
    destruct (Hturn c2 w2 E2) as [Et Hc2]. exists c2, w2. split; [exact Et|]. split; [exact Es|].
    split; [done|by rewrite Es|by rewrite Es| |by exists f2, m2, q2].
    rewrite Es, Hsent2, (kn_sent _ _ N1), Hsent, <- app_assoc. f_equal.
    unfold answers. assert ((read_reply content <$> reads) !! k = Some (read_reply content cmd)) as Ek
      by by rewrite list_lookup_fmap, Ecmd.
    rewrite !firstn_cons. cbn [concat]. rewrite (take_S_r _ _ _ Ek), concat_app. cbn [concat]. by rewrite app_nil_r, app_assoc.
Qed.

(** The last turn: the client has gone. *)
Lemma progress_end out c w : progress out (S (length reads)) c w ->
  exists c' w', turn c w = Some (c', w') /\ connected c' = false.
Proof.
  intros [Hc _ L _ _]. rewrite drop_ge in L by (cbn; lia).
  destruct (link_closed w (s c) netiso_cmd_size L) as (w1 & E & _ & _); [done|].
  unfold turn, Dispatch.turn. rewrite Hc, E. change (0 =? netiso_cmd_size) with false. cbn [negb].
  destruct (finalize_client c w1) as [c2 w2]. by exists (set_connected false c2), w2.
Qed.

(** The turns of the others. *)
Lemma progress_frame out k c w w' : docile_file (ro_file c) -> lasting w w' -> same_files w w' ->
  (forall d, d ∈ desc c -> 0 <= d -> same_desc d w w') -> progress out k c w -> progress out k c w'.
Proof.
  intros Hd [M _] F D [Hc Hs0 [Lp Lf Lm] Hsent Hf]. unfold desc in D. rewrite Hc in D.
  destruct (D (s c)) as [_ _ Es Ei Ew]; [by left|done|].
  split; [done|done|split; [by apply Ew|by rewrite Ei|by apply M]|by rewrite Es|].
  destruct k as [|k]; [done|]. destruct Hf as (f & m & q & [S1 S2 S3 S4] & Hb). exists f, m, q. split; [|done].
  split; [done|done| |done]. rewrite S1 in Hd, D. rewrite <- S3. apply own_view; [exact Hd|exact F|].
  intros d Hin. destruct (Z.lt_ge_cases d 0) as [Hneg|Hge]; [|by apply D; [right|]].
  destruct (fd_view w' d) as [[x o]|] eqn:E'; [apply law_view in E'; lia|].
  destruct (fd_view w d) as [[x o]|] eqn:E; [apply law_view in E; lia|done].
Qed.

(** How many turns the thread of connection [i] had. *)
Definition turns_of (i : nat) (ls : list label) : nat := length (filter (fun l => l = Turn i) ls).

Lemma turns_of_snoc i ls l :
  turns_of i (ls ++ [l]) = if decide (l = Turn i) then S (turns_of i ls) else turns_of i ls.
Proof.
  unfold turns_of. rewrite filter_app, length_app. cbn. destruct (decide _); cbn; lia.
Qed.

Record attended (out : bytes) (sock : Z) (i k : nat) cs w : Prop := {
  at_sep : separate cs w;
  at_reader : reader w;
  at_client : exists c, cs !! i = Some c /\
    ((k <= S (length reads))%nat /\ s c = sock /\ progress out k c w \/
     (S (length reads) < k)%nat /\ connected c = false);
}.

Lemma attended_step out sock i k cs w l cs' w' :
  attended out sock i k cs w -> serve l (cs, w) (cs', w') ->
  attended out sock i (if decide (l = Turn i) then S k else k) cs' w'.
Proof.
  intros [Hsep Hrd (c & Hc & Hk)] Hs.
  destruct (serve_others _ _ _ _ _ _ _ _ _ _ _ _ Hsep Hs) as (Hsep' & M & F & Ho).
  split; [done|eapply reader_frame; [exact F|apply M|done]|]. destruct (decide (l = Turn i)) as [->|Hl].
  - inversion Hs as [? ? ? c0 c' ? Hi E|]; subst. assert (c0 = c) as -> by congruence.
    exists c'. rewrite list_lookup_insert_eq by by eapply lookup_lt_Some. split; [done|].
    destruct Hk as [(Hle & Es & Hp)|[Hlt Hclosed]].
    + destruct (decide (k = S (length reads))) as [->|Hne].
      * right. destruct (progress_end _ _ _ Hp) as (c2 & w2 & E2 & Hc2).
        assert (c2 = c') as <- by congruence. split; [lia|done].
      * left. destruct (progress_turn out k c w Hrd ltac:(lia) Hp) as (c2 & w2 & E2 & Es2 & Hp2).
        assert (c2 = c' /\ w2 = w') as [<- <-] by (split; congruence). split; [lia|]. by split; [congruence|].
    + right. split; [lia|]. unfold turn, Dispatch.turn in E. rewrite Hclosed in E. by injection E as <- _.
  - destruct (Ho i c Hl Hc) as [Hi' Hd]. exists c. split; [done|].
    destruct Hk as [(Hle & Es & Hp)|Hk]; [left|by right]. split; [done|]. split; [done|].
    eapply progress_frame; [|done..]. by eapply (Forall_lookup_1 _ _ _ _ (sep_well _ _ Hsep)).
Qed.

End reader.

(** ** Two connections *)

Module SimShared.
Import Sim.

#[export] Instance shared : SharedView sim := { live w d := fd_entry w d <> None }.

Lemma fds_live w w' : fds w' = fds w -> keeps_live w w'.
Proof. intros E d. cbn. unfold fd_entry. by rewrite E. Qed.

Lemma set_fd_live d e w : fd_entry w d <> None -> keeps_live w (set_fd d (Some e) w).
Proof.
  intros Hd d' Hl. cbn in *. destruct (decide (d' = d)) as [->|Hne].
  - destruct (fd_entry w d) as [e0|] eqn:E; [|done]. by rewrite (fd_entry_set_eq _ _ _ _ E).
  - destruct (fd_entry w d) as [e0|] eqn:E; [|done]. rewrite fd_entry_set_ne; [done|by eapply fd_entry_nonneg|done].
Qed.

Lemma data_entry w d x : fd_data w d = Some x -> fd_entry w d <> None.
Proof. destruct x as [[p c] o]. intros (E & _)%fd_data_Some. congruence. Qed.

Lemma open_live p w d w' : open p O_RDONLY w = (d, w') ->
  ~ live w d /\ (0 <= d -> live w' d) /\ keeps_live w w'.
Proof.
  unfold open. cbn [O_RDONLY Z.land Z.eqb]. set (n := blen (fds w)).
  assert (0 <= n) as Hn by apply blen_nonneg. assert (Z.to_nat n = length (fds w)) as En
    by (unfold n, blen; apply Nat2Z.id).
  destruct (files w !! p); intros [= <- <-]; cbn; unfold fd_entry; cbn.
  - rewrite (proj2 (Z.leb_le _ _) Hn), En, lookup_ge_None_2 by lia. split; [by intros []|]. split.
    + intros _. by rewrite list_lookup_middle.
    + intros d. cbn. unfold fd_entry. cbn. destruct (0 <=? d); [|done].
      destruct (fds w !! Z.to_nat d) eqn:E; [|done]. by rewrite (lookup_app_l_Some _ _ _ _ E).
  - split; [by intros []|]. split; [lia|]. by intros d.
Qed.

Ltac by_fds := intros;
  repeat match goal with
  | H : context [match ?e with _ => _ end] |- _ => destruct e eqn:?
  | H : (_, _) = (_, _) |- _ => injection H; clear H; intros; subst
  end;
  try match goal with |- context [if 0 <=? ?k then with_dirps _ ?x else ?x] => destruct (0 <=? k) end;
  first [ by apply fds_live | by eapply set_fd_live, data_entry | done ].

#[export] Instance shared_laws : SharedLaws sim.
Proof.
  split; cbn; unfold close, read, lseek, fstat, stat, send, recv; try (by_fds; fail).
  - intros w d Hl. cbn in Hl. destruct (fd_entry w d) eqn:E; [by eapply fd_entry_nonneg|done].
  - apply open_live.
  - intros d w r w' E d' Hne. destruct (fd_entry w d) as [e|] eqn:Ed; injection E as _ <-; [|done].
    by rewrite fd_entry_set_ne by (done || by eapply fd_entry_nonneg).
  - intros k x w r w'. destruct (bool_decide _); intros [= _ <-]; (split; [by apply fds_live|]); [done|].
    intros k' Hne. cbn. by rewrite lookup_insert_ne.
  - intros k n w r d w'. destruct (n <? 0); intros [= _ _ <-]; (split; [by apply fds_live|]); split; [done..|].
    intros k' Hne. cbn. by rewrite lookup_insert_ne.
  - intros k w. split; [by apply fds_live|]. by split.
Qed.

#[export] Instance shared_viso_laws : SharedVisoLaws sim.
Proof.
  split.
  - intros p f w r w' [= _ <-]. apply (inert_refl (Q := still)).
  - intros w r w' [= _ <-]. apply (inert_refl (Q := still)).
  - intros n w r w' [= _ <-]. apply (inert_refl (Q := still)).
Qed.
End SimShared.
#[export] Existing Instances SimShared.shared SimShared.shared_laws SimShared.shared_viso_laws.

#[export] Instance ro_owner : Owner ro Sim.sim | 0 := ro_Owner (blen root) 0 st0.
#[export] Instance ro_owner_factory : OwnerFactory ro Sim.sim | 0.
Proof. exact (ro_OwnerFactory (blen root) 0 st0 this0 (VIsoFile_ctor viso0) (fun _ => I)). Defined.

(** Connection 0 reads a file; connection 1 opens it too, reads, and tries to delete it. *)
Definition client_on (sock : Z) : client_t ro := set_s sock client_fresh.
Definition sim_two : Sim.sim :=
  Sim.with_fds (Sim.fds sim0 ++ [Some (str "socket:3", 0); Some (str "socket:4", 0)])
    (Sim.with_input {[ 3 := concat (requests (str "/a.bin") reads0); 4 := session ]} sim0).
Definition two : list (client_t ro) := [client_on 3; client_on 4].
Definition schedule0 : list nat := [1; 0; 1; 0; 1; 0; 1]%nat.

