(* ===== verification/Upload.v ===== *)
(** * Whole connections: what a client stores

    A client that creates a file and writes to it: the file holds exactly the
    bytes that were acknowledged, command by command, and all of them when the
    disk has room. *)

From S2P Require Import Prelude Endian Os Stream CString AbsFile FileIso FileOpen Client RoFile.
From S2P Require Import Scenario Paths PathsSpec OpenCmd FileCmds Frame VIsoFrame Dispatch DispatchSpec Connect.

(** ** The requests and their answers *)

Definition write_cmd (n : Z) : bytes :=
  be_bytes 2 NETISO_CMD_WRITE_FILE ++ [0; 0] ++ be_bytes 4 n ++ replicate 8 0.
Definition write_request (d : bytes) : bytes := write_cmd (blen d) ++ d.

(** The answer: a number of bytes, or -1. *)
Definition ack (n : Z) : bytes := be_bytes 4 (u32 n).

(** What was acknowledged of the data sent: all commands up to the first failure. *)
Inductive acknowledged : list Z -> list bytes -> Prop :=
  | ack_none : acknowledged [] []
  | ack_failed d ds : acknowledged [-1] (d :: ds)
  | ack_some n d ns ds : 0 <= n <= blen d -> acknowledged ns ds -> acknowledged (n :: ns) (d :: ds).

(** The bytes acknowledged. *)
Fixpoint stored (ns : list Z) (ds : list bytes) : bytes :=
  match ns, ds with
  | n :: ns, d :: ds => take (Z.to_nat n) d ++ stored ns ds
  | _, _ => []
  end.

Lemma stored_all ds : stored (blen <$> ds) ds = concat ds.
Proof.
  induction ds as [|d ds IH]; [done|]. cbn. rewrite IH. unfold blen. by rewrite Nat2Z.id, firstn_all.
Qed.

Lemma write_cmd_size n : blen (write_cmd n) = netiso_cmd_size.
Proof. unfold write_cmd. by rewrite !blen_app, !blen_be_bytes. Qed.

Lemma write_cmd_opcode n : cmd_opcode (write_cmd n) = NETISO_CMD_WRITE_FILE.
Proof. exact (field_16 [] _ NETISO_CMD_WRITE_FILE 0 eq_refl ltac:(done)). Qed.

Lemma write_cmd_num n : 0 <= n < 2 ^ 32 -> cmd_num_bytes (write_cmd n) = n.
Proof.
  intros Hn. unfold write_cmd, cmd_num_bytes. rewrite app_assoc.
  apply field_32; [by rewrite blen_app, blen_be_bytes|done].
Qed.

Section upload.
Context {W R : Type} `{PosixLaws W, !StreamView W, !StreamLaws W, !WriteView W, !WriteLaws W, Aes,
  !AbstractFile R W, !RoFactory R}.
Variables (root_directory : bytes) (st_uninit : file_stat_t).
Variables (heap : mem) (this : File) (res : file_stat_t * Z) (fuel : nat).
Implicit Types (c : client_t R) (w : W) (f : File) (m : mem) (cmd content path p d : bytes).
Abbreviation loop := (client_loop false root_directory 0 st_uninit heap this res fuel).

(** The connection appends to the file [p], which holds [content]. *)
Record storing c w f p content m : Prop := {
  sr_file : wo_file c = Some f;
  sr_single : is_multipart f = 0;
  sr_writing : writing w (fd f) = Some p;
  sr_content : file_at w p = Regular content;
  sr_buf : buf c = Some m;
}.

Lemma storing_frame w' c w f p content m :
  keeps_fs any_fd w w' -> keeps_writing any_fd w w' -> storing c w f p content m -> storing c w' f p content m.
Proof. intros K [Kw _] [A B C D E]. split; [done|done|by apply Kw|by rewrite (kf_path _ _ _ K)|done]. Qed.

(** A result that is sent to a peer that is there. *)
Lemma send_result_ok ret d c w l : link w (s c) l ->
  exists w', send_result ret d c w = (ret, c, w') /\ link w' (s c) l /\ keeps_fs any_fd w w' /\
    keeps_writing any_fd w w' /\ sent w' (s c) = sent w (s c) ++ d.
Proof.
  intros [Hp Hf Hm]. unfold send_result. destruct (sys_send (s c) d w) as [r w'] eqn:E.
  pose proof (sl_send _ _ _ _ _ E) as [[F M] _]. pose proof (wl_send _ _ _ _ _ E) as Kw.
  apply law_send in E as (_ & K & _ & Hfull & Hlive). destruct (Hlive Hp) as [-> Hp'].
  rewrite Z.eqb_refl. exists w'. split; [done|]. split; [|auto].
  split; [done|by rewrite F|by apply M].
Qed.

Lemma write_file_ok d c w f p content m l :
  storing c w f p content m -> blen d <= BUFFER_SIZE -> link w (s c) (d ++ l) ->
  exists r n c' w' m', process_write_file_cmd (write_cmd (blen d)) c w = (r, c', w') /\
    s c' = s c /\ link w' (s c) l /\ sent w' (s c) = sent w (s c) ++ ack n /\
    (n = -1 /\ r = FAILED /\ file_at w' p = Regular content \/
     0 <= n <= blen d /\ r = SUCCEEDED /\ storing c' w' f p (content ++ take (Z.to_nat n) d) m') /\
    (forall k, room w (fd f) k -> blen d <= k -> n = blen d /\ room w' (fd f) (k - blen d)).
Proof.
  intros Hst Hd L. pose proof (blen_nonneg d) as Hd0.
  unfold process_write_file_cmd. rewrite (sr_file _ _ _ _ _ _ Hst), (sr_buf _ _ _ _ _ _ Hst).
  rewrite write_cmd_num by (unfold BUFFER_SIZE in Hd; lia). cbv zeta.
  destruct (Z.ltb_spec BUFFER_SIZE (blen d)); [lia|].
  assert (exists m1 w1, (if 0 <? blen d then
      let '(ret, d0, w0) := sys_recv (s c) (blen d) w in
      (negb ((ret <? 0) || negb (u32 ret =? blen d)), mstore m 0 d0, w0) else (true, m, w)) =
      (true, m1, w1) /\ mload m1 0 (blen d) = d /\ link w1 (s c) l /\ keeps_fs any_fd w w1 /\
      keeps_net w w1 /\ keeps_writing any_fd w w1) as (m1 & w1 & -> & Hm1 & L1 & K1 & N1 & Kw1).
  { destruct (Z.ltb_spec 0 (blen d)).
    - destruct (link_recv w (s c) d l (blen d) L eq_refl) as (w1 & E & L1 & K1 & N1 & _).
      rewrite E. exists (mstore m 0 d), w1. rewrite mload_mstore. pose proof (wl_recv _ _ _ _ _ _ E). unfold BUFFER_SIZE in Hd.
      rewrite u32_small, Z.eqb_refl by lia. by destruct (Z.ltb_spec (blen d) 0); [lia|].
    - destruct d; [|blia]. exists m, w. split; [done|]. split; [by rewrite mload_0|]. split; [exact L|].
      split; [apply keeps_fs_refl|]. split; [apply keeps_net_refl|apply keeps_writing_refl]. }
  cbn [negb]. rewrite Hm1. pose proof (storing_frame _ _ _ _ _ _ _ K1 Kw1 Hst) as [A B C D _].
  unfold File_write. rewrite B. cbn [Z.eqb]. unfold write_file.
  destruct (sys_write (fd f) d w1) as [n w2] eqn:Ew.
  pose proof (proj1 (sl_write _ _ _ _ _ Ew)) as St2.
  pose proof (wl_write _ _ _ _ _ _ _ Ew C D) as (Hn & Hw2 & N2 & _).
  pose proof (link_step _ _ _ _ St2 N2 L1) as L2.
  set (c1 := set_wo (Some f) (set_buf (Some m1) c)).
  assert (forall k, room w (fd f) k -> blen d <= k -> n = blen d /\ room w2 (fd f) (k - blen d)) as Hroom.
  { intros k Hk Hdk. apply (kw_room _ _ _ Kw1 _ _ I) in Hk.
    destruct (wl_write_ok (fd f) d w1 p k C Hk Hdk) as (w2' & Ew' & Hr). rewrite Ew in Ew'. by injection Ew' as -> ->. }
  unfold BUFFER_SIZE in Hd.
  destruct Hn as [[-> Hf2]|[Hn Hf2]].
  - destruct (send_result_ok FAILED (ack (-1)) c1 w2 l L2) as (w3 & E3 & L3 & K3 & Kw3 & Hs3).
    exists FAILED, (-1), c1, w3, m.
    split; [by rewrite s32_small, BE32_store by lia|]. split; [done|]. split; [exact L3|].
    split; [change (s c) with (s c1); by rewrite Hs3, (kn_sent _ _ N2), (kn_sent _ _ N1)|].
    split; [left; split; [done|]; split; [done|]; by rewrite (kf_path _ _ _ K3)|].
    intros k Hk Hdk. destruct (Hroom k Hk Hdk). lia.
  - destruct (send_result_ok SUCCEEDED (ack n) c1 w2 l L2) as (w3 & E3 & L3 & K3 & Kw3 & Hs3).
    exists SUCCEEDED, n, c1, w3, m1.
    split; [rewrite s32_small by lia; destruct (Z.leb_spec 0 n); [|lia]; unfold netiso_int32_result; by rewrite BE32_store|].
    split; [done|]. split; [exact L3|].
    split; [change (s c) with (s c1); by rewrite Hs3, (kn_sent _ _ N2), (kn_sent _ _ N1)|].
    split; [right; split; [done|]; split; [done|]; apply (storing_frame w3 c1 w2); [done|done|by split]|].
    intros k Hk Hdk. destruct (Hroom k Hk Hdk) as [? Hr]. split; [done|by apply (kw_room _ _ _ Kw3)].
Qed.

Lemma process_write cmd c w : cmd_opcode cmd = NETISO_CMD_WRITE_FILE ->
  process_cmd false root_directory 0 st_uninit heap this res fuel cmd c w =
  Some (process_write_file_cmd cmd c w).
Proof. intros E. unfold process_cmd. by rewrite E. Qed.

Lemma process_create cmd c w : cmd_opcode cmd = NETISO_CMD_CREATE_FILE ->
  process_cmd false root_directory 0 st_uninit heap this res fuel cmd c w =
  process_create_cmd root_directory (blen root_directory) 0 st_uninit this cmd c w.
Proof. intros E. unfold process_cmd. by rewrite E. Qed.

Lemma writes_loop ds : forall k c w f p content m,
  (length ds < k)%nat -> Forall (fun d => blen d <= BUFFER_SIZE) ds -> storing c w f p content m ->
  link w (s c) (concat (write_request <$> ds)) ->
  exists c' w' ns, loop k c w = Some (c', w') /\ acknowledged ns ds /\
    sent w' (s c) = sent w (s c) ++ concat (ack <$> ns) /\
    file_at w' p = Regular (content ++ stored ns ds) /\
    (forall n, room w (fd f) n -> blen (concat ds) <= n -> ns = blen <$> ds).
Proof.
  induction ds as [|d ds IH]; intros k c w f p content m Hk Hd Hst L;
    (destruct k as [|k]; [cbn in Hk; lia|]).
  { destruct (loop_closed false root_directory 0 st_uninit heap this res fuel k c w L) as (w' & E & K & N).
    exists c, w', []. split; [exact E|]. split; [constructor|]. rewrite (kn_sent _ _ N), (kf_path _ _ _ K), !app_nil_r.
    split; [done|]. split; [apply Hst|done]. }
  apply Forall_cons in Hd as [Hd Hds]. 
  change (concat (write_request <$> d :: ds)) with ((write_cmd (blen d) ++ d) ++ concat (write_request <$> ds)) in L.
  rewrite <- app_assoc in L.
  destruct (link_recv w (s c) _ _ netiso_cmd_size L (write_cmd_size _)) as (w1 & E & L1 & K1 & N1 & _).
  pose proof (wl_recv _ _ _ _ _ _ E) as Kw1.
  destruct (write_file_ok d c w1 f p content m _ (storing_frame _ _ _ _ _ _ _ K1 Kw1 Hst) Hd L1)
    as (r & n & c2 & w2 & m2 & E2 & Es & L2 & Hs2 & Hn & Hroom).
  cbn [client_loop]. rewrite E, Z.eqb_refl, (process_write _ _ _ (write_cmd_opcode _)), E2. cbn [negb].
  assert (forall k', room w (fd f) k' -> blen (concat (d :: ds)) <= k' ->
    n = blen d /\ room w2 (fd f) (k' - blen d)) as Hroom1.
  { intros k' Hk' Hle. cbn in Hle. rewrite blen_app in Hle. pose proof (blen_nonneg (concat ds)).
    apply Hroom; [by apply (kw_room _ _ _ Kw1)|lia]. }
  destruct Hn as [(-> & -> & Hf2)|(Hn & -> & Hst2)].
  - exists c2, w2, [-1]. split; [done|]. split; [constructor|].
    split; [change (concat (ack <$> [-1])) with (ack (-1) ++ []); by rewrite Hs2, (kn_sent _ _ N1), app_nil_r|].
    split; [by rewrite app_nil_r|].
    intros k' Hk' Hle. destruct (Hroom1 k' Hk' Hle). pose proof (blen_nonneg d). lia.
  - rewrite <- Es in L2. destruct (IH k c2 w2 f p (content ++ take (Z.to_nat n) d) m2) as (c3 & w3 & ns & E3 & Ha & Hs3 & Hf3 & Hall);
      [cbn in Hk; lia|done..|].
    exists c3, w3, (n :: ns). split; [exact E3|]. split; [by constructor|].
    split; [rewrite Es in Hs3; by rewrite Hs3, Hs2, (kn_sent _ _ N1), <- app_assoc|].
    split; [by rewrite Hf3, <- app_assoc|].
    intros k' Hk' Hle. destruct (Hroom1 k' Hk' Hle) as [-> Hr]. cbn in Hle |- *. rewrite blen_app in Hle.
    f_equal. apply (Hall _ Hr). lia.
Qed.

(** ** Creating *)

Lemma create_cmd_ok path p n c w m l :
  fresh c m -> client_path root_directory w path false VISO_NONE p ->
  plain_path (blen root_directory) p = true ->
  file_at w p = Missing \/ (exists content, file_at w p = Regular content) ->
  creatable w p n -> link w (s c) (path ++ l) ->
  exists c' w' f, process_create_cmd root_directory (blen root_directory) 0 st_uninit this
      (path_cmd NETISO_CMD_CREATE_FILE path) c w = Some (SUCCEEDED, c', w') /\
    s c' = s c /\ storing c' w' f p [] m /\ room w' (fd f) n /\ link w' (s c) l /\
    sent w' (s c) = sent w (s c) ++ ack 0.
Proof.
  intros [Hro Hwo Hm] Hcp Hplain Hf Hcr L. pose proof (cp_length _ _ _ _ _ _ Hcp) as Hlen.
  unfold process_create_cmd. rewrite path_cmd_length by lia. unfold recv_path.
  destruct (sys_malloc _ w) as [ok w1] eqn:Em. pose proof (sl_malloc _ _ _ _ Em) as [St1 Kc1].
  pose proof (law_malloc _ _ _ _ Em) as [K1 N1].
  pose proof (sl_malloc_ok (MAX_PATH_LEN + blen path + 1) w (lk_memory _ _ _ L)) as Hok. rewrite Em in Hok.
  cbn in Hok. subst ok. cbn [negb].
  destruct (link_recv w1 (s c) path l (blen path)) as (w2 & E2 & L2 & K2 & N2 & Kc2);
    [by eapply link_step|done|].
  rewrite E2, Z.eqb_refl, cstr_id by apply Hcp.
  assert (forall q, file_at w2 q = file_at w q) as Hsame
    by (intros q; by rewrite (kf_path _ _ _ K2), (kf_path _ _ _ K1)).
  destruct (translate_ok root_directory st_uninit w2 path false VISO_NONE p) as (w3 & E3 & St3 & K3 & N3 & Kc3);
    [by eapply client_path_frame|apply L2|].
  rewrite E3. unfold delete_wo. rewrite Hwo. cbv zeta. unfold stat_file.
  destruct (sys_stat p w3) as [[r st] w4] eqn:E4.
  pose proof (sl_stat _ _ _ _ _ E4) as [St4 Kc4]. pose proof (law_stat _ _ _ _ _ E4) as [K4 N4].
  assert (exists r' st', (if r <? 0 then (r, st_uninit, w4) else (0, st, w4)) = (r', st', w4) /\
    (0 <=? r') && is_dir st' = false) as (r' & st' & -> & ->).
  { rewrite <- Hsame, <- (kf_path _ _ _ K3) in Hf. destruct Hf as [Hf|[content Hf]].
    - destruct (law_stat_missing _ _ Hf) as (? & ? & E4'). rewrite E4 in E4'. injection E4' as -> -> ->. by do 2 eexists.
    - destruct (law_stat_ok _ _ _ Hf) as (? & ? & E4' & _ & Hd). rewrite E4 in E4'. injection E4' as -> -> ->.
      do 2 eexists. split; [done|]. by rewrite Hd. }
  destruct (wl_create_ok p n w4) as (d & w5 & E5 & Hd & Hf5 & Hw5 & Hr5);
    [by apply Kc4, Kc3, Kc2, Kc1|].
  destruct (open_plain_file (blen root_directory) st_uninit this p O_CREATE w4 d w5 Hplain E5 Hd)
    as (f & Eo & Hfd & Hmp & _). rewrite Eo. cbn [SUCCEEDED Z.ltb Z.compare].
  pose proof (proj1 (sl_create _ _ _ _ E5)) as St5. pose proof (proj1 (wl_create _ _ _ _ E5)) as N5.
  assert (link w5 (s c) l) as L5 by (do 3 (eapply link_step; [done|done|]); exact L2).
  set (c1 := set_wo (Some f) c).
  destruct (send_result_ok SUCCEEDED (ack 0) c1 w5 l L5) as (w6 & E6 & L6 & K6 & Kw6 & Hs6).
  exists c1, w6, f. unfold create_result, netiso_int32_result. rewrite BE32_store. change (be_bytes 4 (u32 SUCCEEDED)) with (ack 0).
  split; [by rewrite E6|]. split; [done|].
  rewrite <- Hfd in Hw5, Hr5.
  split; [apply (storing_frame w6 c1 w5); [done|done|by split]|]. split; [by apply (kw_room _ _ _ Kw6)|].
  split; [exact L6|]. change (s c) with (s c1).
  by rewrite Hs6, (kn_sent _ _ N5), (kn_sent _ _ N4), (kn_sent _ _ N3), (kn_sent _ _ N2), (kn_sent _ _ N1).
Qed.

(** C10. A whole connection that stores a file: a client that creates a file and
    writes to it, and stops, is acknowledged its commands one by one up to the first
    failure, and the file holds exactly the bytes acknowledged, in order; when the
    disk has room for them, that is everything that was sent.  The path is as in C8,
    but the file need not exist, memory does not run out, and the client writes at most 4 MB at a time. *)
Theorem connection_stores_file (Hs : InertFile (R := R) same_sent) (Hfiles : InertFile (R := R) same_files)
    k path p ds n c w m :
  fresh c m -> client_path root_directory w path false VISO_NONE p ->
  plain_path (blen root_directory) p = true ->
  file_at w p = Missing \/ (exists content, file_at w p = Regular content) -> creatable w p n ->
  Forall (fun d => blen d <= BUFFER_SIZE) ds ->
  link w (s c) (path_cmd NETISO_CMD_CREATE_FILE path ++ path ++ concat (write_request <$> ds)) ->
  (length ds + 2 <= k)%nat ->
  exists c' w' ns,
    client_thread false root_directory 0 st_uninit heap this res fuel k c w = Some (c', w') /\
    acknowledged ns ds /\ (blen (concat ds) <= n -> ns = blen <$> ds) /\
    sent w' (s c) = sent w (s c) ++ ack 0 ++ concat (ack <$> ns) /\
    file_at w' p = Regular (stored ns ds).
Proof.
  intros Hfr Hcp Hplain Hf Hcr Hd L Hk. destruct k as [|k]; [lia|].
  destruct (loop_step false root_directory 0 st_uninit heap this res fuel k _ _ c w L)
    as (w1 & L1 & K1 & N1 & Kc1 & E1); [apply path_cmd_size|].
  assert (client_path root_directory w1 path false VISO_NONE p) as Hcp1
    by (eapply client_path_frame; [apply (kf_path _ _ _ K1)|done]).
  rewrite <- (kf_path _ _ _ K1) in Hf.
  destruct (create_cmd_ok path p n c w1 m _ Hfr Hcp1 Hplain Hf (kn_creatable _ _ Kc1 _ _ Hcr) L1)
    as (c2 & w2 & f & E2 & Es & Hst & Hroom & L2 & Hs2).
  rewrite process_create, E2 in E1 by by apply path_cmd_opcode. rewrite <- Es in L2.
  destruct (writes_loop ds k c2 w2 f p [] m) as (c3 & w3 & ns & E3 & Ha & Hs3 & Hf3 & Hall); [lia|done..|].
  cbn [SUCCEEDED Z.eqb negb] in E1. rewrite E3 in E1. unfold client_thread. rewrite E1.
  destruct (finalize_client c3 w3) as [c4 w4] eqn:E4. exists (set_connected false c4), w4, ns.
  split; [done|]. split; [done|]. split; [by apply Hall|].
  pose proof (finalize_client_inert same_files (fun s w p => kf_path _ _ _ (proj1 (law_shutdown s w)) p) _ _ _ _ E4) as Kf.
  split; [|by rewrite (Kf p), Hf3].
  rewrite (finalize_sent Hs _ _ _ _ _ E4). rewrite Es in Hs3.
  by rewrite Hs3, Hs2, (kn_sent _ _ N1), <- !app_assoc.
Qed.
End upload.

(** ** Creating part 0 of an image *)

Section parts.
Context {W : Type} `{PosixLaws W, !StreamView W, !StreamLaws W, !WriteView W, !WriteLaws W, Aes}.
Variables (root_len : Z) (st_uninit : file_stat_t) (this : File).
Implicit Types (w : W) (f : File) (base : bytes).

(** A file that may be overwritten, with its contents. *)
Definition overwritable w (q content : bytes) : Prop := creatable w q 0 /\ file_at w q = Regular content.

Lemma overwritable_create p w r w' q content :
  sys_open p O_CREATE w = (r, w') -> overwritable w q content ->
  overwritable w' q content \/ overwritable w' q [].
Proof. intros E [Hc Hf]. destruct (wl_create_other _ _ _ _ _ _ E Hc Hf) as [? []]; [by left|by right]. Qed.

(** The loop over the parts empties every part that is there. *)
Lemma open_parts_create k : forall i base fps cnt w fps' cnt' w' n,
  open_parts k i base O_CREATE fps cnt w = (fps', cnt', w') -> n - i < Z.of_nat k ->
  (forall j, i <= j <= n -> exists content, overwritable w (part_name base j) content) ->
  (forall j, i <= j <= n -> file_at w' (part_name base j) = Regular []) /\
  (forall q, overwritable w q [] -> overwritable w' q []).
Proof.
  induction k as [|k IH]; intros i base fps cnt w fps' cnt' w' n; cbn [open_parts].
  { intros [= _ _ <-] Hn _. split; [intros j ?; lia|done]. }
  unfold open_file. destruct (sys_open _ O_CREATE w) as [d w1] eqn:E. change (sys_open (part_name base i) O_CREATE w = (d, w1)) in E.
  intros Eloop Hn Hparts.
  assert (forall q, overwritable w q [] -> overwritable w1 q []) as Hempty
    by (intros q Hq; by destruct (overwritable_create _ _ _ _ _ _ E Hq)).
  assert (forall j, i <= j <= n -> exists content, overwritable w1 (part_name base j) content) as Hparts1.
  { intros j Hj. destruct (Hparts j Hj) as [content Hc].
    destruct (overwritable_create _ _ _ _ _ _ E Hc); eauto. }
  destruct (Z.leb_spec i n) as [Hi|Hi].
  - destruct (Hparts i ltac:(lia)) as (content & Hc & Hf).
    destruct (wl_create_ok (part_name base i) 0 w Hc) as (d' & w1' & E' & Hd & Hf1 & _).
    rewrite E in E'. injection E' as <- <-. unfold FD_OK in Eloop. destruct (Z.leb_spec 0 d); [|lia].
    destruct (IH _ _ _ _ _ _ _ _ n Eloop) as [Hall Hkeep]; [lia|intros j Hj; apply Hparts1; lia|].
    split; [|by auto]. intros j Hj. destruct (decide (j = i)) as [->|]; [|apply Hall; lia].
    destruct (Hparts1 i) as (c1 & Hc1 & Hf1'); [lia|]. by apply Hkeep.
  - split; [intros j ?; lia|]. destruct (negb (FD_OK d)); [by injection Eloop as _ _ <-|].
    destruct (IH _ _ _ _ _ _ _ _ n Eloop) as [_ Hkeep]; [lia|intros j Hj; lia|by auto].
Qed.

(** Creating part 0 of an image in parts empties the other parts too: [open]
    looks for them with the flags of the creation, whatever part a client means to
    send.  ([O_CREAT] also makes the parts that were not there.) *)
Theorem create_empties_parts base n w :
  let path := base ++ str ".iso.0" in
  n < 64 -> creatable w path 0 -> memory w ->
  (forall j, 1 <= j <= n -> exists content, overwritable w (part_name (base ++ str ".iso") j) content) ->
  exists f w', File_open root_len 0 st_uninit (Some path) O_CREATE (File_ctor this) w = Some (SUCCEEDED, f, w') /\
    forall j, 1 <= j <= n -> file_at w' (part_name (base ++ str ".iso") j) = Regular [].
Proof.
  intros path Hn Hc Hm Hparts.
  destruct (wl_create_ok path 0 w Hc) as (d & w1 & E & Hd & _ & Hw & _).
  destruct (open_multi_file root_len st_uninit this base _ w d w1 E Hd) as (f & Eo & Hfd & Hfp & _).
  fold path in Eo. rewrite Eo. clear Eo. unfold open_multipart.
  pose proof (sl_malloc_ok (blen path + 2) w1 (st_memory _ _ (proj1 (sl_create _ _ _ _ E)) Hm)) as Hok.
  destruct (sys_malloc _ w1) as [ok w2] eqn:Em. cbn in Hok. subst ok. cbn [negb].
  pose proof (sl_malloc _ _ _ _ Em) as [_ Kc2]. pose proof (law_malloc _ _ _ _ Em) as [K2 _].
  destruct (wl_fstat d w2 path) as (st & w3 & Es); [by apply (kw_file _ _ _ (wl_malloc _ _ _ _ Em))|].
  pose proof (sl_fstat _ _ _ _ _ Es) as [_ Kc3]. pose proof (law_fstat _ _ _ _ _ Es) as [K3 _].
  unfold fstat_file. rewrite Hfd, Es. cbn [Z.ltb Z.compare]. unfold path at 1. rewrite multi_base.
  destruct (open_parts _ _ _ _ _ _ _) as [[fps' cnt'] w4] eqn:Ep.
  eexists _, w4. split; [done|]. apply (open_parts_create _ _ _ _ _ _ _ _ _ n Ep); [lia|].
  intros j Hj. destruct (Hparts j Hj) as [content Hq].
  assert (exists content', overwritable w1 (part_name (base ++ str ".iso") j) content') as (content' & Hcj & Hfj)
    by (destruct (overwritable_create _ _ _ _ _ _ E Hq); eauto).
  exists content'. split; [by apply Kc3, Kc2|]. by rewrite (kf_path _ _ _ K3), (kf_path _ _ _ K2).
Qed.
End parts.

(** ** Concrete connections *)

Definition path_b : bytes := str "/srv/b.bin".
Definition writes0 : list bytes := [[1; 2; 3]; []; [4]].
Definition sim_writes : Sim.sim :=
  Sim.with_input {[ 7 := path_cmd NETISO_CMD_CREATE_FILE (str "/b.bin") ++ str "/b.bin" ++
                         concat (write_request <$> writes0) ]} sim0.

Lemma connection_stores_file_witness :
  exists c' w', client_thread false root 0 st0 (zext []) this0 (st0, 0) 10 5 client_fresh sim_writes = Some (c', w') /\
    sent w' 7 = be_bytes 4 0 ++ be_bytes 4 3 ++ be_bytes 4 0 ++ be_bytes 4 1 /\
    file_at w' path_b = Regular [1; 2; 3; 4].
Proof.
  destruct (connection_stores_file root st0 (zext []) this0 (st0, 0) 10 _ _ 5 (str "/b.bin") path_b writes0 4
    client_fresh sim_writes (zext [])) as (c' & w' & ns & E & Ha & Hall & Hsent & Hf).
  - by split.
  - split; [apply good_root_srv|concrete|concrete|concrete|concrete|concrete|concrete|concrete|concrete|concrete|].
    intros j. apply no_ini_file.
  - by vm_compute.
  - left. by vm_compute.
  - split; [by vm_compute|lia].
  - repeat constructor; concrete.
  - split; [concrete|by vm_compute|done].
  - cbn. lia.
  - exists c', w'. split; [exact E|]. rewrite (Hall ltac:(by vm_compute)) in Hsent, Hf.
    split; [|by rewrite Hf]. change 7 with (s client_fresh). rewrite Hsent. by vm_compute.
Defined.

Lemma create_empties_parts_witness :
  file_at sim0 path_1 = Regular [4; 5] /\
  exists f w', File_open (blen root) 0 st0 (Some path_0) O_CREATE (File_ctor this0) sim0 = Some (SUCCEEDED, f, w') /\
    file_at w' path_1 = Regular [].
Proof.
  split; [by vm_compute|].
  destruct (create_empties_parts (blen root) st0 this0 (str "/srv/x") 1 sim0) as (f & w' & E & Hall);
    [lia|split; [by vm_compute|lia]|done| |].
  - intros j Hj. assert (j = 1) as -> by lia. exists [4; 5]. split; [split; [by vm_compute|lia]|by vm_compute].
  - exists f, w'. split; [exact E|]. exact (Hall 1 ltac:(lia)).
Defined.
