(* ===== verification/CreateIso.v ===== *)
(** * create_iso of main.cpp

    Writes a virtual image, or the decrypted parts of a disc image, to a file: the
    program's other mode, instead of serving.  [outfile] is the name that main()
    gives to the file, [make_image] what it does with the two. *)

From S2P Require Import Prelude Endian Os CString AbsFile FileIso Client Paths.

(** The name of the image, from the path of the directory.  [strrchr] of a path
    without a slash is NULL, and the name read from address 1. *)
Definition outfile (root_directory : bytes) : option bytes :=
  let? o := strrchr root_directory 47 in
  let out := drop (Z.to_nat (o + 1)) root_directory ++ str ".iso" in
  let rename ext out :=
    match strstr out ext with
    | Some pos => take (Z.to_nat pos) out ++ str ".new.iso"
    | None => out
    end in
  Some (rename (str ".ISO.") (rename (str ".iso.") out)).

Section create_iso.
Context {W R : Type} `{Posix W, Aes, AbstractFile R W, RoFactory R}.
(** [no_update]: the build with NO_UPDATE.  [base_ps3Mode]: the member of
    AbstractFile, which no constructor sets: the members of [File] and of
    [VIsoFile] have the same name and hide it. *)
Variables (no_update base_ps3Mode : bool) (st_uninit : file_stat_t) (heap : mem) (this : File).
Implicit Types (f : R) (m : mem) (w : W).

Definition buf_size : Z := 0x10000.

(** One read and one write; neither result is looked at. *)
Definition copy_block (n : Z) (fd_out : Z) f m w : R * mem * W :=
  let '(_, m, f, w) := af_read m 0 n f w in
  let '(_, w) := write_file fd_out (mload m 0 n) w in
  (f, m, w).

(** [for(; offset < iso_size; offset += buf_size)] *)
Fixpoint copy_blocks (k : nat) (offset iso_size fd_out : Z) f m w : option (R * mem * W) :=
  if offset <? iso_size then
    match k with
    | O => None
    | S k =>
        let '(f, m, w) := copy_block buf_size fd_out f m w in
        copy_blocks k (u64 (offset + buf_size)) iso_size fd_out f m w
    end
  else Some (f, m, w).

Definition copy_image (file_size fd_out : Z) f m w : option (R * mem * W) :=
  let rem_size := file_size mod buf_size in
  let iso_size := file_size - rem_size in
  let? (f, m, w) :=
    if buf_size <=? iso_size then
      copy_blocks (Z.to_nat (iso_size / buf_size)) 0 iso_size fd_out f m w
    else Some (f, m, w) in
  Some (if 0 <? rem_size then copy_block rem_size fd_out f m w else (f, m, w)).

(** The size to copy: without the last 256 MB, in the build that leaves the
    update out. *)
Definition size_to_copy (viso : viso_t) (st : file_stat_t) : Z :=
  let file_size := u64 (file_size st) in
  if no_update && base_ps3Mode && bool_decide (viso = VISO_NONE) && (268435456 <? file_size)
  then file_size - 268435456 else file_size.

(** The label [exit_function]. *)
Definition iso_exit (ret : Z) (c : client_t R) w : option (Z * W) :=
  let '(_, w) := finalize_client c w in Some (ret, w).

(** Without a path, [finalize_client] is called on a structure that was never
    initialised. *)
Definition create_iso (folder_path fileout : option bytes) (viso : viso_t) w : option (Z * W) :=
  match folder_path, fileout with
  | Some (x :: l), Some ((_ :: _) as fileout) =>
      let folder_path := x :: l in
      let '(_, c, w) := initialize_client heap w in
      match buf c with
      | None => iso_exit FAILED c w
      | Some m =>
          let '(ok, w) := sys_malloc (MAX_PATH_LEN + blen folder_path + 1) w in
          if negb ok then iso_exit FAILED c w
          else
            let filepath := folder_path in
            let c := set_wo (Some (File_ctor this)) c in
            let image := isSome (first_of 0 filepath (str ".iso") (str ".ISO")) in
            let f := if image then new_File else new_VIsoFile (bool_decide (viso = VISO_PS3)) in
            let viso := if image then VISO_NONE else viso in
            let? (r, f, w) := af_open (Some filepath) O_RDONLY f w in
            if r <? 0 then iso_exit FAILED (set_ro None c) (af_delete f w)
            else
              let '(r, st, f, w) := af_fstat st_uninit f w in
              if r <? 0 then iso_exit FAILED (set_ro None c) (af_delete f w)
              else
                let '(fd_out, w) := open_file (Some fileout) (Z.lor O_WRONLY (Z.lor O_CREAT O_TRUNC)) w in
                if negb (FD_OK fd_out) then iso_exit FAILED (set_ro (Some f) c) w
                else
                  let? (f, m, w) := copy_image (size_to_copy viso st) fd_out f m w in
                  let '(_, w) := close_file fd_out w in
                  iso_exit SUCCEEDED (set_buf (Some m) (set_ro (Some f) c)) w
      end
  | _, _ => None
  end.

(** main() with [make_iso] set; its exit status is a failure whatever happens. *)
Definition make_image (root_directory : bytes) (make_iso : viso_t) w : option (Z * W) :=
  if MAX_PATH_LEN - 10 <=? blen root_directory then Some (FAILED, w)
  else
    let? out := outfile root_directory in
    let? (_, w) := create_iso (Some root_directory) (Some out) make_iso w in
    Some (FAILED, w).

(** main() of the build with MAKEISO: an image of each argument that exists. *)
Fixpoint make_images (argv : list bytes) w : option (Z * W) :=
  match argv with
  | [] => Some (FAILED, w)
  | arg :: argv =>
      let '(r, _, w) := stat_file (Some arg) st_uninit w in
      if r <? 0 then make_images argv w
      else if MAX_PATH_LEN - 10 <=? blen arg then Some (FAILED, w)
      else
        let root_directory := normalize_path arg true in
        let? out := outfile root_directory in
        let sfo_path := root_directory ++ str "/PS3_GAME/PARAM.SFO" in
        let '(r, _, w) := stat_file (Some sfo_path) st_uninit w in
        let? (_, w) := create_iso (Some root_directory) (Some out) (if 0 <=? r then VISO_PS3 else VISO_ISO) w in
        make_images argv w
  end.
End create_iso.

(** The names: of a directory, of a path with dots in it, and without a slash. *)
Example outfile_ex : outfile <$> [str "/games/BLES1"; str "/games/a.iso.bak"; str "games"] =
  [Some (str "BLES1.iso"); Some (str "a.new.iso"); None].
Proof. vm_compute. reflexivity. Qed.
