(* ===== verification/CreateIsoSpec.v ===== *)
(** * The image that create_iso writes

    The file holds the bytes of the virtual image, all of them and in order:
    whatever block a read ends in, and although neither reads nor writes are
    checked, as long as the disk has room. *)

From S2P Require Import Prelude Endian Os Stream CString AbsFile FileIso VIso VIsoView VIsoTree VIsoBuild.
From S2P Require Import VIsoImage Client RoFile Scenario VIsoSpec VIsoServe VIsoProps Frame VIsoFrame.
From S2P Require Import DispatchSpec Connect CreateIso.

Section spec.
Context {W : Type} `{PosixLaws W, !StreamView W, !StreamLaws W, !WriteView W, !WriteLaws W, Aes,
  !VisoSys W, !VisoView W, !VisoSysLaws W}.
Variables (root_len make_iso : Z) (dirs_max : nat) (st_uninit : file_stat_t) (heap : mem).
Variables (this : File) (this_v : VIsoFile).
Implicit Types (v : VIsoFile) (w : W) (m : mem) (X out : bytes).

#[local] Instance viso : AbstractFile VIsoFile W := VIso_AbstractFile dirs_max st_uninit.
#[local] Instance ro_class : AbstractFile (File + VIsoFile) W := ro_AbstractFile root_len make_iso st_uninit.
#[local] Instance new : RoFactory (File + VIsoFile) := ro_factory this (VIsoFile_ctor this_v).

(** ** Reading beside a file that is being written *)

(** The descriptor [d] goes on appending to its file. *)
Definition appends (d : Z) (w w' : W) : Prop := forall p, writing w d = Some p ->
  writing w' d = Some p /\ forall n, room w d n -> room w' d n.

#[local] Instance appends_chain d : Chain (appends d).
Proof.
  split; [by intros w p|]. intros w1 w2 w3 A B p Hp. destruct (A p Hp) as [Hp2 R1].
  destruct (B p Hp2) as [Hp3 R2]. auto.
Qed.

Lemma appends_but d d' w w' : d' <> d -> keeps_writing (fun x => x <> d') w w' -> appends d w w'.
Proof. intros Hne [A B] p Hp. split; [by apply A|intros n; by apply B]. Qed.

Lemma read_data_appends d f s c w r c' w' : read_data f s c w = (r, c', w') -> quiet (appends d) w w'.
Proof.
  unfold read_data, open_file. destruct (sys_open (fl_path f) O_RDONLY w) as [d1 w1] eqn:E1.
  apply wl_open in E1 as [Hnew K1]. intros E p Hp. revert p Hp E. intros p Hp.
  assert (d1 <> d) as Hne by congruence.
  assert (appends d w w1) as A1 by (destruct K1 as [A B]; intros q Hq; split; [by apply A|intros n; by apply B]).
  destruct (negb (FD_OK d1)); [intros [= _ _ <-]; by apply A1|].
  unfold seek_file. destruct (sys_lseek d1 _ SEEK_SET w1) as [r2 w2] eqn:E2.
  apply wl_lseek, (appends_but d d1 _ _ Hne) in E2.
  unfold read_file. destruct (sys_read d1 _ w2) as [[r3 x] w3] eqn:E3. apply wl_read, (appends_but d d1 _ _ Hne) in E3.
  unfold close_file. destruct (sys_close d1 w3) as [r4 w4] eqn:E4. apply wl_close, (appends_but d d1 _ _ Hne) in E4.
  assert (appends d w w4) as A by (do 3 (eapply (inert_trans (Q := appends d)); [eassumption|]); exact E4).
  destruct (r3 <? 0); [intros [= _ _ <-]; by apply A|].
  destruct (negb _); intros [= _ _ <-]; by apply A.
Qed.

Lemma VIso_read_tree m o n v w r m' v' w' :
  VIso_read m o n v w = (r, m', v', w') -> all_files v' = all_files v.
Proof.
  unfold VIso_read. destruct (fsBuf v); [|by intros [= _ _ <- _]].
  destruct (_ || _); [by intros [= _ _ <- _]|]. destruct (vFilePtr v <? 0); [by intros [= _ _ <- _]|].
  intros [p ->]%read_image_tree. done.
Qed.

(** The contents of an image are those of its files. *)
Lemma VIso_view_files v w w' :
  (forall f, f ∈ all_files v -> file_at w' (fl_path f) = file_at w (fl_path f)) ->
  VIso_view v w' = VIso_view v w.
Proof.
  intros E. unfold VIso_view. destruct (fsBuf v) as [fs|]; [cbn|done].
  assert (mapM (file_contents w') (all_files v) = mapM (file_contents w) (all_files v)) as ->; [|done].
  induction (all_files v) as [|f l IH]; [done|].
  assert (file_contents w' f = file_contents w f) as Ef by (unfold file_contents; rewrite (E f); [done|by left]).
  cbn. rewrite Ef, IH; [done|]. intros g Hg. apply E. by right.
Qed.

(** ** The copy *)

(** [off] bytes of the image [X] are in the file [out]. *)
Record copied v w d out X (off : Z) : Prop := {
  cp_view : VIso_view v w = Some (X, off);
  cp_writing : writing w d = Some out;
  cp_room : room w d (blen X - off);
  cp_out : file_at w out = Regular (slice 0 off X);
  cp_apart f : f ∈ all_files v -> ~ same_file w out (fl_path f);
}.

Lemma copy_block_ok n d m v w out X off :
  copied v w d out X off -> 0 <= n < 2 ^ 63 -> off + n <= blen X ->
  exists v' m' w', copy_block n d (inr v : File + VIsoFile) m w = (inr v', m', w') /\
    copied v' w' d out X (off + n).
Proof.
  intros [Hv Hw Hr Hout Hap] Hn Hlen. pose proof (VIso_view_bounds v w X off Hv) as [_ Hoff].
  destruct (VIso_read_ok v w X off m 0 n Hv Hn) as (m1 & v1 & w1 & E & _ & Hm & _ & Hv1).
  assert (blen (slice off n X) = n) as En by (rewrite blen_slice; lia). rewrite En in *.
  pose proof (VIso_read_keeps (appends d) (read_data_appends d) _ _ _ _ _ _ _ _ _ E _ Hw) as [Hw1 Hr1].
  pose proof (VIso_read_keeps same_files (read_data_inert same_files) _ _ _ _ _ _ _ _ _ E out) as Ho1.
  pose proof (VIso_read_keeps keeps_names (read_data_inert keeps_names) _ _ _ _ _ _ _ _ _ E) as Hn1.
  pose proof (VIso_read_tree _ _ _ _ _ _ _ _ _ E) as Ht.
  unfold copy_block, write_file.
  change (af_read m 0 n (inr v : File + VIsoFile) w) with (on_viso (VIso_read m 0 n v w)).
  rewrite E. cbn [on_viso]. rewrite Hm.
  destruct (wl_write_ok d (slice off n X) w1 out (blen X - off) Hw1 (Hr1 _ Hr)) as (w2 & Ew & Hr2); [lia|].
  rewrite Ew. pose proof (proj2 (sl_write _ _ _ _ _ Ew)) as Hs2.
  destruct (wl_write _ _ _ _ _ _ _ Ew Hw1 (eq_trans Ho1 Hout)) as (Hf2 & Hw2 & _ & Hother).
  exists v1, m1, w2. split; [done|].
  assert (forall f, f ∈ all_files v1 -> ~ same_file w1 out (fl_path f)) as Hap1.
  { intros f Hf Hs. rewrite Ht in Hf. by apply (Hap f Hf), (kn_same_file _ _ Hn1). }
  split.
  - rewrite (VIso_view_files v1 w1 w2); [done|]. intros f Hf. apply Hother, Hap1, Hf.
  - done.
  - rewrite En in Hr2. by replace (blen X - (off + n)) with (blen X - off - n) by lia.
  - destruct Hf2 as [[? _]|[_ Hf2]]; [rewrite En in *; lia|]. rewrite Hf2, take_ge by (unfold blen; lia).
    by rewrite slice_split by lia.
  - intros f Hf Hs. by apply (Hap1 f Hf), Hs2.
Qed.

Lemma copy_blocks_ok k : forall i d m v w out X,
  copied v w d out X (i * buf_size) -> 0 <= i -> (i + Z.of_nat k) * buf_size <= blen X -> blen X < 2 ^ 63 ->
  exists v' m' w', copy_blocks k (i * buf_size) ((i + Z.of_nat k) * buf_size) d (inr v : File + VIsoFile) m w
      = Some (inr v', m', w') /\ copied v' w' d out X ((i + Z.of_nat k) * buf_size).
Proof.
  induction k as [|k IH]; intros i d m v w out X Hc Hi Hk HX; cbn [copy_blocks]; unfold buf_size in *.
  - rewrite Z.add_0_r. rewrite Z.ltb_irrefl. by exists v, m, w.
  - destruct (Z.ltb_spec (i * 0x10000) ((i + Z.of_nat (S k)) * 0x10000)); [|lia].
    destruct (copy_block_ok 0x10000 d m v w out X _ Hc) as (v1 & m1 & w1 & -> & Hc1); [lia..|].
    rewrite u64_small by lia.
    replace (i * 0x10000 + 0x10000) with ((i + 1) * 0x10000) in * by lia.
    replace (i + Z.of_nat (S k)) with (i + 1 + Z.of_nat k) in * by lia.
    apply IH; [done|lia..].
Qed.

Lemma copy_image_ok d m v w out X : copied v w d out X 0 -> blen X < 2 ^ 63 ->
  exists v' m' w', copy_image (blen X) d (inr v : File + VIsoFile) m w = Some (inr v', m', w') /\
    file_at w' out = Regular X.
Proof.
  intros Hc HX. unfold copy_image. pose proof (blen_nonneg X).
  pose proof (Z.div_mod (blen X) buf_size ltac:(done)) as Hdiv.
  pose proof (Z.mod_pos_bound (blen X) buf_size ltac:(done)) as Hmod.
  set (q := blen X / buf_size) in *. set (rem := blen X mod buf_size) in *.
  assert (0 <= q) as Hq by (apply Z.div_pos; done).
  replace (blen X - rem) with (q * buf_size) by lia.
  assert (exists v1 m1 w1, (if buf_size <=? q * buf_size
      then copy_blocks (Z.to_nat (q * buf_size / buf_size)) 0 (q * buf_size) d (inr v) m w
      else Some (inr v, m, w)) = Some (inr v1 : File + VIsoFile, m1, w1) /\ copied v1 w1 d out X (q * buf_size))
    as (v1 & m1 & w1 & -> & Hc1).
  { rewrite Z.div_mul by done. destruct (Z.leb_spec buf_size (q * buf_size)).
    - destruct (copy_blocks_ok (Z.to_nat q) 0 d m v w out X) as (v1 & m1 & w1 & E & Hc1); rewrite ?Z2Nat.id by lia;
        [done|done|lia|done|]. rewrite Z2Nat.id in E, Hc1 by lia. by exists v1, m1, w1.
    - assert (q = 0) as -> by (unfold buf_size in *; lia). by exists v, m, w. }
  destruct (Z.ltb_spec 0 rem).
  - destruct (copy_block_ok rem d m1 v1 w1 out X _ Hc1) as (v2 & m2 & w2 & -> & Hc2); [unfold buf_size in *; lia..|].
    exists v2, m2, w2. split; [done|]. rewrite (cp_out _ _ _ _ _ _ Hc2).
    replace (q * buf_size + rem) with (blen X) by lia. by rewrite slice_all.
  - exists v1, m1, w1. split; [done|]. rewrite (cp_out _ _ _ _ _ _ Hc1).
    replace (q * buf_size) with (blen X) by lia. by rewrite slice_all.
Qed.

Lemma iso_exit_files ret (c : client_t (File + VIsoFile)) w : exists w', iso_exit ret c w = Some (ret, w') /\
  forall q, file_at w' q = file_at w q.
Proof.
  unfold iso_exit. destruct (finalize_client c w) as [c' w'] eqn:E. exists w'. split; [done|].
  apply (finalize_client_inert same_files) in E; [exact E|]. intros s w0 q. apply (kf_path _ _ _ (proj1 (law_shutdown s w0))).
Qed.

(** C11. The file that [create_iso] makes of a directory holds exactly the bytes of
    the virtual image that is opened for it, the last partial block included,
    provided that the disk has room and that the image is not made of itself. *)
Theorem create_iso_writes_image folder out ps3 v X w w1 w2 w3 :
  folder <> [] -> out <> [] -> first_of 0 folder (str ".iso") (str ".ISO") = None ->
  sys_malloc BUFFER_SIZE w = (true, w1) ->
  sys_malloc (MAX_PATH_LEN + blen folder + 1) w1 = (true, w2) ->
  VIso_open dirs_max st_uninit (Some folder) O_RDONLY (VIsoFile_ctor this_v (bool_decide (ps3 = VISO_PS3))) w2
    = Some (SUCCEEDED, v, w3) ->
  VIso_view v w3 = Some (X, 0) -> creatable w3 out (blen X) ->
  (forall f, f ∈ all_files v -> ~ same_file w3 out (fl_path f)) ->
  exists w', create_iso (R := File + VIsoFile) false false st_uninit heap this (Some folder) (Some out) ps3 w
      = Some (SUCCEEDED, w') /\ file_at w' out = Regular X.
Proof.
  intros Hfo Hou Hext Em1 Em2 Eo Hv Hcr Hap. pose proof (VIso_view_bounds v w3 X 0 Hv) as [HX _].
  unfold create_iso, initialize_client. destruct folder as [|x folder]; [done|]. destruct out as [|y out]; [done|].
  cbv zeta. rewrite Em1. cbn [negb buf]. rewrite Em2. cbn [negb].
  rewrite Hext. cbn [isSome new_VIsoFile new ro_factory]. set (c := set_wo _ _).
  match goal with |- context [af_open ?p O_RDONLY ?f w2] =>
    change (af_open p O_RDONLY f w2) with (on_viso (A := Z) <$> VIso_open dirs_max st_uninit p O_RDONLY
      (VIsoFile_ctor this_v (bool_decide (ps3 = VISO_PS3))) w2) end.
  rewrite Eo. cbn [fmap option_fmap option_map on_viso SUCCEEDED Z.ltb Z.compare].
  destruct (viso_fstat_view v w3 X 0 st_uninit Hv) as (st & Est & Hsize).
  change (af_fstat st_uninit (inr v : File + VIsoFile) w3) with (on_viso (VIso_fstat st_uninit v w3)).
  rewrite Est. cbn [on_viso Z.ltb Z.compare open_file].
  destruct (wl_create_ok (y :: out) (blen X) w3 Hcr) as (d & w4 & E4 & Hd & Hf4 & Hw4 & Hr4).
  rewrite E4. unfold FD_OK. destruct (Z.leb_spec 0 d); [cbn [negb]|lia].
  assert (size_to_copy false false ps3 st = blen X) as ->.
  { unfold size_to_copy. cbn. rewrite Hsize. apply u64_small. pose proof (blen_nonneg X). lia. }
  destruct (copy_image_ok d heap v w4 (y :: out) X) as (v5 & m5 & w5 & -> & Hf5); [|lia|].
  { split; [|done|by rewrite Z.sub_0_r|by rewrite slice_0|].
    - rewrite <- Hv. apply VIso_view_files. intros f Hf. apply (wl_create _ _ _ _ E4), Hap, Hf.
    - intros f Hf Hs. by apply (Hap f Hf), (proj2 (sl_create _ _ _ _ E4)). }
  unfold close_file. destruct (sys_close d w5) as [r6 w6] eqn:E6. pose proof (law_close _ _ _ _ E6) as (K6 & _).
  destruct (iso_exit_files SUCCEEDED (set_buf (Some m5) (set_ro (Some (inr v5)) c)) w6) as (w7 & E7 & Hf7).
  exists w7. split; [exact E7|]. by rewrite Hf7, (kf_path _ _ _ K6).
Qed.
End spec.

Lemma create_iso_writes_image_witness :
  exists v X w', viso_run = Some (SUCCEEDED, v, viso_sim) /\ VIso_view v viso_sim = Some (X, 0) /\
    create_iso (H1 := ro_AbstractFile (blen root) 1 st0) (H2 := ro_factory this0 (VIsoFile_ctor viso0))
      false false st0 (zext []) this0 (Some (str "/g")) (Some (str "g.iso")) VISO_ISO viso_sim
      = Some (SUCCEEDED, w') /\ file_at w' (str "g.iso") = Regular X.
Proof.
  destruct viso_run_ok as (v & E & Hfit & Hb).
  destruct (open_served (str "/g") v viso_sim (viso_open_spec _ _ _ _ _ _ _ _ E) Hfit (viso_good v Hb)
    (viso_servable v Hb)) as [X HX]. pose proof (sd_view _ _ _ HX) as Hv.
  exists v, X. assert (creatable viso_sim (str "g.iso") (blen X)) as Hcr.
  { split; [by vm_compute|]. pose proof (VIso_view_bounds v viso_sim X 0 Hv) as [? _].
    pose proof (blen_nonneg X). lia. }
  assert (forall f, f ∈ all_files v -> ~ same_file viso_sim (str "g.iso") (fl_path f)) as Hap.
  { intros f Hf. unfold all_files in Hf. rewrite (bare_files viso_dirs) in Hf by (by rewrite Hb).
    apply list_elem_of_In in Hf as [<-|[<-|[]]]; vm_compute; congruence. }
  destruct (create_iso_writes_image (blen root) 1 dirs_max0 st0 (zext []) this0 viso0 (str "/g") (str "g.iso")
    VISO_ISO v X viso_sim viso_sim viso_sim viso_sim ltac:(done) ltac:(done) eq_refl eq_refl eq_refl E Hv Hcr Hap)
    as (w' & E' & Hf).
  exists w'. split; [exact E|]. split; [exact Hv|]. split; [exact E'|exact Hf].
Defined.
