(* ===== verification/Slots.v ===== *)
(** * The connection slots: the accept loop of main() and the client threads

    The accept loop and up to one thread per slot run concurrently and share
    [clients[]].  The model is a labelled transition system [exec]: a label is
    the next atomic action of the accept loop or of one thread (a critical
    section under [clients_mutex] is one action, and so is every call between
    them), and [exec] is its effect, where the program allows it.  What a thread does
    in its command loop does not concern the slots and is no action here: that
    it may be blocked in there, and what else waits for what, is in Blocking.v,
    whose steps refine these.  The slot keeps
    the fields the two sides share; the rest of client_t belongs to the thread.

    The invariant: every open connection has exactly one holder, which is the one
    to close it; and a slot is initialised only when no thread uses it. *)

From S2P Require Import Prelude Endian Client.

(** ** State *)

Record slot := mk_slot {
  sl_connected : bool;
  sl_s : Z;
  sl_ip : Z;                 (* addr.sin_addr.s_addr *)
  sl_thread : nat;
  sl_has_thread : bool;
}.

(** Where the accept loop is, with its locals. *)
Inductive apc :=
  | Accepting
  | Rejecting (cs : Z)                                             (* closesocket(cs); continue *)
  | Reserved (i : nat) (cs ip old_s : Z) (join_old : option nat)   (* the lock was released *)
  | Joining (i : nat) (cs ip : Z) (join_old : option nat)          (* old_s is closed *)
  | Initializing (i : nat) (cs ip : Z)                             (* before initialize_client *)
  | Publishing (i : nat) (cs ip : Z)                               (* before clients[i].s = cs *)
  | Starting (i : nat)                                             (* before create_start_thread *)
  | Started (i t : nat)                                            (* before has_thread = 1 *)
  | Unwinding (i : nat)                                            (* no thread: finalize_client *)
  | UnwindClosing (i : nat) (sock : Z)
  | UnwindReleasing (i : nat)
  | Exited.

(** Where a client thread is: in its command loop (with the commands it serves,
    see Blocking.v), then in finalize_client with
    the socket it took, then before [connected = 0]. *)
Inductive tpc := Running | Closing (sock : Z) | Releasing | Done.

#[export] Instance tpc_eq_dec : EqDecision tpc.
Proof. solve_decision. Defined.

Record state := mk_state {
  slots : list slot;
  accept_pc : apc;
  threads : list (nat * tpc);     (* by thread id: the slot and the position *)
  sockets : gset Z;               (* the open connections *)
}.

Definition zero_slot : slot := mk_slot false 0 0 0 false.

(** [memset(clients, 0, sizeof(clients))] *)
Definition initial : state := mk_state (replicate 5 zero_slot) Accepting [] ∅.

(** ** Choosing a slot *)

Inductive pick := Reconnection (i : nat) | Free (i : nat) | NotInWhitelist | Full.

Definition pick_slot (whitelist_start whitelist_end ip : Z) (l : list slot) : pick :=
  match list_find (fun c => sl_connected c = true /\ sl_ip c = ip) l with
  | Some (i, _) => Reconnection i
  | None =>
      if negb (whitelist_start =? 0) &&
         ((BE32 ip <? whitelist_start) || (whitelist_end <? BE32 ip)) then NotInWhitelist
      else
        match list_find (fun c => sl_connected c = false) l with
        | Some (i, _) => Free i
        | None => Full
        end
  end.

(** ** Actions *)

Inductive label :=
  | LAccept (cs ip : Z)        (* accept() returns cs; the slot is picked and reserved *)
  | LAcceptError
  | LReject
  | LCloseOld
  | LJoin
  | LInit (ok : bool)          (* initialize_client *)
  | LPublish
  | LStart (ok : bool)         (* create_start_thread *)
  | LMark                      (* has_thread = 1 *)
  | LUnwind
  | LThread (t : nat).         (* the next action of thread t, from the end of its loop on *)

Definition set_slots l (σ : state) := mk_state l (accept_pc σ) (threads σ) (sockets σ).
Definition set_pc pc (σ : state) := mk_state (slots σ) pc (threads σ) (sockets σ).
Definition set_threads l (σ : state) := mk_state (slots σ) (accept_pc σ) l (sockets σ).
Definition set_sockets x (σ : state) := mk_state (slots σ) (accept_pc σ) (threads σ) x.
Definition upd_slot (i : nat) (f : slot -> slot) (σ : state) := set_slots (alter f i (slots σ)) σ.

Definition with_s x c := mk_slot (sl_connected c) x (sl_ip c) (sl_thread c) (sl_has_thread c).
Definition with_connected x c := mk_slot x (sl_s c) (sl_ip c) (sl_thread c) (sl_has_thread c).
Definition with_addr sock ip c := mk_slot (sl_connected c) sock ip (sl_thread c) (sl_has_thread c).
Definition with_thread t c := mk_slot (sl_connected c) (sl_s c) (sl_ip c) t (sl_has_thread c).
Definition with_has_thread x c := mk_slot (sl_connected c) (sl_s c) (sl_ip c) (sl_thread c) x.

(** [connected = 1; ... has_thread = 0], and [s = NO_SOCKET] on a reconnection *)
Definition reserve (reconnection : bool) c :=
  mk_slot true (if reconnection then NO_SOCKET else sl_s c) (sl_ip c) (sl_thread c) false.

(** [shutdown] and [closesocket] of a socket, if there is one. *)
Definition close_socket (sock : Z) (σ : state) : state :=
  if SOCKET_OK sock then set_sockets (sockets σ ∖ {[sock]}) σ else σ.

(** The initialised slot; without memory for the buffer only the first lines ran. *)
Definition initialized (ok : bool) : slot := mk_slot ok NO_SOCKET 0 0 false.

Section exec.
Variables whitelist_start whitelist_end : Z.

Definition take_slot (i : nat) (reconnection : bool) (cs ip : Z) (σ : state) : option state :=
  c ← slots σ !! i;
  let old_s := if reconnection then sl_s c else NO_SOCKET in
  let join_old := if sl_has_thread c then Some (sl_thread c) else None in
  Some (set_pc (Reserved i cs ip old_s join_old) (upd_slot i (reserve reconnection) σ)).

Definition exec_accept (cs ip : Z) (σ : state) : option state :=
  if decide (0 <= cs /\ cs ∉ sockets σ) then
    let σ' := set_sockets (sockets σ ∪ {[cs]}) σ in
    match pick_slot whitelist_start whitelist_end ip (slots σ) with
    | Reconnection i => take_slot i true cs ip σ'
    | Free i => take_slot i false cs ip σ'
    | NotInWhitelist | Full => Some (set_pc (Rejecting cs) σ')
    end
  else None.

(** The loop of thread [t] has ended, or what follows it: [Running] to [Closing]
    is the critical section of finalize_client. *)
Definition exec_thread (t : nat) (σ : state) : option state :=
  '(i, pc) ← threads σ !! t;
  let goto pc σ := set_threads (<[t := (i, pc)]> (threads σ)) σ in
  match pc with
  | Running => c ← slots σ !! i; Some (goto (Closing (sl_s c)) (upd_slot i (with_s NO_SOCKET) σ))
  | Closing sock => Some (goto Releasing (close_socket sock σ))
  | Releasing => Some (goto Done (upd_slot i (with_connected false) σ))
  | Done => None
  end.

Definition exec (l : label) (σ : state) : option state :=
  match l, accept_pc σ with
  | LAccept cs ip, Accepting => exec_accept cs ip σ
  | LAcceptError, Accepting => Some (set_pc Exited σ)
  | LReject, Rejecting cs => Some (set_pc Accepting (close_socket cs σ))
  | LCloseOld, Reserved i cs ip old_s join_old =>
      Some (set_pc (Joining i cs ip join_old) (close_socket old_s σ))
  | LJoin, Joining i cs ip None => Some (set_pc (Initializing i cs ip) σ)
  | LJoin, Joining i cs ip (Some t) =>
      match threads σ !! t with
      | Some (_, Done) => Some (set_pc (Initializing i cs ip) σ)
      | _ => None                                 (* join_thread blocks *)
      end
  | LInit true, Initializing i cs ip =>
      Some (set_pc (Publishing i cs ip) (upd_slot i (fun _ => initialized true) σ))
  | LInit false, Initializing i cs ip =>
      Some (set_pc (Rejecting cs) (upd_slot i (fun _ => initialized false) σ))
  | LPublish, Publishing i cs ip =>
      Some (set_pc (Starting i) (upd_slot i (with_addr cs ip) σ))
  | LStart true, Starting i =>
      let t := length (threads σ) in
      Some (set_pc (Started i t)
             (set_threads (threads σ ++ [(i, Running)]) (upd_slot i (with_thread t) σ)))
  | LStart false, Starting i => Some (set_pc (Unwinding i) σ)
  | LMark, Started i t => Some (set_pc Accepting (upd_slot i (with_has_thread true) σ))
  | LUnwind, Unwinding i =>
      c ← slots σ !! i;
      Some (set_pc (UnwindClosing i (sl_s c)) (upd_slot i (with_s NO_SOCKET) σ))
  | LUnwind, UnwindClosing i sock => Some (set_pc (UnwindReleasing i) (close_socket sock σ))
  | LUnwind, UnwindReleasing i => Some (set_pc Accepting (upd_slot i (with_connected false) σ))
  | LThread t, _ => exec_thread t σ
  | _, _ => None
  end.

Definition step (σ σ' : state) : Prop := exists l, exec l σ = Some σ'.
Definition reachable : state -> Prop := rtc step initial.

Fixpoint run (ls : list label) (σ : state) : option state :=
  match ls with
  | [] => Some σ
  | l :: ls => σ' ← exec l σ; run ls σ'
  end.
End exec.

(** ** Holders *)

(** The thread that a slot's user would have to wait for. *)
Definition owner (σ : state) (i : nat) : option nat :=
  let stored := c ← slots σ !! i; if sl_has_thread c then Some (sl_thread c) else None in
  match accept_pc σ with
  | Reserved i' _ _ _ j | Joining i' _ _ j => if decide (i = i') then j else stored
  | Started i' t => if decide (i = i') then Some t else stored
  | _ => stored
  end.

(** Who may close a socket. *)
Inductive holder := HSlot (i : nat) | HNew | HOld | HThread (t : nat).

#[export] Instance holder_eq_dec : EqDecision holder.
Proof. solve_decision. Defined.

(** The accept loop is between reserving the slot and initialising it. *)
Definition reserving (σ : state) (i : nat) : bool :=
  match accept_pc σ with
  | Reserved i' _ _ _ _ | Joining i' _ _ _ | Initializing i' _ _ => bool_decide (i = i')
  | _ => false
  end.

Definition sock_of (sock : Z) : option Z := if SOCKET_OK sock then Some sock else None.

Definition held (σ : state) (h : holder) : option Z :=
  match h with
  | HSlot i => c ← slots σ !! i;
               if sl_connected c && negb (reserving σ i) then sock_of (sl_s c) else None
  | HNew =>
      match accept_pc σ with
      | Rejecting cs | Reserved _ cs _ _ _ | Joining _ cs _ _ | Initializing _ cs _
      | Publishing _ cs _ => sock_of cs
      | _ => None
      end
  | HOld =>
      match accept_pc σ with
      | Reserved _ _ _ old_s _ => sock_of old_s
      | UnwindClosing _ sock => sock_of sock
      | _ => None
      end
  | HThread t => '(_, pc) ← threads σ !! t;
                 match pc with Closing sock => sock_of sock | _ => None end
  end.
