(* ===== verification/SlotsSpec.v ===== *)
(** * The slots are never shared

    The invariant of Slots.v and what follows from it. *)

From S2P Require Import Prelude Endian Client Slots.

(** ** Sockets and their holders *)

Record holders_ok (H : holder -> option Z) (S : gset Z) : Prop := {
  ho_inj h h' x : H h = Some x -> H h' = Some x -> h = h';
  ho_open h x : H h = Some x -> x ∈ S;
  ho_held x : x ∈ S -> exists h, H h = Some x;
}.

Section holders.
Implicit Types (H : holder -> option Z) (S : gset Z) (h : holder) (x : Z).

Lemma holders_same H H' S : (forall k, H' k = H k) -> holders_ok H S -> holders_ok H' S.
Proof.
  intros E [A B C]. split.
  - intros h h' x. rewrite !E. apply A.
  - intros h x. rewrite E. apply B.
  - intros x (h & Hh)%C. exists h. by rewrite E.
Qed.

Lemma holders_move H H' S h h' :
  h <> h' -> H h' = None ->
  (forall k, H' k = if decide (k = h') then H h else if decide (k = h) then None else H k) ->
  holders_ok H S -> holders_ok H' S.
Proof.
  intros Hne Hh' E [A B C]. split.
  - intros k k' x. rewrite !E. repeat case_decide; subst; try done; intros E1 E2.
    + by destruct (A _ _ _ E1 E2).
    + by destruct (A _ _ _ E1 E2).
    + by eapply A.
  - intros k x. rewrite E. repeat case_decide; try done; apply B.
  - intros x (k & Hk)%C. destruct (decide (k = h)) as [->|].
    + exists h'. rewrite E. by case_decide.
    + exists k. rewrite E. by repeat case_decide; subst; simplify_eq.
Qed.

Lemma holders_drop H H' S h x :
  H h = Some x ->
  (forall k, H' k = if decide (k = h) then None else H k) ->
  holders_ok H S -> holders_ok H' (S ∖ {[x]}).
Proof.
  intros Hh E [A B C]. split.
  - intros k k' y. rewrite !E. repeat case_decide; try done. apply A.
  - intros k y. rewrite E. case_decide; [done|]. intros Hk.
    apply elem_of_difference. split; [by eapply B|].
    intros ->%elem_of_singleton. by apply (A _ _ _ Hh) in Hk as <-.
  - intros y [(k & Hk)%C Hy]%elem_of_difference. exists k. rewrite E.
    case_decide; [subst|done]. exfalso. apply Hy, elem_of_singleton. congruence.
Qed.

Lemma holders_add H H' S h x :
  H h = None -> x ∉ S ->
  (forall k, H' k = if decide (k = h) then Some x else H k) ->
  holders_ok H S -> holders_ok H' (S ∪ {[x]}).
Proof.
  intros Hh Hx E [A B C]. split.
  - intros k k' y. rewrite !E. repeat case_decide; subst; try done.
    + intros [= <-] Hk. by apply B in Hk.
    + intros Hk [= <-]. by apply B in Hk.
    + apply A.
  - intros k y. rewrite E. case_decide; [intros [= <-]; set_solver|].
    intros Hk%B. set_solver.
  - intros y [(k & Hk)%C| ->%elem_of_singleton]%elem_of_union.
    + exists k. rewrite E. case_decide; [subst; congruence|done].
    + exists h. rewrite E. by case_decide.
Qed.
End holders.

(** Closing the socket a holder has, if it has one. *)
Lemma holders_close (H H' : holder -> option Z) (σ : state) h sock :
  H h = sock_of sock ->
  (forall k, H' k = if decide (k = h) then None else H k) ->
  holders_ok H (sockets σ) -> holders_ok H' (sockets (close_socket sock σ)).
Proof.
  unfold sock_of, close_socket. intros Hh E Hok. destruct (SOCKET_OK sock); cbn.
  - by eapply holders_drop.
  - eapply holders_same; [|done]. intros k. rewrite E. case_decide; [by subst|done].
Qed.

(** ** The invariant *)

(** What the slot the accept loop works on looks like. *)
Definition pc_ok (σ : state) : Prop :=
  match accept_pc σ with
  | Reserved i _ _ _ _ | Joining i _ _ _ | Initializing i _ _ =>
      exists c, slots σ !! i = Some c /\ sl_has_thread c = false
  | Publishing i _ _ => slots σ !! i = Some (initialized true)
  | Starting i | Unwinding i =>
      exists c, slots σ !! i = Some c /\ sl_has_thread c = false /\ sl_connected c = true
  | Started i t => exists c, slots σ !! i = Some c /\ sl_has_thread c = false /\ sl_thread c = t
  | UnwindClosing i _ | UnwindReleasing i =>
      exists c, slots σ !! i = Some c /\ sl_has_thread c = false /\ sl_s c = NO_SOCKET
  | _ => True
  end.

(** A live thread is the one its slot's owner waits for, and the slot is marked
    connected unless it is reserved again. *)
Definition thread_ok (σ : state) (t i : nat) (pc : tpc) : Prop :=
  owner σ i = Some t /\ exists c, slots σ !! i = Some c /\
    (reserving σ i = false -> sl_connected c = true) /\
    (reserving σ i = true \/ pc <> Running -> sl_s c = NO_SOCKET).

Record Inv (σ : state) : Prop := {
  inv_length : length (slots σ) = 5%nat;
  inv_holders : holders_ok (held σ) (sockets σ);
  inv_pc : pc_ok σ;
  inv_thread t i pc : threads σ !! t = Some (i, pc) -> pc <> Done -> thread_ok σ t i pc;
  inv_owner i t : owner σ i = Some t -> exists pc, threads σ !! t = Some (i, pc);
}.

Lemma initial_slot i c : slots initial !! i = Some c -> c = zero_slot.
Proof. intros E. by apply lookup_replicate in E as [-> _]. Qed.

Lemma inv_initial : Inv initial.
Proof.
  assert (forall h, held initial h = None) as Hnone.
  { intros [i| | |t]; try done. unfold held.
    destruct (slots initial !! i) as [c|] eqn:E; [|done]. by apply initial_slot in E as ->. }
  split; try done.
  - split; [intros h h' x|intros h x|set_solver]; by rewrite Hnone.
  - intros i t. unfold owner. cbn [accept_pc initial].
    destruct (slots initial !! i) as [c|] eqn:E; [|done]. by apply initial_slot in E as ->.
Qed.

(** ** Preservation *)

Lemma upd_lookup i f (l : list slot) (j : nat) :
  alter f i l !! j = (if decide (i = j) then f <$> l !! j else l !! j).
Proof. case_decide; [subst; apply list_lookup_alter_eq|by apply list_lookup_alter_ne]. Qed.

Lemma sock_of_none : sock_of NO_SOCKET = None.
Proof. done. Qed.

(** A slot the accept loop works on has no owner. *)
Lemma owner_busy σ i :
  pc_ok σ ->
  match accept_pc σ with
  | Initializing i' _ _ | Publishing i' _ _ | Starting i' | Unwinding i'
  | UnwindClosing i' _ | UnwindReleasing i' => i = i'
  | _ => False
  end -> owner σ i = None.
Proof.
  unfold pc_ok, owner. destruct (accept_pc σ); intros Hpc; try done; intros ->.
  2: by rewrite Hpc.
  all: decompose [ex and] Hpc; match goal with E : _ !! _ = Some ?c |- _ => rewrite E; cbn end.
  all: match goal with E : sl_has_thread _ = false |- _ => by rewrite E end.
Qed.

(** A thread's own step: only its position and its slot change, and the slot
    keeps what the accept loop wrote. *)
Lemma inv_thread_step σ t i pc pc' f S :
  Inv σ -> threads σ !! t = Some (i, pc) -> pc <> Done ->
  (forall c, sl_has_thread (f c) = sl_has_thread c /\ sl_thread (f c) = sl_thread c /\
             (sl_s c = NO_SOCKET -> sl_s (f c) = NO_SOCKET)) ->
  let σ' := mk_state (alter f i (slots σ)) (accept_pc σ) (<[t := (i, pc')]> (threads σ)) S in
  holders_ok (held σ') S ->
  (forall c, slots σ !! i = Some c -> pc' <> Done ->
     (reserving σ i = false -> sl_connected (f c) = true) /\
     (reserving σ i = true \/ pc' <> Running -> sl_s (f c) = NO_SOCKET)) ->
  Inv σ'.
Proof.
  intros [Hlen Hho Hpc Hth Hown] Ht Hlive Hf σ' Hho' Hpc'.
  destruct (Hth _ _ _ Ht Hlive) as (Ho & c & Hc & Hok).
  assert (forall j, owner σ' j = owner σ j) as Howner.
  { intros j. unfold owner. cbn [accept_pc slots σ'].
    replace (c ← alter f i (slots σ) !! j; if sl_has_thread c then Some (sl_thread c) else None)
      with (c ← slots σ !! j; if sl_has_thread c then Some (sl_thread c) else None); [done|].
    rewrite upd_lookup. case_decide; [subst|done]. destruct (slots σ !! j) as [cj|]; [|done]. cbn.
    by destruct (Hf cj) as (-> & -> & _). }
  split; try done.
  - cbn [slots σ']. by rewrite length_alter.
  - assert (forall P : slot -> Prop, (forall c, P c -> P (f c)) -> forall j,
      (exists c, slots σ !! j = Some c /\ P c) -> exists c, slots σ' !! j = Some c /\ P c) as Hslot.
    { intros P HP j (cj & Hcj & Hp). cbn [slots σ']. rewrite upd_lookup, Hcj.
      case_decide; [exists (f cj)|exists cj]; auto. }
    assert (forall j, j <> i -> slots σ' !! j = slots σ !! j) as Hne.
    { intros j Hj. cbn [slots σ']. rewrite upd_lookup. by case_decide. }
    pose proof (owner_busy σ i Hpc) as Hbusy. rewrite Ho in Hbusy.
    unfold pc_ok in *. cbn [accept_pc σ']. destruct (accept_pc σ) as [| |i'|i'|i'|i'|i'|i'|i'|i'|i'|]; try done.
    all: try (apply (Hslot (fun c => sl_has_thread c = false));
              [intros c0; by destruct (Hf c0) as (-> & _)|done]).
    all: try (eapply (Hslot (fun c => sl_has_thread c = false /\ sl_thread c = _));
              [intros c0; by destruct (Hf c0) as (-> & -> & _)|done]).
    all: rewrite Hne; [done|]; intros ->; by specialize (Hbusy eq_refl).
  - intros t1 i1 pc1. cbn [threads σ']. unfold thread_ok.
    change (reserving σ' i1) with (reserving σ i1). rewrite Howner.
    destruct (decide (t1 = t)) as [->|Hne].
    + rewrite list_lookup_insert_eq by (by eapply lookup_lt_Some). intros [= <- <-] Hd.
      split; [done|]. exists (f c). cbn [slots σ']. rewrite upd_lookup, Hc. case_decide; [|done].
      split; [done|]. by apply Hpc'.
    + rewrite list_lookup_insert_ne by done. intros Ht1 Hd.
      destruct (Hth _ _ _ Ht1 Hd) as (Ho1 & c1 & Hc1 & Hok1). split; [done|]. exists c1.
      cbn [slots σ']. rewrite upd_lookup. case_decide; [subst; congruence|done].
  - intros j t1. rewrite Howner. intros (pc1 & Ht1)%Hown. cbn [threads σ'].
    destruct (decide (t1 = t)) as [->|Hne].
    + assert (j = i) as -> by congruence. exists pc'.
      by rewrite list_lookup_insert_eq by (by eapply lookup_lt_Some).
    + exists pc1. by rewrite list_lookup_insert_ne.
Qed.

Lemma held_thread σ t i pc : threads σ !! t = Some (i, pc) ->
  held σ (HThread t) = match pc with Closing sock => sock_of sock | _ => None end.
Proof. intros E. cbn. by rewrite E. Qed.

Lemma held_slot σ i c : slots σ !! i = Some c -> (reserving σ i = false -> sl_connected c = true) ->
  held σ (HSlot i) = if reserving σ i then None else sock_of (sl_s c).
Proof.
  intros Hc Hconn. cbn. rewrite Hc. cbn.
  destruct (reserving σ i); [by rewrite andb_false_r|by rewrite Hconn].
Qed.

Lemma alter_same i (l : list slot) : alter id i l = l.
Proof. apply list_eq. intros j. rewrite upd_lookup. case_decide; [by destruct (l !! j)|done]. Qed.

(** The holders after a step of thread [t] from the position in [Ht], in terms of
    those before. *)
Lemma held_step σ t i pc pc' f S (k : holder) :
  threads σ !! t = Some (i, pc) ->
  held (mk_state (alter f i (slots σ)) (accept_pc σ) (<[t := (i, pc')]> (threads σ)) S) k =
  if decide (k = HThread t) then match pc' with Closing sock => sock_of sock | _ => None end
  else if decide (k = HSlot i) then
    c ← slots σ !! i;
    if sl_connected (f c) && negb (reserving σ i) then sock_of (sl_s (f c)) else None
  else held σ k.
Proof.
  intros Ht. destruct k as [j| | |t']; cbn [held slots accept_pc threads].
  - rewrite upd_lookup. destruct (decide (HSlot j = _)); [done|].
    destruct (decide (HSlot j = HSlot i)) as [[= ->]|Hne].
    + case_decide; [|done]. by destruct (slots σ !! i).
    + case_decide; [congruence|done].
  - by repeat case_decide.
  - by repeat case_decide.
  - destruct (decide (HThread t' = HThread t)) as [[= ->]|Hne].
    + by rewrite list_lookup_insert_eq by (by eapply lookup_lt_Some).
    + rewrite list_lookup_insert_ne by congruence. by case_decide.
Qed.

Lemma inv_exec_thread σ t σ' : Inv σ -> exec_thread t σ = Some σ' -> Inv σ'.
Proof.
  intros HI E. unfold exec_thread in E. destruct (threads σ !! t) as [[i pc]|] eqn:Ht; [|done].
  cbn [mbind option_bind] in E.
  destruct (decide (pc = Done)) as [->|Hlive]; [done|].
  destruct (inv_thread _ HI _ _ _ Ht Hlive) as (Ho & c & Hc & Hconn & Hs).
  pose proof (inv_holders _ HI) as Hho. pose proof (held_thread _ _ _ _ Ht) as Hht.
  pose proof (held_slot σ i c Hc Hconn) as Hhs.
  destruct pc as [|sock| |]; [| | |done].
  - rewrite Hc in E. injection E as <-. eapply (inv_thread_step σ t i Running); try done.
    + eapply (holders_move _ _ _ (HSlot i) (HThread t)); [done|done| |exact Hho].
      intros k. rewrite (held_step _ _ _ _ _ _ _ _ Ht), Hhs, Hc. repeat case_decide; try done.
      * destruct (reserving σ i); [by rewrite Hs by by left|done].
      * cbn. by destruct (_ && _).
    + intros c0 E _. simplify_eq. cbn. auto.
  - injection E as <-.
    assert (Inv (mk_state (alter id i (slots σ)) (accept_pc σ) (<[t := (i, Releasing)]> (threads σ))
      (sockets (close_socket sock σ)))) as HI'.
    2: { rewrite alter_same in HI'. unfold close_socket in *. by destruct (SOCKET_OK sock). }
    eapply (inv_thread_step σ t i (Closing sock)); try done.
    + eapply (holders_close _ _ _ (HThread t)); [exact Hht| |exact Hho].
      intros k. rewrite (held_step _ _ _ _ _ _ _ _ Ht). repeat case_decide; try done. subst k.
      cbn. by rewrite Hc.
    + intros c0 E _. simplify_eq. cbn. auto.
  - injection E as <-. eapply (inv_thread_step σ t i Releasing); try done.
    eapply holders_same; [|exact Hho].
    intros k. rewrite (held_step _ _ _ _ _ _ _ _ Ht). repeat case_decide; subst; try done.
    rewrite Hhs, Hs, Hc by by right. by destruct (reserving σ i).
Qed.

(** A step of the accept loop that concerns slot [i]. *)
Lemma inv_accept_step σ σ' i f :
  Inv σ -> slots σ' = alter f i (slots σ) -> threads σ' = threads σ ->
  holders_ok (held σ') (sockets σ') -> pc_ok σ' ->
  (forall j, j <> i -> reserving σ' j = reserving σ j /\ owner σ' j = owner σ j) ->
  (forall t, owner σ' i = Some t -> owner σ i = Some t) ->
  (forall t tp, threads σ !! t = Some (i, tp) -> tp <> Done ->
     thread_ok σ t i tp -> thread_ok σ' t i tp) ->
  Inv σ'.
Proof.
  intros [Hlen Hho Hpc Hth Hown] Hs Ht' Hho' Hpc' Hj Hi Hthi. split; try done.
  - by rewrite Hs, length_alter.
  - intros t j tp Ht Hlive. rewrite Ht' in Ht. destruct (decide (j = i)) as [->|Hne]; [by eauto|].
    destruct (Hth _ _ _ Ht Hlive) as (Ho & c & Hc & Hok). destruct (Hj j Hne) as [Hr Ho'].
    unfold thread_ok. rewrite Ho', Hr. split; [done|]. exists c.
    rewrite Hs, upd_lookup. by case_decide; [subst|].
  - intros j t. rewrite Ht'. destruct (decide (j = i)) as [->|Hne]; [by eauto|].
    destruct (Hj j Hne) as [_ ->]. apply Hown.
Qed.

(** ... and leaves no thread on it. *)
Lemma inv_accept_idle σ σ' i f :
  Inv σ -> owner σ i = None -> slots σ' = alter f i (slots σ) -> threads σ' = threads σ ->
  holders_ok (held σ') (sockets σ') -> pc_ok σ' ->
  (forall j, j <> i -> reserving σ' j = reserving σ j /\ owner σ' j = owner σ j) ->
  owner σ' i = None -> Inv σ'.
Proof.
  intros HI Ho Hs Ht Hho Hpc Hj Ho'. eapply inv_accept_step; try done.
  - intros t. by rewrite Ho'.
  - intros t tp Htt Hlive _. destruct (inv_thread _ HI _ _ _ Htt Hlive) as [? _]. congruence.
Qed.

(** The holders after such a step. *)
Lemma held_accept σ σ' i f (k : holder) :
  slots σ' = alter f i (slots σ) -> threads σ' = threads σ ->
  (forall j, j <> i -> reserving σ' j = reserving σ j) ->
  held σ' k =
  match k with
  | HSlot j =>
      if decide (j = i) then
        c ← slots σ !! i;
        if sl_connected (f c) && negb (reserving σ' i) then sock_of (sl_s (f c)) else None
      else held σ k
  | HThread _ => held σ k
  | _ => held σ' k
  end.
Proof.
  intros Hs Ht Hj. destruct k as [j| | |]; try done; cbn [held]; [|by rewrite Ht].
  rewrite Hs, upd_lookup. destruct (decide (j = i)) as [->|Hne].
  - case_decide; [|done]. by destruct (slots σ !! i).
  - case_decide; [congruence|]. by rewrite <- (Hj j Hne).
Qed.

(** The owner and reservation of a slot the step does not concern. *)
Definition pc_slot (pc : apc) : option nat :=
  match pc with
  | Reserved i _ _ _ _ | Joining i _ _ _ | Initializing i _ _ | Publishing i _ _ | Starting i
  | Started i _ | Unwinding i | UnwindClosing i _ | UnwindReleasing i => Some i
  | _ => None
  end.

Lemma other_slot σ σ' i f :
  slots σ' = alter f i (slots σ) ->
  (forall k, pc_slot (accept_pc σ) = Some k -> k = i) ->
  (forall k, pc_slot (accept_pc σ') = Some k -> k = i) ->
  forall j, j <> i -> reserving σ' j = reserving σ j /\ owner σ' j = owner σ j.
Proof.
  intros Hs Hp Hp' j Hne.
  assert (slots σ' !! j = slots σ !! j) as Hsl by (rewrite Hs, upd_lookup; case_decide; congruence).
  assert (forall σ0, (forall k, pc_slot (accept_pc σ0) = Some k -> k = i) ->
    reserving σ0 j = false /\
    owner σ0 j = c ← slots σ0 !! j; if sl_has_thread c then Some (sl_thread c) else None) as Hgen.
  { intros σ0 H0. unfold reserving, owner.
    destruct (accept_pc σ0); cbn in H0; try done; rewrite (H0 _ eq_refl);
      try (rewrite bool_decide_eq_false_2 by done); try (by case_decide); done. }
  destruct (Hgen σ Hp) as [-> ->], (Hgen σ' Hp') as [-> ->]. by rewrite Hsl.
Qed.

Lemma owner_slot σ i c j :
  slots σ !! i = Some c ->
  (match accept_pc σ with Reserved _ _ _ _ _ | Joining _ _ _ _ | Started _ _ => False | _ => True end) ->
  j = (if sl_has_thread c then Some (sl_thread c) else None) -> owner σ i = j.
Proof. intros Hc Hpc ->. unfold owner. rewrite Hc. by destruct (accept_pc σ). Qed.

Section accept.
Variables whitelist_start whitelist_end : Z.
Abbreviation exec := (exec whitelist_start whitelist_end).

Lemma sock_of_ok cs : 0 <= cs -> sock_of cs = Some cs.
Proof. intros. unfold sock_of, SOCKET_OK. by destruct (Z.leb_spec 0 cs); [|lia]. Qed.

Lemma inv_take_slot σ i c recon cs ip σ' :
  Inv σ -> accept_pc σ = Accepting -> 0 <= cs -> cs ∉ sockets σ ->
  slots σ !! i = Some c -> sl_connected c = recon ->
  take_slot i recon cs ip (set_sockets (sockets σ ∪ {[cs]}) σ) = Some σ' -> Inv σ'.
Proof.
  intros HI Hpc Hcs Hfresh Hc Hrec E. unfold take_slot in E. cbn [slots set_sockets] in E.
  rewrite Hc in E. cbn in E. injection E as <-.
  set (σ' := set_pc _ _).
  assert (forall j, reserving σ j = false) as Hres by (intros; unfold reserving; by rewrite Hpc).
  assert (slots σ' = alter (reserve recon) i (slots σ)) as Hs by done.
  assert (forall j, j <> i -> reserving σ' j = reserving σ j /\ owner σ' j = owner σ j) as Hother.
  { eapply (other_slot σ σ' i); [done|by rewrite Hpc|by intros k [= ->]]. }
  assert (owner σ' i = owner σ i) as Ho.
  { rewrite (owner_slot σ i c _ Hc) by (by rewrite ?Hpc). unfold owner. cbn. by case_decide. }
  pose proof (held_slot σ i c Hc) as Hhs. rewrite Hres in Hhs.
  eapply (inv_accept_step σ σ' i); try done.
  - set (H1 k := if decide (k = HNew) then Some cs else held σ k).
    assert (holders_ok H1 (sockets σ ∪ {[cs]})) as Hok1.
    { eapply (holders_add (held σ)); [|done|done|apply HI]. cbn. by rewrite Hpc. }
    assert (forall k, held σ' k = if decide (k = HOld) then H1 (HSlot i)
              else if decide (k = HSlot i) then None else H1 k) as Hheld.
    { intros k. rewrite (held_accept σ σ' i (reserve recon)) by (done || apply Hother).
      unfold H1. destruct k as [j| | |]; repeat case_decide; simplify_eq; try done.
      - rewrite Hc. cbn. by rewrite bool_decide_eq_true_2.
      - cbn. by rewrite sock_of_ok.
      - destruct (sl_connected c) eqn:Ec; [by rewrite Hhs|].
        cbn. rewrite Hc. cbn. by rewrite Ec. }
    eapply holders_move; [| |exact Hheld|exact Hok1]; [done|].
    unfold H1. cbn. by rewrite Hpc.
  - cbn. rewrite upd_lookup, Hc. case_decide; [|done]. by eexists.
  - intros t. by rewrite Ho.
  - intros t tp Ht Hlive (Ho' & c' & Hc' & Hconn & _). simplify_eq. rewrite Hres in Hconn.
    unfold thread_ok. rewrite Ho. split; [done|]. rewrite Hs, upd_lookup, Hc.
    case_decide; [|done]. exists (reserve (sl_connected c) c). split; [done|].
    rewrite Hconn by done. done.
Qed.

(** A step that leaves all slots alone. *)
Lemma inv_pc_step σ σ' :
  Inv σ -> slots σ' = slots σ -> threads σ' = threads σ ->
  holders_ok (held σ') (sockets σ') -> pc_ok σ' ->
  (forall j, reserving σ' j = reserving σ j /\ owner σ' j = owner σ j) -> Inv σ'.
Proof.
  intros HI Hs Ht Hho Hpc Hj. eapply (inv_accept_step σ σ' 0 id); try done.
  - by rewrite alter_same.
  - intros t. by destruct (Hj 0%nat) as [_ ->].
  - intros t tp _ _. unfold thread_ok. destruct (Hj 0%nat) as [-> ->]. by rewrite Hs.
Qed.

Lemma held_pc σ σ' k :
  slots σ' = slots σ -> threads σ' = threads σ -> (forall j, reserving σ' j = reserving σ j) ->
  held σ' k = match k with HSlot _ | HThread _ => held σ k | _ => held σ' k end.
Proof. intros Hs Ht Hr. destruct k; cbn [held]; rewrite ?Hs, ?Ht, ?Hr; done. Qed.

Lemma sockets_close sock σ : slots (close_socket sock σ) = slots σ /\
  threads (close_socket sock σ) = threads σ /\ accept_pc (close_socket sock σ) = accept_pc σ.
Proof. unfold close_socket. by destruct (SOCKET_OK sock). Qed.

(** The steps that close a socket the accept loop holds. *)
Lemma inv_close σ pc' h sock :
  Inv σ -> held σ h = sock_of sock -> (h = HNew \/ h = HOld) ->
  let σ' := set_pc pc' (close_socket sock σ) in
  pc_ok σ' -> (forall j, reserving σ' j = reserving σ j /\ owner σ' j = owner σ j) ->
  held σ' h = None -> (forall k, k = HNew \/ k = HOld -> k <> h -> held σ' k = held σ k) ->
  Inv σ'.
Proof.
  intros HI Hh Hor σ' Hpc Hj Hnone Hkeep. destruct (sockets_close sock σ) as (Hs & Ht & _).
  eapply (inv_pc_step σ); try done.
  eapply (holders_close _ _ σ h sock Hh); [|apply HI].
  intros k. case_decide as Hk; [by subst|].
  destruct (decide (k = HNew \/ k = HOld)) as [Hc|Hc]; [by apply Hkeep|].
  rewrite (held_pc σ σ') by (done || apply Hj). destruct k; naive_solver.
Qed.

Lemma inv_accept σ cs ip σ' :
  Inv σ -> accept_pc σ = Accepting ->
  exec_accept whitelist_start whitelist_end cs ip σ = Some σ' -> Inv σ'.
Proof.
  intros HI Hpc E. unfold exec_accept in E. case_decide as Hcs; [|done]. destruct Hcs as [Hcs Hfresh].
  assert (Inv (set_pc (Rejecting cs) (set_sockets (sockets σ ∪ {[cs]}) σ))) as Hrej.
  { set (σr := set_pc _ _).
    assert (forall j, reserving σr j = reserving σ j) as Hres by (intros; unfold reserving; by rewrite Hpc).
    eapply (inv_pc_step σ); try done.
    - eapply (holders_add (held σ) _ _ HNew cs); [cbn; by rewrite Hpc|done| |apply HI].
      intros k. rewrite (held_pc σ σr) by done.
      destruct k; repeat case_decide; simplify_eq; try done.
      + cbn. by rewrite sock_of_ok.
      + cbn. by rewrite Hpc.
    - intros j. unfold reserving, owner. by rewrite Hpc. }
  unfold pick_slot in E. destruct (list_find _ (slots σ)) as [[i c]|] eqn:Ef.
  - apply list_find_Some in Ef as (Hc & [Hconn _] & _).
    by apply (inv_take_slot σ i c true cs ip).
  - destruct (_ && _); [by injection E as <-|].
    destruct (list_find (fun c => sl_connected c = false) (slots σ)) as [[i c]|] eqn:Ef2.
    + apply list_find_Some in Ef2 as (Hc & Hconn & _).
      by apply (inv_take_slot σ i c false cs ip).
    + by injection E as <-.
Qed.

Lemma inv_join σ i cs ip j :
  Inv σ -> accept_pc σ = Joining i cs ip j ->
  match j with Some t => exists k, threads σ !! t = Some (k, Done) | None => True end ->
  Inv (set_pc (Initializing i cs ip) σ).
Proof.
  intros HI Hpc Hj. pose proof (inv_pc _ HI) as Hok. unfold pc_ok in Hok. rewrite Hpc in Hok.
  destruct Hok as (c & Hc & Hth). set (σ' := set_pc _ _).
  assert (owner σ i = j) as Ho by (unfold owner; rewrite Hpc; by case_decide).
  assert (owner σ' i = None) as Ho'.
  { unfold owner. cbn [accept_pc slots σ' set_pc]. rewrite Hc. cbn. by rewrite Hth. }
  assert (forall k, reserving σ' k = reserving σ k) as Hres by (intros; unfold reserving; by rewrite Hpc).
  eapply (inv_accept_step σ σ' i id); try done.
  - by rewrite alter_same.
  - eapply holders_same; [|apply HI]. intros k. rewrite (held_pc σ σ') by done.
    destruct k; cbn; by rewrite ?Hpc.
  - by exists c.
  - eapply (other_slot σ σ' i id); [by rewrite alter_same|rewrite Hpc; by intros k [= ->]|by intros k [= ->]].
  - intros t. by rewrite Ho'.
  - intros t tp Ht Hlive [Hot _]. exfalso. rewrite Ho in Hot. rewrite Hot in Hj.
    destruct Hj as (k & Hk). congruence.
Qed.

Lemma inv_init σ i cs ip (ok : bool) :
  Inv σ -> accept_pc σ = Initializing i cs ip ->
  Inv (set_pc (if ok then Publishing i cs ip else Rejecting cs)
         (upd_slot i (fun _ => initialized ok) σ)).
Proof.
  intros HI Hpc. pose proof (inv_pc _ HI) as Hok. unfold pc_ok in Hok. rewrite Hpc in Hok.
  destruct Hok as (c & Hc & Hth). set (σ' := set_pc _ _).
  assert (owner σ i = None) as Ho by (apply owner_busy; [apply HI|by rewrite Hpc]).
  assert (slots σ' !! i = Some (initialized ok)) as Hi'.
  { cbn. rewrite upd_lookup, Hc. by case_decide. }
  assert (forall j, j <> i -> reserving σ' j = reserving σ j /\ owner σ' j = owner σ j) as Hother.
  { eapply (other_slot σ σ' i); [done|rewrite Hpc; by intros k [= ->]|]. destruct ok; by intros k [= ->]. }
  eapply (inv_accept_idle σ σ' i); try done.
  - eapply holders_same; [|apply HI]. intros k.
    rewrite (held_accept σ σ' i (fun _ => initialized ok)) by (done || apply Hother).
    destruct k as [j| | |]; try done.
    + case_decide; [subst|done]. rewrite Hc. cbn. rewrite Hc. cbn. unfold reserving. rewrite Hpc.
      rewrite bool_decide_eq_true_2, andb_false_r by done. by destruct (_ && _).
    + cbn. rewrite Hpc. by destruct ok.
    + cbn. rewrite Hpc. by destruct ok.
  - unfold pc_ok. cbn [accept_pc σ' set_pc]. by destruct ok.
  - unfold owner. cbn [accept_pc σ' set_pc]. destruct ok; by rewrite Hi'.
Qed.

Lemma inv_publish σ i cs ip :
  Inv σ -> accept_pc σ = Publishing i cs ip ->
  Inv (set_pc (Starting i) (upd_slot i (with_addr cs ip) σ)).
Proof.
  intros HI Hpc. pose proof (inv_pc _ HI) as Hc. unfold pc_ok in Hc. rewrite Hpc in Hc.
  set (σ' := set_pc _ _).
  assert (owner σ i = None) as Ho by (apply owner_busy; [apply HI|by rewrite Hpc]).
  assert (slots σ' !! i = Some (with_addr cs ip (initialized true))) as Hi'.
  { cbn. rewrite upd_lookup, Hc. by case_decide. }
  assert (forall j, j <> i -> reserving σ' j = reserving σ j /\ owner σ' j = owner σ j) as Hother.
  { eapply (other_slot σ σ' i); [done|rewrite Hpc; by intros k [= ->]|by intros k [= ->]]. }
  eapply (inv_accept_idle σ σ' i); try done.
  - eapply (holders_move (held σ) _ _ HNew (HSlot i)); [done| | |apply HI].
    + cbn [held]. rewrite Hc. cbn. unfold reserving. by rewrite Hpc.
    + intros k. rewrite (held_accept σ σ' i (with_addr cs ip)) by (done || apply Hother).
      destruct k as [j| | |]; repeat case_decide; simplify_eq; try done.
      * rewrite Hc. cbn. by rewrite Hpc.
      * cbn. by rewrite Hpc.
  - eexists. split; [exact Hi'|done].
  - unfold owner. cbn [accept_pc σ' set_pc]. by rewrite Hi'.
Qed.

Lemma inv_start σ i :
  Inv σ -> accept_pc σ = Starting i ->
  Inv (set_pc (Started i (length (threads σ)))
    (set_threads (threads σ ++ [(i, Running)]) (upd_slot i (with_thread (length (threads σ))) σ))).
Proof.
  intros HI Hpc. pose proof (inv_pc _ HI) as Hok. unfold pc_ok in Hok. rewrite Hpc in Hok.
  destruct Hok as (c & Hc & Hth & Hconn). set (t := length (threads σ)). set (σ' := set_pc _ _).
  assert (owner σ i = None) as Ho by (apply owner_busy; [apply HI|by rewrite Hpc]).
  assert (slots σ' !! i = Some (with_thread t c)) as Hi'.
  { cbn. rewrite upd_lookup, Hc. by case_decide. }
  assert (forall j, j <> i -> reserving σ' j = reserving σ j /\ owner σ' j = owner σ j) as Hother.
  { eapply (other_slot σ σ' i); [done|rewrite Hpc; by intros k [= ->]|by intros k [= ->]]. }
  assert (owner σ' i = Some t) as Ho' by (unfold owner; cbn; by case_decide).
  assert (forall t' i' pc, threads σ' !! t' = Some (i', pc) ->
    t' = t /\ i' = i /\ pc = Running \/ threads σ !! t' = Some (i', pc)) as Hthr.
  { intros t' i' pc. cbn. rewrite lookup_app_Some. intros [?|[? H]]; [by right|left].
    apply list_lookup_singleton_Some in H as [? [= <- <-]]. split; [subst t; lia|done]. }
  split.
  - cbn. rewrite length_alter. apply HI.
  - eapply holders_same; [|apply HI]. intros [j| | |t']; [|cbn; by rewrite ?Hpc|cbn; by rewrite ?Hpc|].
    + cbn [held]. cbn [slots σ' set_pc set_threads upd_slot set_slots]. rewrite upd_lookup.
      destruct (decide (i = j)) as [<-|Hne].
      * rewrite Hc. cbn. unfold reserving. by rewrite Hpc.
      * destruct (Hother j) as [-> _]; [congruence|done].
    + cbn. destruct (decide (t' < t)%nat).
      * by rewrite lookup_app_l by done.
      * rewrite (lookup_ge_None_2 (threads σ)) by (subst t; lia). cbn.
        destruct (((threads σ) ++ [(i, Running)]) !! t') as [[i' pc]|] eqn:E; [|done].
        destruct (Hthr _ _ _ E) as [(_ & _ & ->)|E']; [done|].
        apply lookup_lt_Some in E'. subst t. lia.
  - eexists. split; [exact Hi'|done].
  - intros t' i' pc E Hlive. destruct (Hthr _ _ _ E) as [(-> & -> & ->)|E'].
    + split; [done|]. eexists. split; [exact Hi'|]. split; [done|].
      intros [Hr|?]; [|done]. unfold reserving in Hr. done.
    + destruct (inv_thread _ HI _ _ _ E' Hlive) as (Ho1 & c1 & Hc1 & Hok1).
      assert (i' <> i) as Hne by congruence. destruct (Hother i' Hne) as [Hr Ho2].
      unfold thread_ok. rewrite Hr, Ho2. split; [done|]. exists c1. cbn. rewrite upd_lookup.
      by case_decide; [congruence|].
  - intros j t'. destruct (decide (j = i)) as [->|Hne].
    + rewrite Ho'. intros [= <-]. exists Running. cbn. by apply list_lookup_middle.
    + destruct (Hother j Hne) as [_ ->]. intros (pc & E)%(inv_owner _ HI). exists pc.
      cbn. by apply lookup_app_l_Some.
Qed.

Lemma inv_mark σ i t :
  Inv σ -> accept_pc σ = Started i t -> Inv (set_pc Accepting (upd_slot i (with_has_thread true) σ)).
Proof.
  intros HI Hpc. pose proof (inv_pc _ HI) as Hok. unfold pc_ok in Hok. rewrite Hpc in Hok.
  destruct Hok as (c & Hc & Hth & Ht). set (σ' := set_pc _ _).
  assert (slots σ' !! i = Some (with_has_thread true c)) as Hi'.
  { cbn. rewrite upd_lookup, Hc. by case_decide. }
  assert (owner σ i = Some t) as Ho by (unfold owner; rewrite Hpc; by case_decide).
  assert (owner σ' i = Some t) as Ho'.
  { unfold owner. cbn [accept_pc σ' set_pc]. rewrite Hi'. cbn. by rewrite Ht. }
  assert (forall j, j <> i -> reserving σ' j = reserving σ j /\ owner σ' j = owner σ j) as Hother.
  { eapply (other_slot σ σ' i); [done|rewrite Hpc; by intros k [= ->]|done]. }
  assert (forall j, reserving σ' j = reserving σ j) as Hres by (intros; unfold reserving; by rewrite Hpc).
  eapply (inv_accept_step σ σ' i); try done.
  - eapply holders_same; [|apply HI]. intros k.
    rewrite (held_accept σ σ' i (with_has_thread true)) by (done || apply Hother).
    destruct k as [j| | |]; [|cbn; by rewrite ?Hpc..].
    case_decide; [subst|done]. cbn [held]. by rewrite Hc, Hres.
  - intros t'. by rewrite Ho'; intros [= <-].
  - intros t' tp E Hlive (Ho1 & c1 & Hc1 & Hok1). unfold thread_ok. rewrite Hres, Ho'.
    rewrite Ho in Ho1. split; [done|]. exists (with_has_thread true c). split; [done|]. by simplify_eq.
Qed.

Lemma inv_unwind σ i :
  Inv σ -> accept_pc σ = Unwinding i ->
  forall c, slots σ !! i = Some c ->
  Inv (set_pc (UnwindClosing i (sl_s c)) (upd_slot i (with_s NO_SOCKET) σ)).
Proof.
  intros HI Hpc c Hc. pose proof (inv_pc _ HI) as Hok. unfold pc_ok in Hok. rewrite Hpc in Hok.
  destruct Hok as (c0 & Hc0 & Hth & Hconn). simplify_eq. set (σ' := set_pc _ _).
  assert (owner σ i = None) as Ho by (apply owner_busy; [apply HI|by rewrite Hpc]).
  assert (slots σ' !! i = Some (with_s NO_SOCKET c)) as Hi'.
  { cbn. rewrite upd_lookup, Hc. by case_decide. }
  assert (forall j, j <> i -> reserving σ' j = reserving σ j /\ owner σ' j = owner σ j) as Hother.
  { eapply (other_slot σ σ' i); [done|rewrite Hpc; by intros k [= ->]|by intros k [= ->]]. }
  assert (reserving σ i = false) as Hres by (unfold reserving; by rewrite Hpc).
  eapply (inv_accept_idle σ σ' i); try done.
  - eapply (holders_move (held σ) _ _ (HSlot i) HOld); [done|cbn; by rewrite Hpc| |apply HI].
    intros k. rewrite (held_accept σ σ' i (with_s NO_SOCKET)) by (done || apply Hother).
    destruct k as [j| | |]; repeat case_decide; simplify_eq; try done.
    + rewrite Hc. cbn. by destruct (_ && _).
    + cbn. by rewrite Hpc.
    + rewrite (held_slot σ i c Hc), Hres by done. done.
  - eexists. split; [exact Hi'|done].
  - unfold owner. cbn [accept_pc σ' set_pc]. rewrite Hi'. cbn. by rewrite Hth.
Qed.

Lemma inv_unwind_release σ i :
  Inv σ -> accept_pc σ = UnwindReleasing i ->
  Inv (set_pc Accepting (upd_slot i (with_connected false) σ)).
Proof.
  intros HI Hpc. pose proof (inv_pc _ HI) as Hok. unfold pc_ok in Hok. rewrite Hpc in Hok.
  destruct Hok as (c & Hc & Hth & Hs). set (σ' := set_pc _ _).
  assert (owner σ i = None) as Ho by (apply owner_busy; [apply HI|by rewrite Hpc]).
  assert (slots σ' !! i = Some (with_connected false c)) as Hi'.
  { cbn. rewrite upd_lookup, Hc. by case_decide. }
  assert (forall j, j <> i -> reserving σ' j = reserving σ j /\ owner σ' j = owner σ j) as Hother.
  { eapply (other_slot σ σ' i); [done|rewrite Hpc; by intros k [= ->]|done]. }
  eapply (inv_accept_idle σ σ' i); try done.
  - eapply holders_same; [|apply HI]. intros k.
    rewrite (held_accept σ σ' i (with_connected false)) by (done || apply Hother).
    destruct k as [j| | |]; [|cbn; by rewrite ?Hpc..].
    case_decide; [subst|done]. cbn [held]. rewrite Hc. cbn. rewrite Hs. by destruct (_ && _).
  - unfold owner. cbn [accept_pc σ' set_pc]. rewrite Hi'. cbn. by rewrite Hth.
Qed.

(** Every action keeps the invariant. *)
Lemma inv_exec σ l σ' : Inv σ -> exec l σ = Some σ' -> Inv σ'.
Proof.
  intros HI E. pose proof (inv_pc _ HI) as Hok. unfold pc_ok in Hok.
  destruct l as [cs ip| | | | |ok| |ok| | |t]; [..|by eapply inv_exec_thread];
    unfold Slots.exec in E; destruct (accept_pc σ) as [|cs0|i cs0 ip0 old_s j|i cs0 ip0 j|i cs0 ip0
      |i cs0 ip0|i|i t|i|i sock|i|] eqn:Hpc; try done; try (by destruct ok).
  - by eapply inv_accept.
  - injection E as <-. eapply (inv_pc_step σ); try done.
    + eapply holders_same; [|apply HI]. intros k.
      rewrite (held_pc σ (set_pc Exited σ)) by (try done; intros; unfold reserving; by rewrite Hpc).
      destruct k; cbn; by rewrite ?Hpc.
    + intros k. unfold reserving, owner. by rewrite Hpc.
  - injection E as <-. eapply (inv_close σ _ HNew cs0); try done; [cbn; by rewrite Hpc|by left| |].
    + intros k. unfold reserving, owner. rewrite Hpc. cbn.
      by destruct (sockets_close cs0 σ) as (-> & _).
    + intros k [->| ->] Hk; [done|]. cbn. by rewrite Hpc.
  - injection E as <-. destruct (sockets_close old_s σ) as (Hs & _).
    eapply (inv_close σ _ HOld old_s); try done; [cbn; by rewrite Hpc|by right| | |].
    + unfold pc_ok. cbn. by rewrite Hs.
    + intros k. unfold reserving, owner. rewrite Hpc. cbn. by rewrite Hs.
    + intros k [->| ->] Hk; [|done]. cbn. by rewrite Hpc.
  - destruct j as [t|].
    + destruct (threads σ !! t) as [[k [| | |]]|] eqn:Et; try done. injection E as <-.
      eapply inv_join; [done|exact Hpc|by exists k].
    + injection E as <-. by eapply inv_join.
  - assert (σ' = set_pc (if ok then Publishing i cs0 ip0 else Rejecting cs0)
      (upd_slot i (fun _ => initialized ok) σ)) as -> by (by destruct ok; injection E as <-).
    by apply inv_init.
  - injection E as <-. by eapply inv_publish.
  - destruct ok; injection E as <-; [by apply inv_start|].
    eapply (inv_pc_step σ); try done.
    + eapply holders_same; [|apply HI]. intros k.
      rewrite (held_pc σ (set_pc (Unwinding i) σ)) by (try done; intros; unfold reserving; by rewrite Hpc).
      destruct k; cbn; by rewrite ?Hpc.
    + intros k. unfold reserving, owner. by rewrite Hpc.
  - injection E as <-. by eapply inv_mark.
  - destruct (slots σ !! i) as [c|] eqn:Hc; [|done]. injection E as <-. by eapply inv_unwind.
  - injection E as <-. destruct (sockets_close sock σ) as (Hs & _).
    eapply (inv_close σ _ HOld sock); try done; [cbn; by rewrite Hpc|by right| | |].
    + unfold pc_ok. cbn. by rewrite Hs.
    + intros k. unfold reserving, owner. rewrite Hpc. cbn. by rewrite Hs.
    + intros k [->| ->] Hk; [|done]. cbn. by rewrite Hpc.
  - injection E as <-. by eapply inv_unwind_release.
Qed.

Lemma inv_reachable σ : reachable whitelist_start whitelist_end σ -> Inv σ.
Proof.
  unfold reachable. intros Hr. remember initial as σ0 eqn:E. assert (Inv σ0) as HI.
  { rewrite E. apply inv_initial. }
  clear E. induction Hr as [|σ1 σ2 σ3 [l Hl] _ IH]; [done|]. apply IH. by eapply inv_exec.
Qed.
End accept.

(** ** Properties *)

Section properties.
Variables whitelist_start whitelist_end : Z.
Abbreviation exec := (exec whitelist_start whitelist_end).
Abbreviation reachable := (reachable whitelist_start whitelist_end).
Abbreviation run := (run whitelist_start whitelist_end).

(** C3. Whatever the interleaving of the accept loop and the client threads, every
    open connection has exactly one holder (a slot, the accept loop or a thread
    that is about to close it), and what is held is open: no connection is closed
    twice, none is leaked, and no descriptor that the system has given to a new
    connection is closed for an old one. *)
Theorem one_holder_per_socket σ :
  reachable σ ->
  (forall x, x ∈ sockets σ <-> exists h, held σ h = Some x) /\
  (forall h h' x, held σ h = Some x -> held σ h' = Some x -> h = h').
Proof.
  intros HI%inv_reachable. destruct (inv_holders _ HI) as [Hinj Hopen Hheld].
  split; [|done]. intros x. split; [by apply Hheld|]. intros [h Hh]. by eapply Hopen.
Qed.

(** C31. When the accept loop initialises a slot, no thread that is still running
    uses it: initialize_client never wipes a connection that is in use. *)
Theorem init_has_no_thread σ i cs ip :
  reachable σ -> accept_pc σ = Initializing i cs ip ->
  forall t pc, threads σ !! t = Some (i, pc) -> pc = Done.
Proof.
  intros HI%inv_reachable Hpc t pc Ht. destruct (decide (pc = Done)) as [|Hlive]; [done|].
  destruct (inv_thread _ HI _ _ _ Ht Hlive) as [Ho _].
  rewrite owner_busy in Ho; [done|apply HI|by rewrite Hpc].
Qed.

(** C23. There are never two running threads on a slot, and every running thread
    is on one of the five slots: at most five clients are served. *)
Theorem one_thread_per_slot σ t i pc :
  reachable σ -> threads σ !! t = Some (i, pc) -> pc <> Done ->
  (i < 5)%nat /\
  forall t' pc', threads σ !! t' = Some (i, pc') -> pc' <> Done -> t' = t.
Proof.
  intros HI%inv_reachable Ht Hlive. destruct (inv_thread _ HI _ _ _ Ht Hlive) as (Ho & c & Hc & _).
  split; [rewrite <- (inv_length _ HI); by eapply lookup_lt_Some|].
  intros t' pc' Ht' Hlive'. destruct (inv_thread _ HI _ _ _ Ht' Hlive') as [Ho' _]. congruence.
Qed.

(** A slot that is handed out as free has no running thread, so that the wait
    before it is initialised ends at once. *)
Theorem free_slot_is_idle σ i ip :
  reachable σ -> accept_pc σ = Accepting ->
  pick_slot whitelist_start whitelist_end ip (slots σ) = Free i ->
  forall t pc, threads σ !! t = Some (i, pc) -> pc = Done.
Proof.
  intros HI%inv_reachable Hpc Hpick t pc Ht. destruct (decide (pc = Done)) as [|Hlive]; [done|].
  destruct (inv_thread _ HI _ _ _ Ht Hlive) as (_ & c & Hc & Hconn & _).
  unfold pick_slot in Hpick. destruct (list_find _ (slots σ)) as [[j c0]|]; [done|].
  destruct (_ && _); [done|].
  destruct (list_find (fun c => sl_connected c = false) (slots σ)) as [[j c0]|] eqn:Ef; [|done].
  injection Hpick as ->. apply list_find_Some in Ef as (Hc0 & Hf & _). simplify_eq.
  unfold reserving in Hconn. rewrite Hpc in Hconn. specialize (Hconn eq_refl). congruence.
Qed.

(** A client whose address is outside of the whitelist, and that is not
    connected already, gets no slot. *)
Theorem outside_whitelist_rejected l ip :
  whitelist_start <> 0 -> BE32 ip < whitelist_start \/ whitelist_end < BE32 ip ->
  (forall i c, l !! i = Some c -> sl_connected c = true -> sl_ip c <> ip) ->
  pick_slot whitelist_start whitelist_end ip l = NotInWhitelist.
Proof.
  intros Hs Hip Hl. unfold pick_slot.
  destruct (list_find _ l) as [[i c]|] eqn:Ef.
  - apply list_find_Some in Ef as (Hc & [Hconn Hi] & _). by destruct (Hl i c Hc Hconn).
  - rewrite (proj2 (Z.eqb_neq _ _) Hs). cbn [negb andb].
    destruct (Z.ltb_spec (BE32 ip) whitelist_start), (Z.ltb_spec whitelist_end (BE32 ip)); cbn; done || lia.
Qed.
End properties.

(** A client connects and reconnects while its thread still runs. *)
Definition trace0 : list label :=
  [LAccept 4 9; LCloseOld; LJoin; LInit true; LPublish; LStart true; LMark; LAccept 5 9].

Definition state0 : state := default initial (run 0 0 trace0 initial).
Definition state2 : state :=
  default initial (run 0 0 (trace0 ++ [LCloseOld; LThread 0; LThread 0; LThread 0; LJoin]) initial).

Lemma run_reachable ws we ls σ σ' :
  run ws we ls σ = Some σ' -> rtc (step ws we) initial σ -> rtc (step ws we) initial σ'.
Proof.
  revert σ; induction ls as [|l ls IH]; intros σ; cbn; [by intros [= ->]|].
  destruct (exec ws we l σ) as [σ1|] eqn:E; [|done]. cbn. intros Hr Hreach.
  eapply IH; [done|]. eapply rtc_r; [done|]. by exists l.
Qed.

Lemma one_holder_per_socket_witness :
  (forall x, x ∈ sockets state0 <-> exists h, held state0 h = Some x) /\
  (forall h h' x, held state0 h = Some x -> held state0 h' = Some x -> h = h').
Proof.
  apply (one_holder_per_socket 0 0 state0).
  apply (run_reachable 0 0 trace0 initial state0); [by vm_compute|apply rtc_refl].
Defined.

Lemma init_has_no_thread_witness :
  accept_pc state2 = Initializing 0 5 9 /\
  forall t pc, threads state2 !! t = Some (0%nat, pc) -> pc = Done.
Proof.
  split; [by vm_compute|].
  apply (init_has_no_thread 0 0 state2 0 5 9); [|by vm_compute].
  apply (run_reachable 0 0 (trace0 ++ [LCloseOld; LThread 0; LThread 0; LThread 0; LJoin]) initial);
    [by vm_compute|apply rtc_refl].
Defined.

Lemma one_thread_per_slot_witness :
  (0 < 5)%nat /\
  forall t' pc', threads state0 !! t' = Some (0%nat, pc') -> pc' <> Done -> t' = 0%nat.
Proof.
  apply (one_thread_per_slot 0 0 state0 0 0 Running); [|by vm_compute|done].
  apply (run_reachable 0 0 trace0 initial state0); [by vm_compute|apply rtc_refl].
Defined.

(** The same client has gone: its thread has ended. *)
Definition trace3 : list label :=
  [LAccept 4 9; LCloseOld; LJoin; LInit true; LPublish; LStart true; LMark; LThread 0; LThread 0; LThread 0].
Definition state3 : state := default initial (run 0 0 trace3 initial).

Lemma free_slot_is_idle_witness :
  accept_pc state3 = Accepting /\
  forall t pc, threads state3 !! t = Some (0%nat, pc) -> pc = Done.
Proof.
  split; [by vm_compute|].
  apply (free_slot_is_idle 0 0 state3 0 77); [|by vm_compute|by vm_compute].
  apply (run_reachable 0 0 trace3 initial state3); [by vm_compute|apply rtc_refl].
Defined.

(** The whitelist 192.168.1.0 - 192.168.1.255 and the address 10.0.0.1. *)
Lemma outside_whitelist_rejected_witness :
  pick_slot 0xC0A80100 0xC0A801FF 0x0100000A (slots initial) = NotInWhitelist.
Proof.
  apply (outside_whitelist_rejected 0xC0A80100 0xC0A801FF (slots initial) 0x0100000A).
  - done.
  - left. by vm_compute.
  - intros i c Hc Hconn. apply initial_slot in Hc as ->. done.
Defined.
