(* ===== verification/Blocking.v ===== *)
(** * Waiting: the mutex, blocked calls and the join

    The steps of Slots.v, with what they wait for.  A critical section is a lock
    of [clients_mutex], its action and the unlock, by the accept loop or by one
    thread; a thread in its command loop works between two calls on its socket,
    reads [client->s], enters the call and stays in it until the network or a
    shutdown of the socket ends it.  Work that concerns neither the slots nor a
    socket (a command's calls on files) is not a step.

    What is shown: the steps refine those of Slots.v, and the accept loop, which
    waits for a thread without the mutex and after it has shut down the thread's
    socket, does not wait in vain. *)

From S2P Require Import Prelude Endian Client Slots SlotsSpec.

(** ** State *)

(** What a thread does while it is [Running]. *)
Inductive act :=
  | Working               (* in a command, or before the next one *)
  | Calling (x : Z)       (* client->s is read, recv or send is next *)
  | Waiting (x : Z)       (* in recv or send on x *)
  | Leaving.              (* the loop is left, finalize_client is next *)

Inductive party := PAccept | PThread (t : nat).

#[export] Instance act_eq_dec : EqDecision act.
Proof. solve_decision. Defined.
#[export] Instance party_eq_dec : EqDecision party.
Proof. solve_decision. Defined.

(** [mutex] says who is between mutex_lock and mutex_unlock, and whether the
    section's action is done; [cut] are the connections that were shut down. *)
Record fstate := mk_fstate {
  base : state;
  acts : list act;                      (* by thread id *)
  mutex : option (party * bool);
  pending : option (Z * Z);             (* cs and addr that accept() has returned *)
  cut : gset Z;
}.

Definition finitial : fstate := mk_fstate initial [] None None ∅.

(** ** Actions *)

Inductive flabel :=
  | FConnect (cs ip : Z)      (* accept() returns *)
  | FAccept (l : label)       (* an action of the accept loop *)
  | FShut                     (* shutdown(old_s, SHUT_RDWR) *)
  | FThread (t : nat)         (* an action of a thread *)
  | FQuit (t : nat)           (* a command fails between its calls *)
  | FNet (t : nat) (ok : bool) (* the network ends the call thread t is in *)
  | FLock (p : party)
  | FUnlock (p : party).

(** The actions under [clients_mutex].  Without memory, initialize_client and
    the [connected = 0] under the lock are one action. *)
Definition critical (l : label) (pc : apc) : bool :=
  match l, pc with
  | LAccept _ _, _ | LInit false, _ | LUnwind, Unwinding _ | LUnwind, UnwindReleasing _ => true
  | _, _ => false
  end.

(** Who is at a mutex_lock. *)
Definition wants (p : party) (σ : fstate) : bool :=
  match p with
  | PAccept =>
      match accept_pc (base σ) with
      | Accepting => bool_decide (is_Some (pending σ))
      | Initializing _ _ _ | Unwinding _ | UnwindReleasing _ => true
      | _ => false
      end
  | PThread t =>
      match threads (base σ) !! t with
      | Some (_, Running) => bool_decide (acts σ !! t = Some Leaving)
      | Some (_, Releasing) => true
      | _ => false
      end
  end.

(** The mutex after an action of [p]: one of a critical section needs the lock,
    any other is not between a lock and an unlock. *)
Definition enter (p : party) (crit : bool) (σ : fstate) : option (option (party * bool)) :=
  match mutex σ with
  | None => if crit then None else Some None
  | Some (q, finished) =>
      if decide (q = p) then if crit && negb finished then Some (Some (p, true)) else None
      else if crit then None else Some (mutex σ)
  end.

(** What comes first in the text of the accept loop; and a thread has ended when
    it has returned from its last mutex_unlock. *)
Definition follows (l : label) (σ : fstate) : bool :=
  match l, accept_pc (base σ) with
  | LThread _, _ => false
  | LAccept cs ip, _ => bool_decide (pending σ = Some (cs, ip))
  | LAcceptError, _ => bool_decide (pending σ = None)
  | LCloseOld, Reserved _ _ _ old_s _ => negb (SOCKET_OK old_s) || bool_decide (old_s ∈ cut σ)
  | LJoin, Joining _ _ _ (Some t) =>
      bool_decide (mutex σ <> Some (PThread t, false) /\ mutex σ <> Some (PThread t, true))
  | _, _ => true
  end.

Definition set_act (t : nat) (a : act) (σ : fstate) : fstate :=
  mk_fstate (base σ) (<[t := a]> (acts σ)) (mutex σ) (pending σ) (cut σ).
Definition set_mutex m (σ : fstate) : fstate := mk_fstate (base σ) (acts σ) m (pending σ) (cut σ).

Section fexec.
Variables whitelist_start whitelist_end : Z.

Definition accept_action (l : label) (σ : fstate) : option fstate :=
  if follows l σ then
    m ← enter PAccept (critical l (accept_pc (base σ))) σ;
    b ← exec whitelist_start whitelist_end l (base σ);
    Some (match l with
          | LAccept cs _ => mk_fstate b (acts σ) m None (cut σ ∖ {[cs]})
          | LStart true => mk_fstate b (acts σ ++ [Working]) m (pending σ) (cut σ)
          | _ => mk_fstate b (acts σ) m (pending σ) (cut σ)
          end)
  else None.

Definition thread_action (t : nat) (σ : fstate) : option fstate :=
  '(i, pc) ← threads (base σ) !! t;
  a ← acts σ !! t;
  match pc, a with
  | Running, Working => c ← slots (base σ) !! i; Some (set_act t (Calling (sl_s c)) σ)
  | Running, Calling x =>
      Some (set_act t (if SOCKET_OK x && bool_decide (x ∈ sockets (base σ)) then Waiting x else Leaving) σ)
  | Running, Waiting x => if bool_decide (x ∈ cut σ) then Some (set_act t Leaving σ) else None
  | _, _ =>
      m ← enter (PThread t) (match pc with Running | Releasing => true | _ => false end) σ;
      b ← exec_thread t (base σ);
      Some (mk_fstate b (acts σ) m (pending σ) (cut σ))
  end.

Definition fexec (l : flabel) (σ : fstate) : option fstate :=
  match l with
  | FConnect cs ip =>
      match accept_pc (base σ), pending σ with
      | Accepting, None =>
          if decide (0 <= cs /\ cs ∉ sockets (base σ)) then
            m ← enter PAccept false σ; Some (mk_fstate (base σ) (acts σ) m (Some (cs, ip)) (cut σ))
          else None
      | _, _ => None
      end
  | FAccept l => accept_action l σ
  | FShut =>
      match accept_pc (base σ) with
      | Reserved _ _ _ old_s _ =>
          if SOCKET_OK old_s then
            m ← enter PAccept false σ;
            Some (mk_fstate (base σ) (acts σ) m (pending σ) (cut σ ∪ {[old_s]}))
          else None
      | _ => None
      end
  | FThread t => thread_action t σ
  | FQuit t =>
      match threads (base σ) !! t, acts σ !! t with
      | Some (_, Running), Some Working => Some (set_act t Leaving σ)
      | _, _ => None
      end
  | FNet t ok =>
      match threads (base σ) !! t, acts σ !! t with
      | Some (_, Running), Some (Waiting _) => Some (set_act t (if ok then Working else Leaving) σ)
      | _, _ => None
      end
  | FLock p =>
      match mutex σ with
      | None => if wants p σ then Some (set_mutex (Some (p, false)) σ) else None
      | Some _ => None                          (* mutex_lock blocks *)
      end
  | FUnlock p =>
      if decide (mutex σ = Some (p, true)) then Some (set_mutex None σ) else None
  end.

Fixpoint frun (ls : list flabel) (σ : fstate) : option fstate :=
  match ls with
  | [] => Some σ
  | l :: ls => σ' ← fexec l σ; frun ls σ'
  end.

Definition freachable (σ : fstate) : Prop := exists ls, frun ls finitial = Some σ.
End fexec.

(** The actions of one thread, the network included, and those that threads
    take by themselves. *)
Definition of_thread (t : nat) (l : flabel) : bool :=
  match l with
  | FThread t' | FQuit t' | FNet t' _ | FLock (PThread t') | FUnlock (PThread t') => bool_decide (t' = t)
  | _ => false
  end.

Definition by_threads (l : flabel) : Prop :=
  match l with FThread _ | FLock (PThread _) | FUnlock (PThread _) => True | _ => False end.

(** ** The steps refine those of Slots.v *)

Section refinement.
Variables whitelist_start whitelist_end : Z.
Abbreviation exec := (exec whitelist_start whitelist_end).
Abbreviation fexec := (fexec whitelist_start whitelist_end).
Abbreviation frun := (frun whitelist_start whitelist_end).
Abbreviation freachable := (freachable whitelist_start whitelist_end).

Lemma thread_action_inv t σ σ' : thread_action t σ = Some σ' ->
  exists i pc a, threads (base σ) !! t = Some (i, pc) /\ acts σ !! t = Some a /\
    ((exists a', pc = Running /\ σ' = set_act t a' σ /\ a <> Leaving /\
       match a with
       | Working => exists c, slots (base σ) !! i = Some c /\ a' = Calling (sl_s c)
       | Calling x => a' = Leaving \/ a' = Waiting x /\ 0 <= x /\ x ∈ sockets (base σ)
       | _ => a' = Leaving
       end) \/
     (exists m b, (pc = Running -> a = Leaving) /\
       enter (PThread t) (match pc with Running | Releasing => true | _ => false end) σ = Some m /\
       exec_thread t (base σ) = Some b /\ σ' = mk_fstate b (acts σ) m (pending σ) (cut σ))).
Proof.
  unfold thread_action. destruct (threads (base σ) !! t) as [[i pc]|] eqn:Ht; [|done].
  cbn [mbind option_bind]. destruct (acts σ !! t) as [a|] eqn:Ha; [|done]. cbn [mbind option_bind].
  intros E. exists i, pc, a. split; [done|]. split; [done|].
  assert (forall crit, (m ← enter (PThread t) crit σ; b ← exec_thread t (base σ);
    Some (mk_fstate b (acts σ) m (pending σ) (cut σ))) = Some σ' ->
    exists m b, enter (PThread t) crit σ = Some m /\ exec_thread t (base σ) = Some b /\
      σ' = mk_fstate b (acts σ) m (pending σ) (cut σ)) as Hcrit.
  { intros crit. destruct (enter _ crit σ) as [m|]; cbn [mbind option_bind]; [|intros [=]]. cbn [mbind option_bind].
    destruct (exec_thread _ _) as [b|]; cbn [mbind option_bind]; [|intros [=]]. intros [= <-]. by exists m, b. }
  destruct pc; [|apply Hcrit in E as (m & b & ? & ? & ?); right; by exists m, b..].
  destruct a as [|x|x|].
  - left. destruct (slots (base σ) !! i) as [c|]; [|done]. injection E as <-. eexists; split_and!; eauto.
  - left. injection E as <-. eexists; split_and!; try done. unfold SOCKET_OK.
    destruct (Z.leb_spec 0 x); cbn [andb]; [|by left]. case_bool_decide; [by right|by left].
  - left. case_bool_decide; [|done]. injection E as <-. by eexists.
  - right. apply Hcrit in E as (m & b & ? & ? & ?). by exists m, b.
Qed.

Lemma accept_action_inv l σ σ' : accept_action whitelist_start whitelist_end l σ = Some σ' ->
  exists m, follows l σ = true /\ enter PAccept (critical l (accept_pc (base σ))) σ = Some m /\
    exec l (base σ) = Some (base σ') /\ mutex σ' = m /\
    acts σ' = match l with LStart true => acts σ ++ [Working] | _ => acts σ end /\
    cut σ' = match l with LAccept cs _ => cut σ ∖ {[cs]} | _ => cut σ end.
Proof.
  unfold accept_action. destruct (follows l σ); [|done]. destruct (enter _ _ _) as [m|]; [|done].
  cbn [mbind option_bind]. destruct (exec l (base σ)) as [b|]; [|done]. cbn [mbind option_bind].
  intros [= <-]. exists m. by destruct l as [| | | | | | |[]| | |].
Qed.

(** A step is one of Slots.v, or none. *)
Lemma fexec_base l σ σ' : fexec l σ = Some σ' -> base σ' = base σ \/ exists l', exec l' (base σ) = Some (base σ').
Proof.
  destruct l as [cs ip|l| |t|t|t ok|p|p]; cbn [Blocking.fexec]; intros E.
  - destruct (accept_pc (base σ)), (pending σ); try done. case_decide; [|done].
    destruct (enter _ _ _); [|done]. injection E as <-. by left.
  - apply accept_action_inv in E as (m & _ & _ & ? & _). right. by exists l.
  - destruct (accept_pc (base σ)); try done. destruct (SOCKET_OK _); [|done].
    destruct (enter _ _ _); [|done]. injection E as <-. by left.
  - apply thread_action_inv in E as (i & pc & a & _ & _ & [(a' & _ & -> & _)|(m & b & _ & _ & E & ->)]); [by left|].
    right. exists (LThread t). done.
  - destruct (threads _ !! t) as [[i []]|], (acts σ !! t) as [[]|]; try done. injection E as <-. by left.
  - destruct (threads _ !! t) as [[i []]|], (acts σ !! t) as [[]|]; try done. injection E as <-. by left.
  - destruct (mutex σ); [done|]. destruct (wants p σ); [|done]. injection E as <-. by left.
  - case_decide; [|done]. injection E as <-. by left.
Qed.

Lemma frun_base ls σ σ' : frun ls σ = Some σ' ->
  rtc (step whitelist_start whitelist_end) (base σ) (base σ').
Proof.
  revert σ; induction ls as [|l ls IH]; intros σ; cbn [Blocking.frun]; [by intros [= ->]|].
  destruct (fexec l σ) as [σ1|] eqn:E; [|done]. cbn [mbind option_bind]. intros Hr%IH.
  apply fexec_base in E as [<-|(l' & E)]; [done|]. eapply rtc_l; [by exists l'|done].
Qed.

(** What Slots.v shows holds of the states reached here. *)
Lemma freachable_base σ : freachable σ -> reachable whitelist_start whitelist_end (base σ).
Proof. intros (ls & E). by apply frun_base in E. Qed.
End refinement.

(** ** Who waits for what *)

(** The socket that a call of slot [i]'s thread is made on: the slot's, or the
    one the accept loop has taken from it and, once it is closed, has cut. *)
Definition called (b : state) (cut : gset Z) (i : nat) (x : Z) : Prop :=
  (exists c, slots b !! i = Some c /\ sl_s c = x /\ reserving b i = false) \/
  (exists cs ip j, accept_pc b = Reserved i cs ip x j) \/
  (exists cs ip j, accept_pc b = Joining i cs ip j /\ x ∉ sockets b /\ x ∈ cut).

Lemma called_slot b b' k f cut cut' i x :
  called b cut i x -> i <> k -> slots b' = alter f k (slots b) ->
  (forall j, pc_slot (accept_pc b) = Some j -> j = k) ->
  (forall j, pc_slot (accept_pc b') = Some j -> j = k) -> called b' cut' i x.
Proof.
  intros Hc Hne Hs Hp Hp'. destruct (other_slot b b' k f Hs Hp Hp' i Hne) as [Hr _].
  destruct Hc as [(c & Hc & Hx & Hres)|[(cs & ip & j & E)|(cs & ip & j & E & _)]];
    [|by rewrite E in Hp; destruct (Hne (Hp _ eq_refl))..].
  left. exists c. split; [rewrite Hs, upd_lookup; by case_decide|]. split; [done|congruence].
Qed.

(** A step that keeps the slots' sockets and does not touch the reservation. *)
Lemma called_same b b' cut cut' i x :
  called b cut i x ->
  (forall c, slots b !! i = Some c -> exists c', slots b' !! i = Some c' /\ sl_s c' = sl_s c) ->
  (forall j, reserving b j = false) -> (forall j, reserving b' j = false) -> called b' cut' i x.
Proof.
  intros Hc Hs Hr Hr'.
  destruct Hc as [(c & (c' & Hc' & E)%Hs & Hx & _)|[(cs & ip & j & E)|(cs & ip & j & E & _)]].
  - left. exists c'. split; [done|]. split; [congruence|done].
  - specialize (Hr i). unfold reserving in Hr. rewrite E, bool_decide_eq_true_2 in Hr; done.
  - specialize (Hr i). unfold reserving in Hr. rewrite E, bool_decide_eq_true_2 in Hr; done.
Qed.

Section accept.
Variables whitelist_start whitelist_end : Z.
Abbreviation exec := (exec whitelist_start whitelist_end).

Lemma called_accept b b' cs ip cut cut' t i x :
  Inv b -> accept_pc b = Accepting -> exec_accept whitelist_start whitelist_end cs ip b = Some b' ->
  threads b !! t = Some (i, Running) -> called b cut i x -> called b' cut' i x.
Proof.
  intros HI Hpc E Ht Hc. destruct (inv_thread _ HI _ _ _ Ht) as (_ & ci & Hci & Hconn & _); [done|].
  assert (forall j, reserving b j = false) as Hres by (intros; unfold reserving; by rewrite Hpc).
  specialize (Hconn (Hres i)). unfold exec_accept in E. case_decide; [|done].
  assert (forall k recon, take_slot k recon cs ip (set_sockets (sockets b ∪ {[cs]}) b) = Some b' ->
    (k = i -> recon = true) -> called b' cut' i x) as Htake.
  { intros k recon Et Hk. unfold take_slot in Et. cbn [slots set_sockets] in Et.
    destruct (slots b !! k) as [c|] eqn:Ek; [|done]. cbn in Et. injection Et as <-.
    destruct (decide (i = k)) as [<-|Hne].
    - rewrite (Hk eq_refl) in *. rewrite Hci in Ek. injection Ek as <-.
      destruct Hc as [(c & Hc & <- & _)|[(? & ? & ? & E')|(? & ? & ? & E' & _)]]; [|congruence..].
      right; left. rewrite Hci in Hc. injection Hc as <-. by eexists _, _, _.
    - eapply (called_slot b _ k (reserve recon)); [exact Hc|done|done|by rewrite Hpc|by intros j [= ->]]. }
  unfold pick_slot in E. destruct (list_find _ (slots b)) as [[k c]|] eqn:Ef; [by eapply Htake|].
  assert (called (set_pc (Rejecting cs) (set_sockets (sockets b ∪ {[cs]}) b)) cut' i x) as Hrej.
  { eapply called_same; [exact Hc|eauto|done|done]. }
  destruct (_ && _); [by injection E as <-|].
  destruct (list_find (fun c => sl_connected c = false) (slots b)) as [[k c]|] eqn:Ef2; [|by injection E as <-].
  apply list_find_Some in Ef2 as (Hk & Hnc & _). eapply Htake; [exact E|]. intros ->. congruence.
Qed.

(** No action of the accept loop leaves a thread in a call that cannot end. *)
Lemma called_exec l b b' cut cut' t i x :
  Inv b -> exec l b = Some b' -> threads b !! t = Some (i, Running) -> 0 <= x -> called b cut i x ->
  (forall t', l <> LThread t') -> ((forall cs ip, l <> LAccept cs ip) -> cut' = cut) ->
  (forall k cs ip old j, l = LCloseOld -> accept_pc b = Reserved k cs ip old j -> SOCKET_OK old = true -> old ∈ cut) ->
  called b' cut' i x.
Proof.
  intros HI E Ht Hx Hc Hl Hcut Hold.
  destruct (inv_thread _ HI _ _ _ Ht) as (Ho & ci & Hci & Hconn & _); [done|].
  assert (forall k, match accept_pc b with
    | Initializing i' _ _ | Publishing i' _ _ | Starting i' | Unwinding i'
    | UnwindClosing i' _ | UnwindReleasing i' => k = i'
    | _ => False end -> i <> k) as Hbusy.
  { intros k Hk <-. rewrite (owner_busy b i (inv_pc _ HI) Hk) in Ho. done. }
  destruct l as [cs ip| | | | |ok| |ok| | |t']; [| | | | | | | | | |by destruct (Hl t')];
    unfold Slots.exec in E; destruct (accept_pc b) as [|cs0|k cs0 ip0 old_s j|k cs0 ip0 j|k cs0 ip0
      |k cs0 ip0|k|k t0|k|k sock|k|] eqn:Hpc; try done; try (by destruct ok).
  1: by eapply called_accept.
  1: injection E as <-; eapply called_same; [exact Hc|eauto|intros; unfold reserving; by rewrite ?Hpc..].
  1: injection E as <-; destruct (sockets_close cs0 b) as (Hs & _);
     eapply called_same; [exact Hc|cbn; rewrite Hs; eauto|intros; unfold reserving; by rewrite ?Hpc..].
  1: { injection E as <-. rewrite Hcut by done. destruct (sockets_close old_s b) as (Hs & _).
    destruct (decide (i = k)) as [<-|Hne].
    - destruct Hc as [(c & _ & _ & Hr)|[(? & ? & ? & E')|(? & ? & ? & E' & _)]]; [|rewrite Hpc in E'; injection E' as -> -> -> ->|congruence].
      { unfold reserving in Hr. rewrite Hpc, bool_decide_eq_true_2 in Hr; done. }
      right; right. eexists _, _, _. split; [done|]. cbn. unfold close_socket.
      assert (SOCKET_OK x = true) as Hok by (unfold SOCKET_OK; lia). rewrite Hok. cbn.
      split; [set_solver|]. by eapply Hold.
    - eapply (called_slot b _ k id); [exact Hc|done|cbn; by rewrite Hs, alter_same| |by intros j' [= ->]].
      rewrite Hpc. by intros j' [= ->]. }
  1: { assert (i <> k /\ b' = set_pc (Initializing k cs0 ip0) b) as [Hne ->].
    { unfold owner in Ho. rewrite Hpc in Ho. destruct j as [t1|].
      - destruct (threads b !! t1) as [[i1 [| | |]]|] eqn:Et; try done. injection E as <-. split; [|done].
        intros <-. case_decide; [|done]. congruence.
      - injection E as <-. split; [|done]. intros <-. case_decide; done. }
    eapply (called_slot b _ k id); [exact Hc|done|by rewrite alter_same| |by intros j' [= ->]].
    rewrite Hpc. by intros j' [= ->]. }
  1: specialize (Hbusy k eq_refl); destruct ok; injection E as <-;
     (eapply (called_slot b _ k _); [exact Hc|done|done|rewrite Hpc; by intros j' [= ->]|by intros j' [= ->]]).
  1: specialize (Hbusy k eq_refl); injection E as <-;
     (eapply (called_slot b _ k _); [exact Hc|done|done|rewrite Hpc; by intros j' [= ->]|by intros j' [= ->]]).
  1: specialize (Hbusy k eq_refl); destruct ok; injection E as <-;
     (eapply (called_slot b _ k _); [exact Hc|done| |rewrite Hpc; by intros j' [= ->]|by intros j' [= ->]]);
     [done|by rewrite (alter_same k)].
  2: destruct (slots b !! k); [|done].
  2,4: specialize (Hbusy k eq_refl); injection E as <-;
     (eapply (called_slot b _ k _); [exact Hc|done|done|rewrite Hpc; by intros j' [= ->]|by intros j' [= ->]]).
  2: { specialize (Hbusy k eq_refl). injection E as <-. destruct (sockets_close sock b) as (Hs & _).
    eapply (called_slot b _ k id); [exact Hc|done|cbn; by rewrite Hs, alter_same|rewrite Hpc; by intros j' [= ->]|by intros j' [= ->]]. }
  injection E as <-. eapply called_same; [exact Hc| |intros; unfold reserving; by rewrite ?Hpc..].
  intros c0 Hc0. cbn. rewrite upd_lookup, Hc0. case_decide; [by eexists|by exists c0].
Qed.
End accept.

(** Nor does an action of another thread. *)
Lemma called_exec_thread b b' cut t t' i x :
  Inv b -> exec_thread t' b = Some b' -> t' <> t -> threads b !! t = Some (i, Running) ->
  called b cut i x -> called b' cut i x /\ threads b' !! t = Some (i, Running).
Proof.
  intros HI E Hne Ht Hc. destruct (inv_thread _ HI _ _ _ Ht) as (Ho & _); [done|]. unfold exec_thread in E.
  destruct (threads b !! t') as [[k pc]|] eqn:Ht'; [|done]. cbn [mbind option_bind] in E.
  assert (pc <> Done -> i <> k) as Hik.
  { intros Hlive <-. destruct (inv_thread _ HI _ _ _ Ht' Hlive) as (Ho' & _). congruence. }
  assert (forall pc' f S, i <> k ->
    called (mk_state (alter f k (slots b)) (accept_pc b) (<[t' := (k, pc')]> (threads b)) S) cut i x ->
    called (mk_state (alter f k (slots b)) (accept_pc b) (<[t' := (k, pc')]> (threads b)) S) cut i x /\
    (<[t' := (k, pc')]> (threads b) : list _) !! t = Some (i, Running)) as Hboth.
  { intros. split; [done|]. by rewrite list_lookup_insert_ne. }
  assert (forall pc' f S, i <> k -> S ⊆ sockets b ->
    called (mk_state (alter f k (slots b)) (accept_pc b) (<[t' := (k, pc')]> (threads b)) S) cut i x) as Hcalled.
  { intros pc' f S Hk HS. destruct Hc as [(c & Hc & Hx & Hr)|[Hc|(cs & ip & j & Hpc & Hout & Hcut)]].
    - left. exists c. cbn. rewrite upd_lookup. by case_decide; [congruence|].
    - by right; left.
    - right; right. exists cs, ip, j. split; [done|]. split; [|done]. cbn. set_solver. }
  destruct pc as [|sock| |]; [| | |done].
  - destruct (slots b !! k) as [c|]; [|done]. injection E as <-. apply Hboth, Hcalled; auto.
  - specialize (Hik ltac:(done)). injection E as <-.
    assert (close_socket sock b = mk_state (alter id k (slots b)) (accept_pc b) (threads b) (sockets (close_socket sock b))) as ->.
    { rewrite alter_same. unfold close_socket. destruct b. by destruct (SOCKET_OK sock). }
    apply Hboth, Hcalled; auto. unfold close_socket. destruct (SOCKET_OK sock); cbn; set_solver.
  - injection E as <-. apply Hboth, Hcalled; auto.
Qed.

Lemma exec_thread_inv t' b b' : exec_thread t' b = Some b' -> exists k pc pc',
  threads b !! t' = Some (k, pc) /\ threads b' = <[t' := (k, pc')]> (threads b) /\
  accept_pc b' = accept_pc b /\
  match pc, pc' with Running, Closing _ | Closing _, Releasing | Releasing, Done => True | _, _ => False end.
Proof.
  unfold exec_thread. destruct (threads b !! t') as [[k pc]|]; [|done]. cbn [mbind option_bind].
  intros E. destruct pc as [|sock| |]; [destruct (slots b !! k) as [c|]; [|done]| | |done]; injection E as <-;
    [exists k, Running, (Closing (sl_s c))|exists k, (Closing sock), Releasing|exists k, Releasing, Done]; try done.
  destruct (sockets_close sock b) as (_ & Hs & Hp). cbn. by rewrite Hs, Hp.
Qed.

Record FInv (σ : fstate) : Prop := {
  fi_base : Inv (base σ);
  fi_acts : length (acts σ) = length (threads (base σ));
  fi_accept b : mutex σ = Some (PAccept, b) ->
    match accept_pc (base σ) with Joining _ _ _ _ => False | _ => True end;
  fi_thread t : mutex σ = Some (PThread t, false) -> wants (PThread t) σ = true;
  fi_wait t x : acts σ !! t = Some (Waiting x) -> 0 <= x;
  fi_called t i x : threads (base σ) !! t = Some (i, Running) ->
    acts σ !! t = Some (Calling x) \/ acts σ !! t = Some (Waiting x) -> 0 <= x -> called (base σ) (cut σ) i x;
}.

Lemma finv_initial : FInv finitial.
Proof. split; try done. apply inv_initial. Qed.

Lemma enter_Some p crit σ m : enter p crit σ = Some m ->
  crit = true /\ mutex σ = Some (p, false) /\ m = Some (p, true) \/
  crit = false /\ m = mutex σ /\ forall b, mutex σ <> Some (p, b).
Proof.
  unfold enter. destruct (mutex σ) as [[q d]|]; [case_decide as Hq; [subst q; destruct d|]|];
    destruct crit; cbn; intros [= <-]; try (by left); right; (split; [done|]); (split; [done|]); intros b; congruence.
Qed.

(** A step that leaves the program's state alone, and of the activities at most
    that of one thread, which is not at a lock. *)
Lemma finv_same σ σ' t a :
  FInv σ -> base σ' = base σ -> acts σ' = <[t := a]> (acts σ) -> mutex σ' = mutex σ ->
  wants (PThread t) σ = false -> cut σ ⊆ cut σ' ->
  (forall i x, threads (base σ) !! t = Some (i, Running) -> a = Calling x \/ a = Waiting x -> 0 <= x ->
     called (base σ) (cut σ) i x) ->
  (forall x, a = Waiting x -> 0 <= x) -> FInv σ'.
Proof.
  intros [HI Hlen Hacc Hthr Hwait Hcall] Hb Ha Hm Hw Hcut Hnew Hnw.
  assert (forall t' a', acts σ' !! t' = Some a' -> t' = t /\ a' = a \/ acts σ !! t' = Some a') as Hact.
  { intros t' a'. rewrite Ha. destruct (decide (t' = t)) as [->|]; [|rewrite list_lookup_insert_ne by done; auto].
    intros E. pose proof (lookup_lt_Some _ _ _ E) as Hlt. rewrite length_insert in Hlt.
    rewrite list_lookup_insert_eq in E by done. injection E as <-. auto. }
  split; rewrite ?Hb, ?Hm; try done.
  - by rewrite Ha, length_insert.
  - intros t' E. pose proof (Hthr _ E) as Hw'. assert (t' <> t) as Hne by congruence.
    unfold wants in *. by rewrite Hb, Ha, list_lookup_insert_ne by done.
  - intros t' x [[_ E]|E]%Hact; eauto.
  - intros t' i x Ht E Hx.
    assert (called (base σ) (cut σ) i x) as Hc.
    { destruct E as [E|E]; apply Hact in E as [[-> E]|E]; eauto. }
    destruct Hc as [?|[?|(cs & ip & j & ? & ? & ?)]]; [by left|by right; left|].
    right; right. exists cs, ip, j. split; [done|]. split; [done|set_solver].
Qed.

Section invariant.
Variables whitelist_start whitelist_end : Z.
Abbreviation exec := (exec whitelist_start whitelist_end).
Abbreviation fexec := (fexec whitelist_start whitelist_end).

Lemma no_thread σ : FInv σ -> wants (PThread (length (acts σ))) σ = false /\
  forall i, threads (base σ) !! length (acts σ) <> Some (i, Running).
Proof.
  intros HF. assert (threads (base σ) !! length (acts σ) = None) as E.
  { apply lookup_ge_None_2. by rewrite (fi_acts _ HF). }
  unfold wants. by rewrite E.
Qed.

(** ... and of the activities nothing. *)
Lemma finv_idle σ σ' :
  FInv σ -> base σ' = base σ -> acts σ' = acts σ -> mutex σ' = mutex σ -> cut σ ⊆ cut σ' -> FInv σ'.
Proof.
  intros HF Hb Ha Hm Hcut. destruct (no_thread σ HF) as [Hw Hn].
  eapply (finv_same σ σ' (length (acts σ)) Working); try done.
  - by rewrite Ha, list_insert_ge.
  - intros i x E. by destruct (Hn i).
Qed.

Lemma finv_act σ t a i :
  FInv σ -> threads (base σ) !! t = Some (i, Running) -> acts σ !! t <> Some Leaving ->
  (forall x, a = Calling x \/ a = Waiting x -> 0 <= x -> called (base σ) (cut σ) i x) ->
  (forall x, a = Waiting x -> 0 <= x) -> FInv (set_act t a σ).
Proof.
  intros HF Ht Ha Hc Hw. eapply (finv_same σ _ t a); try done.
  - unfold wants. rewrite Ht. by apply bool_decide_eq_false_2.
  - intros i' x E. rewrite Ht in E. injection E as <-. apply Hc.
Qed.

Lemma finv_mutex σ m :
  FInv σ -> (forall p b, m = Some (p, b) -> b = false /\ wants p σ = true) -> FInv (set_mutex m σ).
Proof.
  intros [HI Hlen Hacc Hthr Hwait Hcall] Hm. split; try done; cbn.
  - intros b [-> Hw]%Hm. unfold wants in Hw. by destruct (accept_pc (base σ)).
  - intros t [_ Hw]%Hm. exact Hw.
Qed.

Lemma exec_threads l b b' : exec l b = Some b' -> (forall t, l <> LThread t) ->
  exists i, threads b' = match l with LStart true => threads b ++ [(i, Running)] | _ => threads b end.
Proof.
  intros E Hl. destruct l as [cs ip| | | | |[]| |[]| | |t]; [| | | | | | | | | | | |by destruct (Hl t)];
    unfold Slots.exec in E;
    destruct (accept_pc b) as [|cs0|k cs0 ip0 old_s [t|]|k cs0 ip0 [t|]|k cs0 ip0|k cs0 ip0|k|k t|k|k sock|k|]; try done;
    try (injection E as <-; (by exists k) || (exists 0%nat; done || apply sockets_close)).
  - unfold exec_accept, take_slot in E. case_decide; [|done].
    exists 0%nat. destruct (pick_slot _ _ _ _); try (by injection E as <-);
      cbn in E; destruct (_ !! i); try done; by injection E as <-.
  - destruct (threads b !! t) as [[? []]|]; try done. injection E as <-. by exists 0%nat.
  - destruct (slots b !! k); [|done]. injection E as <-. by exists 0%nat.
Qed.

(** The accept loop does not join inside a critical section. *)
Lemma finv_accept σ l σ' :
  FInv σ -> accept_action whitelist_start whitelist_end l σ = Some σ' -> FInv σ'.
Proof.
  intros [HI Hlen Hacc Hthr Hwait Hcall] (m & Hf & Hm%enter_Some & E & Em & Ea & Ec)%accept_action_inv.
  assert (forall t, l <> LThread t) as Hl by (by intros t ->).
  assert (forall t a, acts σ' !! t = Some a -> acts σ !! t = Some a \/ a = Working) as Hact.
  { intros t a. rewrite Ea. destruct l as [| | | | | | |[]| | |]; auto.
    rewrite lookup_app_Some, list_lookup_singleton_Some. intros [|[_ [_ <-]]]; auto. }
  assert (forall t x, threads (base σ) !! t = Some x ->
    threads (base σ') !! t = Some x /\ acts σ' !! t = acts σ !! t) as Hold.
  { intros t x Ht. pose proof (lookup_lt_Some _ _ _ Ht) as Hlt.
    destruct (exec_threads _ _ _ E Hl) as (i & ->). rewrite Ea.
    destruct l as [| | | | | | |[]| | |]; try done. by rewrite !lookup_app_l by lia. }
  split.
  - by eapply inv_exec.
  - destruct (exec_threads _ _ _ E Hl) as (i & ->). rewrite Ea.
    destruct l as [| | | | | | |[]| | |]; try done. by rewrite !length_app, Hlen.
  - intros b Eb. rewrite Em in Eb. destruct Hm as [(Hcrit & _ & _)|(_ & -> & Hm)]; [|by destruct (Hm b)].
    destruct l as [cs ip| | | | |[]| |[]| | |t]; try done; unfold Slots.exec in E;
      destruct (accept_pc (base σ)) as [|cs0|k cs0 ip0 old_s j|k cs0 ip0 j|k cs0 ip0|k cs0 ip0|k|k t0|k|k sock|k|]; try done.
    + unfold exec_accept, take_slot in E. case_decide; [|done].
      destruct (pick_slot _ _ _ _); try (by injection E as <-);
        cbn in E; destruct (_ !! i); try done; by injection E as <-.
    + by injection E as <-.
    + destruct (slots (base σ) !! k); [|done]. by injection E as <-.
    + by injection E as <-.
  - intros t Et. rewrite Em in Et. destruct Hm as [(_ & _ & ->)|(_ & -> & _)]; [done|].
    specialize (Hthr t Et). unfold wants in *. destruct (threads (base σ) !! t) as [x|] eqn:Ht; [|done].
    destruct (Hold t x Ht) as [-> ->]. done.
  - intros t x [E'|]%Hact; [by eapply Hwait|done].
  - intros t i x Ht E' Hx.
    assert (acts σ !! t = Some (Calling x) \/ acts σ !! t = Some (Waiting x)) as E0.
    { destruct E' as [E'|E']; apply Hact in E' as [|]; auto; done. }
    assert (threads (base σ) !! t = Some (i, Running)) as Ht0.
    { destruct (threads (base σ) !! t) as [y|] eqn:Hy; [destruct (Hold t y Hy); congruence|].
      apply lookup_ge_None in Hy. destruct E0 as [E0|E0]; apply lookup_lt_Some in E0; lia. }
    eapply called_exec; [exact HI|exact E|exact Ht0|done|by eapply Hcall|done| |].
    + intros Hn. rewrite Ec. destruct l; try done. by edestruct Hn.
    + intros k cs ip old j -> Hpc Hok. unfold follows in Hf. rewrite Hpc, Hok in Hf.
      by apply bool_decide_eq_true in Hf.
Qed.

Lemma finv_thread σ t σ' : FInv σ -> thread_action t σ = Some σ' -> FInv σ'.
Proof.
  intros HF (i & pc & a & Ht & Ha & [(a' & -> & -> & Hne & Hact)|(m & b & Hrun & Hm%enter_Some & E & ->)])%thread_action_inv.
  - assert (acts σ !! t <> Some Leaving) as Hnl by congruence.
    destruct a as [|x|x|]; [| |subst a'|done].
    + destruct Hact as (c & Hc & ->). destruct (inv_thread _ (fi_base _ HF) _ _ _ Ht) as (_ & c' & Hc' & Hconn & Hs); [done|].
      assert (c' = c) as -> by congruence.
      apply (finv_act σ t _ i HF Ht Hnl); [|done]. intros x [[= <-]|] Hx; [|done].
      left. exists c. split; [done|]. split; [done|]. destruct (reserving (base σ) i); [|done].
      specialize (Hs (or_introl eq_refl)). rewrite Hs in Hx. done.
    + destruct Hact as [->|(-> & Hx & Hin)]; apply (finv_act σ t _ i HF Ht Hnl).
      * by intros y [|].
      * done.
      * intros y [|[= <-]] Hy; [done|]. apply (fi_called _ HF t i x Ht); auto.
      * by intros y [= <-].
    + apply (finv_act σ t _ i HF Ht Hnl); [by intros y [|]|done].
  - destruct HF as [HI Hlen Hacc Hthr Hwait Hcall].
    destruct (exec_thread_inv _ _ _ E) as (k & pc0 & pc' & Ht0 & Eth & Epc & Hpc0).
    assert (k = i /\ pc0 = pc) as [-> ->] by (split; congruence).
    assert (pc' <> Running) as Hpc' by (by destruct pc, pc').
    split; cbn [base acts mutex cut].
    + by eapply inv_exec_thread.
    + by rewrite Eth, length_insert.
    + intros d Ed. rewrite Epc. destruct Hm as [(_ & _ & ->)|(_ & -> & _)]; [done|by eapply Hacc].
    + intros t' Ed. destruct Hm as [(_ & _ & ->)|(_ & -> & Hn)]; [done|].
      assert (t' <> t) as Hne by (intros ->; by destruct (Hn false)).
      specialize (Hthr t' Ed). unfold wants in *. cbn [base acts]. by rewrite Eth, list_lookup_insert_ne.
    + exact Hwait.
    + intros t' i' x Ht' Ea Hx. destruct (decide (t' = t)) as [->|Hne].
      * rewrite Eth, list_lookup_insert_eq in Ht' by (by eapply lookup_lt_Some). congruence.
      * rewrite Eth, list_lookup_insert_ne in Ht' by done.
        eapply called_exec_thread; [exact HI|exact E|done|exact Ht'|by eapply Hcall].
Qed.

Lemma finv_exec l σ σ' : FInv σ -> fexec l σ = Some σ' -> FInv σ'.
Proof.
  intros HF E. destruct l as [cs ip|l| |t|t|t ok|p|p]; cbn [Blocking.fexec] in E.
  - destruct (accept_pc (base σ)), (pending σ); try done. case_decide; [|done].
    destruct (enter _ _ _) as [m|] eqn:Hm; [|done]. injection E as <-.
    apply enter_Some in Hm as [(? & _)|(_ & -> & _)]; [done|]. by apply (finv_idle σ).
  - by eapply finv_accept.
  - destruct (accept_pc (base σ)); try done. destruct (SOCKET_OK _); [|done].
    destruct (enter _ _ _) as [m|] eqn:Hm; [|done]. injection E as <-.
    apply enter_Some in Hm as [(? & _)|(_ & -> & _)]; [done|]. apply (finv_idle σ); cbn; try done. set_solver.
  - by eapply finv_thread.
  - destruct (threads (base σ) !! t) as [[i []]|] eqn:Ht, (acts σ !! t) as [[]|] eqn:Ha; try done.
    injection E as <-. apply (finv_act σ t _ i); try done; [congruence|by intros x [|]].
  - destruct (threads (base σ) !! t) as [[i []]|] eqn:Ht, (acts σ !! t) as [[]|] eqn:Ha; try done.
    injection E as <-. destruct ok; (apply (finv_act σ t _ i); try done; [congruence|by intros y [|]]).
  - destruct (mutex σ); [done|]. destruct (wants p σ) eqn:Hw; [|done]. injection E as <-.
    apply finv_mutex; [done|]. by intros p' b [= <- <-].
  - case_decide; [|done]. injection E as <-. by apply finv_mutex.
Qed.

Lemma finv_run ls σ σ' : FInv σ -> frun whitelist_start whitelist_end ls σ = Some σ' -> FInv σ'.
Proof.
  revert σ; induction ls as [|l ls IH]; intros σ HF; cbn; [by intros [= <-]|].
  destruct (fexec l σ) as [σ1|] eqn:E; [|done]. cbn. apply IH. by eapply finv_exec.
Qed.
End invariant.

(** ** The join *)

(** What a thread whose slot has lost its socket has left to do. *)
Definition rank (pc : tpc) (a : act) : nat :=
  match pc, a with
  | Running, Waiting _ => 6
  | Running, Working => 5
  | Running, Calling _ => 4
  | Running, Leaving => 3
  | Closing _, _ => 2
  | Releasing, _ => 1
  | Done, _ => 0
  end.

Definition remaining_steps (t : nat) (σ : fstate) : nat :=
  match threads (base σ) !! t, acts σ !! t with
  | Some (_, pc), Some a => 3 * rank pc a
  | _, _ => 0
  end + (if decide (mutex σ = Some (PThread t, false)) then 0
         else if decide (mutex σ = Some (PThread t, true)) then 2 else 1).

Section join.
Variables whitelist_start whitelist_end : Z.
Abbreviation fexec := (fexec whitelist_start whitelist_end).
Abbreviation frun := (frun whitelist_start whitelist_end).
Variables (i : nat) (cs ip : Z) (t : nat).

(** The accept loop waits for thread [t]. *)
Definition joining (σ : fstate) : Prop := FInv σ /\ accept_pc (base σ) = Joining i cs ip (Some t).

Lemma joining_thread σ : joining σ -> exists pc a, threads (base σ) !! t = Some (i, pc) /\ acts σ !! t = Some a.
Proof.
  intros [HF Hpc]. assert (owner (base σ) i = Some t) as Ho.
  { unfold owner. rewrite Hpc. by case_decide. }
  destruct (inv_owner _ (fi_base _ HF) _ _ Ho) as (pc & Ht).
  destruct (lookup_lt_is_Some_2 (acts σ) t) as [a Ha]; [|by exists pc, a].
  rewrite (fi_acts _ HF). by eapply lookup_lt_Some.
Qed.

(** Its slot has no socket, and the one it waits on is shut down. *)
Lemma joining_cut σ x : joining σ -> threads (base σ) !! t = Some (i, Running) ->
  acts σ !! t = Some (Calling x) \/ acts σ !! t = Some (Waiting x) -> 0 <= x ->
  x ∉ sockets (base σ) /\ x ∈ cut σ.
Proof.
  intros [HF Hpc] Ht Ha Hx.
  destruct (fi_called _ HF _ _ _ Ht Ha Hx) as [(c & _ & _ & Hr)|[(? & ? & ? & E)|(? & ? & ? & _ & Hs)]];
    [|congruence|done].
  unfold reserving in Hr. rewrite Hpc, bool_decide_eq_true_2 in Hr; done.
Qed.

(** A step of another party leaves it to do what it had to do. *)
Lemma remaining_other σ σ' :
  threads (base σ') !! t = threads (base σ) !! t -> acts σ' !! t = acts σ !! t ->
  (forall b, mutex σ' = Some (PThread t, b) <-> mutex σ = Some (PThread t, b)) ->
  remaining_steps t σ' = remaining_steps t σ.
Proof.
  intros Ht Ha Hm. unfold remaining_steps. rewrite Ht, Ha. f_equal.
  by repeat case_decide; rewrite ?Hm in *.
Qed.

Lemma remaining_act σ t' k a a' :
  threads (base σ) !! t' = Some (k, Running) -> acts σ !! t' = Some a -> (rank Running a' < rank Running a)%nat ->
  (remaining_steps t (set_act t' a' σ) + (if bool_decide (t' = t) then 1 else 0) <= remaining_steps t σ)%nat.
Proof.
  intros Ht Ha Hr. pose proof (lookup_lt_Some _ _ _ Ha) as Hl. case_bool_decide as Hd; [subst t'|].
  - unfold remaining_steps. cbn [set_act base acts mutex]. rewrite Ht, list_lookup_insert_eq, Ha by done. lia.
  - rewrite (remaining_other σ); [lia|done| |done]. cbn. by rewrite list_lookup_insert_ne.
Qed.

(** Its own steps bring it nearer to its end. *)
Lemma remaining_thread σ σ' :
  joining σ -> fexec (FThread t) σ = Some σ' -> (remaining_steps t σ' < remaining_steps t σ)%nat.
Proof.
  intros HJ (k & pc & a & Ht & Ha & Hcase)%thread_action_inv.
  destruct (joining_thread _ HJ) as (pc0 & a0 & Ht0 & Ha0).
  assert (k = i /\ pc0 = pc /\ a0 = a) as (-> & -> & ->) by (repeat split; congruence).
  pose proof (lookup_lt_Some _ _ _ Ht) as Hlt. pose proof (lookup_lt_Some _ _ _ Ha) as Hla.
  unfold remaining_steps. rewrite Ht, Ha.
  destruct Hcase as [(a' & -> & -> & Hne & Hact)|(m & b & Hrun & Hm%enter_Some & E & ->)].
  - cbn [base acts mutex set_act]. rewrite Ht, list_lookup_insert_eq by done.
    apply Nat.add_lt_mono_r. destruct a as [|x|x|]; [|destruct Hact as [->|(-> & Hx & Hin)]|subst a'|done]; cbn; try lia.
    + destruct Hact as (c & _ & ->). cbn. lia.
    + destruct (joining_cut σ x HJ Ht (or_introl Ha) Hx). done.
  - destruct (exec_thread_inv _ _ _ E) as (k & pc0 & pc' & Ht' & Eth & _ & Hpc').
    assert (k = i /\ pc0 = pc) as [-> ->] by (split; congruence).
    cbn [base acts mutex]. rewrite Eth, list_lookup_insert_eq, Ha by done.
    assert (rank pc' a < rank pc a)%nat.
    { destruct pc, pc'; try done; cbn; try lia. rewrite (Hrun eq_refl). lia. }
    destruct Hm as [(_ & -> & ->)|(_ & -> & Hn)]; repeat case_decide; try done; try lia; by edestruct Hn.
Qed.

Lemma remaining_exec l σ σ' :
  joining σ -> fexec l σ = Some σ' -> accept_pc (base σ') = Joining i cs ip (Some t) ->
  (remaining_steps t σ' + (if of_thread t l then 1 else 0) <= remaining_steps t σ)%nat.
Proof.
  intros HJ E Hpc'. pose proof HJ as [HF Hpc]. destruct (joining_thread _ HJ) as (pc & a & Ht & Ha).
  destruct l as [cs0 ip0|l| |t'|t'|t' ok|p|p]; cbn [of_thread]; [cbn [Blocking.fexec] in E..].
  - by rewrite Hpc in E.
  - apply accept_action_inv in E as (m & Hf & _ & E & _). unfold exec in E. rewrite Hpc in E.
    destruct l as [| | | | |[]| |[]| | |]; try done.
    destruct (threads (base σ) !! t) as [[k []]|]; try done. injection E as E. by rewrite <- E in Hpc'.
  - by rewrite Hpc in E.
  - case_bool_decide as Hd; [subst t'|].
    { pose proof (remaining_thread σ σ' HJ E). lia. }
    rewrite (remaining_other σ σ'); [lia|..].
    all: apply thread_action_inv in E as (k & pc1 & a1 & Ht1 & Ha1 & [(a' & _ & -> & _)|(m & b & _ & Hm%enter_Some & E & ->)]).
    + done.
    + destruct (exec_thread_inv _ _ _ E) as (k' & pc0 & pc' & _ & Eth & _). cbn. by rewrite Eth, list_lookup_insert_ne.
    + cbn. by rewrite list_lookup_insert_ne.
    + done.
    + done.
    + cbn. intros d. destruct Hm as [(_ & -> & ->)|(_ & -> & _)]; [|done]. split; congruence.
  - destruct (threads (base σ) !! t') as [[k []]|] eqn:Ht', (acts σ !! t') as [[]|] eqn:Ha'; try done.
    injection E as <-. eapply remaining_act; [exact Ht'|exact Ha'|cbn; lia].
  - destruct (threads (base σ) !! t') as [[k []]|] eqn:Ht', (acts σ !! t') as [[]|] eqn:Ha'; try done.
    injection E as <-. eapply remaining_act; [exact Ht'|exact Ha'|destruct ok; cbn; lia].
  - destruct (mutex σ) eqn:Em; [done|]. destruct (wants p σ); [|done]. injection E as <-.
    destruct p as [|t']; [|case_bool_decide as Hd; [subst t'|]].
    + rewrite (remaining_other σ); [lia|done..|]. cbn. rewrite Em. done.
    + unfold remaining_steps. cbn. rewrite Em, Ht, Ha. repeat case_decide; done || lia.
    + rewrite (remaining_other σ); [lia|done..|]. cbn. rewrite Em. intros d. split; congruence.
  - case_decide as Em; [|done]. injection E as <-.
    destruct p as [|t']; [|case_bool_decide as Hd; [subst t'|]].
    + rewrite (remaining_other σ); [lia|done..|]. cbn. rewrite Em. done.
    + unfold remaining_steps. cbn. rewrite Em, Ht, Ha. repeat case_decide; done || lia.
    + rewrite (remaining_other σ); [lia|done..|]. cbn. rewrite Em. intros d. split; congruence.
Qed.
(** As long as no other thread is in a critical section, it can take a step. *)
Definition unhindered (σ : fstate) : Prop :=
  mutex σ = None \/ exists b, mutex σ = Some (PThread t, b).

Lemma exec_thread_live σ t' k pc :
  FInv σ -> threads (base σ) !! t' = Some (k, pc) -> pc <> Done -> exists b, exec_thread t' (base σ) = Some b /\
    accept_pc b = accept_pc (base σ).
Proof.
  intros HF Ht Hlive. destruct (inv_thread _ (fi_base _ HF) _ _ _ Ht Hlive) as (_ & c & Hc & _).
  assert (exists b, exec_thread t' (base σ) = Some b) as (b & E).
  { unfold exec_thread. rewrite Ht. cbn [mbind option_bind]. destruct pc; [rewrite Hc|..]; [by eexists..|done]. }
  destruct (exec_thread_inv _ _ _ E) as (? & ? & ? & _ & _ & Hpc & _). by exists b.
Qed.

(** A thread that has the lock is not held up in its critical section. *)
Lemma in_section σ t' :
  FInv σ -> mutex σ = Some (PThread t', false) -> exists σ', fexec (FThread t') σ = Some σ' /\
    accept_pc (base σ') = accept_pc (base σ) /\ mutex σ' = Some (PThread t', true).
Proof.
  intros HF Hm. pose proof (fi_thread _ HF t' Hm) as Hw. unfold wants in Hw.
  destruct (threads (base σ) !! t') as [[k pc]|] eqn:Ht; [|done].
  destruct (lookup_lt_is_Some_2 (acts σ) t') as [a Ha].
  { rewrite (fi_acts _ HF). by eapply lookup_lt_Some. }
  destruct (exec_thread_live σ t' k pc HF Ht) as (b & Eb & Hb); [by destruct pc|].
  assert (enter (PThread t') true σ = Some (Some (PThread t', true))) as Hen.
  { unfold enter. by rewrite Hm, decide_True. }
  exists (mk_fstate b (acts σ) (Some (PThread t', true)) (pending σ) (cut σ)). split; [|done].
  cbn. unfold thread_action. rewrite Ht, Ha. cbn [mbind option_bind]. destruct pc; try done.
  - apply bool_decide_eq_true in Hw. assert (a = Leaving) as -> by congruence. by rewrite Hen, Eb.
  - by rewrite Hen, Eb.
Qed.

Lemma thread_step σ pc a :
  joining σ -> unhindered σ -> threads (base σ) !! t = Some (i, pc) -> acts σ !! t = Some a ->
  pc <> Done \/ mutex σ <> None ->
  exists l σ', by_threads l /\ of_thread t l = true /\ fexec l σ = Some σ' /\
    accept_pc (base σ') = accept_pc (base σ) /\ unhindered σ'.
Proof.
  intros HJ Hm Ht Ha Hlive. pose proof HJ as [HF _].
  destruct Hm as [Hm|([] & Hm)].
  - destruct pc as [|sock| |]; [destruct a as [|x|x|]| | |naive_solver].
    + destruct (inv_thread _ (fi_base _ HF) _ _ _ Ht) as (_ & c & Hc & _); [done|].
      eexists (FThread t), _. split; [done|]. split; [by apply bool_decide_eq_true|]. cbn. unfold thread_action.
      rewrite Ht, Ha. cbn [mbind option_bind]. rewrite Hc. split; [done|]. split; [done|]. by left.
    + eexists (FThread t), _. split; [done|]. split; [by apply bool_decide_eq_true|]. cbn. unfold thread_action.
      rewrite Ht, Ha. split; [done|]. split; [done|]. by left.
    + eexists (FThread t), _. split; [done|]. split; [by apply bool_decide_eq_true|]. cbn. unfold thread_action.
      rewrite Ht, Ha. cbn [mbind option_bind].
      destruct (joining_cut σ x HJ Ht (or_intror Ha)) as [_ Hcut]; [by eapply fi_wait|].
      rewrite bool_decide_eq_true_2 by done. split; [done|]. split; [done|]. by left.
    + exists (FLock (PThread t)), (set_mutex (Some (PThread t, false)) σ). split; [done|].
      split; [by apply bool_decide_eq_true|]. cbn. rewrite Hm, Ht, Ha, bool_decide_eq_true_2 by done.
      split; [done|]. split; [done|]. right. by exists false.
    + destruct (exec_thread_live σ t i (Closing sock) HF Ht) as (b & Eb & Hb); [done|].
      eexists (FThread t), _. split; [done|]. split; [by apply bool_decide_eq_true|]. cbn. unfold thread_action, enter.
      rewrite Ht, Ha, Hm. cbn [mbind option_bind]. rewrite Eb. split; [done|]. split; [done|]. by left.
    + exists (FLock (PThread t)), (set_mutex (Some (PThread t, false)) σ). split; [done|].
      split; [by apply bool_decide_eq_true|]. cbn. rewrite Hm, Ht. split; [done|]. split; [done|]. right. by exists false.
  - exists (FUnlock (PThread t)), (set_mutex None σ). split; [done|]. split; [by apply bool_decide_eq_true|].
    cbn. rewrite decide_True by done. split; [done|]. split; [done|]. by left.
  - destruct (in_section σ t HF Hm) as (σ' & E & Hpc & Hm'). exists (FThread t), σ'. split; [done|].
    split; [by apply bool_decide_eq_true|]. split; [done|]. split; [done|]. right. by exists true.
Qed.

(** Nothing but the end of the wait moves the accept loop. *)
Lemma joining_stays l σ σ' :
  joining σ -> fexec l σ = Some σ' -> l <> FAccept LJoin -> accept_pc (base σ') = Joining i cs ip (Some t).
Proof.
  intros [_ Hpc] E Hl. rewrite <- Hpc.
  destruct l as [cs0 ip0|l| |t'|t'|t' ok|p|p]; cbn [Blocking.fexec] in E.
  - by rewrite Hpc in E.
  - apply accept_action_inv in E as (m & Hf & _ & E & _). unfold exec in E. rewrite Hpc in E.
    by destruct l as [| | | | |[]| |[]| | |].
  - by rewrite Hpc in E.
  - apply thread_action_inv in E as (k & pc1 & a1 & _ & _ & [(a' & _ & -> & _)|(m & b & _ & _ & E & ->)]); [done|].
    by destruct (exec_thread_inv _ _ _ E) as (? & ? & ? & _ & _ & ? & _).
  - destruct (threads (base σ) !! t') as [[k []]|], (acts σ !! t') as [[]|]; try done. by injection E as <-.
  - destruct (threads (base σ) !! t') as [[k []]|], (acts σ !! t') as [[]|]; try done. by injection E as <-.
  - destruct (mutex σ); [done|]. destruct (wants p σ); [|done]. by injection E as <-.
  - case_decide; [|done]. by injection E as <-.
Qed.

Lemma joining_exec l σ σ' : joining σ -> fexec l σ = Some σ' -> accept_pc (base σ') = accept_pc (base σ) -> joining σ'.
Proof. intros [HF Hpc] E Hpc'. split; [by eapply finv_exec|congruence]. Qed.

(** By its own steps it gets to its end. *)
Lemma thread_finishes n σ :
  (remaining_steps t σ <= n)%nat -> joining σ -> unhindered σ -> exists ls σ', Forall by_threads ls /\ frun ls σ = Some σ' /\
    joining σ' /\ mutex σ' = None /\ threads (base σ') !! t = Some (i, Done).
Proof.
  revert σ; induction n as [|n IH]; intros σ Hn HJ Hu; destruct (joining_thread _ HJ) as (pc & a & Ht & Ha);
    (destruct (decide (pc = Done /\ mutex σ = None)) as [[-> Hm]|Hlive]; [by exists [], σ|]);
    (destruct (thread_step σ pc a HJ Hu Ht Ha) as (l & σ1 & Hl & Hof & E & Hpc & Hu1);
      [destruct (decide (pc = Done)); [right|left]; naive_solver|]);
    pose proof (joining_exec _ _ _ HJ E Hpc) as HJ1;
    pose proof (remaining_exec l σ σ1 HJ E (proj2 HJ1)) as Hr; rewrite Hof in Hr; [lia|].
  destruct (IH σ1) as (ls & σ2 & Hls & Er & Hend); [lia|done|done|].
  exists (l :: ls), σ2. split; [by constructor|]. split; [|done]. cbn. by rewrite E.
Qed.

(** Another thread leaves its critical section by itself. *)
Lemma mutex_released σ :
  joining σ -> exists ls σ', Forall by_threads ls /\ frun ls σ = Some σ' /\ joining σ' /\ unhindered σ'.
Proof.
  intros HJ. pose proof HJ as [HF Hpc].
  assert (forall σ t', joining σ -> mutex σ = Some (PThread t', true) ->
    frun [FUnlock (PThread t')] σ = Some (set_mutex None σ) /\ joining (set_mutex None σ)) as Hun.
  { intros σ1 t' [HF1 Hpc1] Hm1. cbn. rewrite decide_True by done. split; [done|]. split; [by apply finv_mutex|done]. }
  destruct (mutex σ) as [[[|t'] d]|] eqn:Hm.
  - pose proof (fi_accept _ HF d Hm) as Hno. by rewrite Hpc in Hno.
  - destruct (decide (t' = t)) as [->|Hne]; [exists [], σ; split; [done|]; split; [done|]; split; [done|]; right; by exists d|].
    destruct d.
    + destruct (Hun σ t' HJ Hm) as [E HJ']. exists [FUnlock (PThread t')], (set_mutex None σ).
      split; [by repeat constructor|]. split; [exact E|]. split; [done|by left].
    + destruct (in_section σ t' HF Hm) as (σ1 & E1 & Hpc1 & Hm1).
      pose proof (joining_exec _ _ _ HJ E1 Hpc1) as HJ1. destruct (Hun σ1 t' HJ1 Hm1) as [E HJ'].
      exists [FThread t'; FUnlock (PThread t')], (set_mutex None σ1). split; [by repeat constructor|].
      split; [cbn [Blocking.frun] in *; by rewrite E1|]. split; [done|by left].
  - exists [], σ. split; [done|]. split; [done|]. split; [done|by left].
Qed.
End join.

Section properties.
Variables whitelist_start whitelist_end : Z.
Abbreviation fexec := (fexec whitelist_start whitelist_end).
Abbreviation frun := (frun whitelist_start whitelist_end).
Abbreviation freachable := (freachable whitelist_start whitelist_end).

Lemma freachable_inv σ : freachable σ -> FInv σ.
Proof. intros (ls & E). eapply finv_run; [apply finv_initial|exact E]. Qed.

Lemma frun_app ls1 ls2 σ σ1 : frun ls1 σ = Some σ1 -> frun (ls1 ++ ls2) σ = frun ls2 σ1.
Proof.
  revert σ; induction ls1 as [|l ls1 IH]; intros σ; cbn; [by intros [= ->]|].
  destruct (fexec l σ) as [σ2|]; [|done]. apply IH.
Qed.

Lemma joining_bound i cs ip t ls σ σ' :
  joining i cs ip t σ -> frun ls σ = Some σ' -> FAccept LJoin ∉ ls ->
  (remaining_steps t σ' + length (filter (fun l => of_thread t l = true) ls) <= remaining_steps t σ)%nat.
Proof.
  revert σ; induction ls as [|l ls IH]; intros σ HJ; cbn [Blocking.frun].
  { intros [= <-] _. cbn. lia. }
  destruct (fexec l σ) as [σ1|] eqn:E; [|done]. cbn [mbind option_bind].
  intros Er [Hl Hls]%not_elem_of_cons.
  pose proof (joining_stays _ _ _ _ _ _ l σ σ1 HJ E ltac:(congruence)) as Hpc.
  pose proof (remaining_exec _ _ _ _ _ _ l σ σ1 HJ E Hpc) as Hr.
  pose proof (IH σ1 ltac:(split; [eapply finv_exec; [apply HJ|exact E]|done]) Er Hls) as Hrest.
  rewrite filter_cons. destruct (of_thread t l); repeat case_decide; done || (cbn [length]; lia).
Qed.

(** C32. The accept loop does not wait in vain for the thread of a slot to end.  Whatever
    that thread is doing, blocked in recv or send on the old connection included,
    and whoever has the mutex, steps of the threads alone, with nothing from
    the network, lead to the end of the wait; and whatever the network, the other threads and
    the scheduler do, the thread takes at most 20 more steps until then.  This rests on
    the shutdown of the old connection and on joining without the mutex. *)
Theorem join_ends σ i cs ip t :
  freachable σ -> accept_pc (base σ) = Joining i cs ip (Some t) ->
  (exists ls σ', Forall by_threads ls /\ frun ls σ = Some σ' /\ exists σ'', fexec (FAccept LJoin) σ' = Some σ'') /\
  forall ls σ', frun ls σ = Some σ' -> FAccept LJoin ∉ ls ->
    (length (filter (fun l => of_thread t l = true) ls) <= 20)%nat.
Proof.
  intros HF%freachable_inv Hpc. assert (joining i cs ip t σ) as HJ by done. split.
  - destruct (mutex_released whitelist_start whitelist_end i cs ip t σ HJ) as (ls1 & σ1 & H1 & E1 & HJ1 & Hu).
    destruct (thread_finishes whitelist_start whitelist_end i cs ip t _ σ1 (le_n _) HJ1 Hu)
      as (ls2 & σ2 & H2 & E2 & [HF2 Hpc2] & Hm & Ht).
    exists (ls1 ++ ls2), σ2. split; [by apply Forall_app|]. split; [by rewrite (frun_app _ _ _ _ E1)|].
    eexists. cbn. unfold accept_action, follows, enter, exec. rewrite Hpc2, Hm. rewrite bool_decide_eq_true_2 by done.
    cbn [critical mbind option_bind]. by rewrite Ht.
  - intros ls σ' E Hls. pose proof (joining_bound i cs ip t ls σ σ' HJ E Hls).
    assert (remaining_steps t σ <= 20)%nat; [|lia]. unfold remaining_steps.
    destruct (threads (base σ) !! t) as [[? []]|], (acts σ !! t) as [[]|]; cbn; repeat case_decide; lia.
Qed.
End properties.

(** A client is in a recv without end when it connects again; another one's
    thread has the mutex. *)
Definition connects (cs ip : Z) (t : nat) : list flabel :=
  [FConnect cs ip; FLock PAccept; FAccept (LAccept cs ip); FUnlock PAccept; FAccept LCloseOld; FAccept LJoin;
   FAccept (LInit true); FAccept LPublish; FAccept (LStart true); FAccept LMark; FThread t; FThread t].

Definition ftrace : list flabel :=
  connects 4 9 0 ++ connects 5 8 1 ++
  [FConnect 6 9; FLock PAccept; FAccept (LAccept 6 9); FUnlock PAccept; FNet 1 false; FLock (PThread 1);
   FShut; FAccept LCloseOld].

Definition fstate0 : fstate := default finitial (frun 0 0 ftrace finitial).

Lemma join_ends_witness :
  acts fstate0 = [Waiting 4; Leaving] /\ mutex fstate0 = Some (PThread 1, false) /\
  exists ls σ', Forall by_threads ls /\ frun 0 0 ls fstate0 = Some σ' /\
    exists σ'', fexec 0 0 (FAccept LJoin) σ' = Some σ''.
Proof.
  split; [by vm_compute|]. split; [by vm_compute|].
  apply (join_ends 0 0 fstate0 0 6 9 0); [|by vm_compute]. exists ftrace. by vm_compute.
Defined.
