(* ===== verification/Startup.v ===== *)
(** * The command line: main()

    The shared directory, the port and the whitelist that [main] takes from its
    arguments, before the accept loop of Slots.v.  [None] is undefined behaviour
    (a buffer is overrun); an argument that is refused is [Some None]. *)

From S2P Require Import Prelude Endian Os CString Client Paths FileIso.

(** ** sscanf("%u") *)

Definition is_space (c : Z) : bool := (c =? 32) || ((9 <=? c) && (c <=? 13)).
Definition is_digit (c : Z) : bool := (48 <=? c) && (c <=? 57).

Fixpoint skip_spaces (p : bytes) : bytes :=
  match p with
  | c :: p' => if is_space c then skip_spaces p' else p
  | [] => []
  end.

(** The value of the leading digits, [None] when there are none. *)
Fixpoint scan_digits (acc : Z) (p : bytes) : Z :=
  match p with
  | c :: p => if is_digit c then scan_digits (acc * 10 + (c - 48)) p else acc
  | [] => acc
  end.

Definition starts_with_digit (p : bytes) : bool :=
  match p with c :: _ => is_digit c | [] => false end.

(** The conversion of strtoul, stored in 32 bits. *)
Definition scan_u (p : bytes) : option Z :=
  let p := skip_spaces p in
  let '(neg, p) := match p with
                   | 45 :: p => (true, p)
                   | 43 :: p => (false, p)
                   | _ => (false, p)
                   end in
  if starts_with_digit p then
    let v := scan_digits 0 p in
    Some (u32 (if 2 ^ 64 <=? v then 2 ^ 64 - 1 else if neg then - v else v))
  else None.

(** ** Whitelist *)

(** The loop over the octets, from octet [i]; [None]: wrong format. *)
Fixpoint whitelist_loop (i : nat) (p : bytes) (whitelist_start whitelist_end : Z)
    : option (Z * Z) :=
  let shift := 8 * Z.of_nat i in
  let octet :=
    match scan_u p with
    | Some u => if 0xFF <? u then None
                else Some (Z.lor whitelist_start (Z.shiftl u shift),
                           Z.lor whitelist_end (Z.shiftl u shift))
    | None =>
        let ok := match i with
                  | O => bytes_eqb p (str "*")
                  | S _ => match p with 42 :: 46 :: _ => true | _ => false end
                  end in
        if ok then Some (whitelist_start, Z.lor whitelist_end (Z.shiftl 0xFF shift)) else None
    end in
  match octet with
  | None => None
  | Some (ws, we) =>
      match i with
      | O => Some (ws, we)
      | S i => match strstr p (str ".") with
               | Some o => whitelist_loop i (drop (Z.to_nat (o + 1)) p) ws we
               | None => None
               end
      end
  end.

Definition parse_whitelist (arg : bytes) : option (Z * Z) := whitelist_loop 3 arg 0 0.

(** The test of the accept loop: [ip] may connect. *)
Definition whitelisted (whitelist_start whitelist_end ip : Z) : bool :=
  (whitelist_start =? 0) || negb ((ip <? whitelist_start) || (whitelist_end <? ip)).

(** ** Port *)

(** The port, or the kind of image to build when the argument is not a number. *)
Inductive port_arg := Port (port : Z) | MakeIso (viso : viso_t) | BadPort.

(** [min] is 1 on Windows and 1024 elsewhere. *)
Definition parse_port (min : Z) (arg : bytes) : port_arg :=
  match scan_u arg with
  | None =>
      if isSome (first_of 0 arg (str "PS3") (str "ps3")) then MakeIso VISO_PS3
      else if isSome (first_of 0 arg (str "ISO") (str "iso")) then MakeIso VISO_ISO
      else BadPort
  | Some u => if (u <? min) || (65535 <? u) then BadPort else Port (u16 u)
  end.

(** ** Shared directory *)

Section root.
Context {W : Type} `{Posix W}.
Variable st_uninit : file_stat_t.
Implicit Types w : W.

(** What marks the current directory as one to share. *)
Definition default_names : list bytes :=
  str <$> ["./PS3ISO"; "./PSXISO"; "./GAMES"; "./GAMEZ"; "./DVDISO"; "./BDISO"; "./ROMS"; "./PKG";
    "./PS3ISO.INI"; "./PSXISO.INI"; "./GAMES.INI"; "./GAMEZ.INI"; "./DVDISO.INI"; "./BDISO.INI";
    "./ROMS.INI"; "./PKG.INI"; "./PS3_NET_Server.cfg"]%string.

Fixpoint any_exists (l : list bytes) w : bool * W :=
  match l with
  | [] => (false, w)
  | p :: l => let '(r, _, w) := stat_file (Some p) st_uninit w in
              if 0 <=? r then (true, w) else any_exists l w
  end.

(** Without arguments: the directory of the program, if the current one looks
    like one to share. *)
Definition default_root (argv0 : bytes) w : option bytes * W :=
  let filename := match strrchr argv0 slash with
                  | Some o => Some o
                  | None => strrchr argv0 backslash
                  end in
  match filename with
  | None => (None, w)
  | Some o =>
      let '(found, w) := any_exists default_names w in
      (if found then Some (take (Z.to_nat o) argv0) else None, w)
  end.

(** With two arguments, an image is made of a game directory or an image file. *)
Definition detect_make_iso (root_directory : bytes) w : viso_t * W :=
  let sfo_path := take 528 (root_directory ++ str "/PS3_GAME/PARAM.SFO") in
  let '(r, _, w) := stat_file (Some sfo_path) st_uninit w in
  (if 0 <=? r then VISO_PS3
   else if isSome (first_of 0 root_directory (str ".iso") (str ".ISO")) then VISO_ISO
   else VISO_NONE, w).

(** The directory of a path, with its last slash. *)
Definition dir_part (p : bytes) : bytes :=
  match strrchr p slash with Some o => take (Z.to_nat (o + 1)) p | None => p end.

(** From [argv[1]] to the contents of [root_directory]. *)
Definition setup_root (argv0 arg : bytes) (cwd : option bytes) : option (option bytes) :=
  if MAX_PATH_LEN <=? blen arg then Some None
  else
    let root := normalize_path arg true in
    let? root :=
      if bool_decide (root = []) then
        match cwd with
        | Some d => if MAX_PATH_LEN <=? blen d + 1 then None else Some (dir_part (d ++ [slash]))
        | None => if MAX_PATH_LEN <=? blen argv0 then None else Some (dir_part argv0)
        end
      else Some root in
    let root := normalize_path root true in
    if bytes_eqb root [slash] then Some None else Some (Some root).

(** ** main(), up to the listening socket *)

(** The globals and locals of [main] that the arguments set. *)
Record config := mk_config {
  cf_root : bytes;
  cf_make_iso : viso_t;
  cf_port : Z;
  cf_whitelist : Z * Z;
}.

Definition NETISO_PORT : Z := 38008.

(** [goto exit_error] *)
Inductive outcome := Serves (cfg : config) | ExitError.

(** What follows the shared directory: [make_iso] is as the directory set it, and
    [args] are the arguments after it. *)
Definition parse_rest (min : Z) (root : bytes) (make_iso : viso_t) (args : list bytes) : outcome :=
  let serve port make_iso :=
    match args with
    | _ :: whitelist :: _ =>
        match parse_whitelist whitelist with
        | Some range => Serves (mk_config root make_iso port range)
        | None => ExitError
        end
    | _ => Serves (mk_config root make_iso port (0, 0))
    end in
  match args with
  | [] => serve NETISO_PORT make_iso
  | arg :: _ =>
      match parse_port min arg with
      | BadPort => ExitError
      | Port port => serve port make_iso
      | MakeIso viso => serve NETISO_PORT viso
      end
  end.

(** From the shared directory [arg] on; [argv0] is what [argv\[0\]] is by then. *)
Definition configure (min : Z) (cwd : option bytes) (argv0 arg : bytes) (args : list bytes) w : option (outcome * W) :=
  if MAX_PATH_LEN <=? blen arg then Some (ExitError, w)
  else
    let '(make_iso, w) :=
      match args with [] => detect_make_iso (normalize_path arg true) w | _ => (VISO_NONE, w) end in
    let? root := setup_root argv0 arg cwd in
    match root with
    | None => Some (ExitError, w)
    | Some root => Some (parse_rest min root make_iso args, w)
    end.

(** [cwd]: the answer of [getcwd].  Without arguments the path of the program is
    cut at its last slash, and becomes the first argument. *)
Definition main_args (min : Z) (cwd : option bytes) (argv : list bytes) w : option (outcome * W) :=
  match argv with
  | [] => None
  | [argv0] =>
      let '(dir, w) := default_root argv0 w in
      match dir with
      | None => Some (ExitError, w)
      | Some dir => configure min cwd dir dir [] w
      end
  | argv0 :: arg :: args => configure min cwd argv0 arg args w
  end.
End root.
