(* ===== verification/StartupSpec.v ===== *)
(** * What the command line admits

    The whitelist is a range of addresses: exact for an address or a network
    (wildcards at the end), wider than the pattern for a wildcard in the middle. *)

From S2P Require Import Prelude Endian Os CString AbsFile FileIso Client Paths PathsSpec Frame Scenario Startup.

(** ** Printed octets *)

(** [None] is the wildcard. *)
Abbreviation octet := (option Z).

Definition octet_ok (o : octet) : Prop := match o with Some u => 0 <= u < 256 | None => True end.

Definition dec (u : Z) : bytes :=
  if u <? 10 then [48 + u]
  else if u <? 100 then [48 + u / 10; 48 + u mod 10]
  else [48 + u / 100; 48 + u / 10 mod 10; 48 + u mod 10].

Definition octet_str (o : octet) : bytes := match o with Some u => dec u | None => [42] end.

Fixpoint dotted (l : list octet) : bytes :=
  match l with
  | [] => []
  | [o] => octet_str o
  | o :: l => octet_str o ++ [46] ++ dotted l
  end.

Lemma digit_ok d : 0 <= d < 10 -> is_digit (48 + d) = true.
Proof. intros. unfold is_digit. zdecide. Qed.

Lemma scan_digits_end acc p : starts_with_digit p = false -> scan_digits acc p = acc.
Proof. destruct p as [|c p]; cbn; [done|]. by intros ->. Qed.

Lemma scan_dec u p : 0 <= u < 256 -> starts_with_digit p = false -> scan_u (dec u ++ p) = Some u.
Proof.
  intros Hu Hp.
  assert (forall d q, 0 <= d < 10 -> scan_u (48 + d :: q) = Some (u32 (if 2 ^ 64 <=? scan_digits d q then 2 ^ 64 - 1 else scan_digits d q))) as Hs.
  { intros d q Hd. unfold scan_u. cbn [skip_spaces]. unfold is_space.
    replace (48 + d =? 32) with false by (symmetry; zdecide).
    replace (9 <=? 48 + d) with true by (symmetry; zdecide).
    replace (48 + d <=? 13) with false by (symmetry; zdecide). cbn [orb andb].
    assert (exists k, 48 + d = Z.pos k /\ (k = 48 \/ k = 49 \/ k = 50 \/ k = 51 \/ k = 52 \/ k = 53 \/ k = 54 \/
      k = 55 \/ k = 56 \/ k = 57)%positive) as (k & Ek & Hk) by (exists (Z.to_pos (48 + d)); lia).
    assert (scan_digits 0 (48 + d :: q) = scan_digits d q) as <-.
    { cbn [scan_digits]. rewrite digit_ok by done. f_equal. lia. }
    rewrite Ek. destruct_or! Hk; by subst k. }
  assert (forall v, 0 <= v < 256 -> u32 (if 2 ^ 64 <=? v then 2 ^ 64 - 1 else v) = v) as Hv.
  { intros v Hv. destruct (Z.leb_spec (2 ^ 64) v); [lia|]. apply u32_small. lia. }
  pose proof (Z.div_mod u 10). pose proof (Z.mod_pos_bound u 10).
  pose proof (Z.div_mod (u / 10) 10). pose proof (Z.mod_pos_bound (u / 10) 10).
  assert (u / 100 = u / 10 / 10) as E100 by (by rewrite Z.div_div).
  unfold dec. destruct (Z.ltb_spec u 10); [|destruct (Z.ltb_spec u 100)]; cbn [app]; rewrite Hs by lia;
    cbn [scan_digits]; rewrite ?digit_ok by lia; rewrite scan_digits_end by done; f_equal.
  - apply Hv. lia.
  - rewrite Hv; lia.
  - rewrite Hv; lia.
Qed.

Lemma dec_no_dot u p : 0 <= u < 256 -> strstr (dec u ++ 46 :: p) (str ".") = Some (blen (dec u)).
Proof.
  intros Hu. change (str ".") with [46].
  assert (forall d q o, 0 <= d < 10 -> strstr q [46] = Some o -> strstr (48 + d :: q) [46] = Some (1 + o)) as Hd.
  { intros d q o Hd E. cbn [strstr starts_with]. destruct (Z.eqb_spec 46 (48 + d)); [lia|].
    cbn [andb]. by rewrite E. }
  pose proof (Z.mod_pos_bound u 10). pose proof (Z.mod_pos_bound (u / 10) 10).
  pose proof (Z.div_pos u 10). pose proof (Z.div_pos u 100).
  pose proof (Z.div_lt_upper_bound u 10 26). pose proof (Z.div_lt_upper_bound u 100 3).
  assert (strstr (46 :: p) [46] = Some 0) by done.
  unfold dec. destruct (Z.ltb_spec u 10); [|destruct (Z.ltb_spec u 100)]; cbn [app].
  - by rewrite (Hd u _ 0) by (done || lia).
  - pose proof (Z.div_lt_upper_bound u 10 10).
    rewrite (Hd _ _ 1); [done|lia|]. by rewrite (Hd _ _ 0) by (done || lia).
  - rewrite (Hd _ _ 2); [done|lia|]. rewrite (Hd _ _ 1); [done|lia|].
    by rewrite (Hd _ _ 0) by (done || lia).
Qed.

(** ** The range of a whitelist *)

(** One octet of the argument, at octet [i]. *)
Lemma whitelist_octet_last o ws we :
  octet_ok o ->
  whitelist_loop 0 (octet_str o) ws we =
    Some (Z.lor ws (default 0 o), Z.lor we (default 255 o)).
Proof.
  destruct o as [u|]; intros Ho; cbn [octet_str whitelist_loop].
  - cbn in Ho. rewrite <- (app_nil_r (dec u)), scan_dec by done. cbn [Z.of_nat Z.mul].
    destruct (Z.ltb_spec 255 u); [lia|]. by rewrite !Z.shiftl_0_r.
  - cbn. by rewrite Z.lor_0_r.
Qed.

Lemma whitelist_octet_dot i o p ws we :
  octet_ok o ->
  whitelist_loop (S i) (octet_str o ++ 46 :: p) ws we =
    whitelist_loop i p (Z.lor ws (Z.shiftl (default 0 o) (8 * Z.of_nat (S i))))
                       (Z.lor we (Z.shiftl (default 255 o) (8 * Z.of_nat (S i)))).
Proof.
  intros Ho. set (sh := 8 * Z.of_nat (S i)). destruct o as [u|]; cbn [octet_str].
  - cbn [whitelist_loop]. fold sh. rewrite scan_dec by done. cbn in Ho.
    destruct (Z.ltb_spec 255 u); [lia|]. rewrite dec_no_dot by done.
    replace (drop (Z.to_nat (blen (dec u) + 1)) (dec u ++ 46 :: p)) with p; [done|].
    unfold blen. replace (Z.to_nat _) with (length (dec u) + 1)%nat by lia.
    rewrite <- drop_drop, drop_app_length. done.
  - cbn [app]. change (whitelist_loop (S i) (42 :: 46 :: p) ws we) with
      (whitelist_loop i (drop (Z.to_nat (1 + 1)) (42 :: 46 :: p)) ws (Z.lor we (Z.shiftl 255 sh))).
    cbn [default from_option]. by rewrite Z.shiftl_0_l, Z.lor_0_r.
Qed.

Definition address (a b c d : Z) : Z := ((a * 256 + b) * 256 + c) * 256 + d.

Lemma lor_octet x b : is_byte b -> Z.lor (Z.shiftl x 8) b = x * 256 + b.
Proof. intros Hb. rewrite Z.lor_comm, lor_byte by done. lia. Qed.

Lemma lor_address a b c d : is_byte a -> is_byte b -> is_byte c -> is_byte d ->
  Z.lor (Z.lor (Z.lor (Z.lor 0 (Z.shiftl a 24)) (Z.shiftl b 16)) (Z.shiftl c 8)) d = address a b c d.
Proof.
  intros. change 24 with (8 + 8 + 8). change 16 with (8 + 8).
  rewrite <- !Z.shiftl_shiftl, Z.lor_0_l by lia.
  rewrite <- !Z.shiftl_lor, !lor_octet by done. unfold address. done.
Qed.

(** What the four octets become: their lowest and highest address. *)
Lemma parse_whitelist_dotted a b c d :
  octet_ok a -> octet_ok b -> octet_ok c -> octet_ok d ->
  parse_whitelist (dotted [a; b; c; d]) =
    Some (address (default 0 a) (default 0 b) (default 0 c) (default 0 d),
          address (default 255 a) (default 255 b) (default 255 c) (default 255 d)).
Proof.
  intros Ha Hb Hc Hd. unfold parse_whitelist. cbn [dotted app].
  rewrite !whitelist_octet_dot, whitelist_octet_last by done.
  assert (forall (o : octet) n, octet_ok o -> is_byte n -> is_byte (default n o)) as Hbyte
    by (by intros [u|] n).
  rewrite !lor_address by (apply Hbyte; done). done.
Qed.

(** ** Properties *)

(** The whitelist [a.b.c.d] admits exactly that address. *)
Theorem whitelist_address a b c d ws we ip :
  octet_ok (Some a) -> octet_ok (Some b) -> octet_ok (Some c) -> octet_ok (Some d) ->
  parse_whitelist (dotted [Some a; Some b; Some c; Some d]) = Some (ws, we) -> ws <> 0 ->
  whitelisted ws we ip = true <-> ip = address a b c d.
Proof.
  intros. rewrite parse_whitelist_dotted in * by done. simplify_eq. cbn [default from_option id] in *.
  unfold whitelisted. rewrite (proj2 (Z.eqb_neq _ _)) by done. cbn [orb].
  destruct (Z.ltb_spec ip (address a b c d)), (Z.ltb_spec (address a b c d) ip); cbn; split; done || lia.
Qed.

(** With wildcards at the end, the whitelist admits exactly the network: the
    addresses that begin with the octets given. *)
Theorem whitelist_network a b c ws we ip :
  octet_ok (Some a) -> octet_ok b -> octet_ok c -> (b = None -> c = None) ->
  parse_whitelist (dotted [Some a; b; c; None]) = Some (ws, we) -> ws <> 0 ->
  whitelisted ws we ip = true <->
  match b, c with
  | Some b, Some c => ip / 256 = (a * 256 + b) * 256 + c
  | Some b, None => ip / 256 / 256 = a * 256 + b
  | None, _ => ip / 256 / 256 / 256 = a
  end.
Proof.
  intros Ha Hb Hc Hbc Hp Hs. rewrite parse_whitelist_dotted in Hp by done. simplify_eq.
  unfold whitelisted. rewrite (proj2 (Z.eqb_neq _ _)) by done. cbn [orb].
  cbn [default from_option id] in *. rewrite negb_true_iff, orb_false_iff, !Z.ltb_ge. clear Hs.
  pose proof (Z.div_mod ip 256). pose proof (Z.mod_pos_bound ip 256).
  pose proof (Z.div_mod (ip / 256) 256). pose proof (Z.mod_pos_bound (ip / 256) 256).
  pose proof (Z.div_mod (ip / 256 / 256) 256). pose proof (Z.mod_pos_bound (ip / 256 / 256) 256).
  unfold address. destruct b as [b|]; [|rewrite (Hbc eq_refl)]; [destruct c as [c|]|];
    cbn [default from_option id] in *; cbn in Ha, Hb, Hc; lia.
Qed.

(** ** main() *)

(** Every bit of [a] is one of [b]. *)
Definition bits_within (a b : Z) : Prop := Z.land a b = a.

Lemma bits_within_lor a b x : bits_within a b -> bits_within (Z.lor a x) (Z.lor b x).
Proof.
  unfold bits_within. intros E. apply Z.bits_inj'. intros i Hi.
  apply (f_equal (fun z => Z.testbit z i)) in E. rewrite Z.land_spec in *. rewrite !Z.lor_spec.
  destruct (Z.testbit a i), (Z.testbit b i), (Z.testbit x i); done.
Qed.

Lemma bits_within_lor_r a b x : bits_within a b -> bits_within a (Z.lor b x).
Proof.
  unfold bits_within. intros E. apply Z.bits_inj'. intros i Hi.
  apply (f_equal (fun z => Z.testbit z i)) in E. rewrite Z.land_spec in *. rewrite Z.lor_spec.
  destruct (Z.testbit a i), (Z.testbit b i), (Z.testbit x i); done.
Qed.

Lemma bits_within_lor_both a b x : bits_within a x -> bits_within b x -> bits_within (Z.lor a b) x.
Proof. unfold bits_within. intros Ea Eb. by rewrite Z.land_lor_distr_l, Ea, Eb. Qed.

Lemma bits_within_le a b : bits_within a b -> 0 <= b -> 0 <= a <= b.
Proof.
  unfold bits_within. intros E Hb. assert (0 <= a) by (rewrite <- E; apply Z.land_nonneg; by right). split; [done|].
  assert (b - a = Z.ldiff b a) as Hd.
  { apply Z.sub_nocarry_ldiff. rewrite <- E, Z.land_comm. apply Z.bits_inj'. intros i Hi.
    rewrite Z.ldiff_spec, Z.land_spec, Z.bits_0. by destruct (Z.testbit b i), (Z.testbit a i). }
  assert (0 <= Z.ldiff b a) by (apply Z.ldiff_nonneg; by left). lia.
Qed.

(** The parsed range: 32-bit addresses, the bits of the first among those of the last. *)
Definition range_ok (r : Z * Z) : Prop := bits_within r.1 r.2 /\ bits_within r.2 (Z.ones 32).

Lemma octet_within n (i : nat) : (i <= 3)%nat -> 0 <= n <= 255 -> bits_within (Z.shiftl n (8 * Z.of_nat i)) (Z.ones 32).
Proof.
  intros Hi Hn. unfold bits_within. rewrite Z.land_ones, Z.shiftl_mul_pow2 by lia. apply Z.mod_small.
  assert (0 < 2 ^ (8 * Z.of_nat i) <= 2 ^ 24) by (split; [apply Z.pow_pos_nonneg|apply Z.pow_le_mono_r]; lia). nia.
Qed.

Lemma scan_u_nonneg p u : scan_u p = Some u -> 0 <= u.
Proof.
  unfold scan_u. destruct (match skip_spaces p with 45 :: _ => _ | _ => _ end) as [neg q].
  destruct (starts_with_digit q); [|done]. intros [= <-]. unfold u32. by apply Z.mod_pos_bound.
Qed.

Lemma range_octet (i : nat) u ws we : (i <= 3)%nat -> range_ok (ws, we) -> 0 <= u <= 255 ->
  range_ok (Z.lor ws (Z.shiftl u (8 * Z.of_nat i)), Z.lor we (Z.shiftl u (8 * Z.of_nat i))) /\
  range_ok (ws, Z.lor we (Z.shiftl u (8 * Z.of_nat i))).
Proof.
  intros Hi [Hb Hw] Hu. pose proof (octet_within u i Hi Hu).
  split; split; cbn; [by apply bits_within_lor|by apply bits_within_lor_both|by apply bits_within_lor_r|by apply bits_within_lor_both].
Qed.

Lemma whitelist_loop_range i p ws we r : (i <= 3)%nat -> range_ok (ws, we) ->
  whitelist_loop i p ws we = Some r -> range_ok r.
Proof.
  revert p ws we. induction i as [|i IH]; intros p ws we Hi Hr; cbn [whitelist_loop];
    destruct (range_octet _ 255 ws we Hi Hr ltac:(lia)) as [_ R255].
  - destruct (scan_u p) as [u|] eqn:Eu.
    + destruct (Z.ltb_spec 255 u); [done|]. apply scan_u_nonneg in Eu.
      intros [= <-]. exact (proj1 (range_octet 0 u ws we Hi Hr ltac:(lia))).
    + destruct (bytes_eqb _ _); [|done]. by intros [= <-].
  - destruct (scan_u p) as [u|] eqn:Eu.
    + destruct (Z.ltb_spec 255 u); [done|]. apply scan_u_nonneg in Eu.
      destruct (strstr _ _); [|done]. apply IH; [lia|]. exact (proj1 (range_octet (S i) u ws we Hi Hr ltac:(lia))).
    + destruct (match p with 42 :: 46 :: _ => true | _ => false end); [|done].
      destruct (strstr _ _); [|done]. apply IH; [lia|done].
Qed.

(** *** The shared directory *)

Lemma normalize_path_CR l b : CR ∉ l -> CR ∉ normalize_path l b.
Proof.
  intros Hc. destruct b; [|by apply normalize_path_no_CR]. unfold normalize_path.
  intros Hin%strip_right_subset. by apply (normalize_path_no_CR l).
Qed.

Lemma normalize_path_length l b : blen (normalize_path l b) <= blen l.
Proof.
  assert (forall f (l : bytes), blen (strip_right f l) <= blen l) as Hs.
  { intros f l0. destruct (strip_right_split f l0) as (t & E & _). rewrite E at 2. rewrite blen_app.
    pose proof (blen_nonneg t). lia. }
  unfold normalize_path. set (l1 := _ <$> l). assert (blen l1 = blen l) as <- by (unfold l1, blen; by rewrite length_fmap).
  destruct b; [etransitivity; [apply Hs|]|]; apply Hs.
Qed.

Lemma normalized_good l : CR ∉ l -> good_root (normalize_path l true).
Proof.
  intros Hc. split; [apply normalize_path_no_backslash|]. intros c Hl. split; [by eapply normalize_path_last|].
  intros ->. apply (normalize_path_CR l true Hc). by apply last_Some_elem_of.
Qed.

Lemma dir_part_prefix p : exists k, dir_part p = take k p.
Proof. unfold dir_part. destruct (strrchr p slash); [by eexists|]. exists (length p). by rewrite take_ge. Qed.

Lemma setup_root_good argv0 arg cwd root :
  CR ∉ arg -> CR ∉ argv0 -> CR ∉ default [] cwd ->
  setup_root argv0 arg cwd = Some (Some root) ->
  good_root root /\ root <> [slash] /\ blen root < MAX_PATH_LEN.
Proof.
  intros Ha H0 Hc. unfold setup_root. destruct (Z.leb_spec MAX_PATH_LEN (blen arg)); [done|].
  assert (forall l, CR ∉ l -> blen l < MAX_PATH_LEN ->
    (if bytes_eqb (normalize_path l true) [slash] then Some None else Some (Some (normalize_path l true))) = Some (Some root) ->
    good_root root /\ root <> [slash] /\ blen root < MAX_PATH_LEN) as Hok.
  { intros l Hl Hlen. destruct (bytes_eqb _ _) eqn:E; [done|]. intros [= <-].
    split; [by apply normalized_good|]. split; [by apply bool_decide_eq_false in E|].
    exact (Z.le_lt_trans _ _ _ (normalize_path_length l true) Hlen). }
  assert (forall l, CR ∉ l -> blen l < MAX_PATH_LEN -> CR ∉ dir_part l /\ blen (dir_part l) < MAX_PATH_LEN) as Hdir.
  { intros l Hl Hlen. destruct (dir_part_prefix l) as [k ->]. split.
    - intros (i & Hi & _)%elem_of_take. apply Hl. by eapply list_elem_of_lookup_2.
    - unfold blen in *. rewrite length_take. lia. }
  case_bool_decide.
  - destruct cwd as [d|].
    + destruct (Z.leb_spec MAX_PATH_LEN (blen d + 1)); [done|]. cbn in Hc.
      destruct (Hdir (d ++ [slash])) as [??]; [|rewrite blen_app; change (blen [slash]) with 1; lia|by apply Hok].
      intros [?|Hs%list_elem_of_singleton]%elem_of_app; [done|by unfold CR, slash in Hs].
    + destruct (Z.leb_spec MAX_PATH_LEN (blen argv0)); [done|]. destruct (Hdir argv0) as [??]; [done|done|by apply Hok].
  - apply Hok; [by apply normalize_path_CR|]. by eapply Z.le_lt_trans; [apply (normalize_path_length arg true)|].
Qed.

(** *** The configuration *)

(** What the accept loop and the handlers rely on. *)
Record config_ok (min : Z) (cfg : config) : Prop := {
  co_root : good_root (cf_root cfg);
  co_root_length : blen (cf_root cfg) < MAX_PATH_LEN;
  co_not_slash : cf_root cfg <> [slash];
  co_port : min <= cf_port cfg <= 65535;
  co_whitelist : 0 <= (cf_whitelist cfg).1 <= (cf_whitelist cfg).2 /\ (cf_whitelist cfg).2 < 2 ^ 32;
}.

Lemma parse_rest_ok min root make_iso args cfg : min = 1 \/ min = 1024 ->
  good_root root -> root <> [slash] -> blen root < MAX_PATH_LEN ->
  parse_rest min root make_iso args = Serves cfg -> config_ok min cfg /\ cf_root cfg = root.
Proof.
  intros Hmin Hg Hs Hl.
  assert (forall port iso r, min <= port <= 65535 -> range_ok r -> config_ok min (mk_config root iso port r)) as Hok.
  { intros port iso [ws we] Hp [Hb Hw]. split; [done..|]. cbn in *.
    apply bits_within_le in Hw as [Hw0 Hw1]; [|done]. apply bits_within_le in Hb; [|done].
    change (Z.ones 32) with (2 ^ 32 - 1) in Hw1. lia. }
  assert (range_ok (0, 0)) as R0 by by split.
  assert (forall port iso, min <= port <= 65535 ->
    match args with
    | _ :: whitelist :: _ =>
        match parse_whitelist whitelist with
        | Some range => Serves (mk_config root iso port range)
        | None => ExitError
        end
    | _ => Serves (mk_config root iso port (0, 0))
    end = Serves cfg -> config_ok min cfg /\ cf_root cfg = root) as Hserve.
  { intros port iso Hp. destruct args as [|a [|wl args]]; [intros [= <-]; split; [by apply Hok|done]..|].
    destruct (parse_whitelist wl) as [r|] eqn:E; [|done]. intros [= <-]. split; [|done].
    apply Hok; [done|]. apply (whitelist_loop_range 3) in E; [exact E|done|done]. }
  unfold parse_rest. assert (min <= NETISO_PORT <= 65535) as Hn by (unfold NETISO_PORT; lia).
  destruct args as [|arg args]; [by apply Hserve|].
  destruct (parse_port min arg) as [port|v|] eqn:E; [|by apply Hserve|done].
  apply Hserve. revert E. unfold parse_port. destruct (scan_u arg) as [u|]; [|by repeat case_match].
  destruct (Z.ltb_spec u min), (Z.ltb_spec 65535 u); cbn [orb]; [done..|]. intros [= <-]. rewrite u16_small; lia.
Qed.

Lemma any_exists_inert {W} `{Posix W} (Q : relation W) `{!Plain Q} st l w r w' :
  any_exists st l w = (r, w') -> quiet Q w w'.
Proof.
  revert w. induction l as [|p l IH]; intros w E; cbn [any_exists] in E; inert_cases E; try apply IH in E; inert_chain.
Qed.

Section main.
Context {W : Type} `{PosixLaws W}.
Variable st_uninit : file_stat_t.
Implicit Types w : W.

Lemma configure_ok min cwd argv0 arg args w cfg w' : min = 1 \/ min = 1024 ->
  CR ∉ arg -> CR ∉ argv0 -> CR ∉ default [] cwd ->
  configure st_uninit min cwd argv0 arg args w = Some (Serves cfg, w') ->
  config_ok min cfg /\ quiet same_files w w'.
Proof.
  intros Hmin Ha Hv Hc. unfold configure. destruct (MAX_PATH_LEN <=? blen arg); [done|].
  destruct (match args with [] => _ | _ => _ end) as [iso w1] eqn:E1.
  assert (quiet same_files w w1) as Q.
  { destruct args; [|injection E1 as _ <-; apply inert_refl]. unfold detect_make_iso in E1.
    inert_cases E1; inert_chain. }
  destruct (setup_root argv0 arg cwd) as [[root|]|] eqn:E2; [|done..].
  apply setup_root_good in E2 as (Hg & Hs & Hl); [|done..]. intros [= E <-].
  apply parse_rest_ok in E as [Hcfg _]; done.
Qed.

(** C37. Whatever the arguments (without carriage returns, of which one could
    survive at the end of the directory), if the server goes on to listen then its
    shared directory has no backslash, no slash at its end and fits its buffer (what
    the translation of paths relies on), the port is in the allowed range, the
    whitelist is a range of 32-bit addresses whose first is no greater than its
    last, and no file was changed. *)
Theorem main_configures min cwd argv w cfg w' : min = 1 \/ min = 1024 ->
  Forall (fun a => CR ∉ a) argv -> CR ∉ default [] cwd ->
  main_args st_uninit min cwd argv w = Some (Serves cfg, w') ->
  config_ok min cfg /\ forall p, file_at w' p = file_at w p.
Proof.
  intros Hmin Hargs Hc. unfold main_args.
  destruct argv as [|argv0 [|arg args]]; [done| |].
  - apply Forall_cons in Hargs as [Hargs _]. unfold default_root.
    destruct (match strrchr argv0 slash with Some _ => _ | None => _ end) as [o|]; [|done].
    destruct (any_exists st_uninit default_names w) as [found w1] eqn:E1.
    apply (any_exists_inert same_files) in E1. destruct found; [|done].
    assert (CR ∉ take (Z.to_nat o) argv0) as Hcr.
    { intros (i & Hi & _)%elem_of_take. apply Hargs. by eapply list_elem_of_lookup_2. }
    intros E%configure_ok; [|done..]. destruct E as [Hcfg Q]. split; [exact Hcfg|].
    exact (inert_trans (Q := same_files) _ _ _ E1 Q).
  - apply Forall_cons in Hargs as [Hv [Ha _]%Forall_cons]. intros E%configure_ok; [|done..]. exact E.
Qed.
End main.

(** The second octet of 192.*.1.5 does not match any octet: the range it makes
    admits 192.5.200.1. *)
Theorem whitelist_middle_wildcard :
  exists ws we, parse_whitelist (str "192.*.1.5") = Some (ws, we) /\
    whitelisted ws we (address 192 5 200 1) = true.
Proof. exists 0xC0000105, 0xC0FF0105. split; vm_compute; reflexivity. Qed.

(** [/] as the shared directory is not refused: it is stripped to nothing, which
    means the current directory. *)
Theorem root_slash_accepted argv0 cwd :
  setup_root argv0 (str "/") cwd = setup_root argv0 [] cwd /\
  setup_root argv0 (str "/") (Some (str "/games")) = Some (Some (str "/games")).
Proof.
  split.
  - unfold setup_root. change (normalize_path (str "/") true) with (@nil Z).
    change (normalize_path [] true) with (@nil Z). reflexivity.
  - reflexivity.
Qed.

Lemma whitelist_address_witness :
  whitelisted 0xC0A80105 0xC0A80105 0xC0A80105 = true <-> 0xC0A80105 = address 192 168 1 5.
Proof. apply (whitelist_address 192 168 1 5); try (by vm_compute). all: by cbn. Defined.

Lemma whitelist_network_witness :
  whitelisted 0xC0A80100 0xC0A801FF 0xC0A80177 = true <-> 0xC0A80177 / 256 = (192 * 256 + 168) * 256 + 1.
Proof. apply (whitelist_network 192 (Some 168) (Some 1)); try (by vm_compute). all: by cbn. Defined.

Lemma main_configures_witness :
  let argv := [str "./ps3netsrv"; str "/srv\games/"; str "38009"; str "192.168.1.*"] in
  exists cfg w', main_args st0 1024 None argv sim0 = Some (Serves cfg, w') /\ config_ok 1024 cfg /\
    cf_root cfg = str "/srv/games" /\ cf_port cfg = 38009.
Proof.
  intros argv. exists (mk_config (str "/srv/games") VISO_NONE 38009 (0xC0A80100, 0xC0A801FF)), sim0.
  assert (main_args st0 1024 None argv sim0 = Some (Serves
    (mk_config (str "/srv/games") VISO_NONE 38009 (0xC0A80100, 0xC0A801FF)), sim0)) as E by by vm_compute.
  split; [exact E|]. split; [|done].
  refine (proj1 (main_configures st0 1024 None argv sim0 _ sim0 _ _ _ E)); [by right| |].
  - apply (bool_decide_eq_true_1 _). by vm_compute.
  - by intros ?%not_elem_of_nil.
Defined.
