(* ===== verification/Listen.v ===== *)
(** * initialize_socket of main.cpp

    The socket that the accept loop of Slots.v listens on. *)

From S2P Require Import Prelude Endian Os FileIso.

Definition AF_INET : Z := 2.
Definition INADDR_ANY : Z := 0.

Record sockaddr_in := mk_sockaddr { sin_family : Z; sin_port : Z; sin_addr : Z }.

Class Sockets (W : Type) := {
  sys_socket : W -> Z * W;                               (* AF_INET, SOCK_STREAM *)
  sys_setsockopt : Z -> Z -> W -> Z * W;                 (* SO_REUSEADDR *)
  sys_bind : Z -> sockaddr_in -> W -> Z * W;
  sys_listen : Z -> Z -> W -> Z * W;
}.

Section listen.
Context {W : Type} `{Posix W, Sockets W}.
Implicit Types w : W.

(** A socket that cannot be bound is left open: the program ends. *)
Definition initialize_socket (port : Z) w : Z * W :=
  let '(s, w) := sys_socket w in
  if s <? 0 then (s, w)
  else
    let '(r, w) := sys_setsockopt s 1 w in
    if r <? 0 then (FAILED, snd (sys_close s w))
    else
      let addr := mk_sockaddr AF_INET (BE16 port) INADDR_ANY in
      let '(r, w) := sys_bind s addr w in
      if r <? 0 then (FAILED, w)
      else
        let '(r, w) := sys_listen s 1 w in
        if r <? 0 then (FAILED, w) else (s, w).

(** What POSIX says of the calls: the address that a socket has, and whether it
    accepts connections. *)
Variables (bound : W -> Z -> option sockaddr_in) (listening : W -> Z -> Prop).
Hypothesis bind_ok : forall s a w r w', sys_bind s a w = (r, w') -> 0 <= r -> bound w' s = Some a.
Hypothesis listen_ok : forall s n w r w', sys_listen s n w = (r, w') ->
  (forall s, bound w' s = bound w s) /\ (0 <= r -> listening w' s).

(** A result that is not negative is a socket that listens on the port, at every
    address of the host. *)
Lemma initialize_socket_listens port w s w' : initialize_socket port w = (s, w') -> 0 <= s ->
  listening w' s /\ bound w' s = Some (mk_sockaddr AF_INET (BE16 port) INADDR_ANY).
Proof.
  unfold initialize_socket. destruct (sys_socket w) as [s0 w1]. destruct (Z.ltb_spec s0 0).
  { intros [= <- _] ?. lia. }
  destruct (sys_setsockopt s0 1 w1) as [r1 w2]. destruct (r1 <? 0); [by intros [= <- _]|].
  destruct (sys_bind s0 _ w2) as [r2 w3] eqn:Eb. destruct (Z.ltb_spec r2 0); [by intros [= <- _]|].
  destruct (sys_listen s0 1 w3) as [r3 w4] eqn:El. destruct (Z.ltb_spec r3 0); [by intros [= <- _]|].
  intros [= <- <-] _. destruct (listen_ok _ _ _ _ _ El) as [Hb Hl]. split; [by apply Hl|].
  rewrite Hb. by eapply bind_ok.
Qed.
End listen.
