(* ===== verification/Windows.v ===== *)
(** * The port to Windows: src/compat.c (Windows half), src/scandir.c, src/dirent.c

    The same functions over the calls of that system, which are the interface
    [Win32].  A HANDLE is an integer; INVALID_HANDLE_VALUE is -1.  [errno], which the
    program does not look at, is left out; so is [free].  A structure that a call
    fills in is one of its results: [None] when the call fails. *)

From stdpp Require Import sorting.
From S2P Require Import Prelude CString Os VIso VIsoNames VIsoTree.

(** ** Constants *)

Definition INVALID_HANDLE_VALUE : Z := -1.
Definition INVALID_SET_FILE_POINTER : Z := 0xFFFFFFFF.
Definition INVALID_FILE_ATTRIBUTES : Z := 0xFFFFFFFF.
Definition NO_ERROR : Z := 0.
Definition GENERIC_READ : Z := 0x80000000.
Definition GENERIC_WRITE : Z := 0x40000000.
Definition FILE_SHARE_READ : Z := 1.
Definition FILE_SHARE_WRITE : Z := 2.
Definition FILE_ATTRIBUTE_READONLY : Z := 1.
Definition FILE_ATTRIBUTE_DIRECTORY : Z := 0x10.
Definition FILE_BEGIN : Z := 0.
Definition FILE_CURRENT : Z := 1.
Definition FILE_END : Z := 2.
Definition O_RDWR : Z := 2.
Definition O_ACCMODE : Z := 3.
Definition O_EXCL : Z := 128.
Definition O_APPEND : Z := 1024.
Definition S_IREAD : Z := 0x100.
Definition S_IWRITE : Z := 0x80.
Definition S_IEXEC : Z := 0x40.
Definition DT_REG : Z := 8.

Inductive disposition := CREATE_NEW | CREATE_ALWAYS | OPEN_EXISTING | OPEN_ALWAYS | TRUNCATE_EXISTING.

Record FILETIME := mk_filetime { dwHighDateTime : Z; dwLowDateTime : Z }.

(** BY_HANDLE_FILE_INFORMATION; in WIN32_FIND_DATA a name goes with it. *)
Record file_information := mk_information {
  dwFileAttributes : Z;
  ftCreationTime : FILETIME;
  ftLastAccessTime : FILETIME;
  ftLastWriteTime : FILETIME;
  nFileSizeHigh : Z;
  nFileSizeLow : Z;
}.

Record find_data := mk_find { cFileName : bytes; information : file_information }.

(** ** The calls *)

Class Win32 (W : Type) := {
  win_malloc : Z -> W -> bool * W;                          (* false: NULL *)
  GetLastError : W -> Z;
  (** path, access, share mode, disposition *)
  CreateFileA : bytes -> Z -> Z -> disposition -> W -> Z * W;
  CloseHandle : Z -> W -> bool * W;
  (** the bytes read; [None]: FALSE *)
  ReadFile : Z -> Z -> W -> option bytes * W;
  WriteFile : Z -> bytes -> W -> option Z * W;
  (** handle, low and high half of the distance, method: the low half of the
      position, and the high half, which replaces that of the distance *)
  SetFilePointer : Z -> Z -> option Z -> Z -> W -> Z * option Z * W;
  GetFileInformationByHandle : Z -> W -> option file_information * W;
  GetFileAttributes : bytes -> W -> Z * W;
  (** [None]: INVALID_HANDLE_VALUE *)
  FindFirstFile : bytes -> W -> option (Z * find_data) * W;
  FindNextFile : Z -> W -> option find_data * W;
  FindClose : Z -> W -> bool * W;
  (** recv() without MSG_WAITALL: the result, and the bytes stored *)
  win_recv : Z -> Z -> W -> Z * bytes * W;
}.

(** ** compat.c *)

Module Windows.

(** Seconds since 1970, and 100-nanosecond units; the result is a uint64_t. *)
Definition FileTimeToUnixTime (filetime : FILETIME) : Z * Z :=
  let t := s64 (Z.shiftl (dwHighDateTime filetime) 32) in
  let t := s64 (t + dwLowDateTime filetime) in
  let t := s64 (t - 116444736000000000) in
  if t <? 0 then (u64 (-1 - Z.quot (- t - 1) 10000000), 9999999 - Z.rem (- t - 1) 10000000)
  else (u64 (Z.quot t 10000000), Z.rem t 10000000).

(** The ISO version, without a 64-bit integer (USE_LONG_LONG 0): the digits a2, a1,
    a0 of 32, 16 and 16 bits. *)
Definition FileTimeToUnixTime_iso (filetime : FILETIME) : Z * Z :=
  let a2 := dwHighDateTime filetime in
  let a1 := Z.shiftr (dwLowDateTime filetime) 16 in
  let a0 := Z.land (dwLowDateTime filetime) 0xffff in
  let '(a0, carry) :=
    if 32768 <=? a0 then (u32 (a0 - 32768), 0) else (u32 (a0 + (65536 - 32768)), 1) in
  let '(a1, carry) :=
    if 54590 + carry <=? a1 then (u32 (a1 - (54590 + carry)), 0)
    else (u32 (a1 + (65536 - 54590 - carry)), 1) in
  let a2 := u32 (a2 - (27111902 + carry)) in
  let negative := 2 ^ 31 <=? a2 in
  let a0 := if negative then u32 (0xffff - a0) else a0 in
  let a1 := if negative then u32 (0xffff - a1) else a1 in
  let a2 := if negative then u32 (Z.lnot a2) else a2 in
  let a1 := u32 (a1 + Z.shiftl (a2 mod 10000) 16) in
  let a2 := a2 / 10000 in
  let a0 := u32 (a0 + Z.shiftl (a1 mod 10000) 16) in
  let a1 := a1 / 10000 in
  let r := a0 mod 10000 in
  let a0 := a0 / 10000 in
  let a1 := u32 (a1 + Z.shiftl (a2 mod 1000) 16) in
  let a2 := a2 / 1000 in
  let a0 := u32 (a0 + Z.shiftl (a1 mod 1000) 16) in
  let a1 := a1 / 1000 in
  let r := u32 (r + (a0 mod 1000) * 10000) in
  let a0 := a0 / 1000 in
  let a0 := if negative then u32 (0xffff - a0) else a0 in
  let a1 := if negative then u32 (0xffff - a1) else a1 in
  let a2 := if negative then u32 (Z.lnot a2) else a2 in
  let r := if negative then u32 (9999999 - r) else r in
  (u64 (Z.shiftl (Z.shiftl a2 16) 16 + u32 (Z.shiftl a1 16) + a0), r).

Definition desired_access (oflag : Z) : Z :=
  let mode := Z.land oflag (Z.lor (Z.lor O_RDONLY O_WRONLY) O_RDWR) in
  if mode =? O_RDONLY then GENERIC_READ
  else if mode =? O_WRONLY then GENERIC_WRITE
  else Z.lor GENERIC_READ GENERIC_WRITE.

(** [oflag & flag] *)
Definition has_flag (oflag flag : Z) : bool := negb (Z.land oflag flag =? 0).

Definition creation_disposition (oflag : Z) : disposition :=
  let d :=
    if has_flag oflag O_TRUNC && negb (Z.land oflag O_ACCMODE =? O_RDONLY) then
      if has_flag oflag O_CREAT then CREATE_ALWAYS else TRUNCATE_EXISTING
    else if has_flag oflag O_CREAT then OPEN_ALWAYS else OPEN_EXISTING in
  if has_flag oflag O_EXCL && has_flag oflag O_CREAT then CREATE_NEW else d.

Section compat.
Context {W : Type} `{Win32 W}.
Implicit Types w : W.

Definition open_file (path : option bytes) (oflag : Z) w : Z * W :=
  match path with
  | None => (INVALID_HANDLE_VALUE, w)
  | Some path =>
      let '(f, w) := CreateFileA path (desired_access oflag) (Z.lor FILE_SHARE_READ FILE_SHARE_WRITE)
                       (creation_disposition oflag) w in
      if f =? INVALID_HANDLE_VALUE then (f, w)
      else
        let '(_, _, w) := SetFilePointer f 0 None (if has_flag oflag O_APPEND then FILE_END else FILE_BEGIN) w in
        (f, w)
  end.

Definition close_file (fd : Z) w : Z * W :=
  let '(ok, w) := CloseHandle fd w in (if ok then 0 else -1, w).

(** The count that ReadFile takes has 32 bits. *)
Definition read_file (fd : Z) (buf : mem) (o nbyte : Z) w : Z * mem * W :=
  match ReadFile fd (u32 nbyte) w with
  | (None, w) => (-1, buf, w)
  | (Some d, w) => (blen d, mstore buf o d, w)
  end.

Definition write_file (fd : Z) (buf : bytes) w : Z * W :=
  match WriteFile fd (take (Z.to_nat (u32 (blen buf))) buf) w with
  | (None, w) => (-1, w)
  | (Some wr, w) => (wr, w)
  end.

Definition seek_method (whence : Z) : option Z :=
  if whence =? SEEK_SET then Some FILE_BEGIN
  else if whence =? SEEK_CUR then Some FILE_CURRENT
  else if whence =? SEEK_END then Some FILE_END
  else None.

(** [low] and [high] are LONG, 32 bits with a sign; [low] is compared as a DWORD. *)
Definition seek_file (fd offset whence : Z) w : Z * W :=
  let low := s32 (Z.land offset 0xFFFFFFFF) in
  let high := s32 (Z.shiftr offset 32) in
  match seek_method whence with
  | None => (-1, w)
  | Some method =>
      let '(ret, high', w) := SetFilePointer fd low (Some high) method w in
      let low := s32 ret in
      let high := default high high' in
      if (u32 low =? INVALID_SET_FILE_POINTER) && negb (GetLastError w =? NO_ERROR) then (-1, w)
      else
        let low64 := Z.land (u64 low) 0xFFFFFFFF in
        let high64 := Z.land (u64 high) 0xFFFFFFFF in
        (s64 (Z.lor (u64 (Z.shiftl high64 32)) low64), w)
  end.

(** [((uint64_t)high << 32) | low] *)
Definition size_of (i : file_information) : Z :=
  Z.lor (Z.shiftl (nFileSizeHigh i) 32) (nFileSizeLow i).

Definition unix_time (t : FILETIME) : Z := fst (FileTimeToUnixTime t).

(** A time that is not recorded is that of the last change. *)
Definition time_or (t mtime : Z) : Z := if t =? 0 then mtime else t.

Definition file_mode (i : file_information) (exec_dir exec_rw : Z) : Z :=
  let mode := S_IREAD in
  let mode := if has_flag (dwFileAttributes i) FILE_ATTRIBUTE_DIRECTORY
              then Z.lor mode (Z.lor S_IFDIR exec_dir) else Z.lor mode S_IFREG in
  if negb (has_flag (dwFileAttributes i) FILE_ATTRIBUTE_READONLY)
  then Z.lor mode (Z.lor S_IWRITE exec_rw) else mode.

Definition stat_of (i : file_information) (exec_dir exec_rw : Z) : file_stat_t :=
  let mtime := unix_time (ftLastWriteTime i) in
  mk_stat (size_of i) mtime (time_or (unix_time (ftCreationTime i)) mtime)
    (time_or (unix_time (ftLastAccessTime i)) mtime) (file_mode i exec_dir exec_rw).

Definition fstat_file (fd : Z) (fs : file_stat_t) w : Z * file_stat_t * W :=
  match GetFileInformationByHandle fd w with
  | (None, w) => (-1, fs, w)
  | (Some i, w) => (0, stat_of i S_IEXEC 0, w)
  end.

Definition stat_file (path : option bytes) (fs : file_stat_t) w : Z * file_stat_t * W :=
  match path with
  | None => (-1, fs, w)
  | Some path =>
      match FindFirstFile path w with
      | (None, w) => (-1, fs, w)
      | (Some (fh, wfd), w) =>
          let '(_, w) := FindClose fh w in (0, stat_of (information wfd) 0 S_IEXEC, w)
      end
  end.

(** ** recv_all of main.cpp, without MSG_WAITALL *)

(** The loop, at most [k] times round: the result, and the bytes stored. *)
Fixpoint recv_loop (k : nat) (s size total_read : Z) w : option (Z * bytes * W) :=
  if 0 <? size then
    match k with
    | O => None
    | S k =>
        let '(r, d, w) := win_recv s size w in
        if r <=? 0 then Some (r, d, w)
        else
          let? (ret, d', w) := recv_loop k s (size - r) (total_read + r) w in
          Some (ret, d ++ d', w)
    end
  else Some (total_read, [], w).

Definition recv_all (s size : Z) w : option (Z * bytes * W) := recv_loop (Z.to_nat size) s size 0 w.
End compat.
End Windows.

(** ** dirent.c *)

Record dirent2 := mk_dirent2 { d_namlen : Z; ent : dirent }.

Record DIR2 := mk_DIR2 { dd_dirpattern : bytes; dd_handle : Z }.

Definition FIND_DATA_SIZE : Z := 320.
Definition DIR2_SIZE : Z := 2096.

Section dirent.
Context {W : Type} `{Win32 W}.
Implicit Types (w : W) (dir : DIR2).

Definition opendir2 (dirName : option bytes) w : option DIR2 * W :=
  match dirName with
  | None | Some [] => (None, w)
  | Some dirName =>
      let '(fileAttr, w) := GetFileAttributes dirName w in
      if fileAttr =? INVALID_FILE_ATTRIBUTES then (None, w)
      else
        let '(ok, w) := win_malloc DIR2_SIZE w in
        if negb ok then (None, w)
        else
          let '(ok, w) := win_malloc FIND_DATA_SIZE w in
          if negb ok then (None, w)
          else
            let '(ok, w) := win_malloc (blen dirName + 3) w in
            if negb ok then (None, w)
            else (Some (mk_DIR2 (dirName ++ str "/*") 0), w)
  end.

(** The name has room for 2047 bytes; d_type is a directory or a file. *)
Definition dirent_of (fd : find_data) : dirent :=
  mk_dirent (if Windows.has_flag (dwFileAttributes (information fd)) FILE_ATTRIBUTE_DIRECTORY then DT_DIR else DT_REG)
    (take 2047 (cFileName fd)).

Definition readdir2 dir w : option dirent * DIR2 * W :=
  if dd_handle dir =? INVALID_HANDLE_VALUE then (None, dir, w)
  else if dd_handle dir =? 0 then
    match FindFirstFile (dd_dirpattern dir) w with
    | (None, w) => (None, mk_DIR2 (dd_dirpattern dir) INVALID_HANDLE_VALUE, w)
    | (Some (h, fd), w) => (Some (dirent_of fd), mk_DIR2 (dd_dirpattern dir) h, w)
    end
  else
    match FindNextFile (dd_handle dir) w with
    | (None, w) => (None, dir, w)
    | (Some fd, w) => (Some (dirent_of fd), dir, w)
    end.

(** The handle 0 of a directory that was never read is closed too. *)
Definition closedir2 dir w : Z * W :=
  if (dd_handle dir =? 0) || negb (dd_handle dir =? INVALID_HANDLE_VALUE) then
    let '(ok, w) := FindClose (dd_handle dir) w in (if ok then 0 else -1, w)
  else (0, w).
End dirent.

(** ** scandir.c *)

(** [strcoll] of the "C" locale, which the program stays in: the bytes in order. *)
Fixpoint strcoll (a b : bytes) : Z :=
  match a, b with
  | [], [] => 0
  | [], _ => -1
  | _, [] => 1
  | x :: a, y :: b => if x <? y then -1 else if y <? x then 1 else strcoll a b
  end.

Definition alphasort (a b : dirent2) : Z := strcoll (d_name (ent a)) (d_name (ent b)).

(** [qsort]: which order it gives elements that compare as equal is unspecified; the
    names of a directory are different. *)
Definition sort_le {A} (compar : A -> A -> Z) (x y : A) : Prop := compar x y <= 0.

#[export] Instance sort_le_dec {A} (compar : A -> A -> Z) : RelDecision (sort_le compar).
Proof. intros x y. apply Z_le_dec. Defined.

Definition qsort {A} (compar : A -> A -> Z) (l : list A) : list A := merge_sort (sort_le compar) l.

(** What the reading loop of [scandir] ends with. *)
Inductive scan :=
  | Listed (namelist : list dirent2)
  | ScanError                          (* goto error *)
  | ScanLeft.                          (* return FAILED, the directory still open *)

Section scandir.
Context {W : Type} `{Win32 W}.
Implicit Types (w : W) (dir : DIR2).

(** [while ((ent = readdir2(dir)) != NULL)], at most [k] entries.  The bytes that
    are allocated for an entry are those before d_name, which are 11, and the name
    with its NUL; an array of [n] pointers has [8 * n]. *)
Fixpoint scan_loop (k : nat) (select : option (dirent -> bool)) (allocated : Z) (namelist : list dirent2)
    dir w : option (scan * DIR2 * W) :=
  match k with
  | O => None
  | S k =>
      let '(e, dir, w) := readdir2 dir w in
      match e with
      | None => Some (Listed namelist, dir, w)
      | Some e =>
          if match select with Some f => negb (f e) | None => false end
          then scan_loop k select allocated namelist dir w
          else
            let flen := blen (d_name e) in
            let '(ok, w) := win_malloc (11 + flen + 1) w in
            if negb ok then Some (ScanLeft, dir, w)
            else
              let grow := allocated <=? blen namelist in
              let allocated := if grow then s32 (allocated * 2) else allocated in
              let '(ok, w) := if grow then win_malloc (u64 (allocated * 8)) w else (true, w) in
              if negb ok then Some (ScanError, dir, w)
              else scan_loop k select allocated (namelist ++ [mk_dirent2 (u16 flen) e]) dir w
      end
  end.

(** [None]: the fuel is too small; [Some None]: FAILED. *)
Definition scandir (k : nat) (dirname : option bytes) (select : option (dirent -> bool))
    (compar : option (dirent2 -> dirent2 -> Z)) w : option (option (list dirent2) * W) :=
  let '(dir, w) := opendir2 dirname w in
  match dir with
  | None => Some (None, w)
  | Some dir =>
      let '(ok, w) := win_malloc 16 w in
      if negb ok then Some (None, snd (closedir2 dir w))
      else
        let? (r, dir, w) := scan_loop k select 2 [] dir w in
        match r with
        | ScanLeft => Some (None, w)
        | ScanError => Some (None, snd (closedir2 dir w))
        | Listed l =>
            let w := snd (closedir2 dir w) in
            Some (Some (match compar with Some f => qsort f l | None => l end), w)
        end
  end.
End scandir.
