(* ===== verification/WinLaws.v ===== *)
(** * What Microsoft documents of the calls of the port to Windows

    [Win32View] is what can be observed of the system, [Win32Laws] what is documented
    of its calls on healthy handles, of searches and of memory.  [WinSim] is a small
    concrete system for which the laws are proved. *)

From S2P Require Import Prelude CString Os VIso VIsoNames VIsoTree Windows.

(** ** Observations and laws *)

(** What a disposition makes of the contents behind a path, [None] for no file;
    [None]: the call fails. *)
Definition disposed (d : disposition) (old : option bytes) : option bytes :=
  match d, old with
  | CREATE_NEW, None => Some []
  | CREATE_NEW, Some _ => None
  | CREATE_ALWAYS, _ => Some []
  | OPEN_EXISTING, _ => old
  | OPEN_ALWAYS, _ => Some (default [] old)
  | TRUNCATE_EXISTING, Some _ => Some []
  | TRUNCATE_EXISTING, None => None
  end.

Class Win32View (W : Type) := {
  (** contents and position behind a handle without pending faults *)
  handle_view : W -> Z -> option (bytes * Z);
  node_at : W -> bytes -> node;
  (** what a search for a pattern finds, in its order *)
  matches : W -> bytes -> list find_data;
  (** what an open search has still to give *)
  search_left : W -> Z -> option (list find_data);
  (** a path has attributes *)
  exists_at : W -> bytes -> Prop;
  (** there is memory *)
  win_memory : W -> Prop;
  (** no search meets an error before its end *)
  searches_work : W -> Prop;
}.

(** The searches in [P] are where they were. *)
Record searches_kept {W} `{Win32View W} (P : Z -> Prop) (w w' : W) : Prop := {
  sk_matches p : matches w' p = matches w p;
  sk_exists p : exists_at w' p <-> exists_at w p;
  sk_left h : P h -> search_left w' h = search_left w h;
  sk_memory : win_memory w -> win_memory w';
  sk_work : searches_work w -> searches_work w';
}.

(** The position that a call of SetFilePointer with this distance is to reach. *)
Definition pointer_target (method : Z) (c : bytes) (o distance : Z) : Z :=
  (if method =? FILE_BEGIN then 0 else if method =? FILE_CURRENT then o else blen c) + distance.

Class Win32Laws (W : Type) `{Win32 W, Win32View W} := {
  law_handle w h c o : handle_view w h = Some (c, o) ->
    h <> INVALID_HANDLE_VALUE /\ blen c < 2 ^ 63 /\ 0 <= o < 2 ^ 63;
  law_create p a s d w h w' : CreateFileA p a s d w = (h, w') -> node_at w p <> Other ->
    h <> INVALID_HANDLE_VALUE ->
    exists c, disposed d (match node_at w p with Regular c => Some c | _ => None end) = Some c /\
      handle_view w' h = Some (c, 0);
  law_create_ok p s w c : node_at w p = Regular c ->
    exists h w', CreateFileA p GENERIC_READ s OPEN_EXISTING w = (h, w') /\ h <> INVALID_HANDLE_VALUE;
  (** to the start of the file, without the high half *)
  law_pointer_begin h w c o : handle_view w h = Some (c, o) ->
    exists ret hi w', SetFilePointer h 0 None FILE_BEGIN w = (ret, hi, w') /\ handle_view w' h = Some (c, 0);
  (** with both halves *)
  law_pointer h low high method w c o : handle_view w h = Some (c, o) ->
    - 2 ^ 31 <= low < 2 ^ 31 -> - 2 ^ 31 <= high < 2 ^ 31 ->
    let t := pointer_target method c o (high * 2 ^ 32 + u32 low) in
    exists ret hi w', SetFilePointer h low (Some high) method w = (ret, hi, w') /\
      if (0 <=? t) && (t <? 2 ^ 63) then
        ret = u32 t /\ hi = Some (s32 (t / 2 ^ 32)) /\ handle_view w' h = Some (c, t) /\
        (ret = INVALID_SET_FILE_POINTER -> GetLastError w' = NO_ERROR)
      else
        ret = INVALID_SET_FILE_POINTER /\ GetLastError w' <> NO_ERROR /\ handle_view w' h = Some (c, o);
  law_read_file h n w c o : handle_view w h = Some (c, o) -> 0 <= n < 2 ^ 32 ->
    exists w', ReadFile h n w = (Some (slice o n c), w') /\
      handle_view w' h = Some (c, o + blen (slice o n c));
  law_information h w c o : handle_view w h = Some (c, o) ->
    exists i w', GetFileInformationByHandle h w = (Some i, w') /\ handle_view w' h = Some (c, o) /\
      nFileSizeHigh i * 2 ^ 32 + nFileSizeLow i = blen c /\ 0 <= nFileSizeHigh i /\ 0 <= nFileSizeLow i < 2 ^ 32 /\
      Windows.has_flag (dwFileAttributes i) FILE_ATTRIBUTE_DIRECTORY = false;
  law_win_malloc n w b w' : win_malloc n w = (b, w') ->
    searches_kept (fun _ => True) w w' /\ (win_memory w -> b = true);
  law_attributes p w a w' : GetFileAttributes p w = (a, w') ->
    searches_kept (fun _ => True) w w' /\ (exists_at w p -> a <> INVALID_FILE_ATTRIBUTES);
  law_find_first p w r w' : FindFirstFile p w = (r, w') ->
    match r with
    | None => (searches_work w -> matches w p = []) /\ searches_kept (fun _ => True) w w'
    | Some (h, fd) =>
        h <> 0 /\ h <> INVALID_HANDLE_VALUE /\ search_left w h = None /\
        searches_kept (fun h' => h' <> h) w w' /\
        exists l, matches w p = fd :: l /\ search_left w' h = Some l
    end;
  (** the search stays open, at its end and after an error too *)
  law_find_next h l w r w' : search_left w h = Some l -> FindNextFile h w = (r, w') ->
    searches_kept (fun h' => h' <> h) w w' /\ is_Some (search_left w' h) /\
    match r with
    | Some fd => exists l', l = fd :: l' /\ search_left w' h = Some l'
    | None => searches_work w -> l = []
    end;
  law_find_close h w r w' : FindClose h w = (r, w') ->
    searches_kept (fun h' => h' <> h) w w' /\ (h <> 0 -> search_left w' h = None);
  law_no_search w h : h = 0 \/ h = INVALID_HANDLE_VALUE -> search_left w h = None;
}.

(** ** A concrete system

    Files by path, directories by the pattern that lists them; a handle is a place in
    an array plus one; a file that was opened is a copy of its contents; on a medium
    that is broken every search meets an error after its first entry. *)
Module WinSim.

Record sim := mk_sim {
  files : gmap bytes bytes;
  dirs : gmap bytes (list find_data);
  handles : list (bytes * Z);
  searches : list (option (list find_data));
  last_error : Z;
  oom : bool;
  broken : bool;
}.

Definition with_handles l e (w : sim) : sim := mk_sim (files w) (dirs w) l (searches w) e (oom w) (broken w).
Definition with_searches l (w : sim) : sim := mk_sim (files w) (dirs w) (handles w) l (last_error w) (oom w) (broken w).

(** The place of a handle. *)
Definition place_of (h : Z) : option nat := if 1 <=? h then Some (Z.to_nat (h - 1)) else None.

Definition in_range (n : Z) : bool := (0 <=? n) && (n <? 2 ^ 63).

Definition view_of (w : sim) (h : Z) : option (bytes * Z) :=
  i ← place_of h; x ← handles w !! i;
  if in_range (blen (fst x)) && in_range (snd x) then Some x else None.

Definition left_of (w : sim) (h : Z) : option (list find_data) := i ← place_of h; mjoin (searches w !! i).

Definition node_of (w : sim) (p : bytes) : node :=
  match files w !! p with
  | None => Missing
  | Some c => if in_range (blen c) then Regular c else Other
  end.

#[export] Instance view : Win32View sim := {
  handle_view := view_of;
  node_at := node_of;
  matches w p := default [] (dirs w !! p);
  search_left := left_of;
  exists_at w p := is_Some (dirs w !! (p ++ str "/*"));
  win_memory w := oom w = false;
  searches_work w := broken w = false;
}.

Definition create (p : bytes) (access share : Z) (d : disposition) (w : sim) : Z * sim :=
  match disposed d (files w !! p) with
  | Some c =>
      (blen (handles w) + 1,
       mk_sim (<[p := c]> (files w)) (dirs w) (handles w ++ [(c, 0)]) (searches w) (last_error w) (oom w) (broken w))
  | None => (INVALID_HANDLE_VALUE, w)
  end.

Definition set_position (h o : Z) (c : bytes) (e : Z) (w : sim) : sim :=
  with_handles (<[Z.to_nat (h - 1) := (c, o)]> (handles w)) e w.

Definition pointer (h low : Z) (high : option Z) (method : Z) (w : sim) : Z * option Z * sim :=
  match view_of w h with
  | None => (INVALID_SET_FILE_POINTER, high, with_handles (handles w) 6 w)
  | Some (c, o) =>
      let t := pointer_target method c o (match high with Some x => x * 2 ^ 32 + u32 low | None => low end) in
      if in_range t then (u32 t, (fun _ => s32 (t / 2 ^ 32)) <$> high, set_position h t c 0 w)
      else (INVALID_SET_FILE_POINTER, high, with_handles (handles w) 131 w)
  end.

Definition read (h n : Z) (w : sim) : option bytes * sim :=
  match view_of w h with
  | None => (None, w)
  | Some (c, o) => let d := slice o n c in (Some d, set_position h (o + blen d) c (last_error w) w)
  end.

Definition time0 : FILETIME := mk_filetime 30000000 0.
Definition information_of (c : bytes) : file_information :=
  mk_information 0x80 time0 time0 time0 (blen c / 2 ^ 32) (blen c mod 2 ^ 32).

Definition find_first (p : bytes) (w : sim) : option (Z * find_data) * sim :=
  match default [] (dirs w !! p) with
  | [] => (None, w)
  | fd :: l => (Some (blen (searches w) + 1, fd), with_searches (searches w ++ [Some l]) w)
  end.

Definition find_next (h : Z) (w : sim) : option find_data * sim :=
  match left_of w h with
  | Some (fd :: l) => if broken w then (None, w) else (Some fd, with_searches (<[Z.to_nat (h - 1) := Some l]> (searches w)) w)
  | _ => (None, w)
  end.

Definition find_close (h : Z) (w : sim) : bool * sim :=
  match place_of h with
  | Some i => (true, with_searches (<[i := None]> (searches w)) w)
  | None => (false, w)
  end.

#[export] Instance win32 : Win32 sim := {
  win_malloc _ w := (negb (oom w), w);
  GetLastError := last_error;
  CreateFileA := create;
  CloseHandle _ w := (true, w);
  ReadFile := read;
  WriteFile _ _ w := (None, w);
  SetFilePointer := pointer;
  GetFileInformationByHandle h w :=
    (match view_of w h with Some (c, _) => Some (information_of c) | None => None end, w);
  GetFileAttributes p w :=
    (match dirs w !! (p ++ str "/*") with Some _ => 0x10 | None => INVALID_FILE_ATTRIBUTES end, w);
  FindFirstFile := find_first;
  FindNextFile := find_next;
  FindClose := find_close;
  win_recv _ _ w := (-1, [], w);
}.

Lemma in_range_spec n : in_range n = true <-> 0 <= n < 2 ^ 63.
Proof. unfold in_range. rewrite andb_true_iff, Z.leb_le, Z.ltb_lt. done. Qed.

Lemma view_Some w h c o : view_of w h = Some (c, o) ->
  1 <= h /\ handles w !! Z.to_nat (h - 1) = Some (c, o) /\ 0 <= blen c < 2 ^ 63 /\ 0 <= o < 2 ^ 63.
Proof.
  unfold view_of, place_of. destruct (Z.leb_spec 1 h); [|done]. cbn.
  destruct (handles w !! _) as [[c' o']|]; [|done]. cbn. destruct (in_range (blen c') && _) eqn:B; [|done].
  apply andb_true_iff in B as [B1%in_range_spec B2%in_range_spec]. by intros [= -> ->].
Qed.

Lemma view_set w h c o o' e : view_of w h = Some (c, o) -> 0 <= o' < 2 ^ 63 ->
  view_of (set_position h o' c e w) h = Some (c, o').
Proof.
  intros (Hh & Hl & Hc & _)%view_Some Ho. unfold view_of, place_of. destruct (Z.leb_spec 1 h); [|lia]. cbn.
  rewrite list_lookup_insert_eq by by eapply lookup_lt_Some. cbn.
  by rewrite (proj2 (in_range_spec _) Hc), (proj2 (in_range_spec _) Ho).
Qed.

Lemma place_new {A} (l : list A) : place_of (blen l + 1) = Some (length l).
Proof. unfold place_of, blen. destruct (Z.leb_spec 1 (Z.of_nat (length l) + 1)); [f_equal|]; lia. Qed.

Lemma left_insert w h i x : place_of h = Some i -> (i < length (searches w))%nat ->
  left_of (with_searches (<[i := x]> (searches w)) w) h = x /\
  searches_kept (fun h' => h' <> h) w (with_searches (<[i := x]> (searches w)) w).
Proof.
  intros Hi Hl. split.
  - unfold left_of. rewrite Hi. cbn. by rewrite list_lookup_insert_eq.
  - split; [done|done| |done|done]. intros h' Hne. cbn. unfold left_of.
    destruct (place_of h') as [j|] eqn:Hj; [|done]. cbn. rewrite list_lookup_insert_ne; [done|].
    intros ->. apply Hne. unfold place_of in *. destruct (Z.leb_spec 1 h), (Z.leb_spec 1 h'); simplify_eq. lia.
Qed.

#[export] Instance laws : Win32Laws sim.
Proof.
  split.
  - intros w h c o (Hh & _ & Hc & Ho)%view_Some. unfold INVALID_HANDLE_VALUE. lia.
  - intros p a s d w h w' E Hn Hh. revert E Hn. cbn. unfold create, node_of. destruct (files w !! p) as [old|] eqn:Ef.
    + destruct (in_range (blen old)) eqn:Br; [|done]. destruct (disposed d (Some old)) as [c|] eqn:Ed; [|by intros [= <-]].
      intros [= <- <-] _. exists c. split; [done|]. unfold view_of. rewrite place_new. cbn.
      rewrite lookup_app_r, Nat.sub_diag by lia. cbn.
      assert (in_range (blen c) = true) as -> by (by destruct d; simplify_eq/=). done.
    + destruct (disposed d None) as [c|] eqn:Ed; [|by intros [= <-]].
      intros [= <- <-] _. exists c. split; [done|]. unfold view_of. rewrite place_new. cbn.
      rewrite lookup_app_r, Nat.sub_diag by lia. cbn. by destruct d; simplify_eq/=.
  - intros p s w c. cbn. unfold node_of, create. destruct (files w !! p) as [old|]; [|done].
    destruct (in_range (blen old)); [|done]. intros [= ->]. do 2 eexists. split; [done|].
    unfold INVALID_HANDLE_VALUE. pose proof (blen_nonneg (handles w)). lia.
  - intros h w c o Hv. cbn. unfold pointer. change (view_of w h = Some (c, o)) in Hv. rewrite Hv. cbn.
    do 3 eexists. split; [done|]. by apply view_set with o.
  - intros h low high method w c o Hv _ _ t. cbn in *. unfold pointer. rewrite Hv. fold t.
    change ((0 <=? t) && (t <? 2 ^ 63)) with (in_range t). destruct (in_range t) eqn:Ht; do 3 eexists; (split; [done|]).
    + split; [done|]. split; [done|]. split; [|done]. apply view_set with o; [done|]. by apply in_range_spec.
    + by split.
  - intros h n w c o Hv _. cbn in *. unfold read. rewrite Hv. eexists. split; [done|].
    destruct (view_Some _ _ _ _ Hv) as (_ & _ & Hc & Ho). apply view_set with o; [done|].
    unfold slice, blen in *. rewrite length_take, length_drop. lia.
  - intros h w c o Hv. cbn in *. rewrite Hv. do 2 eexists. split; [done|]. split; [done|].
    destruct (view_Some _ _ _ _ Hv) as (_ & _ & Hc & _). cbn [information_of nFileSizeHigh nFileSizeLow].
    split; [pose proof (Z.div_mod (blen c) (2 ^ 32)); lia|]. split; [apply Z.div_pos; lia|].
    split; [apply Z.mod_pos_bound; lia|done].
  - intros n w b w' [= <- <-]. split; [by split|]. cbn. by intros ->.
  - intros p w a w'. cbn [GetFileAttributes win32 exists_at view].
    destruct (dirs w !! (p ++ str "/*")); intros [= <- <-]; (split; [by split|]); [done|by intros []].
  - intros p w r w'. cbn. unfold find_first. destruct (default [] (dirs w !! p)) as [|fd l]; intros [= <- <-]; [by split|].
    pose proof (blen_nonneg (searches w)). unfold INVALID_HANDLE_VALUE. split; [lia|]. split; [lia|].
    split; [|split].
    + unfold left_of. rewrite place_new. cbn. by rewrite lookup_ge_None_2.
    + split; [done|done| |done|done]. intros h Hh. cbn. unfold left_of. destruct (place_of h) as [i|] eqn:Hi; [|done]. cbn.
      destruct (decide (i < length (searches w))%nat); [by rewrite lookup_app_l|].
      rewrite !lookup_ge_None_2; [done|lia|]. rewrite length_app. cbn. unfold place_of, blen in *.
      destruct (Z.leb_spec 1 h); simplify_eq. lia.
    + exists l. split; [done|]. unfold left_of. rewrite place_new. cbn. by rewrite lookup_app_r, Nat.sub_diag.
  - intros h l w r w' Hl. cbn in *. unfold find_next. rewrite Hl. assert (exists i, place_of h = Some i /\
      (i < length (searches w))%nat /\ Z.to_nat (h - 1) = i) as (i & Hi & Hlt & Hz).
    { unfold left_of, place_of in *. destruct (1 <=? h); [|done]. cbn in Hl.
      destruct (searches w !! _) eqn:Es; [|done]. eexists. split; [done|]. split; [by eapply lookup_lt_Some|done]. }
    rewrite Hz. destruct l as [|fd l]; [|destruct (broken w) eqn:Hb]; intros [= <- <-].
    1,2: split; [by split|]; rewrite Hl; split; [by eexists|by rewrite ?Hb].
    destruct (left_insert w h i (Some l) Hi Hlt) as [-> K]. split; [exact K|]. split; by eexists.
  - intros h w r w'. cbn. unfold find_close. destruct (place_of h) as [i|] eqn:Hi.
    + intros [= <- <-]. destruct (decide (i < length (searches w))%nat) as [Hlt|Hge].
      * destruct (left_insert w h i None Hi Hlt) as [A B]. by split.
      * rewrite list_insert_ge by lia. split; [by split|]. intros _. unfold left_of. rewrite Hi. cbn.
        by rewrite lookup_ge_None_2 by lia.
    + intros [= <- <-]. split; [by split|]. intros _. unfold left_of. by rewrite Hi.
  - by intros w h [->| ->].
Qed.
End WinSim.

#[export] Existing Instances WinSim.view WinSim.win32 WinSim.laws.
