(* ===== verification/WindowsSpec.v ===== *)
(** * The port to Windows does what the POSIX half does

    Over the laws of WinLaws.v the port opens, seeks, reads and sizes a file as POSIX
    does, with positions of 64 bits; [scandir] is the listing that the virtual images
    ask for; both versions of the conversion of times divide downwards. *)

From stdpp Require Import sorting.
From S2P Require Import Prelude CString Os VIso VIsoNames VIsoTree Windows WinLaws.

(** ** Times *)

(** A FILETIME, as the number of 100-nanosecond units since 1601. *)
Definition filetime_value (t : FILETIME) : Z := dwHighDateTime t * 2 ^ 32 + dwLowDateTime t.

Record filetime_ok (t : FILETIME) : Prop := {
  ft_high : 0 <= dwHighDateTime t < 2 ^ 31;
  ft_low : 0 <= dwLowDateTime t < 2 ^ 32;
}.

Lemma quot_rem_floor t d : 0 < d -> 0 <= t -> Z.quot t d = t / d /\ Z.rem t d = t mod d.
Proof. intros Hd Ht. by rewrite Z.quot_div_nonneg, Z.rem_mod_nonneg. Qed.

(** Dividing the one's complement is the floor. *)
Lemma div_complement t d : 0 < d -> -1 - (- t - 1) / d = t / d /\ d - 1 - (- t - 1) mod d = t mod d.
Proof.
  intros Hd. pose proof (Z.div_mod (- t - 1) d ltac:(lia)) as E.
  pose proof (Z.mod_pos_bound (- t - 1) d Hd). pose proof (Z.mod_pos_bound t d Hd).
  apply (Z.div_mod_unique d); [left; lia..|]. rewrite <- Z.div_mod by lia. lia.
Qed.

Lemma filetime_long t : filetime_ok t ->
  let v := filetime_value t - 116444736000000000 in
  Windows.FileTimeToUnixTime t = (u64 (v / 10000000), v mod 10000000).
Proof.
  intros [Hh Hl] v. unfold Windows.FileTimeToUnixTime. rewrite Z.shiftl_mul_pow2 by lia.
  rewrite (s64_small (_ * _)), (s64_small (_ + _)), s64_small by lia.
  replace (dwHighDateTime t * 2 ^ 32 + dwLowDateTime t - 116444736000000000) with v by (unfold v, filetime_value; lia).
  destruct (Z.ltb_spec v 0).
  - destruct (quot_rem_floor (- v - 1) 10000000) as [-> ->]; [lia..|].
    destruct (div_complement v 10000000) as [<- <-]; [lia|]. done.
  - by destruct (quot_rem_floor v 10000000) as [-> ->]; [lia..|].
Qed.

(** A number of three digits, of 32, 16 and 16 bits. *)
Definition digits (a2 a1 a0 : Z) : Z := a2 * 2 ^ 32 + a1 * 2 ^ 16 + a0.

(** Long division by a small number. *)
Lemma long_division a2 a1 a0 d : 0 < d <= 10000 -> 0 <= a2 < 2 ^ 32 -> 0 <= a1 < 2 ^ 16 -> 0 <= a0 < 2 ^ 16 ->
  let b1 := u32 (a1 + Z.shiftl (a2 mod d) 16) in
  let b0 := u32 (a0 + Z.shiftl (b1 mod d) 16) in
  digits a2 a1 a0 = d * digits (a2 / d) (b1 / d) (b0 / d) + b0 mod d /\
  0 <= a2 / d < 2 ^ 32 /\ 0 <= b1 / d < 2 ^ 16 /\ 0 <= b0 / d < 2 ^ 16 /\ 0 <= b0 mod d < d.
Proof.
  intros Hd H2 H1 H0 b1 b0. unfold digits.
  assert (forall a b, 0 <= a < 2 ^ 16 -> 0 <= b < d ->
    u32 (a + Z.shiftl b 16) = a + b * 2 ^ 16 /\ 0 <= (a + b * 2 ^ 16) / d < 2 ^ 16) as Hstep.
  { intros a b Ha Hb. rewrite Z.shiftl_mul_pow2 by lia. rewrite u32_small by lia. split; [done|].
    split; [apply Z.div_pos; lia|]. apply Z.div_lt_upper_bound; lia. }
  pose proof (Z.mod_pos_bound a2 d ltac:(lia)) as B2. destruct (Hstep a1 _ H1 B2) as [E1 Q1].
  fold b1 in E1. rewrite <- E1 in Q1. pose proof (Z.mod_pos_bound b1 d ltac:(lia)) as B1.
  destruct (Hstep a0 _ H0 B1) as [E0 Q0]. fold b0 in E0. rewrite <- E0 in Q0.
  pose proof (Z.mod_pos_bound b0 d ltac:(lia)) as B0.
  pose proof (Z.div_mod a2 d ltac:(lia)). pose proof (Z.div_mod b1 d ltac:(lia)).
  pose proof (Z.div_mod b0 d ltac:(lia)).
  split; [lia|]. split; [|done]. split; [apply Z.div_pos; lia|]. apply Z.div_lt_upper_bound; nia.
Qed.

(** The one's complement of each digit. *)
Lemma digits_complement a2 a1 a0 :
  digits (2 ^ 32 - 1 - a2) (2 ^ 16 - 1 - a1) (2 ^ 16 - 1 - a0) = 2 ^ 64 - 1 - digits a2 a1 a0.
Proof. unfold digits. lia. Qed.

Lemma u32_lnot a : 0 <= a < 2 ^ 32 -> u32 (Z.lnot a) = 2 ^ 32 - 1 - a.
Proof.
  intros Ha. unfold u32. replace (Z.lnot a) with (2 ^ 32 - 1 - a + (-1) * 2 ^ 32) by (unfold Z.lnot; lia).
  rewrite Z.mod_add by lia. by apply Z.mod_small; lia.
Qed.

(** Subtracting the digits of the epoch, with the carries. *)
Lemma subtract_epoch h l : 0 <= h < 2 ^ 31 -> 0 <= l < 2 ^ 32 ->
  let a1 := Z.shiftr l 16 in
  let a0 := Z.land l 0xffff in
  exists b2 b1 b0 c0 c1,
    (if 32768 <=? a0 then (u32 (a0 - 32768), 0) else (u32 (a0 + (65536 - 32768)), 1)) = (b0, c0) /\
    (if 54590 + c0 <=? a1 then (u32 (a1 - (54590 + c0)), 0) else (u32 (a1 + (65536 - 54590 - c0)), 1)) = (b1, c1) /\
    u32 (h - (27111902 + c1)) = b2 /\
    0 <= b0 < 2 ^ 16 /\ 0 <= b1 < 2 ^ 16 /\ 0 <= b2 < 2 ^ 32 /\
    digits b2 b1 b0 = h * 2 ^ 32 + l - 116444736000000000 + (if 2 ^ 31 <=? b2 then 2 ^ 64 else 0) /\
    (2 ^ 31 <= b2 <-> h * 2 ^ 32 + l < 116444736000000000).
Proof.
  intros Hh Hl a1 a0. unfold a1, a0. rewrite Z.shiftr_div_pow2 by lia.
  change 0xffff with (Z.ones 16). rewrite Z.land_ones by lia.
  pose proof (Z.div_mod l (2 ^ 16) ltac:(lia)). pose proof (Z.mod_pos_bound l (2 ^ 16) ltac:(lia)).
  set (x := l / 2 ^ 16) in *. set (y := l mod 2 ^ 16) in *. clearbody x y.
  assert (0 <= x < 2 ^ 16) as Hx by lia.
  assert (exists b0 c0, (if 32768 <=? y then (u32 (y - 32768), 0) else (u32 (y + (65536 - 32768)), 1)) = (b0, c0) /\
    0 <= b0 < 2 ^ 16 /\ b0 = y - 32768 + 65536 * c0 /\ 0 <= c0 <= 1) as (b0 & c0 & E0 & B0 & V0 & C0).
  { destruct (Z.leb_spec 32768 y); do 2 eexists; (split; [done|]); rewrite u32_small by lia; lia. }
  assert (exists b1 c1, (if 54590 + c0 <=? x then (u32 (x - (54590 + c0)), 0)
      else (u32 (x + (65536 - 54590 - c0)), 1)) = (b1, c1) /\
    0 <= b1 < 2 ^ 16 /\ b1 = x - (54590 + c0) + 65536 * c1 /\ 0 <= c1 <= 1) as (b1 & c1 & E1 & B1 & V1 & C1).
  { destruct (Z.leb_spec (54590 + c0) x); do 2 eexists; (split; [done|]); rewrite u32_small by lia; lia. }
  exists (u32 (h - (27111902 + c1))), b1, b0, c0, c1. do 3 (split; [done|]). do 2 (split; [done|]).
  unfold u32, digits. destruct (Z.ltb_spec (h - (27111902 + c1)) 0).
  - assert ((h - (27111902 + c1)) mod 2 ^ 32 = h - (27111902 + c1) + 2 ^ 32) as ->.
    { rewrite <- (Z.mod_add _ 1) by lia. rewrite Z.mod_small; lia. }
    split; [lia|]. destruct (Z.leb_spec (2 ^ 31) (h - (27111902 + c1) + 2 ^ 32)); lia.
  - rewrite Z.mod_small by lia. split; [lia|].
    destruct (Z.leb_spec (2 ^ 31) (h - (27111902 + c1))); lia.
Qed.

(** Two long divisions: by 10000, then by 1000. *)
Lemma division_in_two a2 a1 a0 : 0 <= a2 < 2 ^ 32 -> 0 <= a1 < 2 ^ 16 -> 0 <= a0 < 2 ^ 16 ->
  let b1 := u32 (a1 + Z.shiftl (a2 mod 10000) 16) in
  let b0 := u32 (a0 + Z.shiftl (b1 mod 10000) 16) in
  let c1 := u32 (b1 / 10000 + Z.shiftl (a2 / 10000 mod 1000) 16) in
  let c0 := u32 (b0 / 10000 + Z.shiftl (c1 mod 1000) 16) in
  let r := u32 (b0 mod 10000 + c0 mod 1000 * 10000) in
  digits (a2 / 10000 / 1000) (c1 / 1000) (c0 / 1000) = digits a2 a1 a0 / 10000000 /\
  r = digits a2 a1 a0 mod 10000000 /\
  0 <= a2 / 10000 / 1000 < 2 ^ 32 /\ 0 <= c1 / 1000 < 2 ^ 16 /\ 0 <= c0 / 1000 < 2 ^ 16.
Proof.
  intros H2 H1 H0 b1 b0 c1 c0 r.
  destruct (long_division a2 a1 a0 10000) as (E & Q2 & Q1 & Q0 & R); [lia..|]. fold b1 b0 in E, Q1, Q0, R.
  destruct (long_division (a2 / 10000) (b1 / 10000) (b0 / 10000) 1000) as (E' & Q2' & Q1' & Q0' & R'); [lia..|].
  fold c1 in E', Q1', Q0', R'. fold c0 in E', Q0', R'.
  assert (r = b0 mod 10000 + c0 mod 1000 * 10000) as Hr by (unfold r; apply u32_small; lia).
  rewrite E' in E. split; [|split; [|done]].
  - apply Z.div_unique with r; lia.
  - apply Z.mod_unique with (digits (a2 / 10000 / 1000) (c1 / 1000) (c0 / 1000)); lia.
Qed.

Lemma digits_value a2 a1 a0 : 0 <= a2 < 2 ^ 32 -> 0 <= a1 < 2 ^ 16 -> 0 <= a0 < 2 ^ 16 ->
  u64 (Z.shiftl (Z.shiftl a2 16) 16 + u32 (Z.shiftl a1 16) + a0) = digits a2 a1 a0.
Proof.
  intros. rewrite !Z.shiftl_mul_pow2 by lia. rewrite u32_small by lia. unfold digits.
  rewrite u64_small; lia.
Qed.

Lemma filetime_iso t : filetime_ok t ->
  let v := filetime_value t - 116444736000000000 in
  Windows.FileTimeToUnixTime_iso t = (u64 (v / 10000000), v mod 10000000).
Proof.
  intros [Hh Hl] v. unfold Windows.FileTimeToUnixTime_iso.
  destruct (subtract_epoch _ _ Hh Hl) as (b2 & b1 & b0 & c0 & c1 & E0 & E1 & E2 & B0 & B1 & B2 & V & Hneg).
  cbv zeta. rewrite E0. cbv beta iota. rewrite E1. cbv beta iota. rewrite E2.
  fold (filetime_value t) in V, Hneg. destruct (Z.leb_spec (2 ^ 31) b2) as [Hn|Hn].
  - rewrite (u32_small (0xffff - b0)), (u32_small (0xffff - b1)), (u32_lnot b2) by lia.
    destruct (division_in_two (2 ^ 32 - 1 - b2) (2 ^ 16 - 1 - b1) (2 ^ 16 - 1 - b0)) as (Q & R & Q2 & Q1 & Q0); [lia..|].
    change 0xffff with (2 ^ 16 - 1). rewrite (u32_lnot (_ / _)), !(u32_small (2 ^ 16 - 1 - _ / _)) by lia.
    rewrite R. rewrite digits_value, digits_complement, Q, digits_complement by lia.
    replace (2 ^ 64 - 1 - digits b2 b1 b0) with (- v - 1) by (unfold v; lia).
    destruct (div_complement v 10000000) as [<- <-]; [lia|].
    pose proof (Z.mod_pos_bound (- v - 1) 10000000 ltac:(lia)). rewrite u32_small by lia. f_equal.
    unfold u64. rewrite <- (Z.mod_add (-1 - _) 1) by lia.
    assert (0 <= (- v - 1) / 10000000 < 2 ^ 64).
    { split; [apply Z.div_pos; lia|]. apply Z.div_lt_upper_bound; unfold v, filetime_value in *; lia. }
    rewrite Z.mod_small; lia.
  - destruct (division_in_two b2 b1 b0) as (Q & R & Q2 & Q1 & Q0); [lia..|].
    rewrite R, digits_value, Q by lia. replace (digits b2 b1 b0) with v by (unfold v; lia).
    f_equal. rewrite u64_small; [done|]. assert (0 <= v) by (unfold v; lia).
    split; [apply Z.div_pos; lia|]. apply Z.div_lt_upper_bound; unfold v, filetime_value in *; lia.
Qed.

(** ** Files *)

Section files.
Context {W : Type} `{Win32Laws W}.
Implicit Types w : W.

(** Two halves of 32 bits. *)
Lemma halves t : 0 <= t < 2 ^ 63 ->
  s64 (Z.lor (u64 (Z.shiftl (Z.land (u64 (s32 (t / 2 ^ 32))) 0xFFFFFFFF) 32))
         (Z.land (u64 (s32 (u32 t))) 0xFFFFFFFF)) = t.
Proof.
  intros Ht. change 0xFFFFFFFF with (Z.ones 32). rewrite !Z.land_ones by lia.
  assert (forall z, u64 (s32 z) mod 2 ^ 32 = u32 z) as Hs.
  { intros z. unfold u64, s32, u32. rewrite <- Znumtheory.Zmod_div_mod; [|lia|lia|by exists (2 ^ 32)].
    rewrite Zminus_mod, Z.mod_mod, <- Zminus_mod by lia. f_equal. lia. }
  rewrite !Hs. assert (0 <= t / 2 ^ 32 < 2 ^ 31) as Hq.
  { split; [apply Z.div_pos; lia|]. apply Z.div_lt_upper_bound; lia. }
  rewrite (u32_small (t / 2 ^ 32)) by lia. rewrite Z.shiftl_mul_pow2, u64_small by lia.
  pose proof (Z.div_mod t (2 ^ 32) ltac:(lia)). pose proof (Z.mod_pos_bound t (2 ^ 32) ltac:(lia)) as Hm.
  unfold u32 at 1 2. rewrite Z.mod_mod by lia.
  rewrite <- Z.shiftl_mul_pow2, lor_below by lia. rewrite s64_small; lia.
Qed.

Lemma s32_range z : - 2 ^ 31 <= s32 z < 2 ^ 31.
Proof. unfold s32. pose proof (Z.mod_pos_bound (z + 2 ^ 31) (2 ^ 32) eq_refl). lia. Qed.

Lemma u32_s32 z : u32 (s32 z) = u32 z.
Proof. unfold u32, s32. rewrite Zminus_mod, Z.mod_mod, <- Zminus_mod by lia. f_equal. lia. Qed.

(** The distance that the two halves are. *)
Lemma distance_of off : - 2 ^ 63 <= off < 2 ^ 63 ->
  s32 (Z.shiftr off 32) * 2 ^ 32 + u32 (s32 (Z.land off 0xFFFFFFFF)) = off.
Proof.
  intros Ho. rewrite u32_s32. change 0xFFFFFFFF with (Z.ones 32). rewrite Z.land_ones, Z.shiftr_div_pow2 by lia.
  unfold u32. rewrite Z.mod_mod by lia. rewrite s32_small; [pose proof (Z.div_mod off (2 ^ 32)); lia|].
  split; [apply Z.div_le_lower_bound; lia|]. apply Z.div_lt_upper_bound; lia.
Qed.

Definition seek_target (whence : Z) (c : bytes) (o off : Z) : Z :=
  (if whence =? SEEK_SET then 0 else if whence =? SEEK_CUR then o else blen c) + off.

Lemma seek_file_spec h off whence w c o : handle_view w h = Some (c, o) -> - 2 ^ 63 <= off < 2 ^ 63 ->
  whence ∈ [SEEK_SET; SEEK_CUR; SEEK_END] ->
  let t := seek_target whence c o off in
  exists w', if (0 <=? t) && (t <? 2 ^ 63)
    then Windows.seek_file h off whence w = (t, w') /\ handle_view w' h = Some (c, t)
    else Windows.seek_file h off whence w = (-1, w') /\ handle_view w' h = Some (c, o).
Proof.
  intros Hv Ho Hw t. unfold Windows.seek_file.
  assert (exists method, Windows.seek_method whence = Some method /\ pointer_target method c o off = t)
    as (method & -> & Ht) by (repeat (apply elem_of_cons in Hw as [->|Hw]); [by eexists..|by apply elem_of_nil in Hw]).
  destruct (law_pointer h _ _ method w c o Hv (s32_range (Z.land off 0xFFFFFFFF)) (s32_range (Z.shiftr off 32)))
    as (ret & hi & w' & E & Hcase). rewrite distance_of, Ht in Hcase by done.
  exists w'. rewrite E. cbv beta iota zeta. rewrite u32_s32. destruct ((0 <=? t) && (t <? 2 ^ 63)) eqn:B.
  - apply andb_true_iff in B as [B1%Z.leb_le B2%Z.ltb_lt]. destruct Hcase as (-> & -> & Hv' & Herr).
    split; [|exact Hv']. cbn [default from_option id].
    destruct (Z.eqb_spec (u32 (u32 t)) INVALID_SET_FILE_POINTER) as [Hi|Hi]; cbn [andb].
    + rewrite Herr, Z.eqb_refl; [cbn [negb]; by rewrite halves|]. rewrite <- Hi. unfold u32. by rewrite Z.mod_mod by lia.
    + by rewrite halves.
  - destruct Hcase as (-> & Herr & Hv'). split; [|exact Hv']. change (u32 INVALID_SET_FILE_POINTER =? _) with true.
    apply Z.eqb_neq in Herr. by rewrite Herr.
Qed.

Lemma open_file_spec p c w : node_at w p = Regular c ->
  exists h w', Windows.open_file (Some p) O_RDONLY w = (h, w') /\ handle_view w' h = Some (c, 0).
Proof.
  intros Hn. unfold Windows.open_file. change (Windows.desired_access O_RDONLY) with GENERIC_READ.
  change (Windows.creation_disposition O_RDONLY) with OPEN_EXISTING.
  change (Windows.has_flag O_RDONLY O_APPEND) with false.
  destruct (law_create_ok p (Z.lor FILE_SHARE_READ FILE_SHARE_WRITE) w c Hn) as (h & w1 & E & Hh). rewrite E.
  destruct (law_create _ _ _ _ _ _ _ E) as (c' & Hd & Hv); [by rewrite Hn|done|].
  rewrite Hn in Hd. injection Hd as <-. destruct (Z.eqb_spec h INVALID_HANDLE_VALUE); [done|].
  destruct (law_pointer_begin h w1 c 0 Hv) as (ret & hi & w2 & -> & Hv2). by exists h, w2.
Qed.

Lemma fstat_file_spec h fs w c o : handle_view w h = Some (c, o) ->
  exists st w', Windows.fstat_file h fs w = (0, st, w') /\ handle_view w' h = Some (c, o) /\
    file_size st = blen c /\ is_reg st = true.
Proof.
  intros Hv. unfold Windows.fstat_file.
  destruct (law_information h w c o Hv) as (i & w' & -> & Hv' & Hs & Hhi & Hlo & Hd). do 2 eexists. split; [done|].
  split; [exact Hv'|]. unfold Windows.stat_of, is_reg, Windows.file_mode, Windows.size_of. cbn [file_size mode].
  rewrite Hd, lor_below by lia. split; [exact Hs|]. by destruct (Windows.has_flag _ FILE_ATTRIBUTE_READONLY).
Qed.

(** *** Any order of calls *)

(** A caller's use of a descriptor: a seek, a read of [n] bytes to the place [k] of its
    memory, a question for the size. *)
Inductive file_call := CallSeek (off whence : Z) | CallRead (k n : Z) | CallStat.

(** What a call returns: its number, and of a stat that succeeds the size and whether
    the file is a regular one. *)
Definition file_answer : Type := Z * option (Z * bool).

(** The calls as the port makes them of the calls of Windows. *)
Definition win_call h (x : file_call) (m : mem) w : file_answer * mem * W :=
  match x with
  | CallSeek off whence => let '(r, w) := Windows.seek_file h off whence w in (r, None, m, w)
  | CallRead k n => let '(r, m, w) := Windows.read_file h m k n w in (r, None, m, w)
  | CallStat => let '(r, st, w) := Windows.fstat_file h (mk_stat 0 0 0 0 0) w in
      (r, if r =? 0 then Some (file_size st, is_reg st) else None, m, w)
  end.

(** The same calls on contents and a position. *)
Definition ref_call (c : bytes) (x : file_call) (m : mem) (o : Z) : file_answer * mem * Z :=
  match x with
  | CallSeek off whence =>
      let t := seek_target whence c o off in
      if (0 <=? t) && (t <? 2 ^ 63) then (t, None, m, t) else (-1, None, m, o)
  | CallRead k n => let d := slice o n c in (blen d, None, mstore m k d, o + blen d)
  | CallStat => (0, Some (blen c, true), m, o)
  end.

Definition call_ok (x : file_call) : Prop :=
  match x with
  | CallSeek off whence => - 2 ^ 63 <= off < 2 ^ 63 /\ whence ∈ [SEEK_SET; SEEK_CUR; SEEK_END]
  | CallRead _ n => 0 <= n < 2 ^ 32
  | CallStat => True
  end.

(** The answers to a list of calls, and the memory after them. *)
Fixpoint calls_made {St} (call : file_call -> mem -> St -> file_answer * mem * St)
    (l : list file_call) (m : mem) (st : St) : list file_answer * mem * St :=
  match l with
  | [] => ([], m, st)
  | x :: l =>
      let '(a, m, st) := call x m st in
      let '(r, m, st) := calls_made call l m st in (a :: r, m, st)
  end.

Lemma win_call_ref h x m w c o : handle_view w h = Some (c, o) -> call_ok x ->
  exists a m' o' w', ref_call c x m o = (a, m', o') /\ win_call h x m w = (a, m', w') /\
    handle_view w' h = Some (c, o').
Proof.
  intros Hv Hx. destruct x as [off whence|k n|]; cbn [call_ok win_call ref_call] in *.
  - destruct Hx as [Ho Hw]. destruct (seek_file_spec h off whence w c o Hv Ho Hw) as (w' & Hs).
    destruct ((0 <=? _) && _); destruct Hs as [-> Hv']; by do 4 eexists.
  - destruct (law_read_file h n w c o Hv Hx) as (w' & E & Hv'). unfold Windows.read_file.
    rewrite u32_small, E by lia. by do 4 eexists.
  - destruct (fstat_file_spec h (mk_stat 0 0 0 0 0) w c o Hv) as (st & w' & -> & Hv' & -> & ->). by do 4 eexists.
Qed.

Lemma calls_made_ref h c l : forall m w o, handle_view w h = Some (c, o) -> Forall call_ok l ->
  exists w' o', (calls_made (win_call h) l m w).1 = (calls_made (ref_call c) l m o).1 /\
    handle_view w' h = Some (c, o').
Proof.
  induction l as [|x l IH]; intros m w o Hv Hl; cbn [calls_made]; [by exists w, o|].
  apply Forall_cons in Hl as [Hx Hl]. destruct (win_call_ref h x m w c o Hv Hx) as (a & m1 & o1 & w1 & -> & -> & Hv1).
  destruct (IH m1 w1 o1 Hv1 Hl) as (w' & o' & E & Hv'). exists w', o'. split; [|done].
  destruct (calls_made (win_call h) l m1 w1) as [[r2 m2] w2], (calls_made (ref_call c) l m1 o1) as [[r3 m3] o3].
  by injection E as -> ->.
Qed.
End files.

(** C35. On Windows as on POSIX a file that is opened for reading answers any list of
    seeks, reads and questions for its size the way its contents and one position do:
    a seek from the start, from the position that the earlier calls left, or from the
    end reaches and returns the position as long as it is in [0, 2^63), out of that
    range it fails and moves nothing; the two halves of the position that SetFilePointer
    takes and gives are put together again, also where the low half looks like an
    error; a read of fewer than 2^32 bytes delivers what is there, to its place in the
    memory and nowhere else, and moves on by that; the size is that of the file.  The
    distances of the seeks fit 64 bits, and the file is one that ReadFile can read. *)
Theorem windows_file_reads {W} `{Win32Laws W} p c (w : W) : node_at w p = Regular c ->
  exists h w1, Windows.open_file (Some p) O_RDONLY w = (h, w1) /\ h <> INVALID_HANDLE_VALUE /\
    forall l m, Forall call_ok l ->
      (calls_made (win_call h) l m w1).1 = (calls_made (ref_call c) l m 0).1.
Proof.
  intros Hn. destruct (open_file_spec p c w Hn) as (h & w1 & E & Hv). exists h, w1. split; [exact E|].
  split; [by destruct (law_handle _ _ _ _ Hv)|]. intros l m Hl.
  by destruct (calls_made_ref h c l m w1 0 Hv Hl) as (_ & _ & Er & _).
Qed.

(** C38. Both versions of FileTimeToUnixTime, the one with 64-bit integers and the one
    that divides digit by digit in 32 bits, give the seconds since 1970 rounded down,
    before that date too, and the rest of the division, which is never negative. *)
Theorem filetime_versions_agree t : filetime_ok t ->
  let v := filetime_value t - 116444736000000000 in
  Windows.FileTimeToUnixTime t = (u64 (v / 10000000), v mod 10000000) /\
  Windows.FileTimeToUnixTime_iso t = Windows.FileTimeToUnixTime t.
Proof. intros Ht v. pose proof (filetime_long t Ht). by rewrite (filetime_iso t Ht). Qed.

(** What open(2) makes of the contents behind a path. *)
Definition posix_opened (oflag : Z) (old : option bytes) : option bytes :=
  match old with
  | Some c =>
      if Windows.has_flag oflag O_CREAT && Windows.has_flag oflag O_EXCL then None
      else if Windows.has_flag oflag O_TRUNC && negb (Z.land oflag O_ACCMODE =? O_RDONLY) then Some [] else Some c
  | None => if Windows.has_flag oflag O_CREAT then Some [] else None
  end.

(** The disposition that the flags become creates, empties and refuses as POSIX does. *)
Lemma disposed_posix oflag old : disposed (Windows.creation_disposition oflag) old = posix_opened oflag old.
Proof.
  unfold Windows.creation_disposition, posix_opened.
  destruct (Windows.has_flag oflag O_TRUNC), (Windows.has_flag oflag O_CREAT), (Windows.has_flag oflag O_EXCL),
    (Z.land oflag O_ACCMODE =? O_RDONLY), old; done.
Qed.

(** ** Receiving *)

Section receiving.
Context {W : Type} `{Win32 W} (s : Z).
(** recv(): an error or the end of the stream, or some of the bytes asked for. *)
Hypothesis recv_some : forall n (w : W) r d w', win_recv s n w = (r, d, w') -> 0 < r -> r = blen d /\ r <= n.

(** The loop ends: a call failed or met the end of the stream, or all has arrived. *)
Lemma recv_loop_ends k : forall size total (w : W), 0 <= size -> (Z.to_nat size <= k)%nat ->
  exists r d w', Windows.recv_loop k s size total w = Some (r, d, w') /\
    (r <= 0 \/ r = total + size /\ blen d = size).
Proof.
  induction k as [|k IH]; intros size total w Hs Hk; cbn [Windows.recv_loop]; destruct (Z.ltb_spec 0 size); [lia| | |].
  1,3: exists total, [], w; split; [done|]; right; rewrite blen_nil; lia.
  destruct (win_recv s size w) as [[r d] w1] eqn:E. destruct (Z.leb_spec r 0) as [|Hr].
  { exists r, d, w1. split; [done|by left]. }
  destruct (recv_some _ _ _ _ _ E Hr) as [Hd Hn].
  destruct (IH (size - r) (total + r) w1) as (r2 & d2 & w2 & -> & Hi); [lia..|].
  exists r2, (d ++ d2), w2. split; [done|]. destruct Hi as [|[-> Hb]]; [by left|]. right. rewrite blen_app. lia.
Qed.

Lemma recv_all_ends size (w : W) : 0 <= size ->
  exists r d w', Windows.recv_all s size w = Some (r, d, w') /\ (r <= 0 \/ r = size /\ blen d = size).
Proof. intros Hs. by apply recv_loop_ends. Qed.
End receiving.

(** ** Names in order *)

Lemma strcoll_refl a : strcoll a a = 0.
Proof. induction a as [|x a IH]; [done|]. cbn. by rewrite Z.ltb_irrefl. Qed.

Lemma strcoll_opp a b : strcoll b a = - strcoll a b.
Proof.
  revert b. induction a as [|x a IH]; intros [|y b]; [done..|]. cbn [strcoll].
  destruct (Z.ltb_spec x y), (Z.ltb_spec y x); [lia|done|done|apply IH].
Qed.

Lemma strcoll_eq a b : strcoll a b = 0 -> a = b.
Proof.
  revert b. induction a as [|x a IH]; intros [|y b]; [done..|]. cbn [strcoll].
  destruct (Z.ltb_spec x y), (Z.ltb_spec y x); [done..|]. intros E%IH. f_equal; [lia|done].
Qed.

Lemma strcoll_trans a b c : strcoll a b <= 0 -> strcoll b c <= 0 -> strcoll a c <= 0.
Proof.
  revert b c. induction a as [|x a IH]; intros [|y b] [|z c]; cbn [strcoll]; [lia..|]. intros A B.
  destruct (Z.ltb_spec x y), (Z.ltb_spec y x), (Z.ltb_spec y z), (Z.ltb_spec z y),
    (Z.ltb_spec x z), (Z.ltb_spec z x); try lia. by apply IH with b.
Qed.

Definition name_compare (a b : dirent) : Z := strcoll (d_name a) (d_name b).
Abbreviation name_le := (sort_le name_compare).

#[export] Instance name_total : Total name_le.
Proof. intros a b. unfold sort_le, name_compare. rewrite (strcoll_opp (d_name a)). lia. Qed.

#[export] Instance name_trans : Transitive name_le.
Proof. intros a b c. apply strcoll_trans. Qed.

#[export] Instance alphasort_total : Total (sort_le alphasort).
Proof. intros a b. apply name_total. Qed.

(** The entries of a directory in order: what the virtual images ask [scandir] for. *)
Definition listing (es : list dirent) : list dirent := qsort name_compare es.

Lemma listing_sorted es : StronglySorted name_le (listing es).
Proof. apply StronglySorted_merge_sort; apply _. Qed.
Lemma listing_perm es : listing es ≡ₚ es.
Proof. apply merge_sort_Permutation. Qed.

Lemma StronglySorted_filter {A} (R : relation A) (f : A -> bool) l :
  StronglySorted R l -> StronglySorted R (filter f l).
Proof.
  induction 1 as [|x l _ IH Hx]; [constructor|]. rewrite filter_cons. case_decide; [|done].
  constructor; [done|]. apply Forall_forall. intros y [_ Hy]%list_elem_of_filter. by eapply Forall_forall in Hx.
Qed.

(** What [scandir] sorts last can be selected first. *)
Lemma qsort_selected (l : list dirent2) (f : dirent -> bool) es : NoDup (d_name <$> es) ->
  ent <$> l = filter f es -> ent <$> qsort alphasort l = filter f (listing es).
Proof.
  intros Hd E. assert (ent <$> qsort alphasort l ≡ₚ filter f (listing es)) as P.
  { rewrite listing_perm, <- E. apply fmap_Permutation, merge_sort_Permutation. }
  apply (StronglySorted_unique_strong name_le); [| | |exact P].
  - assert (forall x, x ∈ ent <$> qsort alphasort l -> x ∈ es) as Hin.
    { intros x. unfold qsort. rewrite merge_sort_Permutation, E. by intros [_ Hx]%list_elem_of_filter. }
    intros x y Hx%Hin Hy. rewrite <- P in Hy. apply Hin in Hy. unfold sort_le, name_compare.
    rewrite (strcoll_opp (d_name x)). intros A B. assert (strcoll (d_name x) (d_name y) = 0) as En%strcoll_eq by lia.
    apply list_elem_of_lookup in Hx as [i Hi], Hy as [j Hj].
    assert (i = j) as ->; [|congruence]. apply (NoDup_lookup _ i j (d_name x) Hd); rewrite list_lookup_fmap.
    + by rewrite Hi.
    + by rewrite Hj, En.
  - apply StronglySorted_fmap with (R1 := sort_le alphasort); [done|]. apply StronglySorted_merge_sort; [|apply _].
    intros a b c. apply strcoll_trans.
  - apply StronglySorted_filter, listing_sorted.
Qed.

(** ** Directories *)

Section searches.
Context {W : Type} `{Win32Laws W}.
Implicit Types (w : W) (dir : DIR2) (l : list find_data).

Lemma searches_kept_refl P w : searches_kept P w w.
Proof. by split. Qed.
Lemma searches_kept_trans P w1 w2 w3 : searches_kept P w1 w2 -> searches_kept P w2 w3 -> searches_kept P w1 w3.
Proof.
  intros [A1 B1 C1 D1 E1] [A2 B2 C2 D2 E2]. split; [congruence| |intros h Hh; by rewrite C2, C1|auto..].
  intros p. by rewrite B2, B1.
Qed.
Lemma searches_kept_any P w w' : searches_kept (fun _ => True) w w' -> searches_kept P w w'.
Proof. intros []. split; auto. Qed.

(** The entries that [readdir2] has still to give. *)
Definition to_read dir w l : Prop :=
  if decide (dd_handle dir = 0) then matches w (dd_dirpattern dir) = l
  else default [] (search_left w (dd_handle dir)) = l /\
    (dd_handle dir = INVALID_HANDLE_VALUE \/ is_Some (search_left w (dd_handle dir))).

(** The only search that is open now and was not in [w0] is that of [dir]. *)
Record owns_search w0 dir w : Prop := {
  os_kept : searches_kept (fun h => h <> dd_handle dir) w0 w;
  os_new : search_left w0 (dd_handle dir) = None;
}.

Lemma to_read_kept dir w w' l : searches_kept (fun _ => True) w w' -> to_read dir w l -> to_read dir w' l.
Proof. intros [A _ C _ _]. unfold to_read. case_decide; [by rewrite A|]. by rewrite C. Qed.

Lemma owns_kept w0 dir w w' : searches_kept (fun _ => True) w w' -> owns_search w0 dir w -> owns_search w0 dir w'.
Proof.
  intros K [A B]. split; [|done]. eapply searches_kept_trans; [exact A|]. by apply searches_kept_any.
Qed.

(** A search that starts. *)
Lemma owns_started w0 dir h w w' : owns_search w0 dir w -> dd_handle dir = 0 ->
  searches_kept (fun h' => h' <> h) w w' -> search_left w h = None ->
  owns_search w0 (mk_DIR2 (dd_dirpattern dir) h) w'.
Proof.
  intros [[A B C D E] _] Hz [A' B' C' D' E'] Hn. rewrite Hz in C.
  assert (forall x, search_left w x = search_left w0 x) as Cw.
  { intros x. destruct (decide (x = 0)) as [->|]; [by rewrite !law_no_search by by left|by apply C]. }
  split; cbn [dd_handle]; [|by rewrite <- Cw].
  split; [by intros; rewrite A', A|by intros; rewrite B', B|by intros; rewrite C', Cw|auto..].
Qed.

(** An entry is the next one; that there is none is the end, unless a search met an
    error. *)
Lemma readdir2_spec w0 dir w l e dir' w' : to_read dir w l -> owns_search w0 dir w ->
  readdir2 dir w = (e, dir', w') ->
  owns_search w0 dir' w' /\
  match e with
  | Some x => exists fd l', l = fd :: l' /\ x = dirent_of fd /\ to_read dir' w' l'
  | None => searches_work w0 -> l = []
  end.
Proof.
  unfold readdir2, to_read. intros Hl O. pose proof (sk_work _ _ _ (os_kept _ _ _ O)) as Hwork.
  destruct (Z.eqb_spec (dd_handle dir) INVALID_HANDLE_VALUE) as [Hi|Hi].
  - intros [= <- <- <-]. split; [done|]. intros _. rewrite decide_False in Hl by (by rewrite Hi).
    rewrite Hi, law_no_search in Hl by by right. by destruct Hl as [<- _].
  - destruct (Z.eqb_spec (dd_handle dir) 0) as [Hz|Hz].
    + rewrite decide_True in Hl by done. destruct (FindFirstFile (dd_dirpattern dir) w) as [[[h fd]|] w1] eqn:E;
        apply law_find_first in E.
      * destruct E as (Hne0 & Hne1 & Hnew & K & l' & Hm & Hs). intros [= <- <- <-]. cbn [dd_handle].
        split; [by apply owns_started with w|]. exists fd, l'. split; [by rewrite <- Hl|]. split; [done|].
        rewrite decide_False, Hs by done. split; [done|by right].
      * destruct E as [Hm K]. intros [= <- <- <-]. split; [|by intros W0; rewrite <- Hl; auto].
        apply owns_started with w; [done|done| |by apply law_no_search; right]. by apply searches_kept_any.
    + rewrite decide_False in Hl by done. destruct Hl as [Hl [?|[x Hx]]]; [done|]. rewrite Hx in Hl. cbn in Hl. subst x.
      destruct (FindNextFile (dd_handle dir) w) as [r w1] eqn:E. destruct (law_find_next _ _ _ _ _ Hx E) as (K & Hopen & Hr).
      assert (owns_search w0 dir w1) as O1 by (destruct O as [Hk Hn]; split; [by eapply searches_kept_trans|done]).
      destruct r as [fd|]; intros [= <- <- <-]; (split; [done|]); [|auto].
      destruct Hr as (l' & -> & Hs). exists fd, l'. do 2 (split; [done|]). rewrite decide_False, Hs by done.
      split; [done|by right].
Qed.

Lemma closedir2_spec w0 dir w r w' : owns_search w0 dir w -> closedir2 dir w = (r, w') ->
  searches_kept (fun _ => True) w0 w'.
Proof.
  intros [[A B C D E0] Hn]. unfold closedir2. destruct (Z.eqb_spec (dd_handle dir) INVALID_HANDLE_VALUE) as [Hi|Hi].
  - rewrite Hi. cbn [negb orb Z.eqb]. intros [= _ <-]. split; try done. intros x _.
    destruct (decide (x = INVALID_HANDLE_VALUE)) as [->|]; [by rewrite !law_no_search by by right|].
    apply C. congruence.
  - rewrite orb_true_r. destruct (FindClose (dd_handle dir) w) as [ok w1] eqn:E.
    apply law_find_close in E as [[A' B' C' D' E'] Hc]. intros [= _ <-].
    split; [by intros; rewrite A', A|intros; by rewrite B', B| |auto..]. intros x _.
    destruct (decide (x = dd_handle dir)) as [->|Hx]; [|by rewrite C', C]. rewrite Hn.
    destruct (decide (dd_handle dir = 0)) as [->|]; [apply law_no_search; by left|by apply Hc].
Qed.

(** An entry has the length of its name. *)
Definition namlen_ok (e : dirent2) : Prop := d_namlen e = u16 (blen (d_name (ent e))).

(** The list is that of the selected ones among the entries up to the end or to the
    first error. *)
Definition scan_ok w0 (f : dirent -> bool) (nl : list dirent2) l (r : scan) : Prop :=
  match r with
  | Listed nl' => Forall namlen_ok nl' /\ exists read, read `prefix_of` l /\ (searches_work w0 -> read = l) /\
      ent <$> nl' = (ent <$> nl) ++ filter f (dirent_of <$> read)
  | _ => True
  end.

Lemma scan_ok_cons w0 f nl fd l r : scan_ok w0 f nl l r -> f (dirent_of fd) = false -> scan_ok w0 f nl (fd :: l) r.
Proof.
  destruct r as [nl'| |]; [|done..]. intros (Hn & read & Hp & Hw & E) Hf. split; [done|]. exists (fd :: read).
  split; [by apply prefix_cons|]. split; [by intros ->%Hw|].
  rewrite E, fmap_cons, filter_cons. case_decide as Hd; [by rewrite Hf in Hd|done].
Qed.

Lemma scan_ok_app w0 f nl n fd l r : scan_ok w0 f (nl ++ [mk_dirent2 n (dirent_of fd)]) l r -> f (dirent_of fd) = true ->
  scan_ok w0 f nl (fd :: l) r.
Proof.
  destruct r as [nl'| |]; [|done..]. intros (Hn & read & Hp & Hw & E) Hf. split; [done|]. exists (fd :: read).
  split; [by apply prefix_cons|]. split; [by intros ->%Hw|].
  rewrite E, fmap_app, <- app_assoc, (fmap_cons _ fd), filter_cons. case_decide as Hd; [done|by rewrite Hf in Hd].
Qed.

Lemma malloc_kept w0 dir n w b w' l : win_malloc n w = (b, w') -> to_read dir w l -> owns_search w0 dir w ->
  to_read dir w' l /\ owns_search w0 dir w' /\ (win_memory w0 -> b = true).
Proof.
  intros [K Hb]%law_win_malloc Hl O. split; [by eapply to_read_kept|]. split; [by eapply owns_kept|].
  intros Hm. by apply Hb, (sk_memory _ _ _ (os_kept _ _ _ O)).
Qed.

Lemma scan_loop_spec w0 f k : forall a nl dir w l,
  (length l < k)%nat -> to_read dir w l -> owns_search w0 dir w -> Forall namlen_ok nl ->
  exists r dir' w', scan_loop k (Some f) a nl dir w = Some (r, dir', w') /\
    (win_memory w0 -> exists nl', r = Listed nl') /\ scan_ok w0 f nl l r /\ owns_search w0 dir' w'.
Proof.
  induction k as [|k IH]; intros a nl dir w l Hk Hl O Hnl; [lia|]. cbn [scan_loop].
  destruct (readdir2 dir w) as [[e dir1] w1] eqn:E. destruct (readdir2_spec _ _ _ _ _ _ _ Hl O E) as [O1 Hr].
  destruct e as [e|].
  2:{ do 3 eexists. split; [done|]. split; [by eexists|]. split; [|done]. split; [done|]. exists [].
      split; [apply prefix_nil|]. split; [by intros ->%Hr|]. by rewrite app_nil_r. }
  destruct Hr as (fd & l1 & -> & -> & Hl1). cbn [length] in Hk.
  destruct (f (dirent_of fd)) eqn:Hf; cbn [negb].
  - destruct (win_malloc (11 + blen (d_name (dirent_of fd)) + 1) w1) as [ok w2] eqn:E2.
    destruct (malloc_kept w0 dir1 _ _ _ _ l1 E2 Hl1 O1) as (Hl2 & O2 & Hok).
    destruct ok; cbn [negb]; [|do 3 eexists; split; [done|]; split; [by intros ?%Hok|by split]].
    cbv zeta. set (a' := if a <=? blen nl then s32 (a * 2) else a).
    destruct (if a <=? blen nl then win_malloc (u64 (a' * 8)) w2 else (true, w2)) as [ok w3] eqn:E3.
    assert (to_read dir1 w3 l1 /\ owns_search w0 dir1 w3 /\ (win_memory w0 -> ok = true)) as (Hl3 & O3 & Hok3).
    { destruct (a <=? blen nl); [by eapply malloc_kept|by injection E3 as <- <-]. }
    destruct ok; cbn [negb]; [|do 3 eexists; split; [done|]; split; [by intros ?%Hok3|by split]].
    destruct (IH a' (nl ++ [mk_dirent2 (u16 (blen (d_name (dirent_of fd)))) (dirent_of fd)]) dir1 w3 l1)
      as (r & dir' & w' & -> & Hm & Hr & O'); [lia|done|done|by apply Forall_app; split; [|repeat constructor]|].
    do 3 eexists. split; [done|]. split; [done|]. split; [by eapply scan_ok_app|done].
  - destruct (IH a nl dir1 w1 l1) as (r & dir' & w' & -> & ? & ? & ?); [lia|done..|]. do 3 eexists.
    split; [done|]. split; [done|]. split; [by apply scan_ok_cons|done].
Qed.

(** Every search is where it was, apart from one that was started and not closed. *)
Definition one_search_left w w' : Prop :=
  exists h, search_left w h = None /\ searches_kept (fun h' => h' <> h) w w'.

Lemma none_left w w' : searches_kept (fun _ => True) w w' -> one_search_left w w'.
Proof. intros K. exists 0. split; [apply law_no_search; by left|by apply searches_kept_any]. Qed.
Lemma not_started w dir w' : owns_search w dir w' -> dd_handle dir = 0 -> searches_kept (fun _ => True) w w'.
Proof.
  intros [[A B C D E] Hn] Hz. split; [done|done| |done|done]. intros h _.
  destruct (decide (h = dd_handle dir)) as [->|]; [|auto]. by rewrite Hz, !law_no_search by by left.
Qed.

(** What [scandir] gives for the entries [es]: those selected, of all entries or of
    those before the first error of the search, in the order of their names. *)
Definition selected_of w (f : dirent -> bool) (es : list dirent) (l : list dirent2) : Prop :=
  exists read, read `prefix_of` es /\ (searches_work w -> read = es) /\
    StronglySorted name_le (listing read) /\ listing read ≡ₚ read /\
    ent <$> l = filter f (listing read) /\ Forall namlen_ok l.

Lemma scan_selected w (f : dirent -> bool) l nl : NoDup (d_name <$> (dirent_of <$> l)) -> scan_ok w f [] l (Listed nl) ->
  selected_of w f (dirent_of <$> l) (qsort alphasort nl).
Proof.
  intros Hd (Hn & read & [rest ->] & Hw & E). exists (dirent_of <$> read).
  split; [rewrite fmap_app; by eexists|]. split; [by intros <-%Hw|]. split; [apply listing_sorted|].
  split; [apply listing_perm|]. split; [|unfold qsort; by rewrite merge_sort_Permutation].
  apply qsort_selected; [|exact E]. rewrite !fmap_app in Hd. by apply NoDup_app in Hd as [? _].
Qed.

Lemma opendir2_spec w p r w' : opendir2 (Some p) w = (r, w') -> p <> [] ->
  match r with
  | Some dir => to_read dir w' (matches w (p ++ str "/*")) /\ owns_search w dir w' /\ dd_handle dir = 0
  | None => (win_memory w -> exists_at w p -> False) /\ searches_kept (fun _ => True) w w'
  end.
Proof.
  unfold opendir2. intros E0 Hp. destruct p as [|x p]; [done|]. set (p' := x :: p) in *.
  destruct (GetFileAttributes p' w) as [at' w1] eqn:E1. pose proof (law_attributes _ _ _ _ E1) as [K1 Hat].
  set (dir := mk_DIR2 (p' ++ str "/*") 0).
  assert (to_read dir w1 (matches w (p' ++ str "/*")) /\ owns_search w dir w1) as [L1 O1].
  { split; [exact (sk_matches _ _ _ K1 _)|]. split; [by apply searches_kept_any|]. apply law_no_search. by left. }
  destruct (Z.eqb_spec at' INVALID_FILE_ATTRIBUTES) as [Hi|_]; [injection E0 as <- <-; by split; [intros _ ?%Hat|]|].
  destruct (win_malloc DIR2_SIZE w1) as [ok w2] eqn:E2. destruct (malloc_kept w dir _ _ _ _ _ E2 L1 O1) as (L2 & O2 & M2).
  destruct ok; cbn [negb] in E0; [|injection E0 as <- <-; split; [by intros ?%M2|by eapply not_started]].
  destruct (win_malloc FIND_DATA_SIZE w2) as [ok w3] eqn:E3. destruct (malloc_kept w dir _ _ _ _ _ E3 L2 O2) as (L3 & O3 & M3).
  destruct ok; cbn [negb] in E0; [|injection E0 as <- <-; split; [by intros ?%M3|by eapply not_started]].
  destruct (win_malloc _ w3) as [ok w4] eqn:E4. destruct (malloc_kept w dir _ _ _ _ _ E4 L3 O3) as (L4 & O4 & M4).
  destruct ok; cbn [negb] in E0; injection E0 as <- <-; [done|split; [by intros ?%M4|by eapply not_started]].
Qed.
End searches.

(** C22. The [scandir] that comes with the program for Windows is what the virtual images
    rely on ([law_scandir] of VIsoTree.v): it ends, and the list it returns is the
    entries of the directory that are selected, each once, in the order of their
    names, with the lengths of the names: of all entries when the search meets no error, else of
    those before the error, which is taken for the end.  While there is memory a
    directory that exists is listed.  No search is left open when there is memory or
    a list is returned; otherwise at most that of the directory is, and those of
    others stay where they are in any case.  The names are distinct, as those of a directory are. *)
Theorem scandir_is_listing {W} `{Win32Laws W} k p (f : dirent -> bool) (w : W) :
  let es := dirent_of <$> matches w (p ++ str "/*") in
  p <> [] -> NoDup (d_name <$> es) -> (length es < k)%nat ->
  exists r w', scandir k (Some p) (Some f) (Some alphasort) w = Some (r, w') /\
    (forall l, r = Some l -> selected_of w f es l) /\ (win_memory w -> exists_at w p -> is_Some r) /\
    (win_memory w \/ is_Some r -> searches_kept (fun _ => True) w w') /\ one_search_left w w'.
Proof.
  intros es Hp Hd Hk. unfold scandir. destruct (opendir2 (Some p) w) as [[dir|] w4] eqn:E4;
    apply opendir2_spec in E4; [|done| |done].
  2:{ destruct E4 as [Hno K]. do 2 eexists. split; [done|]. split; [done|].
      split; [by intros M X; destruct (Hno M X)|]. split; [done|by apply none_left]. }
  destruct E4 as (L4 & O4 & Hz).
  destruct (win_malloc 16 w4) as [ok w5] eqn:E5. destruct (malloc_kept w dir _ _ _ _ _ E5 L4 O4) as (L5 & O5 & M5).
  destruct ok; cbn [negb].
  2:{ destruct (closedir2 dir w5) as [c w6] eqn:E6. pose proof (closedir2_spec _ _ _ _ _ O5 E6) as K.
      do 2 eexists. split; [done|]. split; [done|]. split; [by intros ?%M5|]. split; [done|by apply none_left]. }
  destruct (scan_loop_spec w f k 2 [] dir w5 (matches w (p ++ str "/*"))) as (r & dir' & w6 & -> & Hm & Hr & O6);
    [by unfold es in Hk; rewrite length_fmap in Hk|done|done|constructor|].
  destruct (closedir2 dir' w6) as [c w7] eqn:E7. pose proof (closedir2_spec _ _ _ _ _ O6 E7) as K7.
  destruct r as [l| |]; do 2 eexists; (split; [done|]).
  - split; [intros l' [= <-]; by apply scan_selected|]. split; [done|]. split; [done|by apply none_left].
  - split; [done|]. split; [by intros [? ?]%Hm|]. split; [done|by apply none_left].
  - split; [done|]. split; [by intros [? ?]%Hm|]. destruct O6 as [K6 Hn6].
    split; [intros [[? ?]%Hm|[]]; done|by exists (dd_handle dir')].
Qed.

(** ** Witnesses *)

Definition win_entry (name : bytes) (attributes : Z) : find_data :=
  mk_find name (mk_information attributes WinSim.time0 WinSim.time0 WinSim.time0 0 0).

Definition sim_win : WinSim.sim :=
  WinSim.mk_sim {[ str "C:/a.bin" := [10; 11; 12; 13; 14] ]}
    {[ str "C:/d/*" := [win_entry (str "b.txt") 0x80; win_entry (str "sub") 0x10; win_entry (str "a.txt") 0x80] ]}
    [] [] 0 false false.

(** The fourth and fifth byte, sought from the end; a seek that fails; and after a seek
    back from where the read ended, the third and fourth. *)
Lemma windows_file_reads_witness : exists h w1,
  Windows.open_file (Some (str "C:/a.bin")) O_RDONLY sim_win = (h, w1) /\
  let l := [CallSeek (-2) SEEK_END; CallRead 0 10; CallSeek (-6) SEEK_CUR; CallStat; CallSeek (-3) SEEK_CUR; CallRead 5 2] in
  (calls_made (win_call h) l (zext []) w1).1 =
  ([(3, None); (2, None); (-1, None); (0, Some (5, true)); (2, None); (2, None)],
   mstore (mstore (zext []) 0 [13; 14]) 5 [12; 13]).
Proof.
  destruct (windows_file_reads (str "C:/a.bin") [10; 11; 12; 13; 14] sim_win) as (h & w1 & E & _ & Hr); [by vm_compute|].
  exists h, w1. split; [exact E|]. intros l. unfold l. rewrite Hr; [reflexivity|].
  repeat constructor; try lia; apply (bool_decide_unpack _); by vm_compute.
Defined.

Lemma filetime_versions_agree_witness :
  Windows.FileTimeToUnixTime (mk_filetime 0 1) = (u64 (-11644473600), 1) /\
  Windows.FileTimeToUnixTime_iso (mk_filetime 0 1) = Windows.FileTimeToUnixTime (mk_filetime 0 1).
Proof.
  destruct (filetime_versions_agree (mk_filetime 0 1)) as [E1 E2]; [by split|]. split; [exact E1|exact E2].
Defined.

Definition with_broken (b : bool) (w : WinSim.sim) : WinSim.sim :=
  WinSim.mk_sim (WinSim.files w) (WinSim.dirs w) (WinSim.handles w) (WinSim.searches w) (WinSim.last_error w)
    (WinSim.oom w) b.

(** The files of the directory, in order; on a medium whose searches fail, still a list. *)
Lemma scandir_is_listing_witness :
  (exists l w', scandir 4 (Some (str "C:/d")) (Some select_files) (Some alphasort) sim_win = Some (Some l, w') /\
    ent <$> l = [mk_dirent DT_REG (str "a.txt"); mk_dirent DT_REG (str "b.txt")] /\
    WinSim.searches w' = [None]) /\
  exists l w', scandir 4 (Some (str "C:/d")) (Some select_files) (Some alphasort) (with_broken true sim_win) =
    Some (Some l, w') /\ searches_kept (fun _ => True) (with_broken true sim_win) w'.
Proof.
  split.
  - destruct (scandir_is_listing 4 (str "C:/d") select_files sim_win) as (r & w' & E & Hl & Hs & _ & _);
      [done|apply (bool_decide_unpack _); by vm_compute|vm_compute; lia|].
    destruct Hs as [l ->]; [done|by eexists|]. exists l, w'. split; [exact E|].
    destruct (Hl l eq_refl) as (read & _ & Hw & _ & _ & -> & _). rewrite Hw by done. split; [by vm_compute|].
    vm_compute in E. by injection E as <- <-.
  - destruct (scandir_is_listing 4 (str "C:/d") select_files (with_broken true sim_win)) as (r & w' & E & _ & Hs & K & _);
      [done|apply (bool_decide_unpack _); by vm_compute|vm_compute; lia|].
    destruct Hs as [l ->]; [done|by eexists|]. exists l, w'. split; [exact E|]. apply K. right. by eexists.
Defined.
