(* ===== verification/WinServer.v ===== *)
(** * What the server does on Windows only

    The parts of main.cpp, VIsoFile.cpp and compat.c inside [#ifdef WIN32] that are
    not calls on files (Windows.v): the configuration file, the names of a virtual
    image, which are in an 8-bit character set there, its random bytes, and the
    wrappers of threads and locks. *)

From S2P Require Import Prelude Endian CString Os FileIso VIsoNames Windows.

Module WinServer.

(** ** PS3_NET_Server.cfg *)

Definition quote : Z := 34.
Definition path0_key : bytes := str "path0=" ++ [quote].

(** What the array of 2048 bytes gives, as a string: the text after path0, up to the
    next quote.  [None]: there is no NUL in the array. *)
Definition path0_of (buf : bytes) : option (option bytes) :=
  let s := cstr buf in
  if blen buf <=? blen s then None
  else Some (
    let? o := strstr s path0_key in
    let path := drop (Z.to_nat (o + blen path0_key)) s in
    Some (match strstr path [quote] with Some pos => take (Z.to_nat pos) path | None => path end)).

Section config.
Context {W : Type} `{Win32 W}.
Implicit Types w : W.

(** [junk] is what the array holds before.  [argv\[1\]] is left pointing into the
    array after its block; the result is what the array held. *)
Definition config_path0 (junk : mem) w : option (option bytes * W) :=
  let '(fd, w) := Windows.open_file (Some (str "./PS3_NET_Server.cfg")) O_RDONLY w in
  if negb (fd =? INVALID_HANDLE_VALUE) then
    let '(_, m, w) := Windows.read_file fd junk 0 2048 w in
    let '(_, w) := Windows.close_file fd w in
    let? path := path0_of (mload m 0 2048) in Some (path, w)
  else Some (None, w).

(** The shared directory: what the file says, or that of the program. *)
Definition default_directory (junk : mem) (dir : bytes) w : option (bytes * W) :=
  let? (path, w) := config_path0 junk w in Some (default dir path, w).
End config.

(** ** Names *)

Definition get_ucs2_from_utf8 (input : bytes) : option (Z * bytes) :=
  match input with
  | [] => None
  | b :: l => if b =? 0 then Some (FAILED, input) else Some (b, l)
  end.

Fixpoint utf8_to_ucs2 (maxLength : nat) (p : bytes) : option (list Z) :=
  match p with
  | [] => None
  | b :: _ =>
      if b =? 0 then Some []
      else match maxLength with
           | O => Some []
           | S k =>
               let? (ch, p) := get_ucs2_from_utf8 p in
               if ch <? 0 then Some []
               else (fun r => BE16 (Z.land ch 0xFFFF) :: r) <$> utf8_to_ucs2 k p
           end
  end.

(** ** Threads, locks, random bytes *)

Class WinThreads (W : Type) := {
  win_error : W -> Z;
  (** a new thread that runs the routine on the client at a slot; 0: NULL *)
  CreateThread : nat -> W -> Z * W;
  WaitForSingleObject : Z -> W -> Z * W;
  CloseThread : Z -> W -> W;
  CryptAcquireContext : W -> option Z * W;
  CryptGenRandom : Z -> Z -> W -> option bytes * W;
  CryptReleaseContext : Z -> W -> W;
}.

Section threads.
Context {W : Type} `{WinThreads W}.
Implicit Types w : W.

(** The result and [*thread]. *)
Definition create_start_thread (thread : Z) (arg : nat) w : Z * Z * W :=
  let '(t, w) := CreateThread arg w in
  if t =? 0 then (win_error w, thread, w) else (SUCCEEDED, t, w).

Definition join_thread (thread : Z) w : Z * W :=
  let '(ret, w) := WaitForSingleObject thread w in
  if ret =? 0xFFFFFFFF then (s32 ret, w) else (SUCCEEDED, CloseThread thread w).

(** [hProv] is indeterminate when the context is not acquired: [None]. *)
Definition get_rand (size : Z) (bfr : bytes) w : option (bytes * W) :=
  if size =? 0 then Some (bfr, w)
  else
    let '(hProv, w) := CryptAcquireContext w in
    let? hProv := hProv in
    let '(r, w) := CryptGenRandom hProv size w in
    Some (default bfr r, CryptReleaseContext hProv w).
End threads.

(** ** What they do *)

Lemma cstr_app_nul s t : Forall (fun b => b <> 0) s -> cstr (s ++ 0 :: t) = s.
Proof.
  induction 1 as [|b s Hb _ IH]; [done|]. cbn. destruct (Z.eqb_spec b 0); [done|]. by rewrite IH.
Qed.

Lemma strstr_quote p t : Forall (fun b => b <> quote) p -> strstr (p ++ quote :: t) [quote] = Some (blen p).
Proof.
  induction 1 as [|b p Hb _ IH]; [by destruct t|]. cbn [app strstr starts_with].
  destruct (Z.eqb_spec quote b); [congruence|]. cbn [andb]. rewrite IH. cbn. by rewrite blen_cons.
Qed.

(** A file that holds path0="p" once, shorter than the array, whatever the array held
    after it up to a NUL: the path is [p]. *)
Theorem path0_quoted pre p post junk :
  Forall (fun b => b <> 0) (pre ++ path0_key ++ p ++ quote :: post) -> Forall (fun b => b <> quote) p ->
  strstr (pre ++ path0_key ++ p ++ quote :: post) path0_key = Some (blen pre) ->
  path0_of (pre ++ path0_key ++ p ++ quote :: post ++ 0 :: junk) = Some (Some p).
Proof.
  intros Hz Hq Hs. unfold path0_of.
  replace (pre ++ path0_key ++ p ++ quote :: post ++ 0 :: junk)
    with ((pre ++ path0_key ++ p ++ quote :: post) ++ 0 :: junk) by (by rewrite <- !app_assoc).
  rewrite cstr_app_nul, blen_app, blen_cons by done. pose proof (blen_nonneg junk).
  destruct (Z.leb_spec (blen (pre ++ path0_key ++ p ++ quote :: post) + (1 + blen junk))
    (blen (pre ++ path0_key ++ p ++ quote :: post))); [lia|]. rewrite Hs.
  replace (drop _ _) with (p ++ quote :: post).
  - rewrite strstr_quote by done. unfold blen. by rewrite Nat2Z.id, take_app_length.
  - rewrite app_assoc, <- blen_app, drop_app_length'; [done|]. unfold blen. by rewrite Nat2Z.id.
Qed.

(** Without a NUL, after a file of 2048 bytes or more, the search leaves the array. *)
Lemma path0_unterminated buf : Forall (fun b => b <> 0) buf -> path0_of buf = None.
Proof. intros Hb. unfold path0_of. by rewrite cstr_id, Z.leb_refl. Qed.

(** Every byte of a name is a character. *)
Lemma ansi_name n l t : Forall (fun b => 0 < b < 256) l ->
  utf8_to_ucs2 n (l ++ 0 :: t) = Some (BE16 <$> take n l).
Proof.
  intros Hl. revert n. induction Hl as [|b l Hb _ IH]; intros n; [by destruct n|].
  destruct n as [|n]; cbn [app utf8_to_ucs2 get_ucs2_from_utf8]; (destruct (Z.eqb_spec b 0); [lia|]); [done|].
  destruct (Z.ltb_spec b 0); [lia|]. rewrite IH. cbn. do 2 f_equal.
  change 0xFFFF with (Z.ones 16). rewrite Z.land_ones, Z.mod_small by lia. done.
Qed.

(** An ASCII name is the same on both systems; the byte 0x80 and those above are
    characters here, and the start of longer ones there. *)
Theorem ascii_names_agree n l t : Forall (fun b => 0 < b < 0x80) l ->
  utf8_to_ucs2 n (l ++ 0 :: t) = VIsoNames.utf8_to_ucs2 n (l ++ 0 :: t).
Proof.
  intros Hl. revert n. induction Hl as [|b l Hb _ IH]; intros n; [by destruct n|].
  destruct n as [|n]; cbn [app utf8_to_ucs2 VIsoNames.utf8_to_ucs2 get_ucs2_from_utf8]; [done|].
  destruct (Z.eqb_spec b 0); [lia|]. rewrite get_1 by lia. destruct (Z.ltb_spec b 0); [lia|]. by rewrite IH.
Qed.

(** The handle of a thread is closed once its end was waited for. *)
Lemma join_closes {W} `{WinThreads W} thread (w : W) ret w' : join_thread thread w = (ret, w') ->
  exists r w1, WaitForSingleObject thread w = (r, w1) /\
    if r =? 0xFFFFFFFF then ret = -1 /\ w' = w1 else ret = SUCCEEDED /\ w' = CloseThread thread w1.
Proof.
  unfold join_thread. destruct (WaitForSingleObject thread w) as [r w1]. intros E. exists r, w1. split; [done|].
  destruct (Z.eqb_spec r 0xFFFFFFFF) as [->|_]; by injection E as <- <-.
Qed.
End WinServer.
